(** * Ghost: a shallow embedding of the capture-to-execution pipeline

    The development follows the repository's components:

    - [Approve]   the approve-ghost edge function (governance store),
    - [Ingest]    the ingest-events edge function and its rate limiter,
    - [Executor]  the ghost-executor edge function (planner, executor,
                  self-healing),
    - [Encoder]   the on-device intent encoder,
    - [Tic]       the pattern-detector edge function (temporal intent
                  clustering),
    - [Hmac]      SHA-256 and HMAC as the Web Crypto API computes them,
    - [Scrubber]  the PII scrubber and the regular expressions it runs,
    - [Pipeline]  the privacy pipeline and the differential privacy unit.

    JavaScript values are modelled as follows.  Integers that the code keeps
    integral are [Z]; numbers that go through floating-point arithmetic on the
    server side are binary64 [float]s (the kernel's IEEE 754 floats, evaluated
    exactly as the runtime does); the on-device vector arithmetic is stated
    over the real numbers.  A [Map] whose iteration order matters is an
    association list, one that is only looked up is a [gmap].  Calls that
    leave the program (the LLM provider, [fetch], [JSON.parse], the clock,
    the time zone, [Math.random], the environment) are parameters of the
    functions that use them.

    The texts the scrubber reads are lists of UTF-16 code units
    ([Scrubber.text]).  Every other string (identifiers, tag names, DOM
    paths, labels, messages) is a [string] that stands for the JavaScript
    string with the same code units: each character is one code unit below
    256, so that [N_of_ascii] is [charCodeAt]; strings with other code
    units are outside the development.  A number that need not be finite
    is a [Pipeline.number]; a call that may throw returns what it throws.
    A table of the database refuses a row where its declaration does (the
    width of a column, a CHECK, a UNIQUE); a query or write whose error the
    handler reads may fail as a whole, which the request says; a handler
    that does not read the result of a write goes on as the code does. *)

From Stdlib Require Import ZArith List Bool Lia String Ascii DecimalString DecimalZ Sorted Permutation.
From Stdlib Require Import Floats.
From Stdlib Require Import Reals Lra.
From stdpp Require Import gmap strings list.

Set Warnings "-inexact-float,-register-all".
#[local] Open Scope string_scope.
#[local] Open Scope list_scope.

(** ** JSON values

    Plans, parameters and triggers are stored and exchanged as JSON.  A
    property that is absent reads as [None] (JavaScript's [undefined]). *)

Inductive json : Type :=
| JNull
| JBool (b : bool)
| JNum (n : Z)
| JStr (s : string)
| JArr (items : list json)
| JObj (fields : list (string * json)).

(** [o.k] on a JSON value: the first binding of [k] in an object,
    [undefined] on every other non-null value. *)
Fixpoint assoc_get (k : string) (fields : list (string * json)) : option json :=
  match fields with
  | [] => None
  | (k', v) :: rest => if String.eqb k k' then Some v else assoc_get k rest
  end.

Definition get_field (k : string) (v : json) : option json :=
  match v with
  | JObj fields => assoc_get k fields
  | _ => None
  end.

(** JavaScript truthiness of a value that may be [undefined]. *)
Definition truthy (v : option json) : bool :=
  match v with
  | None | Some JNull => false
  | Some (JBool b) => b
  | Some (JNum n) => negb (n =? 0)%Z
  | Some (JStr s) => negb (String.eqb s "")
  | Some (JArr _) | Some (JObj _) => true
  end.

(** ** approve-ghost (002_governance.sql, second part) *)

Module Approve.

Record ghost := {
  g_id : string;
  g_name : string;
  g_status : string;
  g_is_active : bool;
  g_version : Z;
  g_execution_plan : json;
  g_parameters : json;
  g_trigger : json;
  g_updated_at : string
}.

Record version_row := {
  v_ghost_id : string;
  v_version : Z;
  v_execution_plan : json;
  v_parameters : json;
  v_trigger : json;
  v_change_description : string;
  v_created_by : string
}.

Record approval_request := {
  a_ghost_id : string;
  a_status : string;
  a_approved_by : option string;
  a_decision_note : option string;
  a_resolved_at : option string
}.

Record store := {
  ghosts : gmap string ghost;
  ghost_versions : list version_row;
  approval_requests : list approval_request
}.

Record body := {
  ghost_id : option string;
  action : option string;
  decision_note : option string;
  approved_by : option string
}.

Record request := {
  method : string;
  (** [None]: the body is not JSON, [req.json()] throws *)
  payload : option body;
  (** whether the store carries out the update of [ghosts] (the one write
      whose error the handler reads) when the table accepts the row *)
  update_ok : bool
}.

Inductive reply :=
| Preflight
| Failure (status : Z) (error : string)
| Success (id action new_status : string) (version : Z).

(** A string option as a condition: [undefined] and the empty string are
    falsy. *)
Definition present (o : option string) : option string :=
  match o with
  | Some s => if String.eqb s "" then None else Some s
  | None => None
  end.

Definition or_default (o : option string) (d : string) : string :=
  match present o with Some s => s | None => d end.

Definition valid_actions : list string :=
  ["approve"; "reject"; "pause"; "activate"; "archive"].

Definition includes (l : list string) (s : string) : bool :=
  existsb (String.eqb s) l.

Definition statusMap (action : string) : string :=
  if String.eqb action "approve" then "approved"
  else if String.eqb action "reject" then "archived"
  else if String.eqb action "pause" then "paused"
  else if String.eqb action "activate" then "active"
  else "archived".

(** [UNIQUE(ghost_id, version)]: an insert that repeats a pair is refused
    by the table; the handler does not look at the insert's result. *)
Definition version_taken (id : string) (v : Z) (rows : list version_row) : bool :=
  existsb (fun r => String.eqb (v_ghost_id r) id && (v_version r =? v)%Z) rows.

Definition insert_version (r : version_row) (rows : list version_row)
  : list version_row :=
  if version_taken (v_ghost_id r) (v_version r) rows then rows else rows ++ [r].

Definition resolve_request (id action : string) (by_ : string)
    (note : option string) (now : string) (a : approval_request)
  : approval_request :=
  if String.eqb (a_ghost_id a) id && String.eqb (a_status a) "pending" then
    {| a_ghost_id := a_ghost_id a;
       a_status := if String.eqb action "approve" then "approved" else "rejected";
       a_approved_by := Some by_;
       a_decision_note := note;
       a_resolved_at := Some now |}
  else a.

(** [version INTEGER NOT NULL]: the column holds 32-bit integers. *)
Definition in_integer (v : Z) : bool :=
  (-2147483648 <=? v)%Z && (v <=? 2147483647)%Z.

(** The update of [ghosts] succeeds: the store carries it out and the new
    version fits the column (the statuses of [statusMap] all pass the
    column's check). *)
Definition update_accepted (req : request) (newVersion : Z) : bool :=
  update_ok req && in_integer newVersion.

(** The handler.  [now] is the clock's reading ([new Date().toISOString()]).
    The handler reads the error of the update of [ghosts] ([updateErr]) and
    of no other write.  The closing insert into [execution_logs] names
    columns that table does not have and leaves [execution_id] null, so it
    stores nothing. *)
Definition serve (now : string) (req : request) (db : store) : reply * store :=
  if String.eqb (method req) "OPTIONS" then (Preflight, db)
  else
    match payload req with
    | None => (Failure 500 "Internal error", db)
    | Some b =>
      match present (ghost_id b), present (action b) with
      | Some id, Some act =>
        if negb (includes valid_actions act) then
          (Failure 400 "Invalid action. Must be: approve, reject, pause, activate, archive", db)
        else
          match ghosts db !! id with
          | None => (Failure 404 "Ghost not found", db)
          | Some ghost =>
            let newStatus := statusMap act in
            let isActive := String.eqb act "approve" || String.eqb act "activate" in
            let newVersion :=
              if String.eqb act "approve" then (g_version ghost + 1)%Z
              else g_version ghost in
            let updated :=
              {| g_id := g_id ghost;
                 g_name := g_name ghost;
                 g_status := newStatus;
                 g_is_active := isActive;
                 g_version := newVersion;
                 g_execution_plan := g_execution_plan ghost;
                 g_parameters := g_parameters ghost;
                 g_trigger := g_trigger ghost;
                 g_updated_at := now |} in
            if negb (update_accepted req newVersion)
            then (Failure 500 "Failed to update ghost", db)
            else
            let versions :=
              if String.eqb act "approve" then
                insert_version
                  {| v_ghost_id := g_id ghost;
                     v_version := (g_version ghost + 1)%Z;
                     v_execution_plan := g_execution_plan ghost;
                     v_parameters := g_parameters ghost;
                     v_trigger := g_trigger ghost;
                     v_change_description := or_default (decision_note b) "Approved";
                     v_created_by := or_default (approved_by b) "system" |}
                  (ghost_versions db)
              else ghost_versions db in
            let requests :=
              map (resolve_request id act (or_default (approved_by b) "system")
                     (decision_note b) now)
                  (approval_requests db) in
            (Success id act newStatus newVersion,
             {| ghosts := <[id := updated]> (ghosts db);
                ghost_versions := versions;
                approval_requests := requests |})
          end
      | _, _ => (Failure 400 "ghost_id and action are required", db)
      end
    end.

(** A sequence of requests served one after the other. *)
Fixpoint serve_all (now : string) (reqs : list request) (db : store) : store :=
  match reqs with
  | [] => db
  | r :: rest => serve_all now rest (snd (serve now r db))
  end.

Definition approve_request (id : string) : request :=
  {| method := "POST";
     payload := Some {| ghost_id := Some id; action := Some "approve";
                        decision_note := None; approved_by := None |};
     update_ok := true |}.

(** Rows of [ghost_versions] that belong to ghost [id]. *)
Definition versions_of (id : string) (db : store) : list version_row :=
  filter (fun r => v_ghost_id r = id) (ghost_versions db).

(** The version rows of a ghost never run ahead of the ghost's version,
    and a ghost is stored under its own id. *)
Definition consistent (db : store) : Prop :=
  (forall id g, ghosts db !! id = Some g -> g_id g = id) /\
  (forall r g, In r (ghost_versions db) ->
               ghosts db !! v_ghost_id r = Some g ->
               (v_version r <= g_version g)%Z).

End Approve.

(** ** ingest-events (rate-limited ingestion) *)

Module Ingest.

Definition MAX_BATCH_SIZE : nat := 100.
Definition RATE_LIMIT_PER_MINUTE : Z := 1000.

(** A secure event as the handler sees it: it reads [orgId] and copies the
    other fields into the row. *)
Record secure_event := {
  orgId : string;
  fields : json
}.

Record batch := {
  (** [None]: [events] is missing or is not an array *)
  events : option (list secure_event);
  deviceFingerprint : option string;
  batchId : string
}.

Record request := {
  method : string;
  x_ghost_device : option string;
  (** [None]: the body is not JSON *)
  payload : option batch;
  (** [Date.now()] when the request is served, in milliseconds *)
  arrival : Z;
  (** whether the insert into [secure_events] succeeds *)
  insert_ok : bool
}.

Record rate_entry := { count : Z; resetAt : Z }.

Record row := {
  r_event : secure_event;
  r_device_fingerprint : string;
  r_batch_id : string;
  r_ingested_at : Z
}.

Record state := {
  rateLimits : gmap string rate_entry;
  secure_events : list row;
  (** the pattern-detector calls fired so far: (orgId, batchId) *)
  triggered : list (string * string)
}.

Record reply := {
  status : Z;
  code : option string;
  retry_after : option string;
  accepted : option nat
}.

Definition error_reply (st : Z) (c : string) : reply :=
  {| status := st; code := Some c; retry_after := None; accepted := None |}.

(** Check + update rate limit for a device. *)
Definition checkRateLimit (now : Z) (deviceId : string)
    (limits : gmap string rate_entry) : bool * gmap string rate_entry :=
  match limits !! deviceId with
  | Some entry =>
    if (resetAt entry <=? now)%Z then
      (true, <[deviceId := {| count := 1; resetAt := now + 60000 |}]> limits)
    else if (RATE_LIMIT_PER_MINUTE <=? count entry)%Z then (false, limits)
    else (true, <[deviceId := {| count := count entry + 1;
                                 resetAt := resetAt entry |}]> limits)
  | None =>
    (true, <[deviceId := {| count := 1; resetAt := now + 60000 |}]> limits)
  end.

Definition nonempty (o : option string) : option string :=
  match o with
  | Some s => if String.eqb s "" then None else Some s
  | None => None
  end.

(** [[...new Set(xs)]]: first occurrences, in order. *)
Fixpoint distinct (xs : list string) : list string :=
  match xs with
  | [] => []
  | x :: rest => x :: filter (fun y => negb (String.eqb x y)) (distinct rest)
  end.

Definition serve (req : request) (s : state) : reply * state :=
  if String.eqb (method req) "OPTIONS" then
    ({| status := 200; code := None; retry_after := None; accepted := None |}, s)
  else if negb (String.eqb (method req) "POST") then
    (error_reply 405 "METHOD_NOT_ALLOWED", s)
  else
    match payload req with
    | None => (error_reply 500 "INTERNAL_ERROR", s)
    | Some b =>
      match events b with
      | None => (error_reply 400 "INVALID_BATCH", s)
      | Some evs =>
        if (MAX_BATCH_SIZE <? length evs)%nat then
          (error_reply 400 "BATCH_TOO_LARGE", s)
        else
          let deviceId :=
            match nonempty (x_ghost_device req) with
            | Some d => d
            | None =>
              match nonempty (deviceFingerprint b) with
              | Some d => d
              | None => "unknown"
              end
            end in
          let '(allowed, limits) := checkRateLimit (arrival req) deviceId (rateLimits s) in
          if negb allowed then
            ({| status := 429; code := Some "RATE_LIMIT_EXCEEDED";
                retry_after := Some "60"; accepted := None |},
             {| rateLimits := limits; secure_events := secure_events s;
                triggered := triggered s |})
          else if negb (insert_ok req) then
            (error_reply 500 "INSERT_FAILED",
             {| rateLimits := limits; secure_events := secure_events s;
                triggered := triggered s |})
          else
            let rows :=
              map (fun e => {| r_event := e; r_device_fingerprint := deviceId;
                               r_batch_id := batchId b;
                               r_ingested_at := arrival req |}) evs in
            let orgIds := distinct (map orgId evs) in
            ({| status := 202; code := None; retry_after := None;
                accepted := Some (length evs) |},
             {| rateLimits := limits;
                secure_events := secure_events s ++ rows;
                triggered := triggered s ++ map (fun o => (o, batchId b)) orgIds |})
      end
    end.

(** Requests served one after the other; the replies in order, and the
    state they leave. *)
Fixpoint serve_all (reqs : list request) (s : state) : list reply * state :=
  match reqs with
  | [] => ([], s)
  | r :: rest =>
    let '(rep, s1) := serve r s in
    let '(reps, s2) := serve_all rest s1 in
    (rep :: reps, s2)
  end.

Definition initial : state :=
  {| rateLimits := ∅; secure_events := []; triggered := [] |}.

(** Events accepted (stored with a 202) by a list of replies. *)
Definition accepted_events (reps : list reply) : nat :=
  fold_right (fun r n =>
    match accepted r with
    | Some k => if (status r =? 202)%Z then (k + n)%nat else n
    | None => n
    end) 0%nat reps.

End Ingest.

(** ** ghost-executor (planner, executor, self-healing) *)

Module Executor.

(** A call either returns or throws. *)
Inductive outcome (A : Type) : Type :=
| Ok (a : A)
| Throw (message : string).
Arguments Ok {A} a.
Arguments Throw {A} message.

Inductive step_status := pending | running | completed | failed | skipped.

Inductive final_status := execution_completed | execution_failed.

(** A step record; [durationMs] (two clock readings) is left out. *)
Record StepResult := {
  nodeId : option json;
  status : step_status;
  strategy : string;
  output : option json;
  error : option string
}.

(** What the engine asks of the LLM: a plan for a ghost, or a repair for a
    failed node.  The prompt's text is a function of these. *)
Inductive llm_request :=
| PlanRequest (ghost parameters : json)
| HealRequest (failedNode : json) (failure : option string) (ghost : json).

Record llm_response := { content : option string }.

Record fetch_request := {
  fr_endpoint : option json;
  fr_method : json;
  fr_headers : option json;
  fr_body : option json
}.

Record fetch_response := {
  fs_status : Z;
  fs_headers : json;
  fs_text : string
}.

(** [content.match(/<open>[\s\S]*<close>/)]: from the first [open] to the
    last [close] after it. *)
Fixpoint from_first (c : ascii) (s : string) : option string :=
  match s with
  | EmptyString => None
  | String a rest => if Ascii.eqb a c then Some rest else from_first c rest
  end.

Fixpoint through_last (c : ascii) (s : string) : option string :=
  match s with
  | EmptyString => None
  | String a rest =>
    match through_last c rest with
    | Some p => Some (String a p)
    | None => if Ascii.eqb a c then Some (String a EmptyString) else None
    end
  end.

Definition match_delimited (opening closing : ascii) (s : string) : option string :=
  match from_first opening s with
  | Some rest =>
    match through_last closing rest with
    | Some p => Some (String opening p)
    | None => None
    end
  | None => None
  end.

(** [v.k] where [v] may be [null] or [undefined]: a TypeError then. *)
Definition prop (k : string) (v : option json) : outcome (option json) :=
  match v with
  | None | Some JNull => Throw "TypeError: cannot read properties of null or undefined"
  | Some o => Ok (get_field k o)
  end.

Definition is_tool (name : string) (tool : option json) : bool :=
  match tool with
  | Some (JStr s) => String.eqb s name
  | _ => false
  end.

Definition binding (k : string) (v : option json) : list (string * json) :=
  match v with
  | Some x => [(k, x)]
  | None => []
  end.

(** [s.startsWith(p)] *)
Fixpoint starts_with (p s : string) : bool :=
  match p with
  | EmptyString => true
  | String a p' =>
    match s with
    | EmptyString => false
    | String b s' => Ascii.eqb a b && starts_with p' s'
    end
  end.

(** The default single-step plan. *)
Definition default_plan : json :=
  JArr [JObj [("id", JStr "step_1"); ("type", JStr "action");
              ("action",
               JObj [("tool", JStr "human_escalation");
                     ("params",
                      JObj [("reason",
                             JStr "Could not generate execution plan automatically")])])]].

(** [getDefaultProvider] (llm/factory.ts) on the value of the environment
    variable LLM_PROVIDER ([None] when it is not set): the name of the
    provider whose adapter it builds, or the error it throws.  An empty
    value is falsy and gives the default. *)
Definition getDefaultProvider (LLM_PROVIDER : option string) : outcome string :=
  let provider :=
    match LLM_PROVIDER with
    | Some name => if String.eqb name "" then "openai" else name
    | None => "openai"
    end in
  if String.eqb provider "openai" then Ok "openai"
  else if String.eqb provider "llama" then Ok "llama"
  else if String.eqb provider "anthropic"
  then Throw "Anthropic adapter not yet implemented. Use openai or llama."
  else Throw ("Unknown LLM provider: " ++ provider).

Section Engine.

(** The world outside the function.  The [n]-th external call of a request
    is answered by the oracle at [n]; [None] is a call that throws. *)
Variable llm_complete : nat -> llm_request -> option llm_response.
Variable fetch : nat -> fetch_request -> option fetch_response.
(** [JSON.parse]; [None] is a SyntaxError. *)
Variable json_parse : string -> option json.
(** [String(v)], as a template literal applies it. *)
Variable to_string : option json -> string.
(** [Deno.env.get('LLM_PROVIDER')] *)
Variable LLM_PROVIDER : option string.

(** Computations that count external calls and may throw. *)
Definition M (A : Type) : Type := nat -> outcome A * nat.

Definition ret {A} (a : A) : M A := fun t => (Ok a, t).

Definition bind {A B} (m : M A) (k : A -> M B) : M B :=
  fun t =>
    match m t with
    | (Ok a, t') => k a t'
    | (Throw e, t') => (Throw e, t')
    end.

Definition lift {A} (o : outcome A) : M A := fun t => (o, t).

Definition try_catch {A} (m : M A) (handler : string -> M A) : M A :=
  fun t =>
    match m t with
    | (Ok a, t') => (Ok a, t')
    | (Throw e, t') => handler e t'
    end.

Definition call_llm (req : llm_request) : M llm_response :=
  fun t =>
    match llm_complete t req with
    | Some r => (Ok r, S t)
    | None => (Throw "LLM request failed", S t)
    end.

Definition call_fetch (req : fetch_request) : M fetch_response :=
  fun t =>
    match fetch t req with
    | Some r => (Ok r, S t)
    | None => (Throw "fetch failed", S t)
    end.

Notation "x <- m ;; k" := (bind m (fun x => k))
  (at level 100, m at next level, right associativity).

(** Execute an API call directly. *)
Definition executeApiCall (params : option json) : M json :=
  endpoint <- lift (prop "endpoint" params) ;;
  method <- lift (prop "method" params) ;;
  body <- lift (prop "body" params) ;;
  headers <- lift (prop "headers" params) ;;
  response <- call_fetch
    {| fr_endpoint := endpoint;
       fr_method := match method with
                    | Some m => if truthy method then m else JStr "GET"
                    | None => JStr "GET"
                    end;
       fr_headers := if truthy headers then headers else None;
       fr_body := if truthy body then body else None |} ;;
  let parsed :=
    match json_parse (fs_text response) with
    | Some v => v
    | None => JStr (fs_text response)
    end in
  ret (JObj [("status", JNum (fs_status response));
             ("headers", fs_headers response);
             ("body", parsed)]).

(** Execute a single node with strategy selection. *)
Definition executeNode (node : json) : M StepResult :=
  try_catch
    (action <- lift (prop "action" (Some node)) ;;
     if negb (truthy action) then
       id <- lift (prop "id" (Some node)) ;;
       ret {| nodeId := id; status := skipped; strategy := "none";
              output := None; error := None |}
     else
       tool <- lift (prop "tool" action) ;;
       params <- lift (prop "params" action) ;;
       result_strategy <-
         (if is_tool "api_call" tool then
            result <- executeApiCall params ;;
            ret (result, "api")
          else if is_tool "navigate_to" tool || is_tool "click_element" tool
                  || is_tool "input_text" tool || is_tool "extract_data" tool then
            selector <- lift (prop "selector_strategy" params) ;;
            ret (JObj (binding "action" tool ++ binding "params" params ++
                       [("note", JStr "Queued for client-side browser execution")]),
                 if truthy selector then
                   match selector with Some (JStr s) => s | _ => to_string selector end
                 else "semantic")
          else if is_tool "human_escalation" tool then
            reason <- lift (prop "reason" params) ;;
            context <- lift (prop "context" params) ;;
            ret (JObj ([("escalated", JBool true)] ++ binding "reason" reason
                       ++ binding "context" context),
                 "human")
          else
            ret (JObj [("error", JStr ("Unknown tool: " ++ to_string tool))],
                 "unknown")) ;;
       id <- lift (prop "id" (Some node)) ;;
       ret {| nodeId := id; status := completed; strategy := snd result_strategy;
              output := Some (fst result_strategy); error := None |})
    (fun message =>
       id <- lift (prop "id" (Some node)) ;;
       ret {| nodeId := id; status := failed; strategy := "direct";
              output := None; error := Some message |}).

(** Create an execution plan using LLM with function calling. *)
Definition createExecutionPlan (ghost parameters : json) : M json :=
  match get_field "execution_plan" ghost with
  | Some (JArr nodes) => ret (JArr nodes)
  | _ =>
    response <- call_llm (PlanRequest ghost parameters) ;;
    match content response with
    | Some text =>
      match match_delimited "[" "]" text with
      | Some m =>
        match json_parse m with
        | Some plan => ret plan
        | None => ret default_plan
        end
      | None => ret default_plan
      end
    | None => ret default_plan
    end
  end.

(** Attempt self-healing when a step fails: [None] is the source's [null]. *)
Definition attemptSelfHealing (failedNode : json) (failedResult : StepResult)
    (ghost : json) : M (option StepResult) :=
  try_catch
    (response <- call_llm (HealRequest failedNode (error failedResult) ghost) ;;
     match content response with
     | None => ret None
     | Some text =>
       if String.eqb text "" then ret None
       else
         match match_delimited "{" "}" text with
         | None => ret None
         | Some m =>
           match json_parse m with
           | None => ret None
           | Some alternative =>
             tool <- lift (prop "tool" (Some alternative)) ;;
             params <- lift (prop "params" (Some alternative)) ;;
             failedId <- lift (prop "id" (Some failedNode)) ;;
             let altNode :=
               JObj ([("id", JStr (to_string failedId ++ "_healed"));
                      ("type", JStr "action");
                      ("action",
                       JObj (binding "tool" tool ++
                             [("params",
                               match params with
                               | Some p => if truthy params then p else JObj []
                               | None => JObj []
                               end)]))]) in
             altResult <- executeNode altNode ;;
             ret (Some {| nodeId := nodeId altResult;
                          status := status altResult;
                          strategy := "self_healed:" ++ strategy altResult;
                          output := output altResult;
                          error := error altResult |})
           end
         end
     end)
    (fun _ => ret None).

(** The plan loop: the steps recorded from here on, and the overall status.
    A step that failed and was not healed ends the loop. *)
Fixpoint run_plan (ghost : json) (plan : list json)
  : M (final_status * list StepResult) :=
  match plan with
  | [] => ret (execution_completed, [])
  | node :: rest =>
    stepResult <- executeNode node ;;
    match status stepResult with
    | failed =>
      healResult <- attemptSelfHealing node stepResult ghost ;;
      match healResult with
      | Some healed =>
        r <- run_plan ghost rest ;;
        ret (fst r, stepResult :: healed :: snd r)
      | None => ret (execution_failed, [stepResult])
      end
    | _ =>
      r <- run_plan ghost rest ;;
      ret (fst r, stepResult :: snd r)
    end
  end.

(** [for (const node of plan)]: the values a plan iterates over. *)
Definition iterate (plan : json) : outcome (list json) :=
  match plan with
  | JArr nodes => Ok nodes
  | JStr s => Ok (map (fun c => JStr (String c EmptyString)) (list_ascii_of_string s))
  | _ => Throw "TypeError: plan is not iterable"
  end.

Record execution_row := {
  e_ghost_id : json;
  e_status : string;
  e_step_count : nat
}.

Record log_row := {
  l_execution_id : string;
  l_ghost_id : json;
  l_org_id : option json;
  l_status : final_status;
  l_steps : nat;
  l_strategies_used : list string
}.

Record store := {
  ghosts : gmap string json;
  executions : gmap string execution_row;
  execution_logs : list log_row
}.

Record request := {
  method : string;
  (** [None]: the body is not JSON *)
  payload : option json
}.

Inductive reply :=
| Preflight
| Failure (http_status : Z) (code : string)
| Finished (executionId : string) (ghostId : json) (overall : final_status)
           (steps : list StepResult).

Definition status_name (s : final_status) : string :=
  match s with
  | execution_completed => "completed"
  | execution_failed => "failed"
  end.

(** [[...new Set(xs)]] *)
Fixpoint distinct (xs : list string) : list string :=
  match xs with
  | [] => []
  | x :: rest => x :: filter (fun y => negb (String.eqb x y)) (distinct rest)
  end.

Definition is_status (name : string) (ghost : json) : bool :=
  match get_field "status" ghost with
  | Some (JStr s) => String.eqb s name
  | _ => false
  end.

(** The handler.  [executionId] is the UUID drawn for this request.  The
    rows of [execution_steps] (one per original step) are not kept in the
    model's store; the reply and the audit row carry the recorded steps.
    The provider is asked for inside the handler's [try], after the
    executions row is written. *)
Definition serve (executionId : string) (req : request) (db : store)
  : reply * store :=
  if String.eqb (method req) "OPTIONS" then (Preflight, db)
  else
    match payload req with
    | None => (Failure 500 "EXECUTION_ERROR", db)
    | Some body =>
      match prop "ghostId" (Some body) with
      | Throw _ => (Failure 500 "EXECUTION_ERROR", db)
      | Ok ghostId =>
        if negb (truthy ghostId) then (Failure 400 "MISSING_GHOST", db)
        else
          match ghostId with
          | Some (JStr key) =>
            match ghosts db !! key with
            | None => (Failure 404 "GHOST_NOT_FOUND", db)
            | Some ghost =>
              if negb (is_status "approved" ghost) && negb (is_status "active" ghost)
              then (Failure 403 "GHOST_NOT_APPROVED", db)
              else
                let parameters :=
                  match get_field "parameters" body with
                  | Some p => if truthy (Some p) then p else JObj []
                  | None => JObj []
                  end in
                let started :=
                  {| ghosts := ghosts db;
                     executions :=
                       <[executionId := {| e_ghost_id := JStr key;
                                           e_status := "running";
                                           e_step_count := 0 |}]> (executions db);
                     execution_logs := execution_logs db |} in
                let run :=
                  plan <- createExecutionPlan ghost parameters ;;
                  nodes <- lift (iterate plan) ;;
                  run_plan ghost nodes in
                match getDefaultProvider LLM_PROVIDER with
                | Throw _ => (Failure 500 "EXECUTION_ERROR", started)
                | Ok _ =>
                match fst (run 0%nat) with
                | Throw _ => (Failure 500 "EXECUTION_ERROR", started)
                | Ok (overallStatus, steps) =>
                  (Finished executionId (JStr key) overallStatus steps,
                   {| ghosts := ghosts db;
                      executions :=
                        <[executionId := {| e_ghost_id := JStr key;
                                            e_status := status_name overallStatus;
                                            e_step_count := length steps |}]>
                          (executions db);
                      execution_logs :=
                        execution_logs db ++
                        [{| l_execution_id := executionId;
                            l_ghost_id := JStr key;
                            l_org_id := get_field "org_id" ghost;
                            l_status := overallStatus;
                            l_steps := length steps;
                            l_strategies_used := distinct (map strategy steps) |}] |})
                end
                end
            end
          | _ => (Failure 404 "GHOST_NOT_FOUND", db)
          end
      end
    end.

End Engine.

(** A recorded list of steps in which every failed step is followed by a
    substitute that did not fail. *)
Definition ok_status (s : step_status) : bool :=
  match s with
  | completed | skipped => true
  | _ => false
  end.

Definition is_substitute (r : StepResult) : bool :=
  starts_with "self_healed:" (strategy r).

Fixpoint healed_throughout (steps : list StepResult) : bool :=
  match steps with
  | [] => true
  | r :: rest =>
    match status r with
    | failed =>
      match rest with
      | h :: rest' =>
        is_substitute h && ok_status (status h) && healed_throughout rest'
      | [] => false
      end
    | _ => ok_status (status r) && healed_throughout rest
    end
  end.

End Executor.

(** ** SHA-256 and HMAC, as [crypto.subtle] computes them (FIPS 180-4,
    RFC 2104).  Bytes are integers in [0, 256); a 32-bit word is an integer
    reduced modulo 2^32 after every addition. *)

Module Hmac.

#[local] Open Scope Z_scope.

Definition w32 (x : Z) : Z := x mod 4294967296.

Definition rotr (n x : Z) : Z :=
  Z.lor (Z.shiftr x n) (w32 (Z.shiftl x (32 - n))).

Definition Ch (x y z : Z) : Z :=
  Z.lxor (Z.land x y) (Z.land (Z.lxor x 4294967295) z).
Definition Maj (x y z : Z) : Z :=
  Z.lxor (Z.lxor (Z.land x y) (Z.land x z)) (Z.land y z).
Definition Sigma0 (x : Z) : Z := Z.lxor (Z.lxor (rotr 2 x) (rotr 13 x)) (rotr 22 x).
Definition Sigma1 (x : Z) : Z := Z.lxor (Z.lxor (rotr 6 x) (rotr 11 x)) (rotr 25 x).
Definition sigma0 (x : Z) : Z := Z.lxor (Z.lxor (rotr 7 x) (rotr 18 x)) (Z.shiftr x 3).
Definition sigma1 (x : Z) : Z := Z.lxor (Z.lxor (rotr 17 x) (rotr 19 x)) (Z.shiftr x 10).

(** The round constants: the first 32 bits of the fractional parts of the
    cube roots of the first 64 primes. *)
Definition is_prime (n : nat) : bool :=
  forallb (fun d => negb (n mod d =? 0)%nat) (seq 2 (n - 2)).

Definition first_primes : list nat := List.filter is_prime (seq 2 310).

(** The integer cube root of [n] below [2^36], by bisection. *)
Fixpoint cube_root_between (fuel : nat) (lo hi n : Z) : Z :=
  match fuel with
  | O => lo
  | S fuel' =>
    let mid := (lo + hi) / 2 in
    if mid * mid * mid <=? n then cube_root_between fuel' mid hi n
    else cube_root_between fuel' lo mid n
  end.

Definition cube_root_fraction (p : nat) : Z :=
  cube_root_between 40 0 (2 ^ 36) (Z.of_nat p * 2 ^ 96) mod 2 ^ 32.

Definition K : list Z := Eval vm_compute in map cube_root_fraction first_primes.

Record hash_state := {
  ha : Z; hb : Z; hc : Z; hd : Z; he : Z; hf : Z; hg : Z; hh : Z
}.

Definition H0 : hash_state :=
  {| ha := 0x6a09e667; hb := 0xbb67ae85; hc := 0x3c6ef372; hd := 0xa54ff53a;
     he := 0x510e527f; hf := 0x9b05688c; hg := 0x1f83d9ab; hh := 0x5be0cd19 |}.

(** Big-endian bytes of a word, and back. *)
Definition word_bytes (w : Z) : list Z :=
  [Z.shiftr w 24 mod 256; Z.shiftr w 16 mod 256; Z.shiftr w 8 mod 256; w mod 256].

Fixpoint words_of (n : nat) (bytes : list Z) : list Z :=
  match n with
  | O => []
  | S n' =>
    match bytes with
    | b0 :: b1 :: b2 :: b3 :: rest =>
      (b0 * 16777216 + b1 * 65536 + b2 * 256 + b3) :: words_of n' rest
    | _ => []
    end
  end.

(** The message schedule: [w] holds the sixteen words before position [t]. *)
Fixpoint schedule (n : nat) (w : list Z) : list Z :=
  match n with
  | O => []
  | S n' =>
    let next := w32 (sigma1 (nth 14 w 0) + nth 9 w 0 + sigma0 (nth 1 w 0) + nth 0 w 0) in
    next :: schedule n' (tl w ++ [next])
  end.

Definition round (s : hash_state) (kw : Z * Z) : hash_state :=
  let T1 := w32 (hh s + Sigma1 (he s) + Ch (he s) (hf s) (hg s) + fst kw + snd kw) in
  let T2 := w32 (Sigma0 (ha s) + Maj (ha s) (hb s) (hc s)) in
  {| ha := w32 (T1 + T2); hb := ha s; hc := hb s; hd := hc s;
     he := w32 (hd s + T1); hf := he s; hg := hf s; hh := hg s |}.

Definition compress (s : hash_state) (block : list Z) : hash_state :=
  let w16 := words_of 16 block in
  let w := w16 ++ schedule 48 w16 in
  let s' := fold_left round (combine K w) s in
  {| ha := w32 (ha s + ha s'); hb := w32 (hb s + hb s');
     hc := w32 (hc s + hc s'); hd := w32 (hd s + hd s');
     he := w32 (he s + he s'); hf := w32 (hf s + hf s');
     hg := w32 (hg s + hg s'); hh := w32 (hh s + hh s') |}.

(** Padding: 0x80, zeros up to 56 modulo 64, the bit length on 8 bytes. *)
Definition pad (msg : list Z) : list Z :=
  let len := Z.of_nat (length msg) in
  let zeros := Z.to_nat ((55 - len) mod 64) in
  msg ++ [128] ++ repeat 0 zeros ++
  word_bytes (Z.shiftr (8 * len) 32) ++ word_bytes (w32 (8 * len)).

Fixpoint blocks (n : nat) (bytes : list Z) : list (list Z) :=
  match n with
  | O => []
  | S n' =>
    match bytes with
    | [] => []
    | _ => firstn 64 bytes :: blocks n' (skipn 64 bytes)
    end
  end.

Definition digest (s : hash_state) : list Z :=
  word_bytes (ha s) ++ word_bytes (hb s) ++ word_bytes (hc s) ++ word_bytes (hd s) ++
  word_bytes (he s) ++ word_bytes (hf s) ++ word_bytes (hg s) ++ word_bytes (hh s).

Definition sha256 (msg : list Z) : list Z :=
  let padded := pad msg in
  digest (fold_left compress (blocks (length padded) padded) H0).

Definition hmac_sha256 (key msg : list Z) : list Z :=
  let k := if 64 <? Z.of_nat (length key) then sha256 key else key in
  let k64 := k ++ repeat 0 (64 - length k)%nat in
  sha256 (map (Z.lxor 0x5c) k64 ++ sha256 (map (Z.lxor 0x36) k64 ++ msg)).

(** [TextEncoder.encode]: the UTF-8 bytes of a string.  A string of this
    development is a JavaScript string whose code units are all below 256,
    one [ascii] per code unit; a code unit from 128 on takes two bytes. *)
Definition utf8 (c : Z) : list Z :=
  if c <? 128 then [c] else [192 + c / 64; 128 + c mod 64].

Definition encode (s : string) : list Z :=
  flat_map (fun c => utf8 (Z.of_N (N_of_ascii c))) (list_ascii_of_string s).

Definition hex_digit (d : Z) : ascii :=
  nth (Z.to_nat (d mod 16)) (list_ascii_of_string "0123456789abcdef") "0"%char.

(** [bytes.map(b => b.toString(16).padStart(2, '0')).join('')] *)
Fixpoint hex (bytes : list Z) : string :=
  match bytes with
  | [] => EmptyString
  | b :: rest => String (hex_digit (b / 16)) (String (hex_digit b) (hex rest))
  end.

Definition is_lower_hex (c : ascii) : bool :=
  existsb (Ascii.eqb c) (list_ascii_of_string "0123456789abcdef").

(** A number that holds an integer, as a template literal prints it (below
    10^21 in absolute value, where JavaScript still prints every digit). *)
Definition decimal (z : Z) : string :=
  DecimalString.NilEmpty.string_of_int (Z.to_int z).

(** [DifferentialPrivacy.generateSessionFingerprint] (pipeline.ts).
    [sessionStart] is a clock reading in milliseconds. *)
Definition session_message (deviceId userId : string) (sessionStart : Z) : string :=
  deviceId ++ ":" ++ userId ++ ":" ++ decimal (sessionStart / 900000).

(** [None]: [crypto.subtle.importKey] rejects (DataError) the key of an
    empty [deviceId], an HMAC key of length zero. *)
Definition generateSessionFingerprint (deviceId userId : string) (sessionStart : Z)
  : option string :=
  if String.eqb deviceId "" then None
  else
    Some (hex (hmac_sha256 (encode deviceId)
                 (encode (session_message deviceId userId sessionStart)))).

End Hmac.

(** ** PII scrubber (pii-scrubber.ts) *)

Module Scrubber.

(** A text is a JavaScript string: a sequence of UTF-16 code units. *)
Definition text : Type := list N.

Definition lit (s : string) : text := map N_of_ascii (list_ascii_of_string s).

(** *** The regular expressions the scrubber runs

    Backtracking matching as the runtime performs it: alternatives in
    order, greedy quantifiers, [\b] between a word and a non-word
    character. *)

Inductive regex : Type :=
| Eps
| Chr (p : N -> bool)
| Seq (a b : regex)
| Alt (a b : regex)
| Star (a : regex)
| WordBoundary.

Definition in_range (lo hi : N) (c : N) : bool := (lo <=? c)%N && (c <=? hi)%N.
Definition one_of (s : string) (c : N) : bool := existsb (N.eqb c) (lit s).

Definition digit : N -> bool := in_range 48 57.
Definition upper : N -> bool := in_range 65 90.
Definition lower : N -> bool := in_range 97 122.
Definition alpha (c : N) : bool := upper c || lower c.
Definition alnum (c : N) : bool := alpha c || digit c.
(** [\w] *)
Definition word_char (c : N) : bool := alnum c || (c =? 95)%N.
(** [\s]: white space and line terminators *)
Definition space (c : N) : bool :=
  in_range 9 13 c || (c =? 32)%N || (c =? 160)%N || (c =? 5760)%N ||
  in_range 8192 8202 c || (c =? 8232)%N || (c =? 8233)%N || (c =? 8239)%N ||
  (c =? 8287)%N || (c =? 12288)%N || (c =? 65279)%N.
(** [[-.\s]] *)
Definition separator (c : N) : bool := one_of "-." c || space c.

Definition chr (s : string) : regex := Chr (one_of s).
(** A character of the pattern under the [i] flag: the code units whose
    canonical form (the upper-case mapping, which takes no code unit from
    128 on to one below 128) is that of the pattern's character.  For a
    letter of the pattern, in either case, these are its two cases. *)
Definition chr_i (a : ascii) : regex :=
  Chr (fun c => (c =? N_of_ascii a)%N ||
                (lower (N_of_ascii a) && (c =? N_of_ascii a - 32)%N) ||
                (upper (N_of_ascii a) && (c =? N_of_ascii a + 32)%N)).
Fixpoint word_i (s : string) : regex :=
  match s with
  | EmptyString => Eps
  | String a EmptyString => chr_i a
  | String a rest => Seq (chr_i a) (word_i rest)
  end.
Fixpoint seq (rs : list regex) : regex :=
  match rs with
  | [] => Eps
  | [r] => r
  | r :: rest => Seq r (seq rest)
  end.
Fixpoint alt (rs : list regex) : regex :=
  match rs with
  | [] => Eps
  | [r] => r
  | r :: rest => Alt r (alt rest)
  end.
Definition opt (r : regex) : regex := Alt r Eps.
Definition plus (r : regex) : regex := Seq r (Star r).
Fixpoint times (n : nat) (r : regex) : regex :=
  match n with
  | O => Eps
  | 1%nat => r
  | S n' => Seq r (times n' r)
  end.
Definition d : regex := Chr digit.

(** [/[a-zA-Z0-9._%+-]+@[a-zA-Z0-9.-]+\.[a-zA-Z]{2,}/g] *)
Definition EMAIL : regex :=
  seq [plus (Chr (fun c => alnum c || one_of "._%+-" c)); chr "@";
       plus (Chr (fun c => alnum c || one_of ".-" c)); chr ".";
       Chr alpha; Chr alpha; Star (Chr alpha)].

(** [/(?:\+?1[-.\s]?)?(?:\(?\d{3}\)?[-.\s]?)?\d{3}[-.\s]?\d{4}/g] *)
Definition PHONE : regex :=
  seq [opt (seq [opt (chr "+"); chr "1"; opt (Chr separator)]);
       opt (seq [opt (chr "("); times 3 d; opt (chr ")"); opt (Chr separator)]);
       times 3 d; opt (Chr separator); times 4 d].

(** [/\b\d{3}[-.\s]?\d{2}[-.\s]?\d{4}\b/g] *)
Definition SSN : regex :=
  seq [WordBoundary; times 3 d; opt (Chr separator); times 2 d;
       opt (Chr separator); times 4 d; WordBoundary].

(** [/\b(?:4\d{3}|5[1-5]\d{2}|3[47]\d{2}|6(?:011|5\d{2}))[-.\s]?\d{4}[-.\s]?\d{4}[-.\s]?\d{4}\b/g] *)
Definition CREDIT_CARD : regex :=
  seq [WordBoundary;
       alt [seq [chr "4"; times 3 d];
            seq [chr "5"; Chr (in_range 49 53); times 2 d];
            seq [chr "3"; chr "47"; times 2 d];
            seq [chr "6"; alt [seq [chr "0"; chr "1"; chr "1"];
                               seq [chr "5"; times 2 d]]]];
       opt (Chr separator); times 4 d; opt (Chr separator); times 4 d;
       opt (Chr separator); times 4 d; WordBoundary].

(** [(?:25[0-5]|2[0-4]\d|[01]?\d\d?)] *)
Definition octet : regex :=
  alt [seq [chr "2"; chr "5"; Chr (in_range 48 53)];
       seq [chr "2"; Chr (in_range 48 52); d];
       seq [opt (chr "01"); d; opt d]].

(** [/\b(?:(?:25[0-5]|2[0-4]\d|[01]?\d\d?)\.){3}(?:25[0-5]|2[0-4]\d|[01]?\d\d?)\b/g] *)
Definition IP_ADDRESS : regex :=
  seq [WordBoundary; times 3 (Seq octet (chr ".")); octet; WordBoundary].

(** [/(?:Bearer\s+[A-Za-z0-9\-._~+/]+=*|(?:api[_-]?key|token|secret|password|auth)[=:]\s*[^\s&QA]+)/gi]
    where Q and A stand for the double quote (34) and the apostrophe (39). *)
Definition AUTH_TOKEN : regex :=
  alt [seq [word_i "Bearer"; plus (Chr space);
            plus (Chr (fun c => alnum c || one_of "-._~+/" c));
            Star (chr "=")];
       seq [alt [seq [word_i "api"; opt (chr "_-"); word_i "key"];
                 word_i "token"; word_i "secret"; word_i "password"; word_i "auth"];
            chr "=:"; Star (Chr space);
            plus (Chr (fun c => negb (space c || one_of "&" c ||
                                      (c =? 34)%N || (c =? 39)%N)))]].

(** [/\b(?:0[1-9]|1[0-2])[/\-.](?:0[1-9]|[12]\d|3[01])[/\-.](?:19|20)\d{2}\b/g] *)
Definition DOB : regex :=
  seq [WordBoundary;
       alt [seq [chr "0"; Chr (in_range 49 57)]; seq [chr "1"; chr "012"]];
       chr "/-.";
       alt [seq [chr "0"; Chr (in_range 49 57)]; seq [chr "12"; d];
            seq [chr "3"; chr "01"]];
       chr "/-.";
       alt [seq [chr "1"; chr "9"]; seq [chr "2"; chr "0"]];
       times 2 d; WordBoundary].

Definition patterns : list (string * regex) :=
  [("EMAIL", EMAIL); ("PHONE", PHONE); ("SSN", SSN);
   ("CREDIT_CARD", CREDIT_CARD); ("IP_ADDRESS", IP_ADDRESS);
   ("AUTH_TOKEN", AUTH_TOKEN); ("DOB", DOB)].

Definition is_word (c : option N) : bool :=
  match c with
  | Some x => word_char x
  | None => false
  end.

(** A greedy star: iterate [step] while it consumes input, at most [fuel]
    times (an iteration that matches the empty text is refused, as the
    runtime does), then go on with [k]. *)
Definition star_loop
    (step : option N -> text -> nat ->
            (option N -> text -> nat -> option nat) -> option nat)
    (k : option N -> text -> nat -> option nat)
  : nat -> option N -> text -> nat -> option nat :=
  fix loop (fuel : nat) (prev : option N) (rest : text) (pos : nat) : option nat :=
    match fuel with
    | O => k prev rest pos
    | S fuel' =>
      match step prev rest pos
              (fun prev' rest' pos' =>
                 if (pos <? pos')%nat then loop fuel' prev' rest' pos' else None) with
      | Some e => Some e
      | None => k prev rest pos
      end
    end.

(** The matcher.  The input from position [pos] on is [rest], the code unit
    before it is [prev]; [k] continues with what follows the expression and
    yields the end of the whole match. *)
Fixpoint run (r : regex) (prev : option N) (rest : text) (pos : nat)
    (k : option N -> text -> nat -> option nat) {struct r} : option nat :=
  match r with
  | Eps => k prev rest pos
  | Chr p =>
    match rest with
    | c :: rest' => if p c then k (Some c) rest' (S pos) else None
    | [] => None
    end
  | Seq a b => run a prev rest pos (fun prev' rest' pos' => run b prev' rest' pos' k)
  | Alt a b =>
    match run a prev rest pos k with
    | Some e => Some e
    | None => run b prev rest pos k
    end
  | Star a => star_loop (run a) k (length rest) prev rest pos
  | WordBoundary =>
    if Bool.eqb (is_word prev) (is_word (head rest)) then None else k prev rest pos
  end.

(** The leftmost match at or after [pos]: (start, end). *)
Fixpoint search (r : regex) (prev : option N) (rest : text) (pos : nat)
  : option (nat * nat) :=
  match run r prev rest pos (fun _ _ e => Some e) with
  | Some e => Some (pos, e)
  | None =>
    match rest with
    | [] => None
    | c :: rest' => search r (Some c) rest' (S pos)
    end
  end.

(** [regex.exec(text)] with [regex.lastIndex = lastIndex]. *)
Definition exec (r : regex) (t : text) (lastIndex : nat) : option (nat * nat) :=
  search r (match lastIndex with O => None | S i => nth_error t i end)
         (skipn lastIndex t) lastIndex.

(** [while ((match = regex.exec(text)) !== null)]: every exec resumes at the
    end of the match before it.  [None]: the loop is still running when the
    fuel is spent. *)
Fixpoint exec_all (fuel : nat) (r : regex) (t : text) (lastIndex : nat)
  : option (list (nat * nat)) :=
  match fuel with
  | O => None
  | S fuel' =>
    match exec r t lastIndex with
    | None => Some []
    | Some (s, e) =>
      match exec_all fuel' r t e with
      | Some rest => Some ((s, e) :: rest)
      | None => None
      end
    end
  end.

(** Detected PII entity *)
Record PiiEntity := {
  type : string;
  value : text;
  start : nat;
  end_ : nat
}.

Definition slice (t : text) (s e : nat) : text := firstn (e - s) (skipn s t).

Definition entities_of (ty : string) (t : text) (spans : list (nat * nat))
  : list PiiEntity :=
  map (fun se => {| type := ty; value := slice t (fst se) (snd se);
                    start := fst se; end_ := snd se |}) spans.

(** [Array.prototype.sort] with a comparator: stable. *)
Fixpoint insert_by {A} (cmp : A -> A -> Z) (x : A) (l : list A) : list A :=
  match l with
  | [] => [x]
  | y :: rest => if (cmp x y <=? 0)%Z then x :: y :: rest else y :: insert_by cmp x rest
  end.

Definition sort_by {A} (cmp : A -> A -> Z) (l : list A) : list A :=
  fold_right (insert_by cmp) [] l.

(** [(a, b) => a.start - b.start || b.end - a.end] *)
Definition by_start_then_longest (a b : PiiEntity) : Z :=
  let ds := (Z.of_nat (start a) - Z.of_nat (start b))%Z in
  if (ds =? 0)%Z then (Z.of_nat (end_ b) - Z.of_nat (end_ a))%Z else ds.

(** [(a, b) => b.start - a.start] *)
Definition by_start_descending (a b : PiiEntity) : Z :=
  (Z.of_nat (start b) - Z.of_nat (start a))%Z.

(** One turn of the loop of [removeOverlaps].  The accumulator is [result]
    with its last element first. *)
Definition keep_or_replace (result : list PiiEntity) (e : PiiEntity)
  : list PiiEntity :=
  match result with
  | prev :: before =>
    if (end_ prev <=? start e)%nat then e :: result
    else if (end_ prev - start prev <? end_ e - start e)%nat then e :: before
    else result
  | [] => [e]
  end.

Definition removeOverlaps (entities : list PiiEntity) : list PiiEntity :=
  match entities with
  | [] | [_] => entities
  | _ =>
    match sort_by by_start_then_longest entities with
    | first :: others => rev (fold_left keep_or_replace others [first])
    | [] => []
    end
  end.

(** All matches of all patterns, pattern by pattern. *)
Fixpoint detect_raw (ps : list (string * regex)) (t : text)
  : option (list PiiEntity) :=
  match ps with
  | [] => Some []
  | (ty, r) :: rest =>
    match exec_all (S (length t)) r t 0 with
    | None => None
    | Some spans =>
      match detect_raw rest t with
      | None => None
      | Some more => Some (entities_of ty t spans ++ more)
      end
    end
  end.

(** Detect PII entities in text. *)
Definition detect (t : text) : option (list PiiEntity) :=
  match detect_raw patterns t with
  | Some entities => Some (removeOverlaps entities)
  | None => None
  end.

(** Check if text contains any PII. *)
Definition containsPii (t : text) : option bool :=
  match detect t with
  | Some entities => Some (negb (length entities =? 0)%nat)
  | None => None
  end.

Section Replacement.

(** [String.prototype.toLowerCase] *)
Variable toLowerCase : text -> text.

(** Consistent replacement counters per type within a session. *)
Definition counters : Type := gmap string (gmap text nat).

(** [value.toLowerCase().replace(/[\s\-.]/g, '')] *)
Definition normalize (v : text) : text :=
  filter (fun c => separator c = false) (toLowerCase v).

Definition token (ty : string) (n : nat) : text :=
  lit ("[" ++ ty ++ "_" ++ Hmac.decimal (Z.of_nat n) ++ "]").

(** Get consistent replacement token for a PII value. *)
Definition getReplacement (ty : string) (v : text) (cs : counters)
  : text * counters :=
  let typeMap := default ∅ (cs !! ty) in
  let normalizedValue := normalize v in
  match typeMap !! normalizedValue with
  | Some n => (token ty n, <[ty := typeMap]> cs)
  | None =>
    let n := S (size typeMap) in
    (token ty n, <[ty := <[normalizedValue := n]> typeMap]> cs)
  end.

(** The replacement loop of [scrub], over entities sorted from the end of
    the text to its start. *)
Fixpoint replace_all (entities : list PiiEntity) (result : text) (cs : counters)
  : text * counters :=
  match entities with
  | [] => (result, cs)
  | entity :: rest =>
    let '(replacement, cs') := getReplacement (type entity) (value entity) cs in
    replace_all rest
      (firstn (start entity) result ++ replacement ++ skipn (end_ entity) result)
      cs'
  end.

(** Scrub all PII from text, returning sanitized version. *)
Definition scrub (t : text) (cs : counters) : option (text * counters) :=
  match t with
  | [] => Some (t, cs)
  | _ =>
    match detect t with
    | None => None
    | Some [] => Some (t, cs)
    | Some entities => Some (replace_all (sort_by by_start_descending entities) t cs)
    end
  end.

End Replacement.

(** Whether an expression can match the empty text. *)
Fixpoint nullable (r : regex) : bool :=
  match r with
  | Eps | Star _ | WordBoundary => true
  | Chr _ => false
  | Seq a b => nullable a && nullable b
  | Alt a b => nullable a || nullable b
  end.

(** The text that a scrub must produce: what lies between the spans is
    kept, each span gives way to its replacement. *)
Fixpoint spliced (t : text) (from : nat) (parts : list (PiiEntity * text)) : text :=
  match parts with
  | [] => skipn from t
  | (e, replacement) :: rest =>
    slice t from (start e) ++ replacement ++ spliced t (end_ e) rest
  end.

(** Where a continuation is entered, relative to where the expression
    started: the match is a piece of the input, not empty when the
    expression is not nullable. *)
Definition advances (strict : bool) (rest : text) (pos : nat)
    (k : option N -> text -> nat -> option nat) (e : nat) : Prop :=
  exists prev' rest' pos',
    k prev' rest' pos' = Some e /\
    pos' + length rest' = pos + length rest /\
    pos <= pos' /\ (strict = true -> pos < pos').

Definition span_ok (t : text) (from : nat) (se : nat * nat) : Prop :=
  from <= fst se /\ fst se < snd se /\ snd se <= length t.

(** An entity whose span lies in the text and is not empty, with the text
    of the span as its value. *)
Definition entity_ok (t : text) (e : PiiEntity) : Prop :=
  start e < end_ e /\ end_ e <= length t /\ value e = slice t (start e) (end_ e).

(** Spans in text order, each ending before the next one starts. *)
Definition disjoint_ascending (entities : list PiiEntity) : Prop :=
  StronglySorted (fun a b => end_ a <= start b) entities.

Definition le_start (a b : PiiEntity) : Prop := start a <= start b.

(** The text spliced up to position [p], followed by [done]. *)
Fixpoint spliced_upto (t : text) (from : nat) (parts : list (PiiEntity * text))
    (p : nat) (done : text) : text :=
  match parts with
  | [] => slice t from p ++ done
  | (e, replacement) :: rest =>
    slice t from (start e) ++ replacement ++ spliced_upto t (end_ e) rest p done
  end.

(** The tokens of a list of entities, drawn in the order given. *)
Fixpoint replacements (toLowerCase : text -> text) (entities : list PiiEntity)
    (cs : counters) : list text * counters :=
  match entities with
  | [] => ([], cs)
  | e :: rest =>
    let '(r, cs1) := getReplacement toLowerCase (type e) (value e) cs in
    let '(rs, cs2) := replacements toLowerCase rest cs1 in
    (r :: rs, cs2)
  end.

End Scrubber.

(** ** Intent encoder (intent-encoder.ts)

    The arithmetic of the vector is over the real numbers; the linear
    congruential generator, whose products exceed 2^53, rounds as binary64
    does. *)

Module Encoder.

#[local] Open Scope R_scope.

Inductive EventType := dom_mut | user_int | network | error.

Inductive UserAction :=
  click | input | scroll | navigate | focus | select | copy | paste.

(** Canonical intent classes *)
Inductive IntentClass :=
| data_entry | navigation | communication | research | approval
| file_operation | authentication | configuration | data_extraction
| workflow_transition | error_handling | unknown.

(** The fields of an element fingerprint that the pipeline reads. *)
Record ElementFingerprint := {
  aria_role : option string;
  textPreview : Scrubber.text;
  (** (relativeX, relativeY) *)
  position : option (R * R);
  domPath : list string;
  tagName : string;
  inputType : option string;
  formId : option string
}.

Record MutationSummary := {
  m_target : ElementFingerprint;
  addedNodes : Z;
  removedNodes : Z;
  oldValue : option Scrubber.text;
  newValue : option Scrubber.text
}.

Record Payload := {
  action : option UserAction;
  target : option ElementFingerprint;
  value : option Scrubber.text;
  mutations : option (list MutationSummary);
  url : option Scrubber.text;
  method : option string;
  statusCode : option Z;
  message : option Scrubber.text
}.

Record RawEvent := {
  timestamp : Z;
  sessionId : string;
  eventType : EventType;
  payload : Payload;
  context_url : string
}.

(** [s || ''] *)
Definition or_empty (o : option string) : string :=
  match o with Some s => s | None => "" end.

Definition eq_str (s : string) (lit : string) : bool := String.eqb s lit.

(** [String.prototype.toUpperCase] on ASCII text. *)
Definition upper_char (c : ascii) : ascii :=
  let n := N_of_ascii c in
  if (97 <=? n)%N && (n <=? 122)%N then ascii_of_N (n - 32) else c.

Fixpoint toUpperCase (s : string) : string :=
  match s with
  | EmptyString => EmptyString
  | String c rest => String (upper_char c) (toUpperCase rest)
  end.

(** [url.includes(part)] *)
Fixpoint begins (part t : Scrubber.text) : bool :=
  match part with
  | [] => true
  | c :: part' =>
    match t with
    | [] => false
    | x :: t' => (c =? x)%N && begins part' t'
    end
  end.

Fixpoint includes_from (part t : Scrubber.text) : bool :=
  begins part t ||
  match t with
  | [] => false
  | _ :: t' => includes_from part t'
  end.

Definition includes (t : Scrubber.text) (part : string) : bool :=
  includes_from (Scrubber.lit part) t.

Definition classifyUserInteraction (event : RawEvent) : IntentClass * R :=
  let action := action (payload event) in
  let target := target (payload event) in
  let tagName := match target with Some t => tagName t | None => "" end in
  let role := match target with Some t => or_empty (aria_role t) | None => "" end in
  let inputType := match target with Some t => or_empty (inputType t) | None => "" end in
  match action with
  | Some input | Some paste =>
    if eq_str inputType "password" || eq_str inputType "email"
    then (authentication, 0.85)
    else (data_entry, 0.9)
  | Some navigate => (navigation, 0.95)
  | Some click =>
    if eq_str tagName "a" then (navigation, 0.85)
    else if eq_str tagName "button" || eq_str role "button" || eq_str inputType "submit" then
      match target with
      | Some t =>
        match formId t with
        | Some f => if eq_str f "" then (workflow_transition, 0.7) else (data_entry, 0.8)
        | None => (workflow_transition, 0.7)
        end
      | None => (workflow_transition, 0.7)
      end
    else if eq_str inputType "checkbox" || eq_str inputType "radio" then (configuration, 0.75)
    else (unknown, 0.2)
  | Some select => (data_entry, 0.85)
  | Some copy => (data_extraction, 0.8)
  | Some scroll => (research, 0.5)
  | Some focus => (navigation, 0.4)
  | None => (unknown, 0.2)
  end.

Definition is_form_mutation (m : MutationSummary) : bool :=
  eq_str (tagName (m_target m)) "input" || eq_str (tagName (m_target m)) "textarea" ||
  eq_str (tagName (m_target m)) "select" ||
  match formId (m_target m) with Some _ => true | None => false end.

Definition classifyDomMutation (event : RawEvent) : IntentClass * R :=
  match mutations (payload event) with
  | None | Some [] => (unknown, 0.1)
  | Some ms =>
    let totalNodes :=
      fold_left (fun sum m => (sum + addedNodes m + removedNodes m)%Z) ms 0%Z in
    if (20 <? totalNodes)%Z then (navigation, 0.6)
    else if (0 <? length (filter (fun m => is_form_mutation m = true) ms))%nat
    then (data_entry, 0.5)
    else (workflow_transition, 0.4)
  end.

Definition classifyNetworkEvent (event : RawEvent) : IntentClass * R :=
  let method :=
    match method (payload event) with
    | Some m => if eq_str (toUpperCase m) "" then "GET" else toUpperCase m
    | None => "GET"
    end in
  let url := match url (payload event) with Some u => u | None => [] end in
  let status := match statusCode (payload event) with Some s => s | None => 0%Z end in
  if eq_str method "POST" || eq_str method "PUT" || eq_str method "PATCH" then
    if includes url "auth" || includes url "login" || includes url "token"
    then (authentication, 0.85)
    else if includes url "message" || includes url "email" || includes url "send"
    then (communication, 0.75)
    else (data_entry, 0.7)
  else if eq_str method "DELETE" then (workflow_transition, 0.7)
  else if includes url "search" || includes url "query" then (research, 0.7)
  else if includes url "export" || includes url "download" then (data_extraction, 0.75)
  else if (400 <=? status)%Z then (error_handling, 0.6)
  else (navigation, 0.4).

(** Classify the intent of a RawEvent. *)
Definition classify (event : RawEvent) : IntentClass * R :=
  match eventType event with
  | user_int => classifyUserInteraction event
  | dom_mut => classifyDomMutation event
  | network => classifyNetworkEvent event
  | error => (error_handling, 0.9)
  end.

(** Mapping of intent class to a stable seed for vector generation *)
Definition INTENT_SEEDS (label : IntentClass) : Z :=
  match label with
  | data_entry => 0x1a2b3c4d
  | navigation => 0x2b3c4d5e
  | communication => 0x3c4d5e6f
  | research => 0x4d5e6f70
  | approval => 0x5e6f7081
  | file_operation => 0x6f708192
  | authentication => 0x708192a3
  | configuration => 0x8192a3b4
  | data_extraction => 0x92a3b4c5
  | workflow_transition => 0xa3b4c5d6
  | error_handling => 0xb4c5d6e7
  | unknown => 0xc5d6e7f8
  end.

(** An integer as binary64 holds it: rounded to 53 significant bits, ties to
    even. *)
Definition round53 (z : Z) : Z :=
  let a := Z.abs z in
  if (a <? 2 ^ 53)%Z then z
  else
    let sh := (Z.log2 a - 52)%Z in
    let q := Z.shiftr a sh in
    let r := (a - Z.shiftl q sh)%Z in
    let half := Z.shiftl 1 (sh - 1) in
    let q' := if (half <? r)%Z || ((r =? half)%Z && Z.odd q) then (q + 1)%Z else q in
    (Z.sgn z * Z.shiftl q' sh)%Z.

(** [(rng * 1103515245 + 12345) & 0x7fffffff] *)
Definition lcg_next (rng : Z) : Z :=
  Z.land (round53 (round53 (rng * 1103515245) + 12345)) 0x7fffffff.

(** [((rng / 0x7fffffff) * 2 - 1) * 0.5] *)
Definition coordinate (rng : Z) : R := ((IZR rng / 2147483647) * 2 - 1) * 0.5.

Fixpoint base_vector (n : nat) (rng : Z) : list R :=
  match n with
  | O => []
  | S n' => coordinate (lcg_next rng) :: base_vector n' (lcg_next rng)
  end.

(** [hash = (hash * 31 + str.charCodeAt(i)) & 0xffffffff], a signed 32-bit
    integer after each step; the characters of the string are its code
    units. *)
Definition to_int32 (z : Z) : Z := ((z + 2 ^ 31) mod 2 ^ 32 - 2 ^ 31)%Z.

Definition hashToFloat (s : string) : R :=
  let hash :=
    fold_left (fun h c => to_int32 (h * 31 + Z.of_N (N_of_ascii c)))
              (list_ascii_of_string s) 0%Z in
  IZR (Z.land hash 0x7fffffff) / 2147483647.

Definition index_of {A} (eqb : A -> A -> bool) (x : A) (l : list A) : option nat :=
  (fix go (l : list A) (i : nat) : option nat :=
     match l with
     | [] => None
     | y :: rest => if eqb x y then Some i else go rest (S i)
     end) l O.

Definition action_index (a : UserAction) : nat :=
  match a with
  | click => 0 | input => 1 | scroll => 2 | navigate => 3
  | focus => 4 | select => 5 | copy => 6 | paste => 7
  end.

(** Extract numerical features from event for vector modulation. *)
Definition extractFeatures (event : RawEvent) : list R :=
  let p := payload event in
  [ match action p with
    | Some a => INR (action_index a) / 8
    | None => 0
    end;
    hashToFloat (match target p with Some t => tagName t | None => "" end);
    Rmin (INR (length (match target p with Some t => domPath t | None => [] end)) / 20) 1;
    match target p with
    | Some t => match position t with Some xy => fst xy | None => 0 end
    | None => 0
    end;
    match target p with
    | Some t => match position t with Some xy => snd xy | None => 0 end
    | None => 0
    end;
    match method p with
    | Some m =>
      match index_of String.eqb (toUpperCase m) ["GET"; "POST"; "PUT"; "PATCH"; "DELETE"] with
      | Some i => INR i / 5
      | None => 0
      end
    | None => 0
    end;
    IZR (match statusCode p with Some s => s | None => 0%Z end) / 600 ]
  ++ repeat 0 121.

(** [Math.round]: the nearest integer, halves upwards. *)
Definition js_round (x : R) : R := IZR (up (x + / 2) - 1).

Definition sum_squares (v : list R) : R :=
  fold_right (fun x acc => x * x + acc) 0 v.

Definition norm (v : list R) : R := sqrt (sum_squares v).

Fixpoint mix (vector features : list R) : list R :=
  match vector, features with
  | v :: vs, f :: fs => (v * 0.7 + f * 0.3) :: mix vs fs
  | vs, [] => vs
  | [], _ => []
  end.

(** Quantize to 4 decimals. *)
Definition quantize (x : R) : R := js_round (x * 10000) / 10000.

(** Generate a 128-dimensional intent vector. *)
Definition generateVector (label : IntentClass) (event : RawEvent) : list R :=
  let vector := mix (base_vector 128 (INTENT_SEEDS label)) (extractFeatures event) in
  if Rlt_dec 0 (norm vector)
  then map (fun v => js_round (v / norm vector * 10000) / 10000) vector
  else vector.

(** Intent classification result *)
Record IntentResult := {
  label : IntentClass;
  confidence : R;
  vector : list R
}.

Definition encode (event : RawEvent) : IntentResult :=
  let lc := classify event in
  {| label := fst lc; confidence := snd lc;
     vector := generateVector (fst lc) event |}.

(** *** The decision table of the specification, row by row *)

Record row := {
  applies : RawEvent -> bool;
  row_label : IntentClass;
  row_confidence : R
}.

Definition first_match (rows : list row) (e : RawEvent) : option (IntentClass * R) :=
  match find (fun r => applies r e) rows with
  | Some r => Some (row_label r, row_confidence r)
  | None => None
  end.

Definition event_is (ty : EventType) (e : RawEvent) : bool :=
  match eventType e, ty with
  | dom_mut, dom_mut | user_int, user_int | network, network | error, error => true
  | _, _ => false
  end.

Definition action_is (a : UserAction) (e : RawEvent) : bool :=
  match action (payload e) with
  | Some b => (action_index a =? action_index b)%nat
  | None => false
  end.

Definition on_input_type (ty : string) (e : RawEvent) : bool :=
  match target (payload e) with
  | Some t => match inputType t with Some s => eq_str s ty | None => false end
  | None => false
  end.

Definition on_tag (tag : string) (e : RawEvent) : bool :=
  match target (payload e) with
  | Some t => eq_str (tagName t) tag
  | None => false
  end.

Definition on_role (role : string) (e : RawEvent) : bool :=
  match target (payload e) with
  | Some t => match aria_role t with Some s => eq_str s role | None => false end
  | None => false
  end.

Definition inside_form (e : RawEvent) : bool :=
  match target (payload e) with
  | Some t => match formId t with Some f => negb (eq_str f "") | None => false end
  | None => false
  end.

Definition total_nodes (e : RawEvent) : Z :=
  match mutations (payload e) with
  | Some ms => fold_left (fun sum m => (sum + addedNodes m + removedNodes m)%Z) ms 0%Z
  | None => 0%Z
  end.

Definition some_form_mutation (e : RawEvent) : bool :=
  match mutations (payload e) with
  | Some ms => existsb is_form_mutation ms
  | None => false
  end.

Definition method_is (m : string) (e : RawEvent) : bool :=
  match method (payload e) with
  | Some s => eq_str s m
  | None => false
  end.

Definition url_matches (parts : list string) (e : RawEvent) : bool :=
  match url (payload e) with
  | Some u => existsb (includes u) parts
  | None => false
  end.

Definition writes (e : RawEvent) : bool :=
  method_is "POST" e || method_is "PUT" e || method_is "PATCH" e.

Definition status_at_least (n : Z) (e : RawEvent) : bool :=
  match statusCode (payload e) with
  | Some s => (n <=? s)%Z
  | None => false
  end.

Definition on_button (e : RawEvent) : bool := on_tag "button" e || on_role "button" e.

Definition Row (c : RawEvent -> bool) (l : IntentClass) (p : R) : row :=
  {| applies := c; row_label := l; row_confidence := p |}.

(** The table of section 4.C, in its order. *)
Definition spec_rows : list row :=
  [ Row (fun e => event_is user_int e && action_is input e &&
                  (on_input_type "password" e || on_input_type "email" e))
        authentication 0.85;
    Row (fun e => event_is user_int e && (action_is input e || action_is paste e))
        data_entry 0.9;
    Row (fun e => event_is user_int e && action_is navigate e) navigation 0.95;
    Row (fun e => event_is user_int e && action_is click e && on_tag "a" e)
        navigation 0.85;
    Row (fun e => event_is user_int e && action_is click e && on_button e &&
                  inside_form e)
        data_entry 0.8;
    Row (fun e => event_is user_int e && action_is click e && on_button e &&
                  negb (inside_form e))
        workflow_transition 0.7;
    Row (fun e => event_is user_int e && action_is click e &&
                  (on_input_type "checkbox" e || on_input_type "radio" e))
        configuration 0.75;
    Row (fun e => event_is user_int e && action_is select e) data_entry 0.85;
    Row (fun e => event_is user_int e && action_is copy e) data_extraction 0.8;
    Row (fun e => event_is user_int e && action_is scroll e) research 0.5;
    Row (fun e => event_is user_int e && action_is focus e) navigation 0.4;
    Row (fun e => event_is dom_mut e && (20 <? total_nodes e)%Z) navigation 0.6;
    Row (fun e => event_is dom_mut e && some_form_mutation e) data_entry 0.5;
    Row (fun e => event_is network e && writes e &&
                  url_matches ["auth"; "login"; "token"] e)
        authentication 0.85;
    Row (fun e => event_is network e && writes e &&
                  url_matches ["message"; "email"; "send"] e)
        communication 0.75;
    Row (fun e => event_is network e && writes e) data_entry 0.7;
    Row (fun e => event_is network e && method_is "DELETE" e) workflow_transition 0.7;
    Row (fun e => event_is network e && method_is "GET" e &&
                  url_matches ["search"; "query"] e)
        research 0.7;
    Row (fun e => event_is network e && method_is "GET" e &&
                  url_matches ["export"; "download"] e)
        data_extraction 0.75;
    Row (fun e => event_is network e && status_at_least 400 e) error_handling 0.6;
    Row (fun e => event_is error e) error_handling 0.9 ].

(** A result agrees with a table: it is the first matching row, or, when no
    row matches, the label unknown with a confidence between 0.10 and 0.20. *)
Definition agrees (rows : list row) (e : RawEvent) (result : IntentClass * R) : Prop :=
  match first_match rows e with
  | Some r => result = r
  | None => fst result = unknown /\ 0.1 <= snd result <= 0.2
  end.

(** The table as the code has it.  The method is read upper-cased, GET when
    absent; the password/email row holds for paste as for input; a submit
    input counts as a button; every method other than POST, PUT, PATCH and
    DELETE is treated as GET; a DOM mutation and a network event that match
    no other row have rows of their own. *)
Definition method_of (e : RawEvent) : string :=
  match method (payload e) with
  | Some m => if eq_str (toUpperCase m) "" then "GET" else toUpperCase m
  | None => "GET"
  end.

Definition writes' (e : RawEvent) : bool :=
  eq_str (method_of e) "POST" || eq_str (method_of e) "PUT" || eq_str (method_of e) "PATCH".

Definition reads' (e : RawEvent) : bool :=
  negb (writes' e) && negb (eq_str (method_of e) "DELETE").

Definition on_button' (e : RawEvent) : bool :=
  on_tag "button" e || on_role "button" e || on_input_type "submit" e.

Definition has_mutations (e : RawEvent) : bool :=
  match mutations (payload e) with
  | Some (_ :: _) => true
  | _ => false
  end.

Definition code_rows : list row :=
  [ Row (fun e => event_is user_int e && (action_is input e || action_is paste e) &&
                  (on_input_type "password" e || on_input_type "email" e))
        authentication 0.85;
    Row (fun e => event_is user_int e && (action_is input e || action_is paste e))
        data_entry 0.9;
    Row (fun e => event_is user_int e && action_is navigate e) navigation 0.95;
    Row (fun e => event_is user_int e && action_is click e && on_tag "a" e)
        navigation 0.85;
    Row (fun e => event_is user_int e && action_is click e && on_button' e &&
                  inside_form e)
        data_entry 0.8;
    Row (fun e => event_is user_int e && action_is click e && on_button' e &&
                  negb (inside_form e))
        workflow_transition 0.7;
    Row (fun e => event_is user_int e && action_is click e &&
                  (on_input_type "checkbox" e || on_input_type "radio" e))
        configuration 0.75;
    Row (fun e => event_is user_int e && action_is select e) data_entry 0.85;
    Row (fun e => event_is user_int e && action_is copy e) data_extraction 0.8;
    Row (fun e => event_is user_int e && action_is scroll e) research 0.5;
    Row (fun e => event_is user_int e && action_is focus e) navigation 0.4;
    Row (fun e => event_is dom_mut e && (20 <? total_nodes e)%Z) navigation 0.6;
    Row (fun e => event_is dom_mut e && some_form_mutation e) data_entry 0.5;
    Row (fun e => event_is dom_mut e && has_mutations e) workflow_transition 0.4;
    Row (fun e => event_is network e && writes' e &&
                  url_matches ["auth"; "login"; "token"] e)
        authentication 0.85;
    Row (fun e => event_is network e && writes' e &&
                  url_matches ["message"; "email"; "send"] e)
        communication 0.75;
    Row (fun e => event_is network e && writes' e) data_entry 0.7;
    Row (fun e => event_is network e && eq_str (method_of e) "DELETE")
        workflow_transition 0.7;
    Row (fun e => event_is network e && reads' e && url_matches ["search"; "query"] e)
        research 0.7;
    Row (fun e => event_is network e && reads' e &&
                  url_matches ["export"; "download"] e)
        data_extraction 0.75;
    Row (fun e => event_is network e && status_at_least 400 e) error_handling 0.6;
    Row (fun e => event_is network e) navigation 0.4;
    Row (fun e => event_is error e) error_handling 0.9 ].

End Encoder.

(** ** Privacy pipeline and differential privacy unit (pipeline.ts) *)

Module Pipeline.

#[local] Open Scope R_scope.

(** [fnv1a]: the product [hash * 0x01000193] of two numbers below 2^32
    exceeds 2^53 and is rounded as binary64 rounds it before [>>> 0].  The
    characters of the string are its code units ([str.charCodeAt(i)]). *)
Definition fnv1a (s : string) : Z :=
  fold_left
    (fun hash c =>
       (Encoder.round53
          (Encoder.to_int32 (Z.lxor hash (Z.of_N (N_of_ascii c))) * 0x01000193)
        mod 2 ^ 32)%Z)
    (list_ascii_of_string s) 0x811c9dc5%Z.

(** The eight hexadecimal digits of a number below 2^32, and
    [n.toString(16)], which drops the leading zeros. *)
Definition hex8 (n : Z) : string :=
  Hmac.hex (Hmac.word_bytes n).

Fixpoint strip_zeros (s : string) : string :=
  match s with
  | String c rest =>
    match rest with
    | EmptyString => s
    | _ => if Ascii.eqb c "0" then strip_zeros rest else s
    end
  | EmptyString => s
  end.

Definition to_hex (n : Z) : string := strip_zeros (hex8 n).

Fixpoint join (sep : string) (parts : list string) : string :=
  match parts with
  | [] => ""
  | [p] => p
  | p :: rest => p ++ sep ++ join sep rest
  end.

(** [domPath.slice(-3)] *)
Definition last3 (l : list string) : list string := skipn (length l - 3) l.

(** A number of the runtime: a real number, or one of Infinity, -Infinity
    and NaN.  The three leave the device alike, serialized as null, and no
    arithmetic of this unit turns one of them back into a real. *)
Inductive number :=
| Finite (x : R)
| NotFinite.

Section DifferentialPrivacy.

(** The values [Math.random()] returns, in the order of the calls. *)
Variable random : nat -> R.
(** [LocalTZA(t, isUTC)]: the offset of the local time zone, in
    milliseconds, at the instant [t] ([isUTC]) or at the local time [t]. *)
Variable localTZA : Z -> bool -> Z.

Definition sign (x : R) : R :=
  if Rlt_dec 0 x then 1 else if Rlt_dec x 0 then -1 else 0.

(** Laplacian noise with given scale (b parameter); [n] is the index of the
    call's random draw.  [Math.log] is -Infinity at 0 and NaN below. *)
Definition laplacianNoise (n : nat) (scale : R) : number :=
  let u := random n - 0.5 in
  if Rlt_dec 0 (1 - 2 * Rabs u)
  then Finite (- scale * sign u * ln (1 - 2 * Rabs u))
  else NotFinite.

(** Gaussian noise via Box-Muller transform; draws [n] and [n + 1].  The
    logarithm of a first draw 0 is -Infinity, and the square root of a
    negative number is NaN. *)
Definition gaussianNoise (n : nat) (mean stddev : R) : number :=
  let u1 := random n in
  let u2 := random (S n) in
  if Rlt_dec 0 u1 then
    if Rle_dec u1 1 then
      let z := sqrt (-2 * ln u1) * cos (2 * PI * u2) in
      Finite (z * stddev + mean)
    else NotFinite
  else NotFinite.

(** Perturb a vector by adding Gaussian noise; the first draw is [n]. *)
Fixpoint perturb_from (n : nat) (sigma : R) (vector : list R) : list number :=
  match vector with
  | [] => []
  | v :: rest =>
    match gaussianNoise n 0 sigma with
    | Finite noise => Finite (Encoder.js_round ((v + noise) * 10000) / 10000)
    | NotFinite => NotFinite
    end :: perturb_from (S (S n)) sigma rest
  end.

(** [Math.sqrt(2) / epsilon] is Infinity at [epsilon = 0], and so is, or is
    NaN, every coordinate. *)
Definition perturbVector (n : nat) (vector : list R) (epsilon : R) : list number :=
  if Req_dec_T epsilon 0 then map (fun _ => NotFinite) vector
  else perturb_from n (sqrt 2 / epsilon) vector.

(** [new Date(x)]: the time value, truncated towards zero; [None] is the
    invalid date, for a time beyond 8.64e15 ms from the epoch. *)
Definition time_clip (x : R) : option Z :=
  if Rle_dec (Rabs x) 8640000000000000
  then Some (if Rle_dec 0 x then (up x - 1)%Z else (- (up (- x) - 1))%Z)
  else None.

(** [date.setMinutes(bucket, 0, 0)] on the valid date [t]: the time value
    of the local hour of [t] at [bucket] minutes, [None] when it is out of
    the range of dates. *)
Definition setMinutes (t : Z) (bucket : Z) : option Z :=
  let local := (t + localTZA t true)%Z in
  let date := (local - local mod 3600000 + bucket * 60000)%Z in
  let u := (date - localTZA date false)%Z in
  if (Z.abs u <=? 8640000000000000)%Z then Some u else None.

(** Add calibrated noise to a timestamp and bucket to 5-minute granularity.
    The result is the instant of the bucket in milliseconds, which the
    source prints with [toISOString]; [None]: the date is invalid and
    [toISOString] throws a RangeError. *)
Definition anonymizeTimestamp (n : nat) (timestamp : Z) : option Z :=
  match laplacianNoise n (30 * 1000) with
  | NotFinite => None
  | Finite noiseMs =>
    match time_clip (IZR timestamp + noiseMs) with
    | None => None
    | Some date =>
      let minutes := (((date + localTZA date true) / 60000) mod 60)%Z in
      let bucket := (minutes / 5 * 5)%Z in
      setMinutes date bucket
    end
  end.

End DifferentialPrivacy.

(** Generate a structural hash from DOM fingerprint data. *)
Definition generateStructuralHash (domPath : list string) (tagName : string) : string :=
  hex8 (fnv1a (join ">" domPath ++ ":" ++ tagName)).

(** Generate element signature from ARIA role + DOM path. *)
Definition generateElementSignature (ariaRole : option string)
    (domPath : list string) (tagName : string) : string :=
  tagName ++
  match ariaRole with
  | Some r => if String.eqb r "" then "" else "[" ++ r ++ "]"
  | None => ""
  end ++ "@" ++ join ">" (last3 domPath).

(** The boundary record. *)
Record SecureEvent := {
  sessionFingerprint : string;
  timestampBucket : Z;
  intentVector : list number;
  structuralHash : string;
  orgId : string;
  eventType : Encoder.EventType;
  intentLabel : Encoder.IntentClass;
  intentConfidence : R;
  elementSignature : option string;
  sequenceNumber : Z
}.

(** What [process] ends with: the Secure Event, or the error it throws. *)
Inductive error := RangeError | DataError.

Inductive outcome :=
| Secure (e : SecureEvent)
| Thrown (err : error).

(** The state of a pipeline: its sequence counter and the scrubber's
    replacement counters. *)
Record state := {
  sequenceCounter : Z;
  entityCounters : Scrubber.counters
}.

Section Device.

Variable toLowerCase : Scrubber.text -> Scrubber.text.
(** [new URL(url)]: the origin and [pathname + search]; [None] when the
    constructor throws. *)
Variable parse_url : string -> option (string * string).
Variable random : nat -> R.
Variable localTZA : Z -> bool -> Z.

(** Hash a URL to prevent origin leakage while preserving domain grouping. *)
Definition hashUrl (url : string) : string :=
  match parse_url url with
  | Some (origin, path) => origin ++ "/" ++ to_hex (fnv1a path)
  | None => "[INVALID_URL]"
  end.

(** [if (field) field = scrub(field)] *)
Definition scrub_field (field : option Scrubber.text) (cs : Scrubber.counters)
  : option (option Scrubber.text * Scrubber.counters) :=
  match field with
  | Some (c :: rest) =>
    match Scrubber.scrub toLowerCase (c :: rest) cs with
    | Some (t, cs') => Some (Some t, cs')
    | None => None
    end
  | _ => Some (field, cs)
  end.

Fixpoint scrub_mutations (ms : list Encoder.MutationSummary) (cs : Scrubber.counters)
  : option (list Encoder.MutationSummary * Scrubber.counters) :=
  match ms with
  | [] => Some ([], cs)
  | m :: rest =>
    match scrub_field (Encoder.oldValue m) cs with
    | None => None
    | Some (old, cs1) =>
      match scrub_field (Encoder.newValue m) cs1 with
      | None => None
      | Some (new, cs2) =>
        match scrub_mutations rest cs2 with
        | None => None
        | Some (rest', cs3) =>
          Some ({| Encoder.m_target := Encoder.m_target m;
                   Encoder.addedNodes := Encoder.addedNodes m;
                   Encoder.removedNodes := Encoder.removedNodes m;
                   Encoder.oldValue := old;
                   Encoder.newValue := new |} :: rest', cs3)
        end
      end
    end
  end.

(** Scrub PII from event payload fields. *)
Definition scrubEvent (event : Encoder.RawEvent) (cs : Scrubber.counters)
  : option (Encoder.RawEvent * Scrubber.counters) :=
  let p := Encoder.payload event in
  match scrub_field (Encoder.value p) cs with
  | None => None
  | Some (value, cs1) =>
    match scrub_field (Encoder.message p) cs1 with
    | None => None
    | Some (message, cs2) =>
      match
        match Encoder.target p with
        | Some t =>
          match scrub_field (Some (Encoder.textPreview t)) cs2 with
          | Some (preview, cs3) =>
            Some (Some {| Encoder.aria_role := Encoder.aria_role t;
                          Encoder.textPreview := default [] preview;
                          Encoder.position := Encoder.position t;
                          Encoder.domPath := Encoder.domPath t;
                          Encoder.tagName := Encoder.tagName t;
                          Encoder.inputType := Encoder.inputType t;
                          Encoder.formId := Encoder.formId t |}, cs3)
          | None => None
          end
        | None => Some (None, cs2)
        end
      with
      | None => None
      | Some (target, cs3) =>
        match
          match Encoder.mutations p with
          | Some ms =>
            match scrub_mutations ms cs3 with
            | Some (ms', cs4) => Some (Some ms', cs4)
            | None => None
            end
          | None => Some (None, cs3)
          end
        with
        | None => None
        | Some (mutations, cs4) =>
          match
            match Encoder.url p with
            | Some (c :: rest) =>
              match Scrubber.containsPii (c :: rest) with
              | None => None
              | Some true =>
                match Scrubber.scrub toLowerCase (c :: rest) cs4 with
                | Some (u, cs5) => Some (Some u, cs5)
                | None => None
                end
              | Some false => Some (Some (c :: rest), cs4)
              end
            | other => Some (other, cs4)
            end
          with
          | None => None
          | Some (url, cs5) =>
            Some ({| Encoder.timestamp := Encoder.timestamp event;
                     Encoder.sessionId := Encoder.sessionId event;
                     Encoder.eventType := Encoder.eventType event;
                     Encoder.payload :=
                       {| Encoder.action := Encoder.action p;
                          Encoder.target := target;
                          Encoder.value := value;
                          Encoder.mutations := mutations;
                          Encoder.url := url;
                          Encoder.method := Encoder.method p;
                          Encoder.statusCode := Encoder.statusCode p;
                          Encoder.message := message |};
                     Encoder.context_url := hashUrl (Encoder.context_url event) |},
                  cs5)
          end
        end
      end
    end
  end.

(** Process a RawEvent through the full privacy pipeline.  [now1] and
    [now2] are the two readings of [Date.now()].  The scrubber's counters
    are updated before anything can throw; the sequence counter moves only
    when the event is returned. *)
Definition process (orgId deviceId userId : string) (now1 now2 : Z)
    (event : Encoder.RawEvent) (s : state) : option (outcome * state) :=
  match scrubEvent event (entityCounters s) with
  | None => None
  | Some (scrubbed, cs) =>
    let intent := Encoder.encode scrubbed in
    let noisyVector := perturbVector random 0 (Encoder.vector intent) 1 in
    let thrown err :=
      Some (Thrown err, {| sequenceCounter := sequenceCounter s;
                           entityCounters := cs |}) in
    match anonymizeTimestamp random localTZA 256 now1 with
    | None => thrown RangeError
    | Some timestampBucket =>
      match Hmac.generateSessionFingerprint deviceId userId now2 with
      | None => thrown DataError
      | Some sessionFingerprint =>
        let target := Encoder.target (Encoder.payload event) in
        let domPath := match target with Some t => Encoder.domPath t | None => [] end in
        let tagName := match target with Some t => Encoder.tagName t | None => "" end in
        Some (Secure
                {| sessionFingerprint := sessionFingerprint;
                   timestampBucket := timestampBucket;
                   intentVector := noisyVector;
                   structuralHash := generateStructuralHash domPath tagName;
                   orgId := orgId;
                   eventType := Encoder.eventType event;
                   intentLabel := Encoder.label intent;
                   intentConfidence :=
                     Encoder.js_round (Encoder.confidence intent * 100) / 100;
                   elementSignature :=
                     match target with
                     | Some t =>
                       Some (generateElementSignature (Encoder.aria_role t)
                               domPath tagName)
                     | None => None
                     end;
                   sequenceNumber := (sequenceCounter s + 1)%Z |},
              {| sequenceCounter := (sequenceCounter s + 1)%Z;
                 entityCounters := cs |})
      end
    end
  end.

End Device.

End Pipeline.

(** * Temporal Intent Clustering: the pattern-detector edge function

    Numbers are binary64 floats, as in the JavaScript runtime.  The
    language model, the random UUIDs, the wall clock, [JSON.parse],
    the parsing of dates and the conversion of strings to numbers are
    parameters of the model. *)

Module Tic.
#[local] Open Scope float_scope.

Definition WINDOW_SIZE : nat := 50.
Definition MIN_CLUSTER_SIZE : nat := 3.
Definition TEMPORAL_WINDOW_MS : float := 30 * 60 * 1000.
Definition AUTO_SUGGEST_THRESHOLD : float := 0.85.
Definition REVIEW_THRESHOLD : float := 0.70.
Definition SIMILARITY_THRESHOLD : float := 0.75.

Record SecureEvent := {
  sessionFingerprint : string;
  timestampBucket : string;
  intentVector : list float;
  structuralHash : string;
  eventType : string;
  intentLabel : string;
  intentConfidence : float;
  sequenceNumber : Z
}.

Record EventSequence := {
  events : list SecureEvent;
  embedding : list float;
  timestamp : string
}.

Record Cluster := {
  centroid : list float;
  members : list EventSequence;
  intentLabels : list string
}.

(** ** Numbers *)

Definition of_nat (n : nat) : float := PrimFloat.of_uint63 (Uint63.of_Z (Z.of_nat n)).

(** [Math.min] and [Math.max]. *)
Definition math_min (a b : float) : float :=
  if PrimFloat.is_nan a || PrimFloat.is_nan b then nan
  else if a <? b then a else if b <? a then b
  else if PrimFloat.get_sign a then a else b.

Definition math_max (a b : float) : float :=
  if PrimFloat.is_nan a || PrimFloat.is_nan b then nan
  else if a <? b then b else if b <? a then a
  else if PrimFloat.get_sign a then b else a.

(** [Math.round]: the nearest integer, ties towards plus infinity.  A finite
    float is [m * 2^e]; for [e < 0] its magnitude is below [2^53] and the
    rounding is computed exactly on integers. *)
Definition math_round (x : float) : float :=
  match Prim2SF x with
  | S754_finite s m e =>
    if (0 <=? e)%Z then x
    else
      let num := if s then Z.neg m else Z.pos m in
      let den := (2 ^ (- e))%Z in
      let r := ((2 * num + den) / (2 * den))%Z in
      if (r =? 0)%Z then (if s then neg_zero else zero)
      else if (r <? 0)%Z then - PrimFloat.of_uint63 (Uint63.of_Z (- r))
      else PrimFloat.of_uint63 (Uint63.of_Z r)
  | _ => x
  end.

(** [x || 0] on a number that may be missing. *)
Definition or_zero (x : option float) : float :=
  match x with
  | Some v => if (v =? 0) || PrimFloat.is_nan v then 0 else v
  | None => 0
  end.

Definition averageVectors (vectors : list (list float)) : list float :=
  match vectors with
  | [] => []
  | first :: _ =>
    let dim := length first in
    let count := of_nat (length vectors) in
    fold_left
      (fun avg vec => imap (fun i a => a + or_zero (nth_error vec i) / count) avg)
      vectors (repeat 0 dim)
  end.

Definition cosineSimilarity (a b : list float) : float :=
  if (length a =? 0)%nat || (length b =? 0)%nat then 0
  else
    let '(dot, normA, normB) :=
      fold_left
        (fun (acc : float * float * float) (xy : float * float) =>
           let '(d, na, nb) := acc in
           let '(x, y) := xy in
           (d + x * y, na + x * x, nb + y * y))
        (combine a b) (0, 0, 0) in
    let denom := PrimFloat.sqrt normA * PrimFloat.sqrt normB in
    if denom =? 0 then 0 else dot / denom.

(** ** Step 1: sliding windows inside each session *)

(** The [Map] from session fingerprint to its events, in insertion order. *)
Fixpoint push_session (key : string) (e : SecureEvent)
    (sessions : list (string * list SecureEvent)) : list (string * list SecureEvent) :=
  match sessions with
  | [] => [(key, [e])]
  | (k, es) :: rest =>
    if String.eqb k key then (k, es ++ [e]) :: rest
    else (k, es) :: push_session key e rest
  end.

Definition group_sessions (evs : list SecureEvent) : list (string * list SecureEvent) :=
  fold_left (fun sessions e => push_session (sessionFingerprint e) e sessions) evs [].

Definition by_sequenceNumber (a b : SecureEvent) : Z :=
  (sequenceNumber a - sequenceNumber b)%Z.

Definition slice {A : Type} (i j : nat) (l : list A) : list A :=
  firstn (j - i) (skipn i l).

Definition sequence_of (window : list SecureEvent) : list EventSequence :=
  match window with
  | [] => []
  | first :: _ =>
    if (length window <? 3)%nat then []
    else
      [ {| events := window;
           embedding :=
             averageVectors
               (List.filter (fun v => negb (length v =? 0)%nat) (map intentVector window));
           timestamp := timestampBucket first |} ]
  end.

Definition session_sequences (windowSize : nat) (sessionEvents : list SecureEvent)
    : list EventSequence :=
  let sorted := Scrubber.sort_by by_sequenceNumber sessionEvents in
  flat_map
    (fun i =>
       sequence_of (slice i (Nat.min (i + windowSize) (length sorted)) sorted))
    (seq 0 (S (Nat.max 0 (length sorted - 3)))).

Definition extractSequences (evs : list SecureEvent) (windowSize : nat)
    : list EventSequence :=
  flat_map (fun session => session_sequences windowSize (snd session)) (group_sessions evs).

(** ** Step 2: greedy clustering *)

Section Clock.

(** [new Date(s).getTime()]: NaN for a string that is not a date. *)
Variable getTime : string -> float.

Definition near (a b : EventSequence) : bool :=
  (SIMILARITY_THRESHOLD <=? cosineSimilarity (embedding a) (embedding b))
  && (PrimFloat.abs (getTime (timestamp a) - getTime (timestamp b)) <=? TEMPORAL_WINDOW_MS).

(** The inner loop's body at index [j], for the seed [si]. *)
Definition absorb (sequences : list EventSequence) (si : EventSequence)
    (st : Cluster * gset nat) (j : nat) : Cluster * gset nat :=
  let '(cluster, assigned) := st in
  if bool_decide (j ∈ assigned) then st
  else
    match sequences !! j with
    | None => st
    | Some sj =>
      if near si sj
      then ({| centroid := centroid cluster;
               members := members cluster ++ [sj];
               intentLabels := intentLabels cluster ++ map intentLabel (events sj) |},
            {[ j ]} ∪ assigned)
      else st
    end.

(** The outer loop's body at index [i]. *)
Definition grow (sequences : list EventSequence)
    (st : list Cluster * gset nat) (i : nat) : list Cluster * gset nat :=
  let '(clusters, assigned) := st in
  if bool_decide (i ∈ assigned) then st
  else
    match sequences !! i with
    | None => st
    | Some si =>
      let seed :=
        {| centroid := embedding si;
           members := [si];
           intentLabels := map intentLabel (events si) |} in
      let '(cluster, assigned') :=
        fold_left (absorb sequences si)
          (seq (S i) (length sequences - S i)) (seed, {[ i ]} ∪ assigned) in
      (clusters ++
         [ {| centroid := averageVectors (map embedding (members cluster));
              members := members cluster;
              intentLabels := intentLabels cluster |} ],
       assigned')
    end.

Definition clusterSequences (sequences : list EventSequence) : list Cluster :=
  fst (fold_left (grow sequences) (seq 0 (length sequences)) ([], ∅)).

End Clock.

(** ** Step 4: statistical confidence *)

(** [[...new Set(l)]]: the distinct strings, in order of first occurrence. *)
Fixpoint unique_from (seen l : list string) : list string :=
  match l with
  | [] => []
  | x :: rest =>
    if existsb (String.eqb x) seen then unique_from seen rest
    else x :: unique_from (x :: seen) rest
  end.

Definition unique (l : list string) : list string := unique_from [] l.

Definition computeStatisticalConfidence (cluster : Cluster) : float :=
  let n := length (members cluster) in
  if (n <? MIN_CLUSTER_SIZE)%nat then 0
  else
    let occurrenceScore := math_min (of_nat n / 10) 1 in
    let intentSets :=
      map (fun m => String.concat "," (map intentLabel (events m))) (members cluster) in
    let uniquePatterns := length (unique intentSets) in
    let consistencyScore := 1 - (of_nat uniquePatterns - 1) / math_max (of_nat n) 1 in
    let all := flat_map events (members cluster) in
    let avgConfidence :=
      fold_left PrimFloat.add (map intentConfidence all) 0 / of_nat (length all) in
    occurrenceScore * 0.3 + consistencyScore * 0.4 + avgConfidence * 0.3.

(** ** Step 3: abstraction by the language model *)

(** The values [JSON.parse] produces. *)
Inductive value :=
| VNull
| VBool (b : bool)
| VNum (x : float)
| VStr (s : string)
| VArr (items : list value)
| VObj (fields : list (string * value)).

(** [o.k] on a parsed object: [None] is [undefined]. *)
Fixpoint field (k : string) (o : list (string * value)) : option value :=
  match o with
  | [] => None
  | (k', v) :: rest => if String.eqb k' k then Some v else field k rest
  end.

Definition truthy_value (v : option value) : bool :=
  match v with
  | None | Some VNull => false
  | Some (VBool b) => b
  | Some (VNum x) => negb ((x =? 0) || PrimFloat.is_nan x)
  | Some (VStr s) => negb (String.eqb s "")
  | Some (VArr _) | Some (VObj _) => true
  end.

Record DetectedPattern := {
  id : string;
  orgId : string;
  intentSequence : list string;
  structuralHashes : list string;
  occurrences : nat;
  confidence : float;
  suggestedName : value;
  suggestedDescription : value;
  firstSeen : string;
  lastSeen : string
}.

Inductive attempt :=
| Pattern (p : DetectedPattern)
| Null
| Thrown.

Inductive status := auto_suggested | needs_review.

Record pattern_row := {
  row_id : string;
  row_org_id : string;
  row_intent_sequence : list string;
  row_structural_hashes : list string;
  row_occurrences : nat;
  row_confidence : float;
  row_suggested_name : value;
  row_suggested_description : value;
  row_first_seen : string;
  row_last_seen : string;
  row_status : status
}.

Inductive reply :=
| MissingOrg
| InternalError
| Insufficient
| NoPatterns
| Found (patterns : list DetectedPattern).

Section Detector.

Variable getTime : string -> float.
(** The k-th call of [llm.complete], on the prompt built from the cluster:
    the content of the response, or [None] when the call throws. *)
Variable llm_complete : nat -> Cluster -> option string.
(** [JSON.parse] on a text that starts with an opening brace: the object's
    fields, or [None] when it throws. *)
Variable json_parse : string -> option (list (string * value)).
(** The conversion of a string to a number. *)
Variable number_of_string : string -> float.
Variable randomUUID : nat -> string.
(** [new Date().toISOString()] *)
Variable now : nat -> string.
(** [Deno.env.get('LLM_PROVIDER')] *)
Variable LLM_PROVIDER : option string.

(** The number a value converts to under [*]. *)
Fixpoint to_number (v : value) : float :=
  match v with
  | VNull => 0
  | VBool b => if b then 1 else 0
  | VNum x => x
  | VStr s => number_of_string s
  | VArr [] => 0
  | VArr [VNull] => 0
  | VArr [VBool _] => nan
  | VArr [x] => to_number x
  | VArr _ => nan
  | VObj _ => nan
  end.

Definition or_now (k : nat) (m : option EventSequence) : string :=
  match m with
  | Some s => if String.eqb (timestamp s) "" then now k else timestamp s
  | None => now k
  end.

Definition combinedConfidence (cluster : Cluster) (parsed : list (string * value)) : float :=
  let statisticalConfidence := computeStatisticalConfidence cluster in
  let semanticConfidence :=
    match field "confidence" parsed with
    | Some c => if truthy_value (Some c) then to_number c else 0.5
    | None => 0.5
    end in
  statisticalConfidence * 0.6 + semanticConfidence * 0.4.

Definition abstractCluster (k : nat) (cluster : Cluster) (org : string) : attempt :=
  match llm_complete k cluster with
  | None => Thrown
  | Some content =>
    if String.eqb content "" then Null
    else
      match Executor.match_delimited "{" "}" content with
      | None => Null
      | Some jsonMatch =>
        match json_parse jsonMatch with
        | None => Null
        | Some parsed =>
          Pattern
            {| id := randomUUID k;
               orgId := org;
               intentSequence :=
                 unique (flat_map (fun m => map intentLabel (events m)) (members cluster));
               structuralHashes :=
                 unique (flat_map (fun m => map structuralHash (events m)) (members cluster));
               occurrences := length (members cluster);
               confidence := math_round (combinedConfidence cluster parsed * 100) / 100;
               suggestedName :=
                 (if truthy_value (field "name" parsed)
                  then default VNull (field "name" parsed)
                  else VStr "Unnamed Pattern");
               suggestedDescription :=
                 (if truthy_value (field "description" parsed)
                  then default VNull (field "description" parsed)
                  else VStr "");
               firstSeen :=
                 or_now k (nth_error (members cluster) (length (members cluster) - 1));
               lastSeen := or_now k (nth_error (members cluster) 0) |}
        end
      end
  end.

(** ** The request handler *)

Definition row_of (org : string) (p : DetectedPattern) : pattern_row :=
  {| row_id := id p;
     row_org_id := org;
     row_intent_sequence := intentSequence p;
     row_structural_hashes := structuralHashes p;
     row_occurrences := occurrences p;
     row_confidence := confidence p;
     row_suggested_name := suggestedName p;
     row_suggested_description := suggestedDescription p;
     row_first_seen := firstSeen p;
     row_last_seen := lastSeen p;
     row_status :=
       if AUTO_SUGGEST_THRESHOLD <=? confidence p then auto_suggested else needs_review |}.

(** [ON CONFLICT (id) DO UPDATE]: the row takes the place of the row with
    its id, or is added. *)
Fixpoint put_row (r : pattern_row) (table : list pattern_row) : list pattern_row :=
  match table with
  | [] => [r]
  | x :: rest =>
    if String.eqb (row_id x) (row_id r) then r :: rest else x :: put_row r rest
  end.

(** [confidence REAL NOT NULL CHECK (confidence >= 0 AND confidence <= 1)];
    a number that is not finite is sent as null. *)
Definition confidence_check (r : pattern_row) : bool :=
  (0 <=? row_confidence r) && (row_confidence r <=? 1).

(** The upsert into [detected_patterns].  The table refuses the row that
    fails the check on its confidence; the two statuses the handler sends
    pass the check on the status.  The handler does not read the result.
    The column is REAL: a confidence with two decimals reads back as the
    number that was sent, which is what [row_confidence] holds. *)
Definition upsert (r : pattern_row) (table : list pattern_row) : list pattern_row :=
  if confidence_check r then put_row r table else table.

(** The body of the loop over the valid clusters. *)
Definition consider (org : string)
    (st : list DetectedPattern * list pattern_row) (kc : nat * Cluster)
    : list DetectedPattern * list pattern_row :=
  let '(patterns, table) := st in
  match abstractCluster (fst kc) (snd kc) org with
  | Pattern p =>
    if REVIEW_THRESHOLD <=? confidence p
    then (patterns ++ [p], upsert (row_of org p) table)
    else st
  | Null | Thrown => st
  end.

Definition validClusters (recentEvents : list SecureEvent) : list Cluster :=
  List.filter (fun c => (MIN_CLUSTER_SIZE <=? length (members c))%nat)
    (clusterSequences getTime (extractSequences recentEvents WINDOW_SIZE)).

(** [recentEvents] is the result of the query on [secure_events]: [None]
    when the query fails.  [getDefaultProvider] is called once there are
    valid clusters; what it throws is caught by the handler's outer [catch]
    and answered with INTERNAL_ERROR. *)
Definition serve (org : string) (recentEvents : option (list SecureEvent))
    (table : list pattern_row) : reply * list pattern_row :=
  if String.eqb org "" then (MissingOrg, table)
  else
    match recentEvents with
    | None => (InternalError, table)
    | Some evs =>
      if (length evs <? MIN_CLUSTER_SIZE)%nat then (Insufficient, table)
      else
        let valid := validClusters evs in
        if (length valid =? 0)%nat then (NoPatterns, table)
        else
          match Executor.getDefaultProvider LLM_PROVIDER with
          | Executor.Throw _ => (InternalError, table)
          | Executor.Ok _ =>
            let chosen := firstn 5 valid in
            let '(patterns, table') :=
              fold_left (consider org) (combine (seq 0 (length chosen)) chosen) ([], table) in
            (Found patterns, table')
          end
    end.

End Detector.

(** ** Dates

    The clock of the scenarios.  It reads the two forms in which the handler
    is given a date: that of [toISOString], YYYY-MM-DDTHH:MM:SS.sssZ, and
    that of a TIMESTAMPTZ column, YYYY-MM-DDTHH:MM:SS+00:00, with or without
    a fraction of a second and with any offset, as [new Date] reads them in
    V8 (a fraction is cut after its third digit, a day up to 31 is carried
    into the next month).  Any other text is answered with NaN. *)

Definition digit (a : ascii) : option Z :=
  let n := Z.of_nat (nat_of_ascii a) in
  if ((48 <=? n) && (n <=? 57))%Z then Some (n - 48)%Z else None.

Fixpoint digits (acc : Z) (l : list ascii) : option Z :=
  match l with
  | [] => Some acc
  | a :: rest =>
    match digit a with
    | Some d => digits (10 * acc + d)%Z rest
    | None => None
    end
  end.

Definition days_from_civil (y m d : Z) : Z :=
  let y' := (if m <=? 2 then y - 1 else y)%Z in
  let era := (y' / 400)%Z in
  let yoe := (y' - era * 400)%Z in
  let doy := ((153 * (if m <=? 2 then m + 9 else m - 3) + 2) / 5 + d - 1)%Z in
  let doe := (yoe * 365 + yoe / 4 - yoe / 100 + doy)%Z in
  (era * 146097 + doe - 719468)%Z.

(** The leading digits of a text, and what follows them. *)
Fixpoint span_digits (l : list ascii) : list Z * list ascii :=
  match l with
  | [] => ([], [])
  | a :: rest =>
    match digit a with
    | Some d => let '(ds, tl) := span_digits rest in (d :: ds, tl)
    | None => ([], l)
    end
  end.

(** The milliseconds of a fraction of a second, and what follows it. *)
Definition fraction (l : list ascii) : option Z * list ascii :=
  match l with
  | "."%char :: more =>
    match span_digits more with
    | ([], tl) => (None, tl)
    | (ds, tl) => (Some (nth 0 ds 0 * 100 + nth 1 ds 0 * 10 + nth 2 ds 0)%Z, tl)
    end
  | _ => (Some 0%Z, l)
  end.

(** The offset from UTC, in minutes. *)
Definition zone (l : list ascii) : option Z :=
  match l with
  | ["Z"]%char => Some 0%Z
  | [sg; h1; h2; ":"; m1; m2]%char =>
    match digits 0 [h1; h2], digits 0 [m1; m2] with
    | Some h, Some m =>
      if ((h <=? 23) && (m <=? 59))%Z then
        if Ascii.eqb sg "+" then Some (h * 60 + m)%Z
        else if Ascii.eqb sg "-" then Some (- (h * 60 + m))%Z
        else None
      else None
    | _, _ => None
    end
  | _ => None
  end.

Definition iso_ms (s : string) : option Z :=
  match list_ascii_of_string s with
  | (y1 :: y2 :: y3 :: y4 :: "-" :: m1 :: m2 :: "-" :: d1 :: d2 :: "T"
     :: h1 :: h2 :: ":" :: n1 :: n2 :: ":" :: s1 :: s2 :: rest)%char =>
    match digits 0 [y1; y2; y3; y4], digits 0 [m1; m2], digits 0 [d1; d2],
          digits 0 [h1; h2], digits 0 [n1; n2], digits 0 [s1; s2],
          fst (fraction rest), zone (snd (fraction rest)) with
    | Some y, Some m, Some d, Some h, Some n, Some sec, Some ms, Some offset =>
      if ((1 <=? m) && (m <=? 12) && (1 <=? d) && (d <=? 31)
          && (n <=? 59) && (sec <=? 59)
          && ((h <=? 23) || ((h =? 24) && (n =? 0) && (sec =? 0) && (ms =? 0))))%Z
      then Some (((((days_from_civil y m d * 24 + h) * 60 + n) - offset) * 60 + sec)
                 * 1000 + ms)%Z
      else None
    | _, _, _, _, _, _, _, _ => None
    end
  | _ => None
  end.

Definition iso_time (s : string) : float :=
  match iso_ms s with
  | Some t =>
    if (t <? 0)%Z then - PrimFloat.of_uint63 (Uint63.of_Z (- t))
    else PrimFloat.of_uint63 (Uint63.of_Z t)
  | None => nan
  end.

End Tic.

(** * Scenarios: concrete inputs and the predicates of the statements *)

(** ** approve-ghost: one ghost awaiting approval *)

Definition approve_db0 : Approve.store :=
  {| Approve.ghosts :=
       {[ "g1" := {| Approve.g_id := "g1"; Approve.g_name := "Weekly report";
                     Approve.g_status := "pending_approval";
                     Approve.g_is_active := false; Approve.g_version := 1;
                     Approve.g_execution_plan := JArr [];
                     Approve.g_parameters := JArr [];
                     Approve.g_trigger := JObj [];
                     Approve.g_updated_at := "2024-01-01T00:00:00.000Z" |} ]};
     Approve.ghost_versions := [];
     Approve.approval_requests := [] |}.

(** The same ghost at the last version the column can hold. *)
Definition approve_db_top : Approve.store :=
  {| Approve.ghosts :=
       {[ "g1" := {| Approve.g_id := "g1"; Approve.g_name := "Weekly report";
                     Approve.g_status := "pending_approval";
                     Approve.g_is_active := false; Approve.g_version := 2147483647;
                     Approve.g_execution_plan := JArr [];
                     Approve.g_parameters := JArr [];
                     Approve.g_trigger := JObj [];
                     Approve.g_updated_at := "2024-01-01T00:00:00.000Z" |} ]};
     Approve.ghost_versions := [];
     Approve.approval_requests := [] |}.

(** ** ingest-events: full batches from one device *)

Definition ingest_event (n : nat) : Ingest.secure_event :=
  {| Ingest.orgId := "o1"; Ingest.fields := JNum (Z.of_nat n) |}.

(** A full batch (100 events) from device devA, served at second [k]. *)
Definition ingest_full_batch (k : nat) : Ingest.request :=
  {| Ingest.method := "POST";
     Ingest.x_ghost_device := Some "devA";
     Ingest.payload :=
       Some {| Ingest.events := Some (map ingest_event (seq 0 100));
               Ingest.deviceFingerprint := Some "devA";
               Ingest.batchId := "b" |};
     Ingest.arrival := 1000 * Z.of_nat k;
     Ingest.insert_ok := true |}.

(** ** ghost-executor: one API node whose upstream throws, healed by a
    language model that proposes a human escalation *)

(** The double quote character, and a string between double quotes. *)
Definition dq : string := String (ascii_of_nat 34) EmptyString.

Definition quoted (s : string) : string := dq ++ s ++ dq.

Definition heal_text : string :=
  "{" ++ quoted "tool" ++ ":" ++ quoted "human_escalation" ++ "," ++
  quoted "params" ++ ":{" ++ quoted "reason" ++ ":" ++
  quoted "upstream unavailable" ++ "}}".

Definition heal_json : json :=
  JObj [("tool", JStr "human_escalation");
        ("params", JObj [("reason", JStr "upstream unavailable")])].

Definition broken_node : json :=
  JObj [("id", JStr "s1"); ("type", JStr "action");
        ("action",
         JObj [("tool", JStr "api_call");
               ("params", JObj [("endpoint", JStr "https://broken");
                                ("method", JStr "GET")])])].

Definition ghost_row (plan : json) : json :=
  JObj [("id", JStr "g1"); ("org_id", JStr "o1"); ("name", JStr "Sync leads");
        ("status", JStr "approved"); ("execution_plan", plan)].

Definition executor_db (plan : json) : Executor.store :=
  {| Executor.ghosts := {[ "g1" := ghost_row plan ]};
     Executor.executions := ∅;
     Executor.execution_logs := [] |}.

Definition execute_request : Executor.request :=
  {| Executor.method := "POST";
     Executor.payload := Some (JObj [("ghostId", JStr "g1")]) |}.

(** The LLM stub of the scenario, an upstream that always throws, and
    [JSON.parse] and [String] on the values the run applies them to. *)
Definition llm_heals : nat -> Executor.llm_request -> option Executor.llm_response :=
  fun _ _ => Some {| Executor.content := Some heal_text |}.

Definition llm_down : nat -> Executor.llm_request -> option Executor.llm_response :=
  fun _ _ => None.

Definition fetch_down : nat -> Executor.fetch_request -> option Executor.fetch_response :=
  fun _ _ => None.

Definition parse_stub (s : string) : option json :=
  if String.eqb s heal_text then Some heal_json else None.

Definition string_stub (v : option json) : string :=
  match v with
  | Some (JStr s) => s
  | None => "undefined"
  | Some JNull => "null"
  | _ => "[object Object]"
  end.

(** ** Privacy pipeline: events on a password input *)

(** Lower-casing of the ASCII letters. *)
Definition ascii_lower (t : Scrubber.text) : Scrubber.text :=
  map (fun c => if Scrubber.upper c then (c + 32)%N else c) t.

Definition password_input : Encoder.ElementFingerprint :=
  {| Encoder.aria_role := None; Encoder.textPreview := [];
     Encoder.position := None;
     Encoder.domPath := ["body"; "form"; "input"];
     Encoder.tagName := "input"; Encoder.inputType := Some "password";
     Encoder.formId := Some "login" |}.

Definition on_password (a : Encoder.UserAction) : Encoder.RawEvent :=
  {| Encoder.timestamp := 0; Encoder.sessionId := "s1";
     Encoder.eventType := Encoder.user_int;
     Encoder.payload :=
       {| Encoder.action := Some a; Encoder.target := Some password_input;
          Encoder.value := None; Encoder.mutations := None; Encoder.url := None;
          Encoder.method := None; Encoder.statusCode := None;
          Encoder.message := None |};
     Encoder.context_url := "https://example.com/login" |}.

Definition plain_get : Encoder.RawEvent :=
  {| Encoder.timestamp := 0; Encoder.sessionId := "s1";
     Encoder.eventType := Encoder.network;
     Encoder.payload :=
       {| Encoder.action := None; Encoder.target := None;
          Encoder.value := None; Encoder.mutations := None;
          Encoder.url := Some (Scrubber.lit "https://example.com/api/items");
          Encoder.method := Some "GET"; Encoder.statusCode := Some 200%Z;
          Encoder.message := None |};
     Encoder.context_url := "https://example.com/" |}.

(** A realization of the randomness: every first draw of the Box-Muller
    pair is 1/2, every second draw is 0. *)
Definition noisy_random (n : nat) : R := if Nat.even n then (1 / 2)%R else 0%R.

(** The realization in which every draw is 0, the least number
    [Math.random] returns. *)
Definition zero_random (n : nat) : R := 0%R.

Definition url_stub (u : string) : option (string * string) :=
  if String.eqb u "https://example.com/login"
  then Some ("https://example.com", "/login") else None.

(** A device whose local time is UTC. *)
Definition utc (t : Z) (isUTC : bool) : Z := 0%Z.

Definition fresh_pipeline : Pipeline.state :=
  {| Pipeline.sequenceCounter := 0; Pipeline.entityCounters := ∅ |}.

(** ** pattern-detector: one session of twelve events, in three
    5-minute buckets *)

Definition tic_bucket (n : nat) : string :=
  if (n <=? 4)%nat then "2024-03-04T10:00:00.000Z"
  else if (n <=? 8)%nat then "2024-03-04T10:05:00.000Z"
  else "2024-03-04T10:10:00.000Z".

Definition tic_event (n : nat) : Tic.SecureEvent :=
  {| Tic.sessionFingerprint := "5f2a9c1e";
     Tic.timestampBucket := tic_bucket n;
     Tic.intentVector := repeat 0.0884%float 128;
     Tic.structuralHash := "a1b2c3d4";
     Tic.eventType := "user_interaction";
     Tic.intentLabel := "data_entry";
     Tic.intentConfidence := 0.9%float;
     Tic.sequenceNumber := Z.of_nat n |}.

(** The rows as the query returns them, most recent first. *)
Definition tic_events : list Tic.SecureEvent := map tic_event (rev (seq 1 12)).

Definition tic_text : string :=
  "{" ++ quoted "name" ++ ":" ++ quoted "Expense Report Entry" ++ ","
      ++ quoted "confidence" ++ ":0.9}".

Definition tic_llm (k : nat) (c : Tic.Cluster) : option string := Some tic_text.

Definition tic_parse (s : string) : option (list (string * Tic.value)) :=
  if String.eqb s tic_text
  then Some [("name", Tic.VStr "Expense Report Entry"); ("confidence", Tic.VNum 0.9%float)]
  else None.

(** A language model that answers with a confidence of 5. *)
Definition tic_sure_text : string :=
  "{" ++ quoted "name" ++ ":" ++ quoted "Expense Report Entry" ++ ","
      ++ quoted "confidence" ++ ":5}".

Definition tic_llm_sure (k : nat) (c : Tic.Cluster) : option string :=
  Some tic_sure_text.

Definition tic_parse_sure (s : string) : option (list (string * Tic.value)) :=
  if String.eqb s tic_sure_text
  then Some [("name", Tic.VStr "Expense Report Entry"); ("confidence", Tic.VNum 5%float)]
  else None.

Definition tic_uuid (k : nat) : string :=
  "7d3f0c52-6b1e-4c1a-9f00-00000000000" ++ Hmac.decimal (Z.of_nat k).

Definition tic_number (s : string) : float := nan.

Definition tic_now (k : nat) : string := "2024-03-04T10:12:30.000Z".

Definition tic_serve :=
  Tic.serve Tic.iso_time tic_llm tic_parse tic_number tic_uuid tic_now None.

(** The gates of the claim, on a pattern and on a stored row. *)
Definition gated_pattern (p : Tic.DetectedPattern) : Prop :=
  (3 <= Tic.occurrences p)%nat /\
  (Tic.REVIEW_THRESHOLD <=? Tic.confidence p)%float = true.

Definition gated_row (r : Tic.pattern_row) : Prop :=
  (3 <= Tic.row_occurrences r)%nat /\
  (Tic.REVIEW_THRESHOLD <=? Tic.row_confidence r)%float = true /\
  (Tic.row_status r = Tic.auto_suggested
   <-> (Tic.AUTO_SUGGEST_THRESHOLD <=? Tic.row_confidence r)%float = true) /\
  (Tic.row_status r = Tic.needs_review
   <-> (Tic.AUTO_SUGGEST_THRESHOLD <=? Tic.row_confidence r)%float = false).

(** The row [r] is the pattern [p] as the handler stores it for [org]:
    the row has the pattern's fields, and its status is auto_suggested when
    the pattern's confidence is at least 0.85 and needs_review otherwise. *)
Definition stored_as (org : string) (p : Tic.DetectedPattern) (r : Tic.pattern_row)
  : Prop :=
  Tic.row_id r = Tic.id p /\
  Tic.row_org_id r = org /\
  Tic.row_intent_sequence r = Tic.intentSequence p /\
  Tic.row_structural_hashes r = Tic.structuralHashes p /\
  Tic.row_occurrences r = Tic.occurrences p /\
  Tic.row_confidence r = Tic.confidence p /\
  Tic.row_suggested_name r = Tic.suggestedName p /\
  Tic.row_suggested_description r = Tic.suggestedDescription p /\
  Tic.row_first_seen r = Tic.firstSeen p /\
  Tic.row_last_seen r = Tic.lastSeen p /\
  (Tic.row_status r = Tic.auto_suggested
   <-> (Tic.AUTO_SUGGEST_THRESHOLD <=? Tic.confidence p)%float = true) /\
  (Tic.row_status r = Tic.needs_review
   <-> (Tic.AUTO_SUGGEST_THRESHOLD <=? Tic.confidence p)%float = false).

(** The confidence is between 0 and 1, the bounds the table checks. *)
Definition storable (p : Tic.DetectedPattern) : Prop :=
  ((0 <=? Tic.confidence p) && (Tic.confidence p <=? 1))%float = true.

(** The pattern was lifted from one of the clusters: its occurrences are the
    cluster's size and its confidence the rounded combined confidence. *)
Definition lifted_from (number_of_string : string -> float)
    (clusters : list Tic.Cluster) (p : Tic.DetectedPattern) : Prop :=
  exists c parsed,
    In c clusters /\
    Tic.occurrences p = length (Tic.members c) /\
    Tic.confidence p
    = (Tic.math_round (Tic.combinedConfidence number_of_string c parsed * 100) / 100)%float.

Definition emitted (r : Tic.reply) : list Tic.DetectedPattern :=
  match r with
  | Tic.Found patterns => patterns
  | _ => []
  end.

(** * Further scenarios *)

(** ** approve-ghost: a ghost with one pending approval request *)

Definition pause_request (id : string) : Approve.request :=
  {| Approve.method := "POST";
     Approve.payload :=
       Some {| Approve.ghost_id := Some id; Approve.action := Some "pause";
               Approve.decision_note := Some "on hold";
               Approve.approved_by := None |};
     Approve.update_ok := true |}.

Definition approve_db1 : Approve.store :=
  {| Approve.ghosts := Approve.ghosts approve_db0;
     Approve.ghost_versions := [];
     Approve.approval_requests :=
       [ {| Approve.a_ghost_id := "g1"; Approve.a_status := "pending";
            Approve.a_approved_by := None; Approve.a_decision_note := None;
            Approve.a_resolved_at := None |};
         {| Approve.a_ghost_id := "g2"; Approve.a_status := "pending";
            Approve.a_approved_by := None; Approve.a_decision_note := None;
            Approve.a_resolved_at := None |} ] |}.

(** The reply reports a success. *)
Definition succeeded (r : Approve.reply) : bool :=
  match r with
  | Approve.Success _ _ _ _ => true
  | _ => false
  end.

(** ** ingest-events: what is stored for a device *)

(** The rows of [secure_events] tagged with device [d]. *)
Definition rows_of (d : string) (s : Ingest.state) : list Ingest.row :=
  List.filter (fun r => String.eqb (Ingest.r_device_fingerprint r) d)
    (Ingest.secure_events s).

(** Every counter of the limiter lies between 1 and the limit, and every
    window ends at most a minute after [now]. *)
Definition well_counted (now : Z) (limits : gmap string Ingest.rate_entry) : Prop :=
  map_Forall
    (fun _ e => (1 <= Ingest.count e <= Ingest.RATE_LIMIT_PER_MINUTE)%Z /\
                (Ingest.resetAt e <= now + 60000)%Z)
    limits.

(** The device a request is counted and stored under. *)
Definition device_of (req : Ingest.request) (b : Ingest.batch) : string :=
  match Ingest.nonempty (Ingest.x_ghost_device req) with
  | Some d => d
  | None =>
    match Ingest.nonempty (Ingest.deviceFingerprint b) with
    | Some d => d
    | None => "unknown"
    end
  end.

(** The device under which the limiter counts a request; [None] for a
    request that is answered before the limiter is asked (preflight, wrong
    method, body that is not JSON, events missing or more than 100). *)
Definition limited_device (req : Ingest.request) : option string :=
  if String.eqb (Ingest.method req) "OPTIONS" then None
  else if negb (String.eqb (Ingest.method req) "POST") then None
  else
    match Ingest.payload req with
    | None => None
    | Some b =>
      match Ingest.events b with
      | None => None
      | Some evs =>
        if (Ingest.MAX_BATCH_SIZE <? length evs)%nat then None
        else Some (device_of req b)
      end
    end.

(** The request is one of device [d] that the limiter let pass: it reached
    the limiter under [d] and was not answered with 429. *)
Definition passes (d : string) (req : Ingest.request) (rep : Ingest.reply) : bool :=
  match limited_device req with
  | Some d' => String.eqb d' d && negb (Ingest.status rep =? 429)%Z
  | None => false
  end.

(** The number of requests of device [d] that the limiter let pass. *)
Fixpoint passed (d : string) (reqs : list Ingest.request) (reps : list Ingest.reply)
  : nat :=
  match reqs, reps with
  | req :: reqs', rep :: reps' =>
    (if passes d req rep then 1 else 0) + passed d reqs' reps'
  | _, _ => 0
  end.

(** What is left of a device's allowance in its current window. *)
Definition allowance (d : string) (limits : gmap string Ingest.rate_entry) : nat :=
  match limits !! d with
  | Some e => Z.to_nat (Ingest.RATE_LIMIT_PER_MINUTE - Ingest.count e)
  | None => Z.to_nat Ingest.RATE_LIMIT_PER_MINUTE
  end.

(** The window of [d], if it has one, outlasts every request of [reqs]; if
    it has none, the requests lie within one minute from [t0]. *)
Definition covers (t0 : Z) (d : string) (limits : gmap string Ingest.rate_entry)
    (reqs : list Ingest.request) : Prop :=
  Forall (fun r => (t0 <= Ingest.arrival r < t0 + 60000)%Z) reqs /\
  match limits !! d with
  | Some e => Forall (fun r => (Ingest.arrival r < Ingest.resetAt e)%Z) reqs
  | None => True
  end.

(** A small batch of device devB with events of two organisations. *)
Definition mixed_batch : Ingest.request :=
  {| Ingest.method := "POST";
     Ingest.x_ghost_device := None;
     Ingest.payload :=
       Some {| Ingest.events :=
                 Some [ {| Ingest.orgId := "o1"; Ingest.fields := JNull |};
                        {| Ingest.orgId := "o2"; Ingest.fields := JNull |};
                        {| Ingest.orgId := "o1"; Ingest.fields := JNull |} ];
               Ingest.deviceFingerprint := Some "devB";
               Ingest.batchId := "b7" |};
     Ingest.arrival := 5000;
     Ingest.insert_ok := true |}.

(** ** ghost-executor *)

(** [node.action.tool], where it can be read. *)
Definition tool_of (node : json) : option json :=
  match get_field "action" node with
  | Some a => get_field "tool" a
  | None => None
  end.

Definition not_null (v : json) : bool :=
  match v with
  | JNull => false
  | _ => true
  end.

(** The store was left as it was, or an execution was recorded under
    [executionId] for a ghost of the store that is approved or active. *)
Definition untouched_or_started (executionId : string) (db db' : Executor.store) : Prop :=
  db' = db \/
  exists key ghost,
    Executor.ghosts db !! key = Some ghost /\
    (Executor.is_status "approved" ghost || Executor.is_status "active" ghost) = true /\
    Executor.ghosts db' = Executor.ghosts db /\
    is_Some (Executor.executions db' !! executionId).

(** ** PII scrubber: the replacement counters *)

(** The number that the counters hold for a value of a type. *)
Definition assigned (toLowerCase : Scrubber.text -> Scrubber.text)
    (cs : Scrubber.counters) (ty : string) (v : Scrubber.text) : option nat :=
  default ∅ (cs !! ty) !! Scrubber.normalize toLowerCase v.

(** Counters as [getReplacement] builds them from the empty map: in the map
    of each type the numbers run from 1 to the size of the map, and no
    number is held by two values. *)
Definition numbered (cs : Scrubber.counters) : Prop :=
  forall ty m, cs !! ty = Some m ->
    (forall k n, m !! k = Some n -> 1 <= n <= size m) /\
    (forall k1 k2 n, m !! k1 = Some n -> m !! k2 = Some n -> k1 = k2).

(** Two e-mail addresses, the first of them written twice. *)
Definition sample_entities : list Scrubber.PiiEntity :=
  [ {| Scrubber.type := "EMAIL"; Scrubber.value := Scrubber.lit "ann@example.com";
       Scrubber.start := 0; Scrubber.end_ := 15 |};
    {| Scrubber.type := "EMAIL"; Scrubber.value := Scrubber.lit "bob@example.com";
       Scrubber.start := 20; Scrubber.end_ := 35 |};
    {| Scrubber.type := "EMAIL"; Scrubber.value := Scrubber.lit "Ann@Example.com";
       Scrubber.start := 40; Scrubber.end_ := 55 |} ].

(** ** Privacy pipeline: an event without its texts *)

Definition redact_target (t : Encoder.ElementFingerprint) : Encoder.ElementFingerprint :=
  {| Encoder.aria_role := Encoder.aria_role t;
     Encoder.textPreview := [];
     Encoder.position := Encoder.position t;
     Encoder.domPath := Encoder.domPath t;
     Encoder.tagName := Encoder.tagName t;
     Encoder.inputType := Encoder.inputType t;
     Encoder.formId := Encoder.formId t |}.

Definition redact_mutation (m : Encoder.MutationSummary) : Encoder.MutationSummary :=
  {| Encoder.m_target := redact_target (Encoder.m_target m);
     Encoder.addedNodes := Encoder.addedNodes m;
     Encoder.removedNodes := Encoder.removedNodes m;
     Encoder.oldValue := None;
     Encoder.newValue := None |}.

(** The event with every text taken out (the value, the message, the text
    previews, the old and new values of mutations), and with them the
    timestamp, the session id and the page URL; the request URL stays. *)
Definition redact (e : Encoder.RawEvent) : Encoder.RawEvent :=
  let p := Encoder.payload e in
  {| Encoder.timestamp := 0;
     Encoder.sessionId := "";
     Encoder.eventType := Encoder.eventType e;
     Encoder.payload :=
       {| Encoder.action := Encoder.action p;
          Encoder.target := option_map redact_target (Encoder.target p);
          Encoder.value := None;
          Encoder.mutations := option_map (map redact_mutation) (Encoder.mutations p);
          Encoder.url := Encoder.url p;
          Encoder.method := Encoder.method p;
          Encoder.statusCode := Encoder.statusCode p;
          Encoder.message := None |};
     Encoder.context_url := "" |}.

(** The request URL, if there is one, holds nothing the scrubber detects
    (the network observer has hashed its query values). *)
Definition url_clean (e : Encoder.RawEvent) : Prop :=
  match Encoder.url (Encoder.payload e) with
  | Some (c :: rest) => Scrubber.containsPii (c :: rest) = Some false
  | _ => True
  end.

(** An input event on the password field that carries the typed text. *)
Definition typed (v : string) : Encoder.RawEvent :=
  let e := on_password Encoder.input in
  let p := Encoder.payload e in
  {| Encoder.timestamp := 1700000000000;
     Encoder.sessionId := Encoder.sessionId e;
     Encoder.eventType := Encoder.eventType e;
     Encoder.payload :=
       {| Encoder.action := Encoder.action p;
          Encoder.target := Encoder.target p;
          Encoder.value := Some (Scrubber.lit v);
          Encoder.mutations := Encoder.mutations p;
          Encoder.url := Encoder.url p;
          Encoder.method := Encoder.method p;
          Encoder.statusCode := Encoder.statusCode p;
          Encoder.message := Encoder.message p |};
     Encoder.context_url := Encoder.context_url e |}.

(** ** pattern-detector *)

(** Two events in the order of their sequence numbers. *)
Definition in_sequence (a b : Tic.SecureEvent) : Prop :=
  (Tic.sequenceNumber a <= Tic.sequenceNumber b)%Z.

(** A window of a session: at least 3 and at most [w] events of one
    session, all of them events of [evs], in the order of their sequence
    numbers, stamped with the bucket of its first event. *)
Definition window_of (evs : list Tic.SecureEvent) (w : nat) (sq : Tic.EventSequence)
    : Prop :=
  3 <= length (Tic.events sq) <= w /\
  (exists fp,
     Forall (fun e => Tic.sessionFingerprint e = fp /\ In e evs) (Tic.events sq)) /\
  StronglySorted in_sequence (Tic.events sq) /\
  (exists first,
     head (Tic.events sq) = Some first /\
     Tic.timestamp sq = Tic.timestampBucket first) /\
  Tic.embedding sq
  = Tic.averageVectors
      (List.filter (fun v => negb (length v =? 0)%nat)
         (map Tic.intentVector (Tic.events sq))).

(** The sequences [ms] are those at the indices [js]. *)
Definition indexed (sequences ms : list Tic.EventSequence) (js : list nat) : Prop :=
  Forall2 (fun m j => sequences !! j = Some m) ms js.

(** A cluster as the clustering builds it: a seed followed by sequences
    that are near the seed, with the seed's and the members' labels and the
    average of the members' embeddings. *)
Definition cluster_of (getTime : string -> float) (c : Tic.Cluster) : Prop :=
  exists seed rest,
    Tic.members c = seed :: rest /\
    Forall (fun m => Tic.near getTime seed m = true) rest /\
    Tic.intentLabels c
    = flat_map (fun m => map Tic.intentLabel (Tic.events m)) (Tic.members c) /\
    Tic.centroid c = Tic.averageVectors (map Tic.embedding (Tic.members c)).

(** The inner loop of the clustering, for the seed [si] at index [i], when
    the earlier clusters took the indices [taken]. *)
Definition absorbing (getTime : string -> float) (sequences : list Tic.EventSequence)
    (i : nat) (si : Tic.EventSequence) (taken : list nat)
    (st : Tic.Cluster * gset nat) : Prop :=
  exists rest g,
    Tic.members (fst st) = si :: rest /\
    Forall (fun m => Tic.near getTime si m = true) rest /\
    Tic.intentLabels (fst st)
    = flat_map (fun m => map Tic.intentLabel (Tic.events m)) (Tic.members (fst st)) /\
    indexed sequences rest g /\
    NoDup (taken ++ i :: g) /\
    (forall j, j ∈ snd st <-> In j (taken ++ i :: g)) /\
    (forall j, j ∈ snd st -> j < length sequences).

(** The outer loop of the clustering, before index [i]. *)
Definition growing (getTime : string -> float) (sequences : list Tic.EventSequence)
    (i : nat) (st : list Tic.Cluster * gset nat) : Prop :=
  exists groups,
    Forall2 (fun c g => indexed sequences (Tic.members c) g) (fst st) groups /\
    Forall (cluster_of getTime) (fst st) /\
    NoDup (concat groups) /\
    (forall j, j ∈ snd st <-> In j (concat groups)) /\
    (forall j, j ∈ snd st -> j < length sequences) /\
    (forall j, j < i -> j ∈ snd st).

(** A pattern that lists, once each, intent labels and structural hashes
    of the events [evs], for the organisation [org]. *)
Definition summarises (evs : list Tic.SecureEvent) (org : string)
    (p : Tic.DetectedPattern) : Prop :=
  NoDup (Tic.intentSequence p) /\
  NoDup (Tic.structuralHashes p) /\
  (forall x, In x (Tic.intentSequence p) ->
     exists e, In e evs /\ Tic.intentLabel e = x) /\
  (forall h, In h (Tic.structuralHashes p) ->
     exists e, In e evs /\ Tic.structuralHash e = h) /\
  Tic.orgId p = org.

(** What one round of the loop over the clusters can change. *)
Definition little_changed (st st' : list Tic.DetectedPattern * list Tic.pattern_row)
    (rounds : nat) : Prop :=
  length (fst st) <= length (fst st') <= length (fst st) + rounds /\
  length (snd st) <= length (snd st')
    <= length (snd st) + (length (fst st') - length (fst st)) /\
  (forall x, In x (snd st) ->
     exists y, In y (snd st') /\ Tic.row_id y = Tic.row_id x) /\
  (length (fst st') = length (fst st) -> snd st' = snd st).

(** ** Event transmitter (the extension's transport of SecureEvents)

    The transmitter's callbacks run one at a time; a callback that awaits
    ([flush], through [sendBatch]) can be overtaken by others while it
    waits.  [enqueue] and the synchronous start of [flush] are modelled as
    they run; the rest of a flush is modelled run to its end, with no other
    callback in between. *)

Module Transmitter.

Record TransmitterConfig := {
  endpoint : string;
  apiKey : string;
  maxBatchSize : nat;
  flushIntervalMs : Z;
  maxRetries : nat;
  retryBaseMs : Z
}.

Definition DEFAULT_CONFIG : TransmitterConfig :=
  {| endpoint := ""; apiKey := ""; maxBatchSize := 100; flushIntervalMs := 10000;
     maxRetries := 3; retryBaseMs := 1000 |}.

Record SecureEventBatch := {
  events : list Pipeline.SecureEvent;
  deviceFingerprint : string;
  batchId : string;
  sentAt : string
}.

(** What [fetch] gives: a response, with its status and its Retry-After
    header ([None] when the header is absent), or a rejection. *)
Inductive response :=
| Answer (status : Z) (retryAfter : option string)
| Rejected.

(** The calls of [delay]: after a 429 with the seconds [parseInt] read
    ([None] is NaN), or before a retry with the milliseconds of the
    backoff. *)
Inductive wait :=
| RetryAfter (seconds : option Z)
| Backoff (ms : Z).

Record stats := {
  totalSent : nat;
  totalFailed : nat;
  totalDropped : nat;
  totalBatches : nat
}.

(** The transmitter's fields, and what it has done to the world: the
    requests it posted with what came back, the delays it waited, and the
    value under [ghost_failed_batches] in [chrome.storage.local]. *)
Record state := {
  config : TransmitterConfig;
  buffer : list Pipeline.SecureEvent;
  isFlushing : bool;
  failedBatches : list SecureEventBatch;
  eventsSentThisMinute : nat;
  device : string;
  counts : stats;
  flushes : nat;
  posted : list (SecureEventBatch * response);
  waited : list wait;
  stored : option (list SecureEventBatch)
}.

Definition set_buffer (b : list Pipeline.SecureEvent) (s : state) : state :=
  {| config := config s; buffer := b; isFlushing := isFlushing s;
     failedBatches := failedBatches s; eventsSentThisMinute := eventsSentThisMinute s;
     device := device s; counts := counts s; flushes := flushes s;
     posted := posted s; waited := waited s; stored := stored s |}.

Definition set_isFlushing (f : bool) (s : state) : state :=
  {| config := config s; buffer := buffer s; isFlushing := f;
     failedBatches := failedBatches s; eventsSentThisMinute := eventsSentThisMinute s;
     device := device s; counts := counts s; flushes := flushes s;
     posted := posted s; waited := waited s; stored := stored s |}.

Definition set_failedBatches (l : list SecureEventBatch) (s : state) : state :=
  {| config := config s; buffer := buffer s; isFlushing := isFlushing s;
     failedBatches := l; eventsSentThisMinute := eventsSentThisMinute s;
     device := device s; counts := counts s; flushes := flushes s;
     posted := posted s; waited := waited s; stored := stored s |}.

Definition set_eventsSentThisMinute (n : nat) (s : state) : state :=
  {| config := config s; buffer := buffer s; isFlushing := isFlushing s;
     failedBatches := failedBatches s; eventsSentThisMinute := n;
     device := device s; counts := counts s; flushes := flushes s;
     posted := posted s; waited := waited s; stored := stored s |}.

Definition set_counts (c : stats) (s : state) : state :=
  {| config := config s; buffer := buffer s; isFlushing := isFlushing s;
     failedBatches := failedBatches s; eventsSentThisMinute := eventsSentThisMinute s;
     device := device s; counts := c; flushes := flushes s;
     posted := posted s; waited := waited s; stored := stored s |}.

Definition set_flushes (n : nat) (s : state) : state :=
  {| config := config s; buffer := buffer s; isFlushing := isFlushing s;
     failedBatches := failedBatches s; eventsSentThisMinute := eventsSentThisMinute s;
     device := device s; counts := counts s; flushes := n;
     posted := posted s; waited := waited s; stored := stored s |}.

Definition set_posted (l : list (SecureEventBatch * response)) (s : state) : state :=
  {| config := config s; buffer := buffer s; isFlushing := isFlushing s;
     failedBatches := failedBatches s; eventsSentThisMinute := eventsSentThisMinute s;
     device := device s; counts := counts s; flushes := flushes s;
     posted := l; waited := waited s; stored := stored s |}.

Definition set_waited (l : list wait) (s : state) : state :=
  {| config := config s; buffer := buffer s; isFlushing := isFlushing s;
     failedBatches := failedBatches s; eventsSentThisMinute := eventsSentThisMinute s;
     device := device s; counts := counts s; flushes := flushes s;
     posted := posted s; waited := l; stored := stored s |}.

Definition set_stored (l : option (list SecureEventBatch)) (s : state) : state :=
  {| config := config s; buffer := buffer s; isFlushing := isFlushing s;
     failedBatches := failedBatches s; eventsSentThisMinute := eventsSentThisMinute s;
     device := device s; counts := counts s; flushes := flushes s;
     posted := posted s; waited := waited s; stored := l |}.

(** [this.delay(ms)] *)
Definition delay (d : wait) (s : state) : state :=
  set_waited (waited s ++ [d]) s.

(** [this.config.retryBaseMs * Math.pow(2, retryCount)] *)
Definition backoff (c : TransmitterConfig) (retryCount : nat) : Z :=
  (retryBaseMs c * 2 ^ Z.of_nat retryCount)%Z.

Section World.

(** The k-th call of [fetch], posting the batch. *)
Variable fetch : nat -> SecureEventBatch -> response.
(** [parseInt(s, 10)]: [None] is NaN. *)
Variable parseInt : string -> option Z.
(** Whether [chrome.storage.local] is there and its [set] resolves. *)
Variable storage_available : bool.
Variable randomUUID : nat -> string.
(** [new Date().toISOString()] *)
Variable now : nat -> string.

(** Persist failed batches to chrome.storage.local: the last 10. *)
Definition persistFailedBatches (s : state) : state :=
  if storage_available
  then set_stored
         (Some (skipn (length (failedBatches s) - 10) (failedBatches s))) s
  else s.

(** The end of [sendBatch] when the batch has failed for good. *)
Definition fail (batch : SecureEventBatch) (s : state) : state :=
  let c := counts s in
  persistFailedBatches
    (set_failedBatches (failedBatches s ++ [batch])
       (set_counts
          {| totalSent := totalSent c;
             totalFailed := totalFailed c + length (events batch);
             totalDropped := totalDropped c;
             totalBatches := totalBatches c |} s)).

(** Send a batch to the edge function.  [None]: the fuel did not suffice. *)
Fixpoint sendBatch (fuel : nat) (batch : SecureEventBatch) (retryCount : nat)
    (s : state) : option state :=
  match fuel with
  | O => None
  | S fuel =>
    if String.eqb (endpoint (config s)) ""
    then Some (set_failedBatches (failedBatches s ++ [batch]) s)
    else
      let r := fetch (length (posted s)) batch in
      let s := set_posted (posted s ++ [(batch, r)]) s in
      match r with
      | Answer status retryAfter =>
        if ((status =? 202) || (status =? 200))%Z
        then
          let c := counts s in
          Some (set_eventsSentThisMinute
                  (eventsSentThisMinute s + length (events batch))
                  (set_counts
                     {| totalSent := totalSent c + length (events batch);
                        totalFailed := totalFailed c;
                        totalDropped := totalDropped c;
                        totalBatches := S (totalBatches c) |} s))
        else if (status =? 429)%Z
        then
          let header :=
            match retryAfter with
            | Some h => if String.eqb h "" then "60" else h
            | None => "60"
            end in
          sendBatch fuel batch retryCount (delay (RetryAfter (parseInt header)) s)
        else if ((500 <=? status)%Z && (retryCount <? maxRetries (config s))%nat)
        then sendBatch fuel batch (S retryCount)
               (delay (Backoff (backoff (config s) retryCount)) s)
        else Some (fail batch s)
      | Rejected =>
        if (retryCount <? maxRetries (config s))%nat
        then sendBatch fuel batch (S retryCount)
               (delay (Backoff (backoff (config s) retryCount)) s)
        else Some (fail batch s)
      end
  end.

Fixpoint send_each (fuel : nat) (batches : list SecureEventBatch) (s : state)
    : option state :=
  match batches with
  | [] => Some s
  | batch :: rest =>
    match sendBatch fuel batch 0 s with
    | Some s' => send_each fuel rest s'
    | None => None
    end
  end.

(** Retry failed batches. *)
Definition retryFailedBatches (fuel : nat) (s : state) : option state :=
  let batches := failedBatches s in
  send_each fuel batches (set_failedBatches [] s).

(** [flush] up to its first [await]: [None] when it returns at once,
    otherwise the batch it took from the buffer. *)
Definition flush_take (s : state) : option (SecureEventBatch * state) :=
  if isFlushing s || (length (buffer s) =? 0)%nat then None
  else
    let s1 := set_isFlushing true s in
    let taken := firstn (maxBatchSize (config s1)) (buffer s1) in
    let s2 := set_buffer (skipn (maxBatchSize (config s1)) (buffer s1)) s1 in
    Some ({| events := taken;
             deviceFingerprint := device s2;
             batchId := randomUUID (flushes s2);
             sentAt := now (flushes s2) |},
          set_flushes (S (flushes s2)) s2).

(** The rest of [flush]. *)
Definition flush_send (fuel : nat) (batch : SecureEventBatch) (s : state)
    : option state :=
  match sendBatch fuel batch 0 s with
  | None => None
  | Some s1 =>
    match retryFailedBatches fuel s1 with
    | None => None
    | Some s2 => Some (set_isFlushing false s2)
    end
  end.

(** Force-flush all buffered events. *)
Definition flush (fuel : nat) (s : state) : option state :=
  match flush_take s with
  | None => Some s
  | Some (batch, s1) => flush_send fuel batch s1
  end.

(** Queue a SecureEvent for transmission: the state when [enqueue]
    returns, and the batch of the flush it has started, if any. *)
Definition enqueue (event : Pipeline.SecureEvent) (s : state)
    : state * option SecureEventBatch :=
  if (1000 <=? eventsSentThisMinute s)%nat
  then
    let c := counts s in
    (set_counts
       {| totalSent := totalSent c;
          totalFailed := totalFailed c;
          totalDropped := S (totalDropped c);
          totalBatches := totalBatches c |} s, None)
  else
    let s1 := set_buffer (buffer s ++ [event]) s in
    if (maxBatchSize (config s1) <=? length (buffer s1))%nat
    then
      match flush_take s1 with
      | Some (batch, s2) => (s2, Some batch)
      | None => (s1, None)
      end
    else (s1, None).

End World.

End Transmitter.

(** *** Scenarios and predicates for the transmitter *)

(** A response that accepts the batch, and one that asks to slow down. *)
Definition accepted (r : Transmitter.response) : bool :=
  match r with
  | Transmitter.Answer status _ => ((status =? 202) || (status =? 200))%Z
  | Transmitter.Rejected => false
  end.

Definition slow_down (r : Transmitter.response) : bool :=
  match r with
  | Transmitter.Answer status _ => (status =? 429)%Z
  | Transmitter.Rejected => false
  end.

(** The batches the server has accepted, in order. *)
Definition delivered (s : Transmitter.state) : list Transmitter.SecureEventBatch :=
  map fst (List.filter (fun p => accepted (snd p)) (Transmitter.posted s)).

(** The events the transmitter answers for: those it buffers, those of its
    failed batches and those of the batches the server accepted. *)
Definition held (s : Transmitter.state) : list Pipeline.SecureEvent :=
  Transmitter.buffer s
  ++ flat_map Transmitter.events (Transmitter.failedBatches s)
  ++ flat_map Transmitter.events (delivered s).

Definition sample_secure_event (n : Z) : Pipeline.SecureEvent :=
  {| Pipeline.sessionFingerprint := "5f2a9c1e";
     Pipeline.timestampBucket := 1709546400000;
     Pipeline.intentVector := [];
     Pipeline.structuralHash := "a1b2c3d4";
     Pipeline.orgId := "org-1";
     Pipeline.eventType := Encoder.user_int;
     Pipeline.intentLabel := Encoder.data_entry;
     Pipeline.intentConfidence := 0;
     Pipeline.elementSignature := None;
     Pipeline.sequenceNumber := n |}.

Definition sample_batch : Transmitter.SecureEventBatch :=
  {| Transmitter.events := [sample_secure_event 1; sample_secure_event 2];
     Transmitter.deviceFingerprint := "9c0d";
     Transmitter.batchId := "b-1";
     Transmitter.sentAt := "2024-03-04T10:00:00.000Z" |}.

(** A transmitter as the service worker configures it, with two events in
    its buffer and one failed batch. *)
Definition sample_transmitter : Transmitter.state :=
  {| Transmitter.config :=
       {| Transmitter.endpoint := "https://ghost.example/functions/v1/ingest-events";
          Transmitter.apiKey := "anon";
          Transmitter.maxBatchSize := 100;
          Transmitter.flushIntervalMs := 10000;
          Transmitter.maxRetries := 3;
          Transmitter.retryBaseMs := 1000 |};
     Transmitter.buffer := [sample_secure_event 3; sample_secure_event 4];
     Transmitter.isFlushing := false;
     Transmitter.failedBatches := [sample_batch];
     Transmitter.eventsSentThisMinute := 0;
     Transmitter.device := "9c0d";
     Transmitter.counts :=
       {| Transmitter.totalSent := 0; Transmitter.totalFailed := 2;
          Transmitter.totalDropped := 0; Transmitter.totalBatches := 0 |};
     Transmitter.flushes := 1;
     Transmitter.posted := [];
     Transmitter.waited := [];
     Transmitter.stored := None |}.

Definition server_down (k : nat) (b : Transmitter.SecureEventBatch)
    : Transmitter.response :=
  Transmitter.Answer 503 None.

Definition server_busy (k : nat) (b : Transmitter.SecureEventBatch)
    : Transmitter.response :=
  Transmitter.Answer 429 (Some "1").

Definition decimal_stub (s : string) : option Z :=
  if String.eqb s "1" then Some 1%Z else if String.eqb s "60" then Some 60%Z else None.

Definition uuid_stub (k : nat) : string := "b-" ++ Hmac.decimal (Z.of_nat (S k)).

Definition clock_stub (k : nat) : string := "2024-03-04T10:00:10.000Z".

(** A response after which [sendBatch] tries again while it has retries
    left: a server error or a rejected request. *)
Definition retriable (r : Transmitter.response) : bool :=
  match r with
  | Transmitter.Answer status _ => (500 <=? status)%Z
  | Transmitter.Rejected => true
  end.

(** The fields a call of [sendBatch] leaves alone. *)
Definition same_queue (s s' : Transmitter.state) : Prop :=
  Transmitter.config s' = Transmitter.config s /\
  Transmitter.buffer s' = Transmitter.buffer s /\
  Transmitter.isFlushing s' = Transmitter.isFlushing s /\
  Transmitter.flushes s' = Transmitter.flushes s /\
  Transmitter.device s' = Transmitter.device s /\
  Transmitter.totalDropped (Transmitter.counts s')
  = Transmitter.totalDropped (Transmitter.counts s).

(** What a call of [sendBatch] at retry count [rc], with [n] retries left,
    has done from [s] to [s'] when it made [k] retries. *)
Definition gave_up_or_sent
    (fetch : nat -> Transmitter.SecureEventBatch -> Transmitter.response)
    (storage_available : bool)
    (b : Transmitter.SecureEventBatch) (rc n : nat) (s s' : Transmitter.state)
    (k : nat) : Prop :=
  let asked := length (Transmitter.posted s) in
  k <= n /\
  same_queue s s' /\
  Transmitter.posted s'
  = Transmitter.posted s ++ map (fun i => (b, fetch (asked + i) b)) (seq 0 (S k)) /\
  Transmitter.waited s'
  = Transmitter.waited s
    ++ map (fun i => Transmitter.Backoff (Transmitter.backoff (Transmitter.config s) i))
         (seq rc k) /\
  (forall i, i < k -> retriable (fetch (asked + i) b) = true /\
                      accepted (fetch (asked + i) b) = false) /\
  if accepted (fetch (asked + k) b)
  then Transmitter.failedBatches s' = Transmitter.failedBatches s /\
       Transmitter.totalSent (Transmitter.counts s')
       = Transmitter.totalSent (Transmitter.counts s) + length (Transmitter.events b) /\
       Transmitter.totalBatches (Transmitter.counts s')
       = S (Transmitter.totalBatches (Transmitter.counts s)) /\
       Transmitter.totalFailed (Transmitter.counts s')
       = Transmitter.totalFailed (Transmitter.counts s)
  else Transmitter.failedBatches s' = Transmitter.failedBatches s ++ [b] /\
       Transmitter.totalFailed (Transmitter.counts s')
       = Transmitter.totalFailed (Transmitter.counts s) + length (Transmitter.events b) /\
       Transmitter.totalSent (Transmitter.counts s')
       = Transmitter.totalSent (Transmitter.counts s) /\
       (k = n \/ retriable (fetch (asked + k) b) = false) /\
       (storage_available = true ->
        exists kept, Transmitter.stored s' = Some kept /\ length kept <= 10 /\
                     suffix kept (Transmitter.failedBatches s')).
(** * Theorems *)

(** ** approve-ghost *)

Section ApproveFacts.
Import Approve.
#[local] Open Scope Z_scope.

Lemma present_Some (o : option string) (s : string) :
  present o = Some s -> o = Some s /\ s <> "".
Proof.
  unfold present. destruct o as [t|]; [|discriminate].
  destruct (String.eqb_spec t ""); [discriminate|].
  intros [= ->]. split; [reflexivity | assumption].
Qed.

(** In a consistent store the pair (ghost, version + 1) is still free. *)
Lemma version_free (db : store) (id : string) (g : ghost) :
  consistent db -> ghosts db !! id = Some g ->
  version_taken id (g_version g + 1) (ghost_versions db) = false.
Proof.
  intros [_ Hrows] Hg. unfold version_taken.
  apply not_true_is_false. intros Hex.
  apply existsb_exists in Hex as (r & Hin & Hr).
  apply andb_true_iff in Hr as [Hid Hv].
  apply String.eqb_eq in Hid. apply Z.eqb_eq in Hv.
  specialize (Hrows r g Hin). rewrite Hid in Hrows.
  specialize (Hrows Hg). lia.
Qed.

(** What one approve call does to a stored ghost, whatever its status. *)
Lemma approve_step (now : string) (req : request) (b : body) (db : store)
    (id : string) (g : ghost) :
  method req <> "OPTIONS" ->
  payload req = Some b ->
  present (ghost_id b) = Some id ->
  present (action b) = Some "approve" ->
  consistent db ->
  ghosts db !! id = Some g ->
  update_ok req = true ->
  -2147483648 <= g_version g + 1 <= 2147483647 ->
  exists g' row,
    serve now req db =
      (Success id "approve" "approved" (g_version g + 1),
       {| ghosts := <[id := g']> (ghosts db);
          ghost_versions := ghost_versions db ++ [row];
          approval_requests :=
            map (resolve_request id "approve" (or_default (approved_by b) "system")
                   (decision_note b) now) (approval_requests db) |}) /\
    g_id g' = id /\ g_status g' = "approved" /\ g_is_active g' = true /\
    g_version g' = g_version g + 1 /\
    g_execution_plan g' = g_execution_plan g /\
    v_ghost_id row = id /\ v_version row = g_version g + 1 /\
    v_execution_plan row = g_execution_plan g /\
    v_parameters row = g_parameters g /\ v_trigger row = g_trigger g.
Proof.
  intros Hm Hp Hid Hact Hc Hg Hok Hfit.
  assert (Hgid : g_id g = id) by (destruct Hc as [Hc _]; eauto).
  assert (Hin : update_accepted req (g_version g + 1) = true).
  { unfold update_accepted, in_integer. rewrite Hok. cbn [andb].
    apply andb_true_iff. split; apply Z.leb_le; lia. }
  unfold serve.
  destruct (String.eqb_spec (method req) "OPTIONS") as [E|_]; [contradiction|].
  rewrite Hp, Hid, Hact. cbn [includes valid_actions existsb String.eqb negb].
  change (negb (includes valid_actions "approve")) with false. cbv iota.
  rewrite Hg. cbn [String.eqb Ascii.eqb Bool.eqb orb statusMap].
  change (statusMap "approve") with "approved".
  change (String.eqb "approve" "approve") with true. cbv iota.
  rewrite Hin. cbn [negb].
  unfold insert_version. cbn [v_ghost_id v_version].
  rewrite Hgid, (version_free db id g Hc Hg).
  eexists _, _. split; [reflexivity|]. cbn. repeat split; assumption.
Qed.

(** When the store does not carry out the update, and at the top of the
    column, the call answers 500 and nothing changes. *)
Lemma approve_overflow (now : string) (req : request) (b : body) (db : store)
    (id : string) (g : ghost) :
  method req <> "OPTIONS" ->
  payload req = Some b ->
  present (ghost_id b) = Some id ->
  present (action b) = Some "approve" ->
  ghosts db !! id = Some g ->
  update_ok req = false \/ 2147483647 <= g_version g ->
  serve now req db = (Failure 500 "Failed to update ghost", db).
Proof.
  intros Hm Hp Hid Hact Hg Htop.
  assert (Hin : update_accepted req (g_version g + 1) = false).
  { unfold update_accepted, in_integer. destruct Htop as [->|Htop]; [reflexivity|].
    apply andb_false_iff. right. apply andb_false_iff. right. apply Z.leb_gt. lia. }
  unfold serve.
  destruct (String.eqb_spec (method req) "OPTIONS") as [E|_]; [contradiction|].
  rewrite Hp, Hid, Hact.
  change (negb (includes valid_actions "approve")) with false. cbv iota.
  rewrite Hg. cbv zeta.
  change (String.eqb "approve" "approve") with true. cbv iota.
  rewrite Hin. reflexivity.
Qed.

(** The handler keeps the store consistent, whatever the request. *)
Lemma serve_consistent (now : string) (req : request) (db : store) :
  consistent db -> consistent (snd (serve now req db)).
Proof.
  intros Hc. unfold serve.
  destruct (String.eqb (method req) "OPTIONS"); [exact Hc|].
  destruct (payload req) as [b|]; [|exact Hc].
  destruct (present (ghost_id b)) as [id|]; [|exact Hc].
  destruct (present (action b)) as [act|]; [|exact Hc].
  destruct (negb (includes valid_actions act)); [exact Hc|].
  destruct (ghosts db !! id) as [g|] eqn:Hg; [|exact Hc].
  cbv zeta. destruct (negb (update_accepted _ _)); [exact Hc|].
  destruct Hc as [Hids Hrows].
  assert (Hgid : g_id g = id) by eauto.
  cbn [snd]. split; cbn [ghosts ghost_versions].
  - intros id' g' Hl. destruct (decide (id = id')) as [<-|Hne].
    + rewrite lookup_insert_eq in Hl. injection Hl as <-. exact Hgid.
    + rewrite lookup_insert_ne in Hl by assumption. eauto.
  - intros r g' Hin Hl.
    assert (Hold : forall r0, In r0 (ghost_versions db) ->
                   <[id:=g']> (ghosts db) !! v_ghost_id r0 = Some g' ->
                   v_version r0 <= g_version g + 1 -> True) by trivial.
    assert (Hcase : In r (ghost_versions db) \/
                    (String.eqb act "approve" = true /\ v_ghost_id r = id /\
                     v_version r = g_version g + 1)).
    { destruct (String.eqb act "approve") eqn:Ea; [|left; exact Hin].
      unfold insert_version in Hin. cbn [v_ghost_id v_version] in Hin.
      destruct (version_taken _ _ _); [left; exact Hin|].
      apply in_app_or in Hin as [Hin|[<-|[]]]; [left; exact Hin|].
      right. cbn. auto. }
    destruct (decide (id = v_ghost_id r)) as [E|Hne].
    + rewrite <- E, lookup_insert_eq in Hl. injection Hl as <-. cbn [g_version].
      destruct Hcase as [Hin'|(Ea & _ & Hv)].
      * specialize (Hrows r g Hin'). rewrite <- E in Hrows. specialize (Hrows Hg).
        destruct (String.eqb act "approve"); lia.
      * rewrite Ea. lia.
    + rewrite lookup_insert_ne in Hl by assumption.
      destruct Hcase as [Hin'|(_ & E & _)]; [eauto | congruence].
Qed.

Lemma serve_all_consistent (now : string) (reqs : list request) (db : store) :
  consistent db -> consistent (serve_all now reqs db).
Proof.
  revert db. induction reqs as [|r reqs IH]; intros db Hc; [exact Hc|].
  cbn. apply IH, serve_consistent, Hc.
Qed.

Lemma versions_of_app (id : string) (gs : gmap string ghost)
    (rows : list version_row) (row : version_row) (reqs : list approval_request) :
  v_ghost_id row = id ->
  versions_of id {| ghosts := gs; ghost_versions := rows ++ [row];
                    approval_requests := reqs |}
  = filter (fun r => v_ghost_id r = id) rows ++ [row].
Proof.
  intros E. unfold versions_of. cbn [ghost_versions].
  rewrite filter_app. f_equal. cbn. rewrite decide_True by assumption.
  reflexivity.
Qed.

(** [n] approve calls in a row advance the version [n] times and leave [n]
    new version rows. *)
Lemma approve_repeat (now : string) (id : string) (n : nat) :
  id <> "" ->
  forall (db : store) (g : ghost),
  consistent db -> ghosts db !! id = Some g ->
  -2147483648 <= g_version g ->
  g_version g + Z.of_nat n <= 2147483647 ->
  let db' := serve_all now (repeat (approve_request id) n) db in
  exists g',
    ghosts db' !! id = Some g' /\
    g_version g' = g_version g + Z.of_nat n /\
    length (versions_of id db') = (length (versions_of id db) + n)%nat.
Proof.
  intros Hid. induction n as [|n IH]; intros db g Hc Hg Hlo Hhi.
  - cbn. exists g. rewrite Z.add_0_r, Nat.add_0_r. auto.
  - cbn [repeat serve_all].
    assert (Hpres : present (Some id) = Some id).
    { unfold present. destruct (String.eqb_spec id ""); congruence. }
    edestruct (approve_step now (approve_request id)) as
      (g1 & row & Hs & Hg1 & Hst & _ & Hv & _ & Hrid & _);
      [discriminate | reflexivity | exact Hpres | reflexivity | exact Hc | exact Hg
       | reflexivity | lia |].
    pose proof (serve_consistent now (approve_request id) db Hc) as Hc1.
    rewrite Hs in Hc1 |- *. cbn [snd] in Hc1 |- *.
    match goal with |- context [serve_all _ _ ?d] => set (db1 := d) in * end.
    assert (Hl1 : ghosts db1 !! id = Some g1) by apply lookup_insert_eq.
    destruct (IH db1 g1 Hc1 Hl1) as (g' & Hl & Hv' & Hlen); [lia | lia |].
    exists g'. repeat split.
    + exact Hl.
    + lia.
    + rewrite Hlen. unfold db1. rewrite versions_of_app by assumption.
      rewrite length_app. unfold versions_of. cbn. lia.
Qed.

End ApproveFacts.

Lemma approve_db0_consistent : Approve.consistent approve_db0.
Proof.
  split.
  - intros id g H. unfold approve_db0 in H. cbn in H.
    apply lookup_singleton_Some in H as [<- <-]. reflexivity.
  - intros r g [].
Qed.

(** C3 (as stated, refuted): a second approve call on the ghost that the
    first call already approved advances the version again, from 2 to 3, and
    stores a second version row; and a ghost in pending_approval is not
    approved when the update fails, as it does for a version that is the
    last the column can hold: the call answers 500 and nothing changes. *)
Lemma approve_twice_advances_twice :
  let req := Approve.approve_request "g1" in
  let db1 := snd (Approve.serve "t1" req approve_db0) in
  let db2 := snd (Approve.serve "t2" req db1) in
  (Approve.g_status <$> Approve.ghosts db1 !! "g1") = Some "approved" /\
  (Approve.g_version <$> Approve.ghosts db1 !! "g1") = Some 2%Z /\
  fst (Approve.serve "t2" req db1) = Approve.Success "g1" "approve" "approved" 3 /\
  (Approve.g_version <$> Approve.ghosts db2 !! "g1") = Some 3%Z /\
  length (Approve.ghost_versions db2) = 2%nat /\
  (Approve.g_status <$> Approve.ghosts approve_db_top !! "g1") = Some "pending_approval" /\
  Approve.serve "t1" req approve_db_top
  = (Approve.Failure 500 "Failed to update ghost", approve_db_top) /\
  Approve.serve "t1"
    {| Approve.method := "POST"; Approve.payload := Approve.payload req;
       Approve.update_ok := false |} approve_db0
  = (Approve.Failure 500 "Failed to update ghost", approve_db0).
Proof. vm_compute. repeat split; reflexivity. Qed.

(** C3 (amended): approve applied to a stored ghost, whatever its status,
    sets status approved and is_active true, advances the version by exactly
    one and appends exactly one ghost_versions row carrying the new version
    and the ghost's plan, parameters and trigger, when the store carries
    out the update and the new version fits the 32-bit version column; the
    store stays consistent, so [n] approve calls in a row advance the
    version by [n] and append [n] rows.  When the update fails, as it does
    at the top of the column, the call answers 500 and changes nothing. *)
Theorem approve_advances_version_each_call
    (now : string) (req : Approve.request) (b : Approve.body)
    (db : Approve.store) (id : string) (g : Approve.ghost) :
  Approve.method req <> "OPTIONS" ->
  Approve.payload req = Some b ->
  Approve.present (Approve.ghost_id b) = Some id ->
  Approve.present (Approve.action b) = Some "approve" ->
  Approve.consistent db ->
  Approve.ghosts db !! id = Some g ->
  (-2147483648 <= Approve.g_version g)%Z ->
  (Approve.update_ok req = true -> (Approve.g_version g < 2147483647)%Z ->
   exists g' row,
     fst (Approve.serve now req db)
       = Approve.Success id "approve" "approved" (Approve.g_version g + 1) /\
     Approve.ghosts (snd (Approve.serve now req db)) !! id = Some g' /\
     Approve.g_status g' = "approved" /\ Approve.g_is_active g' = true /\
     Approve.g_version g' = (Approve.g_version g + 1)%Z /\
     Approve.ghost_versions (snd (Approve.serve now req db))
       = Approve.ghost_versions db ++ [row] /\
     Approve.v_ghost_id row = id /\
     Approve.v_version row = (Approve.g_version g + 1)%Z /\
     Approve.v_execution_plan row = Approve.g_execution_plan g /\
     Approve.v_parameters row = Approve.g_parameters g /\
     Approve.v_trigger row = Approve.g_trigger g) /\
  (Approve.update_ok req = false \/ (2147483647 <= Approve.g_version g)%Z ->
   Approve.serve now req db = (Approve.Failure 500 "Failed to update ghost", db)) /\
  Approve.consistent (snd (Approve.serve now req db)) /\
  (forall n : nat,
     (Approve.g_version g + Z.of_nat n <= 2147483647)%Z ->
     exists gn,
       Approve.ghosts
         (Approve.serve_all now (repeat (Approve.approve_request id) n) db) !! id
         = Some gn /\
       Approve.g_version gn = (Approve.g_version g + Z.of_nat n)%Z /\
       length (Approve.versions_of id
                 (Approve.serve_all now (repeat (Approve.approve_request id) n) db))
         = (length (Approve.versions_of id db) + n)%nat).
Proof.
  intros Hm Hp Hid Hact Hc Hg Hlo.
  split; [|split; [|split]].
  - intros Hok Hhi.
    destruct (approve_step now req b db id g Hm Hp Hid Hact Hc Hg Hok ltac:(lia))
      as (g' & row & Hs & H1 & H2 & H3 & H4 & H5 & H6 & H7 & H8 & H9 & H10).
    exists g', row. rewrite Hs. cbn [fst snd Approve.ghosts Approve.ghost_versions].
    rewrite lookup_insert_eq. repeat split; assumption.
  - intros Htop. exact (approve_overflow now req b db id g Hm Hp Hid Hact Hg Htop).
  - apply serve_consistent, Hc.
  - intros n Hn. apply present_Some in Hid as [_ Hne].
    destruct (approve_repeat now id n Hne db g Hc Hg Hlo Hn) as (gn & Hl & Hv & Hlen).
    exists gn. auto.
Qed.

Lemma approve_advances_version_each_call_witness :
  exists g',
    Approve.ghosts (snd (Approve.serve "t1" (Approve.approve_request "g1") approve_db0))
      !! "g1" = Some g' /\
    Approve.g_version g' = 2%Z.
Proof.
  destruct (approve_advances_version_each_call "t1" (Approve.approve_request "g1")
              {| Approve.ghost_id := Some "g1"; Approve.action := Some "approve";
                 Approve.decision_note := None; Approve.approved_by := None |}
              approve_db0 "g1"
              {| Approve.g_id := "g1"; Approve.g_name := "Weekly report";
                 Approve.g_status := "pending_approval";
                 Approve.g_is_active := false; Approve.g_version := 1;
                 Approve.g_execution_plan := JArr [];
                 Approve.g_parameters := JArr [];
                 Approve.g_trigger := JObj [];
                 Approve.g_updated_at := "2024-01-01T00:00:00.000Z" |})
    as [Hstep _].
  - discriminate.
  - reflexivity.
  - reflexivity.
  - reflexivity.
  - exact approve_db0_consistent.
  - reflexivity.
  - cbn. lia.
  - destruct Hstep as (g' & row & _ & Hl & _ & _ & Hv & _); [reflexivity | cbn; lia|].
    exists g'. split; [exact Hl | exact Hv].
Defined.

(** ** ingest-events *)

(** C2 (the code at the failing input): eleven full batches from one device
    within eleven seconds are all answered 202, so 1100 events of that device
    are accepted and stored inside one minute; the limiter has counted the
    eleven requests, not the events. *)
Theorem ingest_counts_requests_not_events :
  let run := Ingest.serve_all (map ingest_full_batch (seq 0 11)) Ingest.initial in
  map Ingest.status (fst run) = repeat 202%Z 11 /\
  Ingest.accepted_events (fst run) = 1100%nat /\
  length (Ingest.secure_events (snd run)) = 1100%nat /\
  (Ingest.count <$> Ingest.rateLimits (snd run) !! "devA") = Some 11%Z.
Proof. vm_compute. repeat split; reflexivity. Qed.

(** ** ghost-executor *)

Section ExecutorFacts.
Import Executor.

Variable llm_complete : nat -> llm_request -> option llm_response.
Variable fetch : nat -> fetch_request -> option fetch_response.
Variable json_parse : string -> option json.
Variable to_string : option json -> string.

Abbreviation executeNode := (Executor.executeNode fetch json_parse to_string).
Abbreviation attemptSelfHealing :=
  (Executor.attemptSelfHealing llm_complete fetch json_parse to_string).
Abbreviation run_plan := (Executor.run_plan llm_complete fetch json_parse to_string).
Abbreviation createExecutionPlan := (Executor.createExecutionPlan llm_complete json_parse).

(** Case analysis on the monadic code: name every scrutinee. *)
Ltac step_match :=
  match goal with
  | H : context [match ?x with _ => _ end] |- _ =>
    let E := fresh "E" in destruct x eqn:E; try discriminate
  end.

Ltac unfold_m :=
  unfold bind, ret, lift, try_catch, call_llm, call_fetch in *.

Lemma prop_non_null (k : string) (o : json) :
  o <> JNull -> prop k (Some o) = Ok (get_field k o).
Proof. destruct o; intros H; try reflexivity. contradiction. Qed.

(** A step that [executeNode] returns is completed, failed or skipped. *)
Lemma executeNode_status (node : json) (t t' : nat) (r : StepResult) :
  executeNode node t = (Ok r, t') ->
  status r = completed \/ status r = failed \/ status r = skipped.
Proof.
  unfold Executor.executeNode. unfold_m. intros H.
  repeat step_match; simplify_eq; cbn; auto.
Qed.

(** Self-healing never throws; a substitute it returns carries the
    [self_healed:] prefix and is itself a step of [executeNode]. *)
Lemma attemptSelfHealing_returns (node : json) (r : StepResult) (ghost : json)
    (t : nat) :
  exists o t', attemptSelfHealing node r ghost t = (Ok o, t').
Proof.
  unfold Executor.attemptSelfHealing, try_catch.
  match goal with |- context [match ?m t with _ => _ end] => destruct (m t) as [[o|e] t'] end.
  - eauto.
  - unfold ret. eauto.
Qed.

Lemma attemptSelfHealing_substitute (node : json) (r h : StepResult) (ghost : json)
    (t t' : nat) :
  attemptSelfHealing node r ghost t = (Ok (Some h), t') ->
  is_substitute h = true /\
  (status h = completed \/ status h = failed \/ status h = skipped).
Proof.
  unfold Executor.attemptSelfHealing.
  unfold try_catch at 1. unfold bind at 1. unfold call_llm.
  intros H.
  destruct (llm_complete t _) as [resp|]; [|unfold ret in H; discriminate].
  destruct (content resp) as [text|]; [|unfold ret in H; discriminate].
  destruct (String.eqb text ""); [unfold ret in H; discriminate|].
  destruct (match_delimited "{" "}" text) as [m|]; [|unfold ret in H; discriminate].
  destruct (json_parse m) as [alt|]; [|unfold ret in H; discriminate].
  unfold bind, lift in H.
  destruct (prop "tool" (Some alt)) as [tool|]; [|unfold ret in H; discriminate].
  destruct (prop "params" (Some alt)) as [params|]; [|unfold ret in H; discriminate].
  destruct (prop "id" (Some node)) as [fid|]; [|unfold ret in H; discriminate].
  match type of H with
  | context [Executor.executeNode _ _ _ ?n ?tk] =>
    destruct (executeNode n tk) as [[alt_r|e] t2] eqn:En
  end; [|unfold ret in H; discriminate].
  unfold ret in H. injection H as <- _. split.
  - reflexivity.
  - cbn [status]. eapply executeNode_status, En.
Qed.

(** Replanning fails when the LLM call throws, answers without content, or
    answers text that holds no JSON object or does not parse: the source's
    [null]. *)
Lemma attemptSelfHealing_replan_failure (node : json) (r : StepResult)
    (ghost : json) (t : nat) :
  match llm_complete t (HealRequest node (error r) ghost) with
  | None => True
  | Some resp =>
    match content resp with
    | None => True
    | Some text =>
      match match_delimited "{" "}" text with
      | None => True
      | Some m => json_parse m = None
      end
    end
  end ->
  attemptSelfHealing node r ghost t = (Ok None, S t).
Proof.
  unfold Executor.attemptSelfHealing. unfold_m. intros H.
  destruct (llm_complete t _) as [resp|]; [|reflexivity].
  destruct (content resp) as [text|]; [|reflexivity].
  destruct (String.eqb text ""); [reflexivity|].
  destruct (match_delimited "{" "}" text) as [m|]; [|reflexivity].
  rewrite H. reflexivity.
Qed.

(** The loop's verdict against the record it leaves. *)
Lemma run_plan_verdict (ghost : json) (plan : list json) :
  forall (t t' : nat) (overall : final_status) (steps : list StepResult),
  run_plan ghost plan t = (Ok (overall, steps), t') ->
  (forall h, In h steps -> is_substitute h = true -> status h <> failed) ->
  (overall = execution_completed <-> healed_throughout steps = true).
Proof.
  induction plan as [|node rest IH]; intros t t' overall steps Hrun Hsub.
  - cbn in Hrun. unfold ret in Hrun. injection Hrun as <- <- _. cbn. tauto.
  - cbn [Executor.run_plan] in Hrun. unfold bind at 1 in Hrun.
    destruct (executeNode node t) as [[r|e] t1] eqn:Enode; [|discriminate].
    pose proof (executeNode_status _ _ _ _ Enode) as Hst.
    assert (Hrest : forall (t2 : nat),
      bind (run_plan ghost rest) (fun r' => ret (fst r', r :: snd r')) t2
        = (Ok (overall, steps), t') ->
      status r <> failed ->
      overall = execution_completed <-> healed_throughout steps = true).
    { intros t2 H Hnf. unfold bind, ret in H.
      destruct (run_plan ghost rest t2) as [[[ov st]|e] t3] eqn:Erest; [|discriminate].
      injection H as <- <- _. cbn [fst snd healed_throughout].
      assert (Hok : ok_status (status r) = true)
        by (destruct Hst as [->|[Hf| ->]]; [reflexivity | contradiction | reflexivity]).
      rewrite Hok. cbn [andb].
      rewrite (IH _ _ _ _ Erest) by (intros h Hin; apply Hsub; right; exact Hin).
      destruct (status r); try tauto; contradiction. }
    destruct (status r) eqn:Es;
      try (apply (Hrest t1 Hrun); discriminate).
    unfold bind at 1 in Hrun.
    destruct (attemptSelfHealing_returns node r ghost t1) as (o & t2 & Eheal).
    rewrite Eheal in Hrun. destruct o as [h|].
    + unfold bind, ret in Hrun.
      destruct (run_plan ghost rest t2) as [[[ov st]|e] t3] eqn:Erest; [|discriminate].
      injection Hrun as <- <- _. cbn [fst snd healed_throughout]. rewrite Es.
      destruct (attemptSelfHealing_substitute _ _ _ _ _ _ Eheal) as [Hpre Hsth].
      rewrite Hpre. cbn [andb].
      assert (Hok : ok_status (status h) = true).
      { assert (status h <> failed) by (apply Hsub; [right; left; reflexivity | exact Hpre]).
        destruct Hsth as [->|[Hf| ->]]; [reflexivity | contradiction | reflexivity]. }
      rewrite Hok. cbn [andb].
      apply (IH _ _ _ _ Erest). intros h' Hin. apply Hsub. right. right. exact Hin.
    + unfold ret in Hrun. injection Hrun as <- <- _. cbn. rewrite Es.
      split; discriminate.
Qed.

(** A failed step whose replan fails ends the loop at once: the verdict is
    failed, the failed step is the last one recorded, and no later node is
    run (the call counter stops where the replan left it). *)
Lemma run_plan_stops (ghost : json) (pre : list json) :
  forall (node : json) (rest : list json) (t t1 t2 t3 : nat)
         (done : list StepResult) (r : StepResult),
  run_plan ghost pre t = (Ok (execution_completed, done), t1) ->
  executeNode node t1 = (Ok r, t2) ->
  status r = failed ->
  attemptSelfHealing node r ghost t2 = (Ok None, t3) ->
  run_plan ghost (pre ++ node :: rest) t = (Ok (execution_failed, done ++ [r]), t3).
Proof.
  induction pre as [|p pre IH]; intros node rest t t1 t2 t3 done r Hpre Hnode Hf Hheal.
  - cbn in Hpre. unfold ret in Hpre. injection Hpre as <- <-.
    cbn [app Executor.run_plan]. unfold bind at 1. rewrite Hnode, Hf.
    unfold bind at 1. rewrite Hheal. reflexivity.
  - cbn [app Executor.run_plan] in Hpre |- *. unfold bind at 1 in Hpre. unfold bind at 1.
    destruct (executeNode p t) as [[rp|e] ta]; [|discriminate].
    assert (Hgo : forall (tb : nat) (front : list StepResult),
      bind (run_plan ghost pre) (fun r' => ret (fst r', front ++ snd r')) tb
        = (Ok (execution_completed, done), t1) ->
      bind (run_plan ghost (pre ++ node :: rest))
        (fun r' => ret (fst r', front ++ snd r')) tb
        = (Ok (execution_failed, done ++ [r]), t3)).
    { intros tb front H. unfold bind, ret in H |- *.
      destruct (run_plan ghost pre tb) as [[[ov st]|e] tc] eqn:Epre; [|discriminate].
      injection H as -> <- <-. cbn [fst snd].
      rewrite (IH node rest tb tc t2 t3 st r Epre Hnode Hf Hheal).
      cbn [fst snd]. rewrite app_assoc. reflexivity. }
    destruct (status rp);
      try (apply (Hgo ta [rp]); exact Hpre).
    unfold bind at 1 in Hpre. unfold bind at 1.
    destruct (attemptSelfHealing p rp ghost ta) as [[[h|]|e] tb]; try discriminate.
    apply (Hgo tb [rp; h]). exact Hpre.
Qed.

(** Planning falls back to the default plan when the LLM answers but its
    answer holds no parseable array. *)
Lemma createExecutionPlan_fallback (ghost parameters : json) (t : nat)
    (resp : llm_response) :
  (forall nodes, get_field "execution_plan" ghost <> Some (JArr nodes)) ->
  llm_complete t (PlanRequest ghost parameters) = Some resp ->
  match content resp with
  | None => True
  | Some text =>
    match match_delimited "[" "]" text with
    | None => True
    | Some m => json_parse m = None
    end
  end ->
  createExecutionPlan ghost parameters t = (Ok default_plan, S t).
Proof.
  intros Hplan Hllm Hbad. unfold Executor.createExecutionPlan.
  destruct (get_field "execution_plan" ghost) as [[| | | |nodes|]|] eqn:E;
    try (exfalso; eapply Hplan; reflexivity);
    unfold bind, call_llm, ret; rewrite Hllm;
    (destruct (content resp) as [text|]; [|reflexivity]);
    (destruct (match_delimited "[" "]" text) as [m|]; [|reflexivity]);
    rewrite Hbad; reflexivity.
Qed.

(** A failed verdict leaves the unhealed failed step last in the record. *)
Lemma run_plan_failed_last (ghost : json) (plan : list json) :
  forall (t t' : nat) (steps : list StepResult),
  run_plan ghost plan t = (Ok (execution_failed, steps), t') ->
  exists pre r, steps = pre ++ [r] /\ status r = failed.
Proof.
  induction plan as [|node rest IH]; intros t t' steps Hrun.
  - cbn in Hrun. unfold ret in Hrun. discriminate.
  - cbn [Executor.run_plan] in Hrun. unfold bind at 1 in Hrun.
    destruct (executeNode node t) as [[r|e] t1]; [|discriminate].
    assert (Hgo : forall (tb : nat) (front : list StepResult),
      bind (run_plan ghost rest) (fun r' => ret (fst r', front ++ snd r')) tb
        = (Ok (execution_failed, steps), t') ->
      exists pre r0, steps = pre ++ [r0] /\ status r0 = failed).
    { intros tb front H. unfold bind, ret in H.
      destruct (run_plan ghost rest tb) as [[[ov st]|e] tc] eqn:Erest; [|discriminate].
      injection H as -> <- _. cbn [fst snd].
      destruct (IH _ _ _ Erest) as (pre & r0 & -> & Hf).
      exists (front ++ pre), r0. rewrite app_assoc. auto. }
    destruct (status r) eqn:Es;
      try (apply (Hgo t1 [r]); exact Hrun).
    unfold bind at 1 in Hrun.
    destruct (attemptSelfHealing node r ghost t1) as [[[h|]|e] tb]; try discriminate.
    + apply (Hgo tb [r; h]). exact Hrun.
    + unfold ret in Hrun. injection Hrun as <- _. exists [], r. auto.
Qed.

End ExecutorFacts.

(** C1 (as stated, refuted): the upstream of the plan's only node throws and
    the LLM proposes a human escalation.  Two steps are recorded, the first
    with status failed; the execution is nevertheless finalized as
    completed, in the reply, in the executions row and in the audit row. *)
Lemma healed_execution_completes_with_failed_step :
  let run := Executor.serve llm_heals fetch_down parse_stub string_stub None "e1"
               execute_request (executor_db (JArr [broken_node])) in
  (exists steps,
     fst run = Executor.Finished "e1" (JStr "g1") Executor.execution_completed steps /\
     map Executor.status steps = [Executor.failed; Executor.completed] /\
     map Executor.strategy steps = ["direct"; "self_healed:human"]) /\
  (Executor.e_status <$> Executor.executions (snd run) !! "e1") = Some "completed" /\
  map Executor.l_status (Executor.execution_logs (snd run))
    = [Executor.execution_completed].
Proof.
  vm_compute. split; [|split; reflexivity].
  eexists. split; [reflexivity|]. split; reflexivity.
Qed.

(** C1 (amended): for an execution that is finalized and in which no
    self-healed substitute step itself failed, the final status is completed
    exactly when every recorded step finished completed or skipped or is a
    failed step immediately followed by its substitute; the status is stored
    in the executions row and in the audit row.  A failed verdict leaves the
    unhealed step last in the record, and a failed step whose replan fails
    (the LLM call throws, or answers no content, no JSON object or text that
    does not parse) ends the loop there with the verdict failed. *)
Theorem self_heal_closure
    (llm_complete : nat -> Executor.llm_request -> option Executor.llm_response)
    (fetch : nat -> Executor.fetch_request -> option Executor.fetch_response)
    (json_parse : string -> option json)
    (to_string : option json -> string)
    (LLM_PROVIDER : option string)
    (executionId : string) (req : Executor.request) (db : Executor.store)
    (id : string) (ghostId : json) (overall : Executor.final_status)
    (steps : list Executor.StepResult) :
  fst (Executor.serve llm_complete fetch json_parse to_string LLM_PROVIDER executionId req db)
    = Executor.Finished id ghostId overall steps ->
  (forall h, In h steps -> Executor.is_substitute h = true ->
             Executor.status h <> Executor.failed) ->
  (overall = Executor.execution_completed
   <-> Executor.healed_throughout steps = true) /\
  (overall = Executor.execution_failed ->
   exists pre r, steps = pre ++ [r] /\ Executor.status r = Executor.failed) /\
  (Executor.e_status <$>
     Executor.executions
       (snd (Executor.serve llm_complete fetch json_parse to_string LLM_PROVIDER executionId req db))
       !! executionId) = Some (Executor.status_name overall) /\
  (exists row,
     Executor.execution_logs
       (snd (Executor.serve llm_complete fetch json_parse to_string LLM_PROVIDER executionId req db))
       = Executor.execution_logs db ++ [row] /\
     Executor.l_status row = overall /\ Executor.l_steps row = length steps) /\
  (forall (ghost : json) (pre : list json) (node : json) (rest : list json)
          (t t1 t2 : nat) (done : list Executor.StepResult) (r : Executor.StepResult),
     Executor.run_plan llm_complete fetch json_parse to_string ghost pre t
       = (Executor.Ok (Executor.execution_completed, done), t1) ->
     Executor.executeNode fetch json_parse to_string node t1 = (Executor.Ok r, t2) ->
     Executor.status r = Executor.failed ->
     match llm_complete t2 (Executor.HealRequest node (Executor.error r) ghost) with
     | None => True
     | Some resp =>
       match Executor.content resp with
       | None => True
       | Some text =>
         match Executor.match_delimited "{" "}" text with
         | None => True
         | Some m => json_parse m = None
         end
       end
     end ->
     Executor.run_plan llm_complete fetch json_parse to_string ghost
       (pre ++ node :: rest) t
       = (Executor.Ok (Executor.execution_failed, done ++ [r]), S t2)).
Proof.
  intros Hserve Hsub.
  assert (Hrun : exists ghost nodes t t',
    Executor.run_plan llm_complete fetch json_parse to_string ghost nodes t
      = (Executor.Ok (overall, steps), t') /\
    snd (Executor.serve llm_complete fetch json_parse to_string LLM_PROVIDER executionId req db)
      = {| Executor.ghosts := Executor.ghosts db;
           Executor.executions :=
             <[executionId := {| Executor.e_ghost_id := ghostId;
                                 Executor.e_status := Executor.status_name overall;
                                 Executor.e_step_count := length steps |}]>
               (Executor.executions db);
           Executor.execution_logs :=
             Executor.execution_logs db ++
             [{| Executor.l_execution_id := executionId;
                 Executor.l_ghost_id := ghostId;
                 Executor.l_org_id := get_field "org_id" ghost;
                 Executor.l_status := overall;
                 Executor.l_steps := length steps;
                 Executor.l_strategies_used :=
                   Executor.distinct (map Executor.strategy steps) |}] |}).
  { revert Hserve. unfold Executor.serve.
    destruct (String.eqb (Executor.method req) "OPTIONS"); [discriminate|].
    destruct (Executor.payload req) as [body|]; [|discriminate].
    destruct (Executor.prop "ghostId" (Some body)) as [gid|]; [|discriminate].
    destruct (negb (truthy gid)); [discriminate|].
    destruct gid as [[| | |key| |]|]; try discriminate.
    destruct (Executor.ghosts db !! key) as [ghost|]; [|discriminate].
    destruct (_ && _); [discriminate|].
    cbv zeta. destruct (Executor.getDefaultProvider LLM_PROVIDER); [|discriminate].
    unfold Executor.bind, Executor.lift.
    match goal with
    | |- context [Executor.createExecutionPlan _ _ ?g ?p 0%nat] =>
      destruct (Executor.createExecutionPlan llm_complete json_parse g p 0%nat)
        as [[plan|e] t0]
    end; [|cbn; discriminate].
    destruct (Executor.iterate plan) as [nodes|e]; [|cbn; discriminate].
    destruct (Executor.run_plan _ _ _ _ ghost nodes t0) as [[[ov st]|e] t'] eqn:Erun;
      [|cbn; discriminate].
    cbn [fst snd]. intros [= <- <- <- <-].
    exists ghost, nodes, t0, t'. split; [exact Erun | reflexivity]. }
  destruct Hrun as (ghost & nodes & t & t' & Hrun & Hdb).
  split; [|split; [|split; [|split]]].
  - eapply run_plan_verdict; eassumption.
  - intros ->. eapply run_plan_failed_last; eassumption.
  - rewrite Hdb. cbn [Executor.executions]. rewrite lookup_insert_eq. reflexivity.
  - rewrite Hdb. cbn [Executor.execution_logs]. eexists. split; [reflexivity|].
    split; reflexivity.
  - intros ghost' pre node rest ta tb tc done r Hpre Hnode Hf Hllm.
    eapply run_plan_stops; try eassumption.
    apply attemptSelfHealing_replan_failure. exact Hllm.
Qed.

Lemma self_heal_closure_witness :
  Executor.execution_completed = Executor.execution_completed
  <-> Executor.healed_throughout
        (match fst (Executor.serve llm_heals fetch_down parse_stub string_stub None "e1"
                      execute_request (executor_db (JArr [broken_node]))) with
         | Executor.Finished _ _ _ steps => steps
         | _ => []
         end) = true.
Proof.
  refine (proj1 (self_heal_closure llm_heals fetch_down parse_stub string_stub None "e1"
                   execute_request (executor_db (JArr [broken_node]))
                   "e1" (JStr "g1") Executor.execution_completed _ _ _)).
  - vm_compute. reflexivity.
  - vm_compute. intros h [<-|[<-|[]]]; intros; discriminate.
Defined.

(** C9 (the code at the failing input): the ghost stores no plan array and
    the LLM call of the planner throws.  The request is answered 500
    EXECUTION_ERROR; the execution row stays at running and no audit row is
    written. *)
Theorem planner_llm_error_is_request_error :
  let run := Executor.serve llm_down fetch_down parse_stub string_stub None "e1"
               execute_request (executor_db (JObj [])) in
  fst (Executor.createExecutionPlan llm_down parse_stub
         (ghost_row (JObj [])) (JObj []) 0%nat)
    = Executor.Throw "LLM request failed" /\
  fst run = Executor.Failure 500 "EXECUTION_ERROR" /\
  (Executor.e_status <$> Executor.executions (snd run) !! "e1") = Some "running" /\
  Executor.execution_logs (snd run) = [].
Proof. vm_compute. repeat split; reflexivity. Qed.

(** ** Session fingerprint (HMAC-SHA256) *)

Section HmacFacts.
Import Hmac.
#[local] Open Scope Z_scope.

(** The implementation against the published test vectors. *)
Example sha256_abc :
  hex (sha256 (encode "abc"))
  = "ba7816bf8f01cfea414140de5dae2223b00361a396177a9cb410ff61f20015ad".
Proof. vm_compute. reflexivity. Qed.

Example hmac_sha256_fox :
  hex (hmac_sha256 (encode "key")
         (encode "The quick brown fox jumps over the lazy dog"))
  = "f7bc83f430538424b13298e6aa6fb143ef4d59a14946175997479dbc2d1a3cd8".
Proof. vm_compute. reflexivity. Qed.

Lemma sha256_length (msg : list Z) : length (sha256 msg) = 32%nat.
Proof. reflexivity. Qed.

Lemma hmac_sha256_length (key msg : list Z) : length (hmac_sha256 key msg) = 32%nat.
Proof. apply sha256_length. Qed.



Lemma hex_length (bytes : list Z) :
  String.length (hex bytes) = (2 * length bytes)%nat.
Proof.
  induction bytes as [|b rest IH]; [reflexivity|].
  cbn [hex String.length length]. rewrite IH. lia.
Qed.

Lemma hex_digit_lower (d : Z) : is_lower_hex (hex_digit d) = true.
Proof.
  unfold hex_digit.
  assert (H : (Z.to_nat (d mod 16) < 16)%nat)
    by (pose proof (Z.mod_pos_bound d 16); lia).
  revert H. generalize (Z.to_nat (d mod 16)). intros n H.
  do 16 (destruct n as [|n]; [reflexivity|]). lia.
Qed.

Lemma hex_lower (bytes : list Z) :
  forallb is_lower_hex (list_ascii_of_string (hex bytes)) = true.
Proof.
  induction bytes as [|b rest IH]; [reflexivity|].
  cbn [hex list_ascii_of_string forallb].
  rewrite !hex_digit_lower, IH. reflexivity.
Qed.

Lemma decimal_inj (a b : Z) : decimal a = decimal b -> a = b.
Proof.
  unfold decimal. intros H.
  assert (E : Some (Z.to_int a) = Some (Z.to_int b)).
  { rewrite <- !DecimalString.NilEmpty.isi. rewrite H. reflexivity. }
  injection E as E.
  rewrite <- (DecimalZ.of_to a), <- (DecimalZ.of_to b), E. reflexivity.
Qed.

Lemma append_inj_r (p x y : string) : (p ++ x = p ++ y)%string -> x = y.
Proof.
  induction p as [|c p IH]; cbn; intros H; [exact H|].
  injection H as H. apply IH, H.
Qed.







End HmacFacts.




(** The sample device through two hours: the fingerprints of the eight
    15-minute buckets are pairwise distinct. *)
Example fingerprints_of_two_hours :
  NoDup (map (fun k => Hmac.generateSessionFingerprint "dev-1" "user-1"
                         (1700000000000 + 900000 * Z.of_nat k))
           (seq 0 8)).
Proof.
  apply (NoDup_fmap_1 (option_map (fun f => String.substring 0 4 f))).
  vm_compute. apply NoDup_ListNoDup.
  repeat (apply List.NoDup_cons; [cbn; intros H; decompose [or] H; congruence|]).
  apply List.NoDup_nil.
Qed.

(** ** PII scrubber *)

Section MatcherFacts.
Import Scrubber.

Lemma advances_weaken (strict : bool) rest pos k e :
  advances strict rest pos k e -> advances false rest pos k e.
Proof.
  intros (p & r & n & Hk & Hlen & Hle & _). exists p, r, n.
  repeat split; try assumption. discriminate.
Qed.

Lemma star_loop_advances step k :
  (forall prev rest pos k' e,
     step prev rest pos k' = Some e -> advances false rest pos k' e) ->
  forall fuel prev rest pos e,
    star_loop step k fuel prev rest pos = Some e ->
    advances false rest pos k e.
Proof.
  intros Hstep. induction fuel as [|fuel IH]; intros prev rest pos e H.
  - cbn in H. exists prev, rest, pos. repeat split; auto. discriminate.
  - cbn [star_loop] in H.
    match type of H with
    | match ?m with _ => _ end = _ => destruct m as [e'|] eqn:Em
    end.
    + injection H as ->.
      apply Hstep in Em as (p1 & r1 & n1 & Hk & Hlen & Hle & _).
      destruct (n1 <=? pos)%nat eqn:Elt; [rewrite (proj2 (Nat.ltb_ge _ _)) in Hk
        by (apply Nat.leb_le, Elt); discriminate|].
      rewrite (proj2 (Nat.ltb_lt _ _)) in Hk by (apply Nat.leb_gt, Elt).
      apply IH in Hk as (p2 & r2 & n2 & Hk2 & Hlen2 & Hle2 & _).
      exists p2, r2, n2. repeat split; try assumption; try lia; discriminate.
    + exists prev, rest, pos. repeat split; auto. discriminate.
Qed.

Lemma run_advances (r : regex) :
  forall prev rest pos k e,
    run r prev rest pos k = Some e ->
    advances (negb (nullable r)) rest pos k e.
Proof.
  induction r as [|p|a IHa b IHb|a IHa b IHb|a IHa|];
    intros prev rest pos k e H; cbn [run nullable negb] in *.
  - exists prev, rest, pos. repeat split; auto. discriminate.
  - destruct rest as [|c rest']; [discriminate|].
    destruct (p c); [|discriminate].
    exists (Some c), rest', (S pos). cbn [length]. repeat split; auto; lia.
  - apply IHa in H as (p1 & r1 & n1 & Hk & Hlen & Hle & Hs).
    apply IHb in Hk as (p2 & r2 & n2 & Hk2 & Hlen2 & Hle2 & Hs2).
    exists p2, r2, n2. repeat split; try assumption; try lia.
    intros Hn. rewrite negb_andb in Hn. apply orb_true_iff in Hn as [Hn|Hn].
    + specialize (Hs Hn). lia.
    + specialize (Hs2 Hn). lia.
  - destruct (run a prev rest pos k) as [e'|] eqn:Ea.
    + injection H as ->. apply IHa in Ea as (p1 & r1 & n1 & Hk & Hlen & Hle & Hs).
      exists p1, r1, n1. repeat split; try assumption.
      intros Hn. apply Hs. rewrite negb_orb in Hn.
      apply andb_true_iff in Hn. tauto.
    + apply IHb in H as (p1 & r1 & n1 & Hk & Hlen & Hle & Hs).
      exists p1, r1, n1. repeat split; try assumption.
      intros Hn. apply Hs. rewrite negb_orb in Hn.
      apply andb_true_iff in Hn. tauto.
  - eapply star_loop_advances; [|exact H].
    intros prev0 rest0 pos0 k' e0 H0. eapply advances_weaken, IHa, H0.
  - destruct (Bool.eqb _ _); [discriminate|].
    exists prev, rest, pos. repeat split; auto. discriminate.
Qed.

(** A match of a non-nullable expression is a non-empty span of the text. *)
Lemma search_span (r : regex) :
  nullable r = false ->
  forall rest prev pos s e,
    search r prev rest pos = Some (s, e) ->
    pos <= s /\ s < e /\ e <= pos + length rest.
Proof.
  intros Hn. induction rest as [|c rest IH]; intros prev pos s e H;
    cbn [search] in H.
  - destruct (run r prev [] pos _) as [e'|] eqn:Er; [|discriminate].
    injection H as <- <-.
    apply run_advances in Er as (p1 & r1 & n1 & Hk & Hlen & Hle & Hs).
    injection Hk as <-. rewrite Hn in Hs. specialize (Hs eq_refl). lia.
  - destruct (run r prev (c :: rest) pos _) as [e'|] eqn:Er.
    + injection H as <- <-.
      apply run_advances in Er as (p1 & r1 & n1 & Hk & Hlen & Hle & Hs).
      injection Hk as <-. rewrite Hn in Hs. specialize (Hs eq_refl). lia.
    + apply IH in H. cbn [length]. lia.
Qed.

Lemma exec_span (r : regex) (t : text) (i s e : nat) :
  nullable r = false -> i <= length t ->
  exec r t i = Some (s, e) ->
  i <= s /\ s < e /\ e <= length t.
Proof.
  intros Hn Hi H. unfold exec in H. apply (search_span r Hn) in H.
  rewrite length_skipn in H. lia.
Qed.

(** The exec loop ends: with more fuel than text left it returns its
    matches, each a non-empty span. *)
Lemma exec_all_total (r : regex) (t : text) :
  nullable r = false ->
  forall fuel i,
    i <= length t -> length t - i < fuel ->
    exists spans,
      exec_all fuel r t i = Some spans /\ Forall (span_ok t i) spans.
Proof.
  intros Hn. induction fuel as [|fuel IH]; intros i Hi Hfuel; [lia|].
  cbn [exec_all]. destruct (exec r t i) as [[s e]|] eqn:Ex.
  - apply (exec_span r t i s e Hn Hi) in Ex as (H1 & H2 & H3).
    destruct (IH e) as (spans & -> & Hall); [lia|lia|].
    eexists. split; [reflexivity|]. constructor.
    + unfold span_ok. cbn. lia.
    + eapply Forall_impl; [exact Hall|].
      intros [s' e'] (Ha & Hb & Hc). unfold span_ok in *. cbn in *. lia.
  - exists []. split; [reflexivity | constructor].
Qed.

Lemma entities_of_ok (ty : string) (t : text) (spans : list (nat * nat)) :
  Forall (span_ok t 0) spans -> Forall (entity_ok t) (entities_of ty t spans).
Proof.
  unfold entities_of. intros H. apply Forall_map.
  eapply Forall_impl; [exact H|].
  intros [s e] (_ & H1 & H2). repeat split; assumption.
Qed.

Lemma detect_raw_total (t : text) (ps : list (string * regex)) :
  forallb (fun p => negb (nullable (snd p))) ps = true ->
  exists entities,
    detect_raw ps t = Some entities /\ Forall (entity_ok t) entities.
Proof.
  induction ps as [|[ty r] ps IH]; intros Hps.
  - exists []. split; [reflexivity | constructor].
  - cbn [forallb snd] in Hps. apply andb_true_iff in Hps as [Hr Hps].
    apply negb_true_iff in Hr.
    destruct (exec_all_total r t Hr (S (length t)) 0) as (spans & Hs & Hall);
      [lia|lia|].
    destruct (IH Hps) as (more & Hm & Hmore).
    cbn [detect_raw]. rewrite Hs, Hm. eexists. split; [reflexivity|].
    apply Forall_app. split; [apply entities_of_ok, Hall | exact Hmore].
Qed.

Lemma patterns_not_nullable :
  forallb (fun p => negb (nullable (snd p))) patterns = true.
Proof. reflexivity. Qed.

End MatcherFacts.

Section OverlapFacts.
Import Scrubber.

Lemma insert_by_In {A} (cmp : A -> A -> Z) (x y : A) (l : list A) :
  In y (insert_by cmp x l) <-> y = x \/ In y l.
Proof.
  induction l as [|z l IH]; cbn.
  - intuition congruence.
  - destruct (cmp x z <=? 0)%Z; cbn; rewrite ?IH; intuition congruence.
Qed.

Lemma sort_by_In {A} (cmp : A -> A -> Z) (y : A) (l : list A) :
  In y (sort_by cmp l) <-> In y l.
Proof.
  induction l as [|x l IH]; cbn; [tauto|].
  rewrite insert_by_In, IH. intuition congruence.
Qed.

Lemma by_start_then_longest_le (a b : PiiEntity) :
  (by_start_then_longest a b <= 0)%Z -> le_start a b.
Proof.
  unfold by_start_then_longest, le_start.
  destruct (Z.eqb_spec (Z.of_nat (start a) - Z.of_nat (start b)) 0); lia.
Qed.

Lemma by_start_then_longest_gt (a b : PiiEntity) :
  (0 < by_start_then_longest a b)%Z -> le_start b a.
Proof.
  unfold by_start_then_longest, le_start.
  destruct (Z.eqb_spec (Z.of_nat (start a) - Z.of_nat (start b)) 0); lia.
Qed.

Lemma insert_sorted (x : PiiEntity) (l : list PiiEntity) :
  StronglySorted le_start l ->
  StronglySorted le_start (insert_by by_start_then_longest x l).
Proof.
  induction 1 as [|y l Hs IH Hy]; cbn.
  - repeat constructor.
  - destruct (Z.leb_spec (by_start_then_longest x y) 0) as [Hle|Hgt].
    + apply by_start_then_longest_le in Hle.
      constructor; [constructor; assumption|].
      constructor; [exact Hle|].
      eapply Forall_impl; [exact Hy|]. unfold le_start in *. intros; lia.
    + apply by_start_then_longest_gt in Hgt.
      constructor; [exact IH|].
      apply Forall_forall. intros z Hz. apply list_elem_of_In in Hz.
      apply insert_by_In in Hz as [->|Hz]; [exact Hgt|].
      rewrite Forall_forall in Hy. apply Hy, list_elem_of_In, Hz.
Qed.

Lemma sort_sorted (l : list PiiEntity) :
  StronglySorted le_start (sort_by by_start_then_longest l).
Proof.
  induction l as [|x l IH]; cbn; [constructor | apply insert_sorted, IH].
Qed.

(** The loop of [removeOverlaps]: the accumulator, last element first, stays
    a chain of spans that end before the next one starts. *)
Lemma keep_or_replace_chain (t : text) (others acc : list PiiEntity) :
  StronglySorted le_start others ->
  Forall (entity_ok t) others ->
  Forall (entity_ok t) acc ->
  StronglySorted (fun a b => end_ b <= start a) acc ->
  (forall prev e, head acc = Some prev -> In e others -> le_start prev e) ->
  acc <> [] ->
  let result := fold_left keep_or_replace others acc in
  Forall (entity_ok t) result /\
  StronglySorted (fun a b => end_ b <= start a) result /\
  (forall e, In e result -> In e acc \/ In e others).
Proof.
  intros Hsorted. revert acc.
  induction Hsorted as [|e others Hs IH He]; intros acc Hok Hacc Hchain Hhd Hne.
  - cbn. auto.
  - cbn [fold_left].
    apply Forall_cons in Hok as [Heok Hok].
    destruct acc as [|prev before]; [contradiction|].
    assert (Hpe : le_start prev e) by (apply (Hhd prev e); [reflexivity | left; reflexivity]).
    apply Forall_cons in Hacc as [Hprev Hbefore].
    apply StronglySorted_inv in Hchain as [Hchain Hall].
    assert (Hnext : forall acc',
      acc' <> [] -> Forall (entity_ok t) acc' ->
      StronglySorted (fun a b => end_ b <= start a) acc' ->
      (forall p, head acc' = Some p -> p = prev \/ p = e) ->
      (forall x, In x acc' -> In x (prev :: before) \/ x = e) ->
      let result := fold_left keep_or_replace others acc' in
      Forall (entity_ok t) result /\
      StronglySorted (fun a b => end_ b <= start a) result /\
      (forall x, In x result -> In x (prev :: before) \/ In x (e :: others))).
    { intros acc' Hne' Hok' Hch' Hhd' Hin'.
      destruct (IH acc' Hok Hok' Hch') as (R1 & R2 & R3); [|exact Hne'|].
      - intros p x Hp Hx. destruct (Hhd' p Hp) as [->| ->].
        + apply (Hhd prev x); [reflexivity | right; exact Hx].
        + rewrite Forall_forall in He. apply He, list_elem_of_In, Hx.
      - split; [exact R1|]. split; [exact R2|].
        intros x Hx. destruct (R3 x Hx) as [Hx'|Hx'].
        + destruct (Hin' x Hx') as [H1| ->]; [left; exact H1 | right; left; reflexivity].
        + right; right; exact Hx'. }
    change (keep_or_replace (prev :: before) e)
      with (if (end_ prev <=? start e)%nat then e :: prev :: before
            else if (end_ prev - start prev <? end_ e - start e)%nat then e :: before
            else prev :: before).
    destruct (Nat.leb_spec (end_ prev) (start e)) as [Hpush|Hover].
    + apply Hnext.
      * discriminate.
      * constructor; [exact Heok|]. constructor; assumption.
      * constructor; [constructor; assumption|].
        constructor; [exact Hpush|].
        eapply Forall_impl; [exact Hall|]. cbn. intros b Hb.
        destruct Hprev as (Hp & _). lia.
      * intros p [= <-]. right; reflexivity.
      * intros x [<-|Hx]; [right; reflexivity | left; exact Hx].
    + destruct (Nat.ltb_spec (end_ prev - start prev) (end_ e - start e)) as [Hlonger|_].
      * apply Hnext.
        -- discriminate.
        -- constructor; assumption.
        -- constructor; [exact Hchain|].
           eapply Forall_impl; [exact Hall|]. cbn. intros b Hb.
           unfold le_start in Hpe. lia.
        -- intros p [= <-]. right; reflexivity.
        -- intros x [<-|Hx]; [right; reflexivity | left; right; exact Hx].
      * apply Hnext.
        -- discriminate.
        -- constructor; assumption.
        -- constructor; assumption.
        -- intros p [= <-]. left; reflexivity.
        -- intros x Hx. left; exact Hx.
Qed.

Lemma StronglySorted_snoc {A} (R : A -> A -> Prop) (l : list A) (x : A) :
  StronglySorted R l -> Forall (fun b => R b x) l -> StronglySorted R (l ++ [x]).
Proof.
  induction 1 as [|y l Hs IH Hy]; intros Hx; cbn.
  - repeat constructor.
  - apply Forall_cons in Hx as [Hyx Hx]. constructor; [apply IH, Hx|].
    apply Forall_app. split; [exact Hy | repeat constructor; exact Hyx].
Qed.

Lemma StronglySorted_rev {A} (R : A -> A -> Prop) (l : list A) :
  StronglySorted (fun a b => R b a) l -> StronglySorted R (rev l).
Proof.
  induction 1 as [|x l Hs IH Hx]; cbn; [constructor|].
  apply StronglySorted_snoc; [exact IH|].
  apply Forall_rev, Hx.
Qed.

Lemma removeOverlaps_spec (t : text) (entities : list PiiEntity) :
  Forall (entity_ok t) entities ->
  Forall (entity_ok t) (removeOverlaps entities) /\
  disjoint_ascending (removeOverlaps entities) /\
  (forall e, In e (removeOverlaps entities) -> In e entities).
Proof.
  intros Hok. unfold removeOverlaps, disjoint_ascending.
  destruct entities as [|e1 [|e2 rest]].
  - repeat split; [constructor | constructor | tauto].
  - repeat split; [exact Hok | repeat constructor | tauto].
  - set (l := e1 :: e2 :: rest) in *.
    pose proof (sort_sorted l) as Hsorted.
    assert (Hin : forall x, In x (sort_by by_start_then_longest l) -> In x l)
      by (intros x; apply sort_by_In).
    destruct (sort_by by_start_then_longest l) as [|first others] eqn:Es.
    + repeat split; [constructor | constructor | intros e []].
    + apply StronglySorted_inv in Hsorted as [Hs Hfirst].
      assert (Hall : Forall (entity_ok t) (first :: others)).
      { apply Forall_forall. intros x Hx. rewrite Forall_forall in Hok.
        apply Hok, list_elem_of_In, Hin, list_elem_of_In, Hx. }
      apply Forall_cons in Hall as [Hf Ho].
      destruct (keep_or_replace_chain t others [first] Hs Ho) as (R1 & R2 & R3).
      * constructor; [exact Hf | constructor].
      * repeat constructor.
      * intros prev e [= <-] He. rewrite Forall_forall in Hfirst.
        apply Hfirst, list_elem_of_In, He.
      * discriminate.
      * split; [|split].
        -- apply Forall_rev, R1.
        -- apply StronglySorted_rev, R2.
        -- intros e He. apply in_rev in He. apply Hin.
           destruct (R3 e He) as [[<-|[]]|Ho']; [left; reflexivity | right; exact Ho'].
Qed.

(** [detect] returns, and what it returns are non-empty spans of the text
    in text order, none overlapping another. *)
Lemma detect_spec (t : text) :
  exists entities,
    detect t = Some entities /\
    Forall (entity_ok t) entities /\
    disjoint_ascending entities.
Proof.
  destruct (detect_raw_total t patterns patterns_not_nullable) as (raw & Hraw & Hok).
  unfold detect. rewrite Hraw. eexists. split; [reflexivity|].
  destruct (removeOverlaps_spec t raw Hok) as (H1 & H2 & _). auto.
Qed.

End OverlapFacts.

Section ScrubFacts.
Import Scrubber.

Variable toLowerCase : text -> text.

Lemma spliced_upto_snoc (t : text) (parts : list (PiiEntity * text))
    (e : PiiEntity) (r : text) (p : nat) (done : text) :
  forall from,
    spliced_upto t from (parts ++ [(e, r)]) p done
    = spliced_upto t from parts (start e) (r ++ slice t (end_ e) p ++ done).
Proof.
  induction parts as [|[e' r'] parts IH]; intros from; cbn.
  - reflexivity.
  - rewrite IH. reflexivity.
Qed.

Lemma spliced_upto_end (t : text) (parts : list (PiiEntity * text)) :
  forall from, spliced_upto t from parts (length t) [] = spliced t from parts.
Proof.
  induction parts as [|[e r] parts IH]; intros from; cbn.
  - rewrite app_nil_r. unfold slice. apply firstn_all2.
    rewrite length_skipn. lia.
  - rewrite IH. reflexivity.
Qed.

Lemma replacements_length (entities : list PiiEntity) :
  forall cs, length (fst (replacements toLowerCase entities cs)) = length entities.
Proof.
  induction entities as [|e rest IH]; intros cs; cbn; [reflexivity|].
  destruct (getReplacement toLowerCase (type e) (value e) cs) as [r cs1].
  specialize (IH cs1).
  destruct (replacements toLowerCase rest cs1) as [rs cs2]. cbn in *. lia.
Qed.

Lemma combine_snoc {A B} (l1 : list A) (l2 : list B) (a : A) (b : B) :
  length l1 = length l2 ->
  combine (l1 ++ [a]) (l2 ++ [b]) = combine l1 l2 ++ [(a, b)].
Proof.
  revert l2. induction l1 as [|x l1 IH]; intros [|y l2] H; cbn in *;
    try discriminate; [reflexivity|].
  rewrite IH by lia. reflexivity.
Qed.

(** The replacement loop over spans taken from the end of the text to its
    start: what lies before the current span is still the original text. *)
Lemma replace_all_descending (t : text) (L : list PiiEntity) :
  StronglySorted (fun a b => end_ b <= start a) L ->
  Forall (entity_ok t) L ->
  forall (p : nat) (done : text) (cs : counters),
    Forall (fun e => end_ e <= p) L -> p <= length t ->
    replace_all toLowerCase L (firstn p t ++ done) cs
    = (spliced_upto t 0
         (combine (rev L) (rev (fst (replacements toLowerCase L cs)))) p done,
       snd (replacements toLowerCase L cs)).
Proof.
  induction 1 as [|e L Hs IH He]; intros Hok p done cs Hp Hlen.
  - cbn. unfold slice. cbn. rewrite Nat.sub_0_r. reflexivity.
  - apply Forall_cons in Hok as [(Hse & Hel & _) Hok].
    apply Forall_cons in Hp as [Hep Hp].
    cbn [replace_all replacements].
    destruct (getReplacement toLowerCase (type e) (value e) cs) as [r cs1].
    assert (Hfirst : firstn (start e) (firstn p t ++ done) = firstn (start e) t).
    { rewrite firstn_app, length_firstn, firstn_firstn.
      replace (start e - Nat.min p (length t)) with 0 by lia.
      replace (Nat.min (start e) p) with (start e) by lia.
      cbn. apply app_nil_r. }
    assert (Hskip : skipn (end_ e) (firstn p t ++ done) = slice t (end_ e) p ++ done).
    { rewrite skipn_app, length_firstn.
      replace (end_ e - Nat.min p (length t)) with 0 by lia.
      rewrite skipn_firstn_comm. reflexivity. }
    rewrite Hfirst, Hskip.
    rewrite (IH Hok (start e) (r ++ slice t (end_ e) p ++ done) cs1);
      [|exact He|lia].
    pose proof (replacements_length L cs1) as Hl.
    destruct (replacements toLowerCase L cs1) as [rs cs2]. cbn [fst snd] in *.
    cbn [rev]. rewrite combine_snoc by (rewrite !length_rev; lia).
    rewrite spliced_upto_snoc. reflexivity.
Qed.

Lemma insert_by_last {A} (cmp : A -> A -> Z) (x : A) (l : list A) :
  Forall (fun y => (0 < cmp x y)%Z) l -> insert_by cmp x l = l ++ [x].
Proof.
  induction 1 as [|y l Hy Hl IH]; cbn; [reflexivity|].
  destruct (Z.leb_spec (cmp x y) 0); [lia|]. rewrite IH. reflexivity.
Qed.

(** Sorting spans that ascend strictly by their starts, descending, reverses
    them. *)
Lemma sort_descending_rev (t : text) (entities : list PiiEntity) :
  Forall (entity_ok t) entities -> disjoint_ascending entities ->
  sort_by by_start_descending entities = rev entities.
Proof.
  intros Hok Hs. unfold disjoint_ascending in Hs.
  induction Hs as [|e l Hs IH He]; [reflexivity|].
  apply Forall_cons in Hok as [(Hse & _) Hok].
  cbn [sort_by fold_right rev]. fold (sort_by by_start_descending l).
  rewrite (IH Hok). apply insert_by_last.
  apply Forall_rev. eapply Forall_impl; [exact He|].
  cbn. intros y Hy. unfold by_start_descending. lia.
Qed.

Lemma strictly_ascending (t : text) (entities : list PiiEntity) :
  Forall (entity_ok t) entities -> disjoint_ascending entities ->
  StronglySorted (fun a b => end_ a <= start b /\ start a < start b) entities.
Proof.
  intros Hok Hs. unfold disjoint_ascending in Hs.
  induction Hs as [|e l Hs IH He]; [constructor|].
  apply Forall_cons in Hok as [(Hse & _) Hok].
  constructor; [apply IH, Hok|].
  eapply Forall_impl; [exact He|]. cbn. intros; lia.
Qed.

End ScrubFacts.

(** C10: for every text, [detect] returns; the spans it returns lie in
    the text and are not empty (start < end <= length), ascend strictly by
    their starts and do not overlap; [scrub] returns too, and its result is
    the text with exactly those spans replaced by their tokens (the tokens
    drawn from the end of the text to its start). *)
Theorem detect_spans_disjoint_and_scrub_splices
    (toLowerCase : Scrubber.text -> Scrubber.text)
    (t : Scrubber.text) (cs : Scrubber.counters) :
  exists entities,
    Scrubber.detect t = Some entities /\
    Forall (fun e => Scrubber.start e < Scrubber.end_ e /\
                     Scrubber.end_ e <= length t /\
                     Scrubber.value e
                     = Scrubber.slice t (Scrubber.start e) (Scrubber.end_ e))
           entities /\
    StronglySorted
      (fun a b => Scrubber.end_ a <= Scrubber.start b /\
                  Scrubber.start a < Scrubber.start b) entities /\
    Scrubber.scrub toLowerCase t cs
    = Some (Scrubber.spliced t 0
              (combine entities
                 (rev (fst (Scrubber.replacements toLowerCase (rev entities) cs)))),
            snd (Scrubber.replacements toLowerCase (rev entities) cs)).
Proof.
  destruct (detect_spec t) as (entities & Hd & Hok & Hs).
  exists entities. split; [exact Hd|]. split; [exact Hok|].
  split; [eapply strictly_ascending; eassumption|].
  unfold Scrubber.scrub. rewrite Hd.
  destruct t as [|c t'].
  - destruct entities as [|e rest]; [reflexivity|].
    apply Forall_cons in Hok as [(H1 & H2 & _) _]. cbn in H2. lia.
  - set (t := c :: t') in *.
    destruct entities as [|e rest] eqn:Ee; [reflexivity|]. rewrite <- Ee in *.
    rewrite (sort_descending_rev t entities Hok Hs).
    pose proof (replace_all_descending toLowerCase t (rev entities)) as H.
    assert (Hr : Forall (Scrubber.entity_ok t) (rev entities))
      by apply Forall_rev, Hok.
    specialize (H (StronglySorted_rev (fun a b => Scrubber.end_ b <= Scrubber.start a)
                     entities Hs) Hr (length t) [] cs).
    rewrite firstn_all, app_nil_r, rev_involutive, spliced_upto_end in H.
    rewrite H; [reflexivity| |lia].
    apply Forall_rev. eapply Forall_impl; [exact Hok|].
    intros x (_ & Hx & _). exact Hx.
Qed.

Example scrub_sample :
  fst <$> Scrubber.scrub ascii_lower
            (Scrubber.lit "mail Bob@Example.com or call 555-123-4567, bob@example.com") ∅
  = Some (Scrubber.lit "mail [EMAIL_1] or call [PHONE_1], [EMAIL_1]").
Proof. vm_compute. reflexivity. Qed.

(** The token pattern is matched without regard to case. *)
Example scrub_tokens_any_case :
  fst <$> Scrubber.scrub ascii_lower
            (Scrubber.lit "Authorization: bearer abc123 / BEARER xyz= / Api_Key: k1") ∅
  = Some (Scrubber.lit "Authorization: [AUTH_TOKEN_3] / [AUTH_TOKEN_2] / [AUTH_TOKEN_1]").
Proof. vm_compute. reflexivity. Qed.

(** ** Intent encoder: the decision table *)

Section TableFacts.
Import Encoder.
#[local] Open Scope R_scope.

Lemma filter_nonempty_existsb {A} (f : A -> bool) (l : list A) :
  (0 <? length (filter (fun x => f x = true) l))%nat = existsb f l.
Proof.
  induction l as [|x l IH]; [reflexivity|].
  cbn [existsb]. rewrite filter_cons.
  destruct (decide (f x = true)) as [E|E].
  - rewrite E. reflexivity.
  - apply not_true_is_false in E. rewrite E. exact IH.
Qed.

(** Decide every string test the goal still holds, then let the rows
    compute. *)
Ltac decide_tests :=
  cbn [String.eqb Ascii.eqb Bool.eqb];
  repeat match goal with
         | |- context [String.eqb ?a ?b] => destruct (String.eqb a b)
         end;
  cbn [find applies row_label row_confidence Row andb orb negb fst snd].

Ltac close_row :=
  first [ reflexivity | split; [reflexivity | cbn [snd]; lra] ].

Lemma classifyUserInteraction_table (e : RawEvent) :
  eventType e = user_int -> agrees code_rows e (classifyUserInteraction e).
Proof.
  intros Hty. unfold agrees, first_match, code_rows, Row.
  cbn [find applies row_label row_confidence].
  unfold event_is, action_is, on_button', on_input_type, on_tag, on_role,
    inside_form, classifyUserInteraction, eq_str, or_empty.
  rewrite Hty.
  destruct (action (payload e)) as [[]|];
    cbn [action_index Nat.eqb andb orb negb];
    destruct (target (payload e)) as [t|];
    try (destruct (inputType t) as [it|]);
    try (destruct (aria_role t) as [ro|]);
    try (destruct (formId t) as [f|]);
    decide_tests; close_row.
Qed.

Lemma classifyDomMutation_table (e : RawEvent) :
  eventType e = dom_mut -> agrees code_rows e (classifyDomMutation e).
Proof.
  intros Hty. unfold agrees, first_match, code_rows, Row.
  cbn [find applies row_label row_confidence].
  unfold event_is, has_mutations, some_form_mutation, total_nodes,
    classifyDomMutation.
  rewrite Hty. cbn [andb].
  destruct (mutations (payload e)) as [[|m ms]|].
  - cbn. split; [reflexivity | lra].
  - rewrite (filter_nonempty_existsb is_form_mutation (m :: ms)).
    destruct (20 <? _)%Z; [reflexivity|].
    destruct (existsb is_form_mutation (m :: ms)); reflexivity.
  - cbn. split; [reflexivity | lra].
Qed.

Ltac no_url :=
  repeat match goal with
         | |- context [includes [] ?s] => change (includes [] s) with false
         end.

Lemma classifyNetworkEvent_table (e : RawEvent) :
  eventType e = network -> agrees code_rows e (classifyNetworkEvent e).
Proof.
  intros Hty. unfold agrees, first_match, code_rows, Row.
  cbn [find applies row_label row_confidence].
  unfold reads'.
  unfold event_is, writes', method_of, url_matches, status_at_least,
    classifyNetworkEvent, eq_str.
  rewrite Hty. cbn [andb existsb].
  set (m := match method (payload e) with
            | Some m => if String.eqb (toUpperCase m) "" then "GET" else toUpperCase m
            | None => "GET"
            end).
  destruct (String.eqb m "POST"), (String.eqb m "PUT"), (String.eqb m "PATCH"),
    (String.eqb m "DELETE");
    cbn [andb orb negb];
    (destruct (url (payload e)) as [u|]; [|no_url]);
    repeat match goal with
           | |- context [includes u ?s] => destruct (includes u s)
           end;
    cbn [find applies row_label row_confidence andb orb negb];
    try reflexivity;
    (destruct (statusCode (payload e)) as [st|];
     [destruct (400 <=? st)%Z; reflexivity | reflexivity]).
Qed.

End TableFacts.

(** C5 (as stated, refuted): a paste into a password field is classified
    authentication where the table's first matching row says data_entry, and
    a plain GET with status 200 and no keyword in its URL, which matches no
    row of the table, is classified navigation with confidence 0.40, not
    unknown. *)
Lemma classify_departs_from_table :
  Encoder.classify (on_password Encoder.paste) = (Encoder.authentication, 0.85%R) /\
  Encoder.first_match Encoder.spec_rows (on_password Encoder.paste)
    = Some (Encoder.data_entry, 0.9%R) /\
  ~ Encoder.agrees Encoder.spec_rows (on_password Encoder.paste)
      (Encoder.classify (on_password Encoder.paste)) /\
  Encoder.classify plain_get = (Encoder.navigation, 0.4%R) /\
  Encoder.first_match Encoder.spec_rows plain_get = None /\
  ~ Encoder.agrees Encoder.spec_rows plain_get (Encoder.classify plain_get).
Proof.
  assert (H1 : Encoder.classify (on_password Encoder.paste)
               = (Encoder.authentication, 0.85%R)) by reflexivity.
  assert (H2 : Encoder.first_match Encoder.spec_rows (on_password Encoder.paste)
               = Some (Encoder.data_entry, 0.9%R)) by reflexivity.
  assert (H3 : Encoder.classify plain_get = (Encoder.navigation, 0.4%R))
    by reflexivity.
  assert (H4 : Encoder.first_match Encoder.spec_rows plain_get = None)
    by reflexivity.
  repeat split; try assumption.
  - unfold Encoder.agrees. rewrite H1, H2. intros E. discriminate E.
  - unfold Encoder.agrees. rewrite H3, H4. cbn [fst]. intros [E _]. discriminate E.
Qed.

(** C5 (amended): for every raw event the Intent Encoder returns the pair of
    the first matching row of the table as the code has it, and label unknown
    with a confidence in [0.10, 0.20] when no row matches (a user interaction
    no row lists, a DOM event without mutations).  The table departs from
    section 4.C in this: methods are compared upper-cased and default to
    GET; the password/email row holds for paste as for input; a submit input
    counts as a button; the GET rows hold for every method other than POST,
    PUT, PATCH and DELETE; a DOM event with mutations that matches no other
    row is (workflow_transition, 0.40) and a network event that matches no
    other row is (navigation, 0.40).  So a paste yields (data_entry, 0.90)
    unless its target is a password/email field, where it yields
    (authentication, 0.85). *)
Theorem classify_follows_code_table (e : Encoder.RawEvent) :
  Encoder.agrees Encoder.code_rows e (Encoder.classify e) /\
  (Encoder.eventType e = Encoder.user_int ->
   Encoder.action (Encoder.payload e) = Some Encoder.paste ->
   Encoder.classify e =
     if Encoder.on_input_type "password" e || Encoder.on_input_type "email" e
     then (Encoder.authentication, 0.85%R) else (Encoder.data_entry, 0.9%R)).
Proof.
  split.
  - unfold Encoder.classify. destruct (Encoder.eventType e) eqn:Hty.
    + apply classifyDomMutation_table, Hty.
    + apply classifyUserInteraction_table, Hty.
    + apply classifyNetworkEvent_table, Hty.
    + unfold Encoder.agrees, Encoder.first_match, Encoder.code_rows, Encoder.Row.
      cbn [find Encoder.applies]. unfold Encoder.event_is. rewrite Hty.
      reflexivity.
  - intros Hty Hact. unfold Encoder.classify, Encoder.classifyUserInteraction,
      Encoder.on_input_type, Encoder.eq_str, Encoder.or_empty.
    rewrite Hty, Hact.
    destruct (Encoder.target (Encoder.payload e)) as [t|]; [|reflexivity].
    destruct (Encoder.inputType t); reflexivity.
Qed.

Lemma classify_follows_code_table_witness :
  Encoder.classify (on_password Encoder.paste) = (Encoder.authentication, 0.85%R).
Proof.
  exact (proj2 (classify_follows_code_table (on_password Encoder.paste))
           eq_refl eq_refl).
Defined.

(** ** Privacy pipeline: the intent vector *)

Section VectorFacts.
Import Encoder.
#[local] Open Scope R_scope.

Lemma Rabs_bound (x a : R) : Rabs x <= a -> - a <= x <= a.
Proof. unfold Rabs. destruct (Rcase_abs x); lra. Qed.

Lemma js_round_near (x : R) : x - / 2 < js_round x <= x + / 2.
Proof.
  unfold js_round. rewrite minus_IZR.
  destruct (archimed (x + / 2)) as [H1 H2]. lra.
Qed.

Lemma js_round_integer (n : Z) : js_round (IZR n) = IZR n.
Proof.
  unfold js_round. f_equal.
  assert (H : up (IZR n + / 2) = (n + 1)%Z).
  { symmetry. apply tech_up; rewrite plus_IZR; lra. }
  rewrite H. lia.
Qed.

(** [Math.round(c * 100) / 100] gives back a confidence written with two
    decimals. *)
Lemma round_confidence (n : Z) : js_round (IZR n / 100 * 100) / 100 = IZR n / 100.
Proof.
  replace (IZR n / 100 * 100) with (IZR n) by (field; lra).
  rewrite js_round_integer. reflexivity.
Qed.

Lemma sum_squares_cons (x : R) (l : list R) :
  sum_squares (x :: l) = x * x + sum_squares l.
Proof. reflexivity. Qed.

Lemma sum_squares_nonneg (l : list R) : 0 <= sum_squares l.
Proof.
  induction l as [|x l IH]; [cbn; lra|].
  rewrite sum_squares_cons. nra.
Qed.

Lemma sum_squares_member (l : list R) (x : R) :
  In x l -> x * x <= sum_squares l.
Proof.
  induction l as [|y l IH]; [intros []|].
  rewrite sum_squares_cons. pose proof (sum_squares_nonneg l) as Hl.
  intros [->|Hin]; [nra|]. specialize (IH Hin). nra.
Qed.

Lemma sum_squares_scale (l : list R) (c : R) :
  sum_squares (map (fun x => x * c) l) = sum_squares l * (c * c).
Proof.
  induction l as [|x l IH]; [cbn; lra|].
  cbn [map]. rewrite !sum_squares_cons, IH. ring.
Qed.

(** Moving every coordinate of a vector in the unit ball by at most
    [delta] moves the sum of squares by at most [2 delta + delta^2] per
    coordinate. *)
Lemma sum_squares_moved (g : R -> R) (delta : R) (l : list R) :
  0 <= delta ->
  (forall x, In x l -> Rabs x <= 1 /\ Rabs (g x - x) <= delta) ->
  Rabs (sum_squares (map g l) - sum_squares l)
  <= INR (length l) * (2 * delta + delta * delta).
Proof.
  intros Hd. induction l as [|x l IH]; intros H.
  - cbn. rewrite Rminus_diag, Rabs_R0. lra.
  - cbn [map length]. rewrite S_INR, !sum_squares_cons.
    destruct (H x (or_introl eq_refl)) as [Hx Hg].
    specialize (IH (fun y Hy => H y (or_intror Hy))).
    apply Rabs_bound in Hx. apply Rabs_bound in Hg. apply Rabs_bound in IH.
    apply Rabs_le. split; nra.
Qed.

(** Every coordinate of the base vector is a half-odd multiple of
    1/2147483647, so none is zero. *)
Lemma coordinate_nonzero (z : Z) : coordinate z <> 0.
Proof.
  unfold coordinate. intros H.
  assert (E : IZR (2 * z) = IZR 2147483647) by (rewrite mult_IZR; lra).
  apply eq_IZR in E. lia.
Qed.

Lemma base_vector_length (n : nat) (rng : Z) : length (base_vector n rng) = n.
Proof.
  revert rng. induction n as [|n IH]; intros rng; cbn; [reflexivity|].
  rewrite IH. reflexivity.
Qed.

Lemma base_vector_S (n : nat) (rng : Z) :
  [] ++ skipn 0 (base_vector (S n) rng)
  = coordinate (lcg_next rng) :: base_vector n (lcg_next rng).
Proof. reflexivity. Qed.

Lemma base_vector_split (n m : nat) (rng : Z) :
  exists rng', base_vector (n + m) rng = base_vector n rng ++ base_vector m rng'.
Proof.
  revert rng. induction n as [|n IH]; intros rng.
  - exists rng. reflexivity.
  - destruct (IH (lcg_next rng)) as (rng' & H). exists rng'.
    cbn [Nat.add base_vector app]. rewrite H. reflexivity.
Qed.

Lemma mix_length (v f : list R) : length (mix v f) = length v.
Proof.
  revert f. induction v as [|x v IH]; intros [|y f]; cbn; try reflexivity.
  rewrite IH. reflexivity.
Qed.

Lemma extractFeatures_tail (e : RawEvent) :
  exists head, length head = 7%nat /\ extractFeatures e = head ++ repeat 0 121.
Proof. unfold extractFeatures. eexists. split; [|reflexivity]. reflexivity. Qed.

Lemma mix_skip (v f : list R) :
  forall n x vs,
    skipn n v = x :: vs -> skipn n f = 0 :: repeat 0 (length vs) ->
    In (x * 0.7 + 0 * 0.3) (mix v f).
Proof.
  revert f. induction v as [|y v IH]; intros f n x vs Hv Hf.
  - destruct n; discriminate.
  - destruct n as [|n].
    + change (y :: v = x :: vs) in Hv.
      change (f = 0 :: repeat 0 (length vs)) in Hf.
      injection Hv as -> ->. rewrite Hf. cbn. left. reflexivity.
    + change (skipn n v = x :: vs) in Hv.
      destruct f as [|z f]; [destruct n; discriminate|].
      change (skipn n f = 0 :: repeat 0 (length vs)) in Hf.
      cbn. right. eapply IH; eassumption.
Qed.

(** The mixed vector has a non-zero coordinate: past the seven features
    the base vector is only scaled. *)
Lemma mixed_positive (label : IntentClass) (e : RawEvent) :
  0 < sum_squares (mix (base_vector 128 (INTENT_SEEDS label)) (extractFeatures e)).
Proof.
  destruct (extractFeatures_tail e) as (hd & Hlen & ->).
  set (b := base_vector 128 (INTENT_SEEDS label)).
  assert (Hb : exists z vs, skipn 7 b = coordinate z :: vs /\ length vs = 120%nat).
  { destruct (base_vector_split 7 121 (INTENT_SEEDS label)) as (s' & Hs).
    change (7 + 121)%nat with 128%nat in Hs. unfold b. rewrite Hs.
    rewrite skipn_app, base_vector_length, Nat.sub_diag, skipn_all2
      by (rewrite base_vector_length; lia).
    exists (lcg_next s'), (base_vector 120 (lcg_next s')).
    split; [apply (base_vector_S 120) | apply base_vector_length]. }
  destruct Hb as (z & vs & Hskip & Hvs).
  assert (Hin : In (coordinate z * 0.7 + 0 * 0.3)
                   (mix b (hd ++ repeat 0 121))).
  { eapply mix_skip; [exact Hskip|].
    rewrite skipn_app, Hlen, Nat.sub_diag, skipn_all2 by lia.
    rewrite Hvs. reflexivity. }
  apply sum_squares_member in Hin.
  pose proof (coordinate_nonzero z). nra.
Qed.

Lemma quantize_near (x : R) : Rabs (quantize x - x) <= 0.00005.
Proof.
  unfold quantize. pose proof (js_round_near (x * 10000)).
  apply Rabs_le. lra.
Qed.

(** The vector of the encoder: 128 coordinates, each within 1.00005 of
    zero, with an L2 norm within 0.01 of 1. *)
Lemma generateVector_unit (label : IntentClass) (e : RawEvent) :
  length (generateVector label e) = 128%nat /\
  (forall x, In x (generateVector label e) -> Rabs x <= 1.00005) /\
  0.99 <= norm (generateVector label e) <= 1.01.
Proof.
  unfold generateVector.
  set (w := mix (base_vector 128 (INTENT_SEEDS label)) (extractFeatures e)).
  pose proof (mixed_positive label e) as Hpos. fold w in Hpos.
  assert (Hlen : length w = 128%nat)
    by (unfold w; rewrite mix_length, base_vector_length; reflexivity).
  assert (HN : 0 < norm w) by (apply sqrt_lt_R0, Hpos).
  destruct (Rlt_dec 0 (norm w)) as [_|Hn]; [|contradiction].
  set (N := norm w) in *.
  assert (HNN : N * N = sum_squares w) by (apply sqrt_sqrt; lra).
  set (u := map (fun x => x * / N) w).
  assert (Hu : sum_squares u = 1).
  { unfold u. rewrite sum_squares_scale, <- HNN. field. lra. }
  assert (Hmap : map (fun v => js_round (v / N * 10000) / 10000) w = map quantize u).
  { unfold u. rewrite map_map. apply map_ext. intros x. reflexivity. }
  rewrite Hmap.
  assert (Hunit : forall x, In x u -> Rabs x <= 1).
  { intros x Hx. apply sum_squares_member in Hx. rewrite Hu in Hx.
    apply Rabs_le. split; nra. }
  split; [|split].
  - rewrite length_map. unfold u. rewrite length_map. exact Hlen.
  - intros y Hy. apply in_map_iff in Hy as (x & <- & Hx).
    pose proof (quantize_near x) as Hq. specialize (Hunit x Hx).
    apply Rabs_bound in Hq. apply Rabs_bound in Hunit. apply Rabs_le. lra.
  - pose proof (sum_squares_moved quantize 0.00005 u) as Hm.
    assert (Hlu : length u = 128%nat) by (unfold u; rewrite length_map; exact Hlen).
    rewrite Hlu, Hu in Hm.
    assert (Hb : Rabs (sum_squares (map quantize u) - 1) <= 0.0129).
    { eapply Rle_trans; [apply Hm; [lra|]|].
      - intros x Hx. split; [apply Hunit, Hx | apply quantize_near].
      - rewrite INR_IZR_INZ. change (Z.of_nat 128) with 128%Z. lra. }
    apply Rabs_bound in Hb. unfold norm. split.
    + replace 0.99 with (sqrt (0.99 * 0.99)) by (apply sqrt_square; lra).
      apply sqrt_le_1_alt. lra.
    + replace 1.01 with (sqrt (1.01 * 1.01)) by (apply sqrt_square; lra).
      apply sqrt_le_1_alt. lra.
Qed.

End VectorFacts.

Section ProcessFacts.
Import Encoder.
#[local] Open Scope R_scope.

Variable toLowerCase : Scrubber.text -> Scrubber.text.
Variable parse_url : string -> option (string * string).
Variable random : nat -> R.
Variable localTZA : Z -> bool -> Z.

Lemma scrub_returns (t : Scrubber.text) (cs : Scrubber.counters) :
  exists r, Scrubber.scrub toLowerCase t cs = Some r.
Proof.
  destruct (detect_spec t) as (entities & Hd & _).
  unfold Scrubber.scrub. rewrite Hd.
  destruct t; [eauto|]. destruct entities; eauto.
Qed.

Lemma containsPii_returns (t : Scrubber.text) :
  exists b, Scrubber.containsPii t = Some b.
Proof.
  destruct (detect_spec t) as (entities & Hd & _).
  unfold Scrubber.containsPii. rewrite Hd. eauto.
Qed.

Lemma scrub_field_returns (field : option Scrubber.text) (cs : Scrubber.counters) :
  exists f cs', Pipeline.scrub_field toLowerCase field cs = Some (f, cs').
Proof.
  unfold Pipeline.scrub_field. destruct field as [[|c rest]|]; eauto.
  destruct (scrub_returns (c :: rest) cs) as ([t cs'] & ->). eauto.
Qed.

Lemma scrub_mutations_returns (ms : list MutationSummary) :
  forall cs, exists ms' cs',
    Pipeline.scrub_mutations toLowerCase ms cs = Some (ms', cs').
Proof.
  induction ms as [|m ms IH]; intros cs; cbn [Pipeline.scrub_mutations]; eauto.
  destruct (scrub_field_returns (oldValue m) cs) as (old & cs1 & ->).
  destruct (scrub_field_returns (newValue m) cs1) as (new & cs2 & ->).
  destruct (IH cs2) as (ms' & cs3 & ->). eauto.
Qed.

(** Scrubbing returns, and leaves alone every field that the classifier of
    user interactions and the feature extractor read. *)
Lemma scrubEvent_returns (e : RawEvent) (cs : Scrubber.counters) :
  exists s cs',
    Pipeline.scrubEvent toLowerCase parse_url e cs = Some (s, cs') /\
    eventType s = eventType e /\
    classifyUserInteraction s = classifyUserInteraction e /\
    extractFeatures s = extractFeatures e.
Proof.
  unfold Pipeline.scrubEvent.
  destruct (scrub_field_returns (value (payload e)) cs) as (v & cs1 & ->).
  destruct (scrub_field_returns (message (payload e)) cs1) as (msg & cs2 & ->).
  assert (Ht : exists tg cs3,
    match target (payload e) with
    | Some t =>
      match Pipeline.scrub_field toLowerCase (Some (textPreview t)) cs2 with
      | Some (preview, cs3) =>
        Some (Some {| aria_role := aria_role t;
                      textPreview := default [] preview;
                      position := position t; domPath := domPath t;
                      tagName := tagName t; inputType := inputType t;
                      formId := formId t |}, cs3)
      | None => None
      end
    | None => Some (None, cs2)
    end = Some (tg, cs3) /\
    match target (payload e), tg with
    | Some t, Some t' =>
      aria_role t' = aria_role t /\ position t' = position t /\
      domPath t' = domPath t /\ tagName t' = tagName t /\
      inputType t' = inputType t /\ formId t' = formId t
    | None, None => True
    | _, _ => False
    end).
  { destruct (target (payload e)) as [t|];
      [|exists None, cs2; split; [reflexivity | exact I]].
    destruct (scrub_field_returns (Some (textPreview t)) cs2) as (p & cs3 & ->).
    eexists _, _. split; [reflexivity|]. cbn. repeat split. }
  destruct Ht as (tg & cs3 & -> & Htg).
  assert (Hm : exists ms cs4,
    match mutations (payload e) with
    | Some ms =>
      match Pipeline.scrub_mutations toLowerCase ms cs3 with
      | Some (ms', cs4) => Some (Some ms', cs4)
      | None => None
      end
    | None => Some (None, cs3)
    end = Some (ms, cs4)).
  { destruct (mutations (payload e)) as [ms|]; [|eauto].
    destruct (scrub_mutations_returns ms cs3) as (ms' & cs4 & ->). eauto. }
  destruct Hm as (ms & cs4 & ->).
  assert (Hu : exists u cs5,
    match url (payload e) with
    | Some (c :: rest) =>
      match Scrubber.containsPii (c :: rest) with
      | None => None
      | Some true =>
        match Scrubber.scrub toLowerCase (c :: rest) cs4 with
        | Some (u, cs5) => Some (Some u, cs5)
        | None => None
        end
      | Some false => Some (Some (c :: rest), cs4)
      end
    | other => Some (other, cs4)
    end = Some (u, cs5)).
  { destruct (url (payload e)) as [[|c rest]|]; eauto.
    destruct (containsPii_returns (c :: rest)) as ([|] & ->); eauto.
    destruct (scrub_returns (c :: rest) cs4) as ([u cs5] & ->). eauto. }
  destruct Hu as (u & cs5 & ->).
  eexists _, _. split; [reflexivity|]. split; [reflexivity|].
  unfold classifyUserInteraction, extractFeatures.
  cbn [payload action target method statusCode].
  destruct (target (payload e)) as [t|], tg as [t'|]; try contradiction.
  - destruct Htg as (-> & -> & -> & -> & -> & ->). split; reflexivity.
  - split; reflexivity.
Qed.

(** What the pipeline ends with for a user interaction: a RangeError when
    the noisy timestamp is no valid date, a DataError when the key of the
    fingerprint is empty, and otherwise the Secure Event, with the label and
    the confidence of the classifier on the raw event and the encoder's
    vector under noise. *)
Lemma process_user_interaction (orgId deviceId userId : string) (now1 now2 : Z)
    (e : RawEvent) (s : Pipeline.state) :
  eventType e = user_int ->
  exists r s',
    Pipeline.process toLowerCase parse_url random localTZA
      orgId deviceId userId now1 now2 e s = Some (r, s') /\
    match Pipeline.anonymizeTimestamp random localTZA 256 now1,
          Hmac.generateSessionFingerprint deviceId userId now2 with
    | None, _ =>
      r = Pipeline.Thrown Pipeline.RangeError /\
      Pipeline.sequenceCounter s' = Pipeline.sequenceCounter s
    | Some _, None =>
      r = Pipeline.Thrown Pipeline.DataError /\
      Pipeline.sequenceCounter s' = Pipeline.sequenceCounter s
    | Some bucket, Some fingerprint =>
      exists se,
        r = Pipeline.Secure se /\
        Pipeline.timestampBucket se = bucket /\
        Pipeline.sessionFingerprint se = fingerprint /\
        Pipeline.intentLabel se = fst (classify e) /\
        Pipeline.intentConfidence se = js_round (snd (classify e) * 100) / 100 /\
        Pipeline.intentVector se
          = Pipeline.perturbVector random 0 (generateVector (fst (classify e)) e) 1 /\
        Pipeline.sequenceNumber se = (Pipeline.sequenceCounter s + 1)%Z /\
        Pipeline.sequenceCounter s' = (Pipeline.sequenceCounter s + 1)%Z
    end.
Proof.
  intros Hty. unfold Pipeline.process.
  destruct (scrubEvent_returns e (Pipeline.entityCounters s))
    as (sc & cs & -> & Hty' & Hcl & Hfe).
  assert (Hc : classify sc = classify e)
    by (unfold classify; rewrite Hty', Hty; exact Hcl).
  assert (Hv : vector (encode sc) = generateVector (fst (classify e)) e).
  { unfold encode. cbn [vector]. rewrite Hc. unfold generateVector.
    rewrite Hfe. reflexivity. }
  cbv zeta.
  destruct (Pipeline.anonymizeTimestamp random localTZA 256 now1) as [bucket|].
  2: { eexists _, _. split; [reflexivity|]. split; reflexivity. }
  destruct (Hmac.generateSessionFingerprint deviceId userId now2) as [fingerprint|].
  2: { eexists _, _. split; [reflexivity|]. split; reflexivity. }
  eexists _, _. split; [reflexivity|]. eexists. split; [reflexivity|].
  cbn [Pipeline.intentLabel Pipeline.intentConfidence Pipeline.intentVector
       Pipeline.sequenceNumber Pipeline.timestampBucket Pipeline.sessionFingerprint
       Pipeline.sequenceCounter].
  unfold encode at 1 2. cbn [label confidence]. rewrite Hc, Hv.
  repeat split; reflexivity.
Qed.

Lemma perturb_from_length (n : nat) (sigma : R) (v : list R) :
  length (Pipeline.perturb_from random n sigma v) = length v.
Proof.
  revert n. induction v as [|x v IH]; intros n; cbn; [reflexivity|].
  rewrite IH. reflexivity.
Qed.

Lemma perturbVector_length (n : nat) (v : list R) (epsilon : R) :
  length (Pipeline.perturbVector random n v epsilon) = length v.
Proof.
  unfold Pipeline.perturbVector. destruct (Req_dec_T epsilon 0).
  - apply length_map.
  - apply perturb_from_length.
Qed.

(** A coordinate of the perturbed vector: quantized to 4 decimals when
    the first draw of its noise lies in (0, 1], not finite otherwise. *)
Lemma perturb_from_coordinate (sigma : R) (v : list R) :
  forall n i,
    (i < length v)%nat ->
    exists x,
      ((0 < random (n + 2 * i)%nat <= 1)%R ->
       exists k, Pipeline.perturb_from random n sigma v !! i
                 = Some (Pipeline.Finite (IZR k / 10000))) /\
      (~ (0 < random (n + 2 * i)%nat <= 1)%R ->
       Pipeline.perturb_from random n sigma v !! i = Some Pipeline.NotFinite) /\
      v !! i = Some x.
Proof.
  induction v as [|x v IH]; intros n i Hi; [cbn in Hi; lia|].
  destruct i as [|i].
  - exists x. rewrite Nat.add_0_r. cbn [Pipeline.perturb_from].
    unfold Pipeline.gaussianNoise.
    destruct (Rlt_dec 0 (random n)) as [H0|H0];
      [destruct (Rle_dec (random n) 1) as [H1|H1]|].
    + split; [|split; [intros H; exfalso; apply H; split; assumption | reflexivity]].
      intros _. eexists. unfold js_round. reflexivity.
    + split; [intros [_ H]; contradiction | split; reflexivity].
    + split; [intros [H _]; contradiction | split; reflexivity].
  - cbn [length] in Hi.
    destruct (IH (S (S n)) i ltac:(lia)) as (y & Hf & Hnf & Hy).
    replace (S (S n) + 2 * i)%nat with (n + 2 * S i)%nat in Hf, Hnf by lia.
    exists y. cbn [Pipeline.perturb_from]. repeat split; assumption.
Qed.

Lemma perturbVector_coordinate (v : list R) (i : nat) :
  (i < length v)%nat ->
  ((0 < random (2 * i)%nat <= 1)%R ->
   exists k, Pipeline.perturbVector random 0 v 1 !! i
             = Some (Pipeline.Finite (IZR k / 10000))) /\
  (~ (0 < random (2 * i)%nat <= 1)%R ->
   Pipeline.perturbVector random 0 v 1 !! i = Some Pipeline.NotFinite).
Proof.
  intros Hi. unfold Pipeline.perturbVector.
  destruct (Req_dec_T 1 0) as [H|_]; [exfalso; lra|].
  destruct (perturb_from_coordinate (sqrt 2 / 1) v 0 i Hi) as (x & Hf & Hnf & _).
  split; assumption.
Qed.

End ProcessFacts.

Section NoiseFacts.
Import Encoder.
#[local] Open Scope R_scope.

Lemma ln_2_lower : / 2 < ln 2.
Proof.
  rewrite <- (ln_exp (/ 2)). apply ln_increasing; [apply exp_pos|].
  pose proof (exp_pos (/ 2)) as Hp. pose proof exp_le_3 as H3.
  replace 1 with (/ 2 + / 2) in H3 by lra. rewrite exp_plus in H3. nra.
Qed.

Lemma sqrt_2_lower : 1.4 <= sqrt 2.
Proof.
  replace 1.4 with (sqrt (1.4 * 1.4)) by (apply sqrt_square; lra).
  apply sqrt_le_1_alt. lra.
Qed.

(** The noise this realization adds to every coordinate is at least 1.4. *)
Lemma noisy_gaussian (n : nat) :
  Nat.even n = true ->
  exists noise,
    Pipeline.gaussianNoise noisy_random n 0 (sqrt 2 / 1) = Pipeline.Finite noise /\
    1.4 <= noise.
Proof.
  intros Hn. unfold Pipeline.gaussianNoise, noisy_random.
  rewrite Hn. rewrite Nat.even_succ, <- Nat.negb_even, Hn. cbn [negb].
  destruct (Rlt_dec 0 (1 / 2)) as [_|H]; [|exfalso; lra].
  destruct (Rle_dec (1 / 2) 1) as [_|H]; [|exfalso; lra].
  eexists. split; [reflexivity|].
  replace (2 * PI * 0) with 0 by ring. rewrite cos_0.
  replace (1 / 2) with (/ 2) by lra. rewrite ln_Rinv by lra.
  pose proof ln_2_lower as Hl. pose proof sqrt_2_lower as H2.
  assert (H1 : 1 <= sqrt (-2 * - ln 2)).
  { rewrite <- sqrt_1 at 1. apply sqrt_le_1_alt. lra. }
  nra.
Qed.

Lemma noisy_coordinates (v : list R) :
  forall n, Nat.even n = true ->
  (forall x, In x v -> Rabs x <= 1.00005) ->
  exists w,
    Pipeline.perturb_from noisy_random n (sqrt 2 / 1) v = map Pipeline.Finite w /\
    length w = length v /\
    forall y, In y w -> 0.39 <= y.
Proof.
  induction v as [|x v IH]; intros n Hn Hv.
  - exists []. split; [reflexivity|]. split; [reflexivity|]. intros y [].
  - destruct (IH (S (S n)) Hn (fun z Hz => Hv z (or_intror Hz))) as (w & Hw & Hlen & Hlow).
    destruct (noisy_gaussian n Hn) as (noise & Hg & Hnoise).
    cbn [Pipeline.perturb_from]. rewrite Hg, Hw.
    exists (js_round ((x + noise) * 10000) / 10000 :: w).
    split; [reflexivity|]. split; [cbn; rewrite Hlen; reflexivity|].
    intros y [<-|Hy]; [|apply Hlow, Hy].
    pose proof (Hv x (or_introl eq_refl)) as Hx. apply Rabs_bound in Hx.
    pose proof (js_round_near ((x + noise) * 10000)). lra.
Qed.

Lemma sum_squares_lower (c : R) (l : list R) :
  0 <= c -> (forall y, In y l -> c <= y) ->
  INR (length l) * (c * c) <= sum_squares l.
Proof.
  intros Hc. induction l as [|y l IH]; intros H.
  - cbn. lra.
  - cbn [length]. rewrite S_INR, sum_squares_cons.
    specialize (IH (fun z Hz => H z (or_intror Hz))).
    specialize (H y (or_introl eq_refl)). nra.
Qed.

Lemma classify_password (e : RawEvent) :
  eventType e = user_int ->
  action (payload e) = Some input \/ action (payload e) = Some paste ->
  on_input_type "password" e = true ->
  classify e = (authentication, 0.85).
Proof.
  intros Hty Hact Hpw. unfold classify, classifyUserInteraction. rewrite Hty.
  unfold on_input_type in Hpw.
  destruct (target (payload e)) as [t|]; [|discriminate].
  destruct (inputType t) as [it|]; [|discriminate].
  cbn [or_empty]. rewrite Hpw. cbn [orb].
  destruct Hact as [-> | ->]; reflexivity.
Qed.

End NoiseFacts.

(** The zone of the scenarios: UTC. *)
Lemma noisy_timestamp :
  Pipeline.anonymizeTimestamp noisy_random utc 256 0 = Some 0%Z.
Proof.
  unfold Pipeline.anonymizeTimestamp, Pipeline.laplacianNoise, noisy_random.
  change (Nat.even 256) with true. cbv iota.
  replace (1 / 2 - 0.5)%R with 0%R by lra. rewrite Rabs_R0.
  destruct (Rlt_dec 0 (1 - 2 * 0)) as [_|H]; [|exfalso; lra].
  replace (1 - 2 * 0)%R with 1%R by lra. rewrite ln_1.
  replace (0 + - (30 * 1000) * Pipeline.sign 0 * 0)%R with 0%R by ring.
  unfold Pipeline.time_clip. rewrite Rabs_R0.
  destruct (Rle_dec 0 8640000000000000) as [_|H]; [|exfalso; lra].
  destruct (Rle_dec 0 0) as [_|H]; [|exfalso; lra].
  assert (Hup : up 0 = 1%Z) by (symmetry; apply tech_up; lra).
  rewrite Hup. reflexivity.
Qed.

(** At the draw 0 the logarithm is taken at 0: the noise is not finite,
    and neither is the noisy timestamp. *)
Lemma laplacian_at_zero (random : nat -> R) (n : nat) (scale : R) :
  random n = 0%R -> Pipeline.laplacianNoise random n scale = Pipeline.NotFinite.
Proof.
  intros E. unfold Pipeline.laplacianNoise. cbv zeta. rewrite E.
  replace (0 - 0.5)%R with (- 0.5)%R by lra.
  rewrite Rabs_left by lra.
  destruct (Rlt_dec 0 (1 - 2 * - - 0.5)) as [H|_]; [exfalso; lra | reflexivity].
Qed.

Lemma timestamp_at_zero (random : nat -> R) (localTZA : Z -> bool -> Z)
    (n : nat) (timestamp : Z) :
  random n = 0%R -> Pipeline.anonymizeTimestamp random localTZA n timestamp = None.
Proof.
  intros E. unfold Pipeline.anonymizeTimestamp.
  rewrite (laplacian_at_zero random n _ E). reflexivity.
Qed.

(** C4 (as stated, refuted): the click on a password input of the
    specification's scenario is labelled unknown with confidence 0.20, not
    authentication; for an input action on the same field, with every
    first Box-Muller draw 1/2 and every second draw 0, the emitted
    intentVector has an L2 norm above 1.01; with every draw 0 the pipeline
    throws a RangeError on that event, and with an empty deviceId a
    DataError, and no Secure Event is produced. *)
Lemma password_event_label_and_norm :
  (exists s',
     Pipeline.process ascii_lower url_stub zero_random utc "o1" "dev-1" "user-1" 0 0
       (on_password Encoder.input) fresh_pipeline
     = Some (Pipeline.Thrown Pipeline.RangeError, s')) /\
  (exists s',
     Pipeline.process ascii_lower url_stub noisy_random utc "o1" "" "user-1" 0 0
       (on_password Encoder.input) fresh_pipeline
     = Some (Pipeline.Thrown Pipeline.DataError, s')) /\
  (exists se s',
     Pipeline.process ascii_lower url_stub noisy_random utc "o1" "dev-1" "user-1" 0 0
       (on_password Encoder.click) fresh_pipeline = Some (Pipeline.Secure se, s') /\
     Pipeline.intentLabel se = Encoder.unknown /\
     Pipeline.intentConfidence se = 0.2%R) /\
  (exists se s' v,
     Pipeline.process ascii_lower url_stub noisy_random utc "o1" "dev-1" "user-1" 0 0
       (on_password Encoder.input) fresh_pipeline = Some (Pipeline.Secure se, s') /\
     Pipeline.intentLabel se = Encoder.authentication /\
     Pipeline.intentVector se = map Pipeline.Finite v /\
     (1.01 < Encoder.norm v)%R).
Proof.
  split; [|split; [|split]].
  - destruct (process_user_interaction ascii_lower url_stub zero_random utc
                "o1" "dev-1" "user-1" 0 0 (on_password Encoder.input)
                fresh_pipeline eq_refl) as (r & s' & Hp & Hr).
    rewrite (timestamp_at_zero zero_random utc 256 0 eq_refl) in Hr.
    destruct Hr as [-> _]. exists s'. exact Hp.
  - destruct (process_user_interaction ascii_lower url_stub noisy_random utc
                "o1" "" "user-1" 0 0 (on_password Encoder.input)
                fresh_pipeline eq_refl) as (r & s' & Hp & Hr).
    rewrite noisy_timestamp in Hr.
    change (Hmac.generateSessionFingerprint "" "user-1" 0) with (@None string) in Hr.
    destruct Hr as [-> _]. exists s'. exact Hp.
  - destruct (process_user_interaction ascii_lower url_stub noisy_random utc
                "o1" "dev-1" "user-1" 0 0 (on_password Encoder.click)
                fresh_pipeline eq_refl) as (r & s' & Hp & Hr).
    rewrite noisy_timestamp in Hr.
    change (Hmac.generateSessionFingerprint "dev-1" "user-1" 0)
      with (Some (Hmac.hex (Hmac.hmac_sha256 (Hmac.encode "dev-1")
                    (Hmac.encode (Hmac.session_message "dev-1" "user-1" 0))))) in Hr.
    destruct Hr as (se & -> & _ & _ & Hl & Hc & _).
    exists se, s'. split; [exact Hp|]. split; [exact Hl|].
    rewrite Hc. change (snd (Encoder.classify (on_password Encoder.click)))
      with 0.2%R.
    replace 0.2%R with (20 / 100)%R by lra. apply round_confidence.
  - destruct (process_user_interaction ascii_lower url_stub noisy_random utc
                "o1" "dev-1" "user-1" 0 0 (on_password Encoder.input)
                fresh_pipeline eq_refl) as (r & s' & Hp & Hr).
    rewrite noisy_timestamp in Hr.
    change (Hmac.generateSessionFingerprint "dev-1" "user-1" 0)
      with (Some (Hmac.hex (Hmac.hmac_sha256 (Hmac.encode "dev-1")
                    (Hmac.encode (Hmac.session_message "dev-1" "user-1" 0))))) in Hr.
    destruct Hr as (se & -> & _ & _ & Hl & _ & Hv & _).
    destruct (generateVector_unit
                (fst (Encoder.classify (on_password Encoder.input)))
                (on_password Encoder.input)) as (Hlen & Hco & _).
    destruct (noisy_coordinates _ 0 eq_refl Hco) as (w & Hw & Hwl & Hlow).
    exists se, s', w. split; [exact Hp|]. split; [exact Hl|].
    split.
    { rewrite Hv. unfold Pipeline.perturbVector.
      destruct (Req_dec_T 1 0) as [H|_]; [exfalso; lra | exact Hw]. }
    unfold Encoder.norm.
    pose proof (sum_squares_lower 0.39 w) as Hs.
    rewrite Hwl, Hlen in Hs.
    rewrite INR_IZR_INZ in Hs. change (Z.of_nat 128) with 128%Z in Hs.
    assert (Hlow' : (0 <= 0.39)%R) by lra.
    specialize (Hs Hlow' Hlow).
    replace 1.01%R with (sqrt (1.01 * 1.01)) by (apply sqrt_square; lra).
    apply sqrt_lt_1_alt. lra.
Qed.

(** C4 (amended): for every raw user-interaction event whose action is
    input or paste on an input of type password, and for every realization
    of the pipeline's randomness, the pipeline ends in one of three ways.
    It throws a RangeError when the noisy timestamp is no valid date (the
    draw for the timestamp is 0, or the time is out of the range of
    dates), and a DataError when deviceId is empty.  Otherwise it returns
    the Secure Event, with intentLabel authentication and intentConfidence
    0.85; its intentVector is the encoder's vector, 128 coordinates with an
    L2 norm within 0.01 of 1.0, with Gaussian noise added to every
    coordinate and quantized to 4 decimals (a coordinate whose first draw
    is 0 is not finite), so the emitted vector itself is not normalized. *)
Theorem password_input_is_authentication
    (toLowerCase : Scrubber.text -> Scrubber.text)
    (parse_url : string -> option (string * string))
    (random : nat -> R) (localTZA : Z -> bool -> Z)
    (orgId deviceId userId : string) (now1 now2 : Z)
    (e : Encoder.RawEvent) (s : Pipeline.state) :
  Encoder.eventType e = Encoder.user_int ->
  Encoder.action (Encoder.payload e) = Some Encoder.input \/
  Encoder.action (Encoder.payload e) = Some Encoder.paste ->
  Encoder.on_input_type "password" e = true ->
  exists r s',
    Pipeline.process toLowerCase parse_url random localTZA
      orgId deviceId userId now1 now2 e s = Some (r, s') /\
    (r = Pipeline.Thrown Pipeline.RangeError
     <-> Pipeline.anonymizeTimestamp random localTZA 256 now1 = None) /\
    (r = Pipeline.Thrown Pipeline.DataError
     <-> Pipeline.anonymizeTimestamp random localTZA 256 now1 <> None /\
         deviceId = "") /\
    match r with
    | Pipeline.Secure se =>
      Pipeline.intentLabel se = Encoder.authentication /\
      Pipeline.intentConfidence se = 0.85%R /\
      Pipeline.intentVector se
        = Pipeline.perturbVector random 0 (Encoder.vector (Encoder.encode e)) 1 /\
      length (Pipeline.intentVector se) = 128%nat /\
      (forall i, (i < 128)%nat ->
         (0 < random (2 * i)%nat <= 1)%R ->
         exists k, Pipeline.intentVector se !! i = Some (Pipeline.Finite (IZR k / 10000))) /\
      (forall i, (i < 128)%nat ->
         ~ (0 < random (2 * i)%nat <= 1)%R ->
         Pipeline.intentVector se !! i = Some Pipeline.NotFinite) /\
      length (Encoder.vector (Encoder.encode e)) = 128%nat /\
      (0.99 <= Encoder.norm (Encoder.vector (Encoder.encode e)) <= 1.01)%R
    | Pipeline.Thrown _ => True
    end.
Proof.
  intros Hty Hact Hpw.
  destruct (process_user_interaction toLowerCase parse_url random localTZA
              orgId deviceId userId now1 now2 e s Hty)
    as (r & s' & Hp & Hr).
  pose proof (classify_password e Hty Hact Hpw) as Hcl.
  assert (He : Encoder.vector (Encoder.encode e)
               = Encoder.generateVector Encoder.authentication e)
    by (unfold Encoder.encode; rewrite Hcl; reflexivity).
  destruct (generateVector_unit Encoder.authentication e) as (Hlen & _ & Hn).
  exists r, s'. split; [exact Hp|].
  unfold Hmac.generateSessionFingerprint in Hr.
  destruct (Pipeline.anonymizeTimestamp random localTZA 256 now1) as [bucket|].
  - destruct (String.eqb_spec deviceId "") as [Hd|Hd].
    + destruct Hr as [-> _]. split; [split; discriminate|].
      split; [|exact I]. split; [intros _; split; [discriminate | exact Hd] | reflexivity].
    + destruct Hr as (se & -> & _ & _ & Hl & Hc & Hv & _).
      rewrite Hcl in Hl, Hc, Hv. cbn [fst snd] in Hl, Hc, Hv.
      split; [split; discriminate|].
      split; [split; [discriminate | intros [_ E]; contradiction]|].
      rewrite He. split; [exact Hl|]. split.
      { rewrite Hc. replace 0.85%R with (85 / 100)%R by lra. apply round_confidence. }
      split; [exact Hv|].
      split; [rewrite Hv, (perturbVector_length random); exact Hlen|].
      split; [|split; [|split; [exact Hlen | exact Hn]]].
      * intros i Hi Hdraw. rewrite Hv.
        destruct (perturbVector_coordinate random
                    (Encoder.generateVector Encoder.authentication e) i)
          as (Hfin & _); [rewrite Hlen; exact Hi|].
        apply Hfin. exact Hdraw.
      * intros i Hi Hdraw. rewrite Hv.
        destruct (perturbVector_coordinate random
                    (Encoder.generateVector Encoder.authentication e) i)
          as (_ & Hnot); [rewrite Hlen; exact Hi|].
        apply Hnot. exact Hdraw.
  - destruct Hr as [-> _]. split; [split; reflexivity|].
    split; [|exact I]. split; [discriminate | intros [E _]; contradiction].
Qed.

Lemma password_input_is_authentication_witness :
  exists se s',
    Pipeline.process ascii_lower url_stub noisy_random utc "o1" "dev-1" "user-1" 0 0
      (on_password Encoder.input) fresh_pipeline = Some (Pipeline.Secure se, s') /\
    Pipeline.intentLabel se = Encoder.authentication /\
    Pipeline.intentConfidence se = 0.85%R.
Proof.
  destruct (password_input_is_authentication ascii_lower url_stub noisy_random utc
              "o1" "dev-1" "user-1" 0 0 (on_password Encoder.input) fresh_pipeline
              eq_refl (or_introl eq_refl) eq_refl)
    as (r & s' & Hp & Hrange & Hdata & Hr).
  destruct r as [se|[|]].
  - exists se, s'. destruct Hr as (Hl & Hc & _). auto.
  - exfalso. pose proof (proj1 Hrange eq_refl) as E.
    rewrite noisy_timestamp in E. discriminate E.
  - exfalso. destruct (proj1 Hdata eq_refl) as [_ E]. discriminate E.
Defined.

(** * Temporal Intent Clustering *)

Section TicFacts.

Variable getTime : string -> float.
Variable llm_complete : nat -> Tic.Cluster -> option string.
Variable json_parse : string -> option (list (string * Tic.value)).
Variable number_of_string : string -> float.
Variable randomUUID : nat -> string.
Variable now : nat -> string.
Variable LLM_PROVIDER : option string.

Abbreviation abstractCluster :=
  (Tic.abstractCluster llm_complete json_parse number_of_string randomUUID now).
Abbreviation consider :=
  (Tic.consider llm_complete json_parse number_of_string randomUUID now).
Abbreviation serve :=
  (Tic.serve getTime llm_complete json_parse number_of_string randomUUID now
     LLM_PROVIDER).

(** What [abstractCluster] puts in a pattern. *)
Lemma abstractCluster_pattern (k : nat) (c : Tic.Cluster) (org : string)
    (p : Tic.DetectedPattern) :
  abstractCluster k c org = Tic.Pattern p ->
  Tic.occurrences p = length (Tic.members c) /\
  (exists parsed,
     Tic.confidence p
     = (Tic.math_round (Tic.combinedConfidence number_of_string c parsed * 100) / 100)%float) /\
  Tic.firstSeen p = Tic.or_now now k (last (Tic.members c)) /\
  Tic.lastSeen p = Tic.or_now now k (head (Tic.members c)).
Proof.
  unfold Tic.abstractCluster. intros H.
  destruct (llm_complete k c) as [content|]; [|discriminate].
  destruct (String.eqb content ""); [discriminate|].
  destruct (Executor.match_delimited "{" "}" content) as [m|]; [|discriminate].
  destruct (json_parse m) as [parsed|]; [|discriminate].
  injection H as <-. cbn. split; [reflexivity|]. split; [exists parsed; reflexivity|].
  split.
  - f_equal. generalize (Tic.members c). intros l.
    induction l as [|x l IH]; [reflexivity|].
    destruct l as [|y l]; [reflexivity|].
    cbn [length Nat.sub nth_error last] in *. rewrite Nat.sub_0_r in IH.
    exact IH.
  - destruct (Tic.members c); reflexivity.
Qed.

Lemma put_row_In (r x : Tic.pattern_row) (table : list Tic.pattern_row) :
  In x (Tic.put_row r table) -> x = r \/ In x table.
Proof.
  induction table as [|y table IH]; cbn.
  - intros [<-|[]]. left. reflexivity.
  - destruct (String.eqb (Tic.row_id y) (Tic.row_id r)); cbn.
    + intros [<-|H]; auto.
    + intros [<-|H]; auto. destruct (IH H); auto.
Qed.

Lemma put_row_has (r : Tic.pattern_row) (table : list Tic.pattern_row) :
  In r (Tic.put_row r table).
Proof.
  induction table as [|y table IH]; cbn; [auto|].
  destruct (String.eqb (Tic.row_id y) (Tic.row_id r)); cbn; auto.
Qed.

Lemma put_row_other (r x : Tic.pattern_row) (table : list Tic.pattern_row) :
  In x table -> Tic.row_id x <> Tic.row_id r -> In x (Tic.put_row r table).
Proof.
  intros Hx Hne. induction table as [|y table IH]; [destruct Hx|].
  cbn. destruct (String.eqb_spec (Tic.row_id y) (Tic.row_id r)) as [E|E].
  - destruct Hx as [->|Hx]; [contradiction | cbn; auto].
  - destruct Hx as [->|Hx]; cbn; auto.
Qed.

Lemma put_row_keeps_ids (r : Tic.pattern_row) (table : list Tic.pattern_row) (i : string) :
  (i = Tic.row_id r \/ exists x, In x table /\ Tic.row_id x = i) ->
  exists x, In x (Tic.put_row r table) /\ Tic.row_id x = i.
Proof.
  intros [->|(x & Hx & Hi)].
  - exists r. split; [apply put_row_has | reflexivity].
  - destruct (String.eqb_spec (Tic.row_id x) (Tic.row_id r)) as [E|E].
    + exists r. split; [apply put_row_has | congruence].
    + exists x. split; [apply put_row_other; assumption | exact Hi].
Qed.

Lemma upsert_keeps_ids (r : Tic.pattern_row) (table : list Tic.pattern_row) (i : string) :
  (exists x, In x table /\ Tic.row_id x = i) ->
  exists x, In x (Tic.upsert r table) /\ Tic.row_id x = i.
Proof.
  intros H. unfold Tic.upsert. destruct (Tic.confidence_check r); [|exact H].
  apply put_row_keeps_ids. right. exact H.
Qed.

Lemma row_of_stored_as (org : string) (p : Tic.DetectedPattern) :
  stored_as org p (Tic.row_of org p).
Proof.
  unfold stored_as, Tic.row_of.
  cbn [Tic.row_id Tic.row_org_id Tic.row_intent_sequence Tic.row_structural_hashes
       Tic.row_occurrences Tic.row_confidence Tic.row_suggested_name
       Tic.row_suggested_description Tic.row_first_seen Tic.row_last_seen
       Tic.row_status].
  repeat (split; [reflexivity|]).
  destruct (Tic.AUTO_SUGGEST_THRESHOLD <=? Tic.confidence p)%float;
    split; split; intros; congruence.
Qed.

Lemma stored_as_gated (org : string) (p : Tic.DetectedPattern) (r : Tic.pattern_row) :
  gated_pattern p -> stored_as org p r -> gated_row r.
Proof.
  intros [Ho Hc] (_ & _ & _ & _ & Eo & Ec & _ & _ & _ & _ & Ha & Hn).
  unfold gated_row. rewrite Eo, Ec. auto.
Qed.

(** The invariant of the loop over the valid clusters: the patterns pushed
    so far are gated, and the table is the old one with the rows of the
    storable ones among them put in. *)
Definition loop_invariant (org : string) (clusters : list Tic.Cluster)
    (table : list Tic.pattern_row)
    (st : list Tic.DetectedPattern * list Tic.pattern_row) : Prop :=
  Forall (fun p => gated_pattern p /\ lifted_from number_of_string clusters p) (fst st) /\
  (forall r, In r (snd st) ->
     In r table \/
     exists p, In p (fst st) /\ storable p /\ r = Tic.row_of org p) /\
  (forall p, In p (fst st) -> storable p ->
     exists q, In q (fst st) /\ Tic.id q = Tic.id p /\ storable q /\
               In (Tic.row_of org q) (snd st)) /\
  (forall r, In r table ->
     (forall p, In p (fst st) -> storable p -> Tic.id p <> Tic.row_id r) ->
     In r (snd st)).

Lemma consider_invariant (org : string) (clusters : list Tic.Cluster)
    (table : list Tic.pattern_row)
    (st : list Tic.DetectedPattern * list Tic.pattern_row) (kc : nat * Tic.Cluster) :
  In (snd kc) clusters ->
  (3 <= length (Tic.members (snd kc)))%nat ->
  loop_invariant org clusters table st ->
  loop_invariant org clusters table (consider org st kc).
Proof.
  intros Hin Hsize Hinv. destruct st as [patterns rows].
  unfold Tic.consider.
  destruct (abstractCluster (fst kc) (snd kc) org) as [p| |] eqn:E;
    try exact Hinv.
  destruct (Tic.REVIEW_THRESHOLD <=? Tic.confidence p)%float eqn:G;
    [|exact Hinv].
  destruct Hinv as (Hp & Hr & Hid & Hold). cbn [fst snd] in *.
  destruct (abstractCluster_pattern _ _ _ _ E) as (Ho & (parsed & Hc) & _).
  assert (Hg : gated_pattern p) by (split; [rewrite Ho; exact Hsize | exact G]).
  unfold loop_invariant, Tic.upsert. cbn [fst snd].
  change (Tic.confidence_check (Tic.row_of org p))
    with ((0 <=? Tic.confidence p) && (Tic.confidence p <=? 1))%float.
  split; [|destruct ((0 <=? Tic.confidence p) && (Tic.confidence p <=? 1))%float eqn:S;
           split; [|split| |split]].
  - apply Forall_app. split; [exact Hp|].
    constructor; [|constructor]. split; [exact Hg|].
    exists (snd kc), parsed. auto.
  - intros r Hin'. apply put_row_In in Hin'. destruct Hin' as [->|Hin'].
    + right. exists p. split; [apply in_or_app; right; left; reflexivity|].
      split; [exact S | reflexivity].
    + destruct (Hr r Hin') as [H|(q & Hq & Sq & ->)]; [left; exact H|].
      right. exists q. split; [apply in_or_app; left; exact Hq|]. auto.
  - intros q Hq Sq. apply in_app_or in Hq.
    assert (Hnew : exists q', In q' (patterns ++ [p]) /\ Tic.id q' = Tic.id p /\
                              storable q' /\
                              In (Tic.row_of org q') (Tic.put_row (Tic.row_of org p) rows)).
    { exists p. split; [apply in_or_app; right; left; reflexivity|].
      split; [reflexivity|]. split; [exact S | apply put_row_has]. }
    destruct Hq as [Hq|[<-|[]]]; [|exact Hnew].
    destruct (Hid q Hq Sq) as (q' & Hq' & Eq & Sq' & Hrow).
    destruct (String.eqb_spec (Tic.id q') (Tic.id p)) as [Ep|Ep].
    + destruct Hnew as (x & Hx & Ex & Sx & Hxr). exists x.
      split; [exact Hx|]. split; [congruence|]. auto.
    + exists q'. split; [apply in_or_app; left; exact Hq'|].
      split; [exact Eq|]. split; [exact Sq'|].
      apply put_row_other; [exact Hrow | exact Ep].
  - intros r Hin' Hfree. apply put_row_other.
    + apply Hold; [exact Hin'|]. intros q Hq. apply Hfree, in_or_app. left. exact Hq.
    + intros Eid. apply (Hfree p); [apply in_or_app; right; left; reflexivity | exact S |].
      symmetry. exact Eid.
  - intros r Hin'. destruct (Hr r Hin') as [H|(q & Hq & Sq & ->)]; [left; exact H|].
    right. exists q. split; [apply in_or_app; left; exact Hq|]. auto.
  - intros q Hq Sq. apply in_app_or in Hq.
    destruct Hq as [Hq|[<-|[]]]; [|unfold storable in Sq; congruence].
    destruct (Hid q Hq Sq) as (q' & Hq' & Eq & Sq' & Hrow).
    exists q'. split; [apply in_or_app; left; exact Hq'|]. auto.
  - intros r Hin' Hfree. apply Hold; [exact Hin'|].
    intros q Hq. apply Hfree, in_or_app. left. exact Hq.
Qed.

Lemma loop_keeps_invariant (org : string) (clusters : list Tic.Cluster)
    (table : list Tic.pattern_row) (kcs : list (nat * Tic.Cluster)) :
  forall st,
    Forall (fun kc => In (snd kc) clusters /\ (3 <= length (Tic.members (snd kc)))%nat) kcs ->
    loop_invariant org clusters table st ->
    loop_invariant org clusters table (fold_left (consider org) kcs st).
Proof.
  induction kcs as [|kc kcs IH]; intros st Hk Hst; [exact Hst|].
  inversion Hk as [|? ? [Hin Hsize] Hrest]; subst. cbn [fold_left].
  apply IH; [exact Hrest|]. apply consider_invariant; assumption.
Qed.

Lemma chosen_clusters_valid (evs : list Tic.SecureEvent) :
  let valid := Tic.validClusters getTime evs in
  let chosen := firstn 5 valid in
  Forall (fun kc => In (snd kc) valid /\ (3 <= length (Tic.members (snd kc)))%nat)
    (combine (seq 0 (length chosen)) chosen).
Proof.
  intros valid chosen. apply List.Forall_forall. intros [k c] Hkc.
  apply in_combine_r in Hkc. cbn [snd].
  assert (Hv : In c valid).
  { rewrite <- (firstn_skipn 5 valid). apply in_or_app. left. exact Hkc. }
  split; [exact Hv|].
  unfold valid, Tic.validClusters in Hv. apply filter_In in Hv.
  destruct Hv as [_ Hv]. apply Nat.leb_le in Hv. exact Hv.
Qed.

Lemma serve_invariant (org : string) (recentEvents : option (list Tic.SecureEvent))
    (table : list Tic.pattern_row) :
  loop_invariant org (Tic.validClusters getTime (default [] recentEvents)) table
    (emitted (fst (serve org recentEvents table)), snd (serve org recentEvents table)).
Proof.
  assert (Hstart : forall cs, loop_invariant org cs table ([], table)).
  { intros cs. unfold loop_invariant. cbn [fst snd].
    split; [constructor|]. split; [auto|]. split; [intros p []|]. auto. }
  unfold Tic.serve.
  destruct (String.eqb org ""); [apply Hstart|].
  destruct recentEvents as [evs|]; [|apply Hstart]. cbn [default].
  destruct (length evs <? Tic.MIN_CLUSTER_SIZE)%nat; [apply Hstart|].
  destruct (length (Tic.validClusters getTime evs) =? 0)%nat; [apply Hstart|].
  destruct (Executor.getDefaultProvider LLM_PROVIDER); [|apply Hstart].
  pose proof (loop_keeps_invariant org (Tic.validClusters getTime evs) table _
                ([], table) (chosen_clusters_valid evs) (Hstart _)) as H.
  cbv zeta in H.
  destruct (fold_left _ _ _) as [patterns table'] in H |- *. exact H.
Qed.

End TicFacts.

(** C7: every Detected Pattern the detector emits has at least 3
    occurrences and a confidence (the combined confidence of a valid
    cluster, rounded to 2 decimals) of at least 0.70.  The table of
    detected patterns holds after the request, besides rows it held before,
    only rows of emitted patterns whose confidence is at most 1, as the
    table checks: such a row has the fields of its pattern, so at least
    3 occurrences and a confidence of at least 0.70, and its status is
    auto_suggested exactly when that confidence is at least 0.85, and
    needs_review otherwise.  Each emitted pattern with a confidence of at
    most 1 is stored, unless a later one with the same id took its place;
    and a row the table held before is still there unless a stored pattern
    has its id. *)
Theorem detected_patterns_are_gated
    (getTime : string -> float)
    (llm_complete : nat -> Tic.Cluster -> option string)
    (json_parse : string -> option (list (string * Tic.value)))
    (number_of_string : string -> float)
    (randomUUID : nat -> string) (now : nat -> string)
    (LLM_PROVIDER : option string)
    (org : string) (recentEvents : option (list Tic.SecureEvent))
    (table : list Tic.pattern_row) :
  let result :=
    Tic.serve getTime llm_complete json_parse number_of_string randomUUID now
      LLM_PROVIDER org recentEvents table in
  let patterns := emitted (fst result) in
  Forall
    (fun p =>
       gated_pattern p /\
       lifted_from number_of_string
         (Tic.validClusters getTime (default [] recentEvents)) p)
    patterns /\
  (forall r, In r (snd result) ->
     In r table \/
     exists p, In p patterns /\ storable p /\ stored_as org p r /\ gated_row r) /\
  (forall p, In p patterns -> storable p ->
     exists q r, In q patterns /\ Tic.id q = Tic.id p /\ storable q /\
                 In r (snd result) /\ stored_as org q r) /\
  (forall r, In r table ->
     (forall p, In p patterns -> storable p -> Tic.id p <> Tic.row_id r) ->
     In r (snd result)).
Proof.
  intros result patterns.
  destruct (serve_invariant getTime llm_complete json_parse number_of_string
              randomUUID now LLM_PROVIDER org recentEvents table)
    as (Hp & Hr & Hid & Hold).
  cbn [fst snd] in Hp, Hr, Hid, Hold.
  fold result in Hp, Hr, Hid, Hold. fold patterns in Hp, Hr, Hid, Hold.
  split; [exact Hp|]. split; [|split; [|exact Hold]].
  - intros r Hin. destruct (Hr r Hin) as [H|(p & Hin' & Sp & ->)]; [left; exact H|].
    right. exists p. split; [exact Hin'|]. split; [exact Sp|].
    split; [apply row_of_stored_as|].
    rewrite List.Forall_forall in Hp. destruct (Hp p Hin') as [Hg _].
    exact (stored_as_gated org p _ Hg (row_of_stored_as org p)).
  - intros p Hin Sp. destruct (Hid p Hin Sp) as (q & Hq & Eq & Sq & Hrow).
    exists q, (Tic.row_of org q). split; [exact Hq|]. split; [exact Eq|].
    split; [exact Sq|]. split; [exact Hrow | apply row_of_stored_as].
Qed.

(** C6 (the code departs from its own field names): on a session of twelve
    events the detector emits one pattern, built from ten windows whose
    timestamps run from 10:00 to 10:10; its firstSeen is the latest of
    them, 10:10, and its lastSeen the earliest, 10:00, so firstSeen is
    after lastSeen, in the pattern and in the stored row. *)
Theorem first_seen_is_after_last_seen :
  exists c p r,
    Tic.validClusters Tic.iso_time tic_events = [c] /\
    map Tic.timestamp (Tic.members c)
    = repeat "2024-03-04T10:00:00.000Z" 4 ++ repeat "2024-03-04T10:05:00.000Z" 4
      ++ repeat "2024-03-04T10:10:00.000Z" 2 /\
    tic_serve "org-1" (Some tic_events) [] = (Tic.Found [p], [r]) /\
    Tic.firstSeen p = "2024-03-04T10:10:00.000Z" /\
    Tic.lastSeen p = "2024-03-04T10:00:00.000Z" /\
    Tic.row_first_seen r = "2024-03-04T10:10:00.000Z" /\
    Tic.row_last_seen r = "2024-03-04T10:00:00.000Z" /\
    (Tic.iso_time (Tic.lastSeen p) <? Tic.iso_time (Tic.firstSeen p))%float = true.
Proof.
  eexists. eexists. eexists.
  split; [vm_compute; reflexivity|].
  split; [vm_compute; reflexivity|].
  split; [vm_compute; reflexivity|].
  repeat split; vm_compute; reflexivity.
Qed.

(** The pattern of the sample session: ten occurrences, confidence 0.73,
    stored for review. *)
Example tic_sample_row :
  map (fun r => (Tic.row_occurrences r, Tic.row_confidence r, Tic.row_status r))
    (snd (tic_serve "org-1" (Some tic_events) []))
  = [(10%nat, (73 / 100)%float, Tic.needs_review)].
Proof. vm_compute. reflexivity. Qed.

(** A pattern whose confidence is above 1 (here 2.37, the language model
    having answered 5) is emitted, and the table refuses its row. *)
Example confidence_above_one_is_not_stored :
  let result :=
    Tic.serve Tic.iso_time tic_llm_sure tic_parse_sure tic_number tic_uuid tic_now
      None "org-1" (Some tic_events) [] in
  map (fun p => (Tic.occurrences p, Tic.confidence p)) (emitted (fst result))
  = [(10%nat, (237 / 100)%float)] /\
  snd result = [].
Proof. vm_compute. split; reflexivity. Qed.

(** With a provider that has no adapter the request is answered with
    INTERNAL_ERROR once there are clusters to lift, and nothing is stored. *)
Example no_provider_no_pattern :
  Tic.serve Tic.iso_time tic_llm tic_parse tic_number tic_uuid tic_now
    (Some "anthropic") "org-1" (Some tic_events) []
  = (Tic.InternalError, []).
Proof. vm_compute. reflexivity. Qed.

(** The clock reads a date of a TIMESTAMPTZ column as the same instant as
    the date in the format of toISOString. *)
Example iso_time_offset_form :
  Tic.iso_ms "2024-03-04T10:00:00+00:00" = Some 1709546400000%Z /\
  Tic.iso_ms "2024-03-04T12:00:00.123456+02:00" = Some 1709546400123%Z /\
  Tic.iso_ms "2024-03-04T10:00:00.000Z" = Some 1709546400000%Z.
Proof. vm_compute. repeat split; reflexivity. Qed.

(** * Further properties *)

(** ** approve-ghost: refusals, the other actions, repeated requests *)

Section ApproveMore.
Import Approve.

(** What a successful request was: its body, ghost and action. *)
Lemma serve_success (now : string) (req : request) (db : store)
    (id act st : string) (v : Z) :
  fst (serve now req db) = Success id act st v ->
  exists b g,
    payload req = Some b /\
    present (ghost_id b) = Some id /\
    present (action b) = Some act /\
    includes valid_actions act = true /\
    ghosts db !! id = Some g /\
    st = statusMap act /\
    v = (if String.eqb act "approve" then (g_version g + 1)%Z else g_version g) /\
    update_accepted req v = true /\
    serve now req db =
      (Success id act st v,
       {| ghosts :=
            <[id := {| g_id := g_id g; g_name := g_name g; g_status := statusMap act;
                       g_is_active := String.eqb act "approve" || String.eqb act "activate";
                       g_version := v;
                       g_execution_plan := g_execution_plan g;
                       g_parameters := g_parameters g;
                       g_trigger := g_trigger g;
                       g_updated_at := now |}]> (ghosts db);
          ghost_versions :=
            (if String.eqb act "approve" then
               insert_version
                 {| v_ghost_id := g_id g;
                    v_version := (g_version g + 1)%Z;
                    v_execution_plan := g_execution_plan g;
                    v_parameters := g_parameters g;
                    v_trigger := g_trigger g;
                    v_change_description := or_default (decision_note b) "Approved";
                    v_created_by := or_default (approved_by b) "system" |}
                 (ghost_versions db)
             else ghost_versions db);
          approval_requests :=
            map (resolve_request id act (or_default (approved_by b) "system")
                   (decision_note b) now)
                (approval_requests db) |}).
Proof.
  unfold serve.
  destruct (String.eqb (method req) "OPTIONS"); [discriminate|].
  destruct (payload req) as [b|]; [|discriminate].
  destruct (present (ghost_id b)) as [i|] eqn:Hi; [|discriminate].
  destruct (present (action b)) as [a|] eqn:Ha; [|discriminate].
  destruct (includes valid_actions a) eqn:Hv; cbn [negb]; [|discriminate].
  destruct (ghosts db !! i) as [g|] eqn:Hg; [|discriminate].
  cbv zeta. destruct (update_accepted _ _) eqn:Hfit; cbn [negb]; [|discriminate].
  cbn [fst]. intros [= <- <- <- <-].
  exists b, g. repeat split; auto.
Qed.

Lemma resolve_request_twice (id act by_ : string) (note : option string)
    (now : string) (a : approval_request) :
  resolve_request id act by_ note now (resolve_request id act by_ note now a)
  = resolve_request id act by_ note now a.
Proof.
  unfold resolve_request.
  destruct (String.eqb (a_ghost_id a) id && String.eqb (a_status a) "pending") eqn:E.
  - cbn [a_ghost_id a_status].
    destruct (String.eqb act "approve"); cbn;
      rewrite andb_false_r; reflexivity.
  - rewrite E. reflexivity.
Qed.

Lemma prefix_insert_version (r : version_row) (rows : list version_row) :
  rows `prefix_of` insert_version r rows.
Proof.
  unfold insert_version. destruct (version_taken _ _ rows).
  - reflexivity.
  - apply prefix_app_r. reflexivity.
Qed.

Lemma serve_history (now : string) (req : request) (db : store) :
  ghost_versions db `prefix_of` ghost_versions (snd (serve now req db)) /\
  (forall id g, ghosts db !! id = Some g ->
     exists g', ghosts (snd (serve now req db)) !! id = Some g' /\
                (g_version g <= g_version g')%Z) /\
  (forall id, ghosts db !! id = None ->
     ghosts (snd (serve now req db)) !! id = None).
Proof.
  destruct (fst (serve now req db)) as [| |id act st v] eqn:E.
  1,2: unfold serve in *;
    destruct (String.eqb (method req) "OPTIONS");
    [|destruct (payload req) as [b|];
      [destruct (present (ghost_id b)) as [i|];
       [destruct (present (action b)) as [a|];
        [destruct (negb (includes valid_actions a));
         [|destruct (ghosts db !! i);
           [cbv zeta in *; destruct (negb (update_accepted _ _))|]]|]|]|]];
    cbn [fst snd] in *; try discriminate;
    (split; [reflexivity|]; split; [intros ? h Hh; exists h; split; [exact Hh | lia]|auto]).
  destruct (serve_success _ _ _ _ _ _ _ E)
    as (b & g & _ & _ & _ & _ & Hg & _ & Hv & _ & ->).
  cbn [snd ghosts ghost_versions]. split; [|split].
  - destruct (String.eqb act "approve"); [apply prefix_insert_version | reflexivity].
  - intros i h Hh. destruct (decide (i = id)) as [->|Hne].
    + rewrite lookup_insert_eq. eexists. split; [reflexivity|]. cbn.
      rewrite Hg in Hh. injection Hh as <-. rewrite Hv.
      destruct (String.eqb act "approve"); lia.
    + rewrite lookup_insert_ne by congruence. exists h. split; [exact Hh | lia].
  - intros i Hi. destruct (decide (i = id)) as [->|Hne]; [congruence|].
    rewrite lookup_insert_ne by congruence. exact Hi.
Qed.

End ApproveMore.

(** X1: a request that approve-ghost does not answer with a success (a
    preflight, a body that is not JSON, a missing ghost_id or action, an
    action outside the five it knows, an unknown ghost, an update that the
    table refuses) changes nothing in the store. *)
Theorem approve_refusal_changes_nothing
    (now : string) (req : Approve.request) (db : Approve.store) :
  if succeeded (fst (Approve.serve now req db)) then True
  else snd (Approve.serve now req db) = db.
Proof.
  unfold Approve.serve.
  destruct (String.eqb (Approve.method req) "OPTIONS"); [reflexivity|].
  destruct (Approve.payload req) as [b|]; [|reflexivity].
  destruct (Approve.present (Approve.ghost_id b)) as [i|]; [|reflexivity].
  destruct (Approve.present (Approve.action b)) as [a|]; [|reflexivity].
  destruct (negb (Approve.includes Approve.valid_actions a)); [reflexivity|].
  destruct (Approve.ghosts db !! i); [|reflexivity].
  cbv zeta. destruct (negb (Approve.update_accepted _ _)); [reflexivity | exact I].
Qed.

(** X2: reject, pause, activate and archive leave the ghost's version and
    the ghost_versions table as they are; the ghost gets the status of the
    status map (reject and archive both give archived) and is active only
    after activate, and the reply carries that status and the unchanged
    version. *)
Theorem other_actions_keep_version
    (now : string) (req : Approve.request) (db : Approve.store)
    (id act st : string) (v : Z) :
  fst (Approve.serve now req db) = Approve.Success id act st v ->
  act <> "approve" ->
  exists g g',
    Approve.ghosts db !! id = Some g /\
    Approve.ghosts (snd (Approve.serve now req db)) !! id = Some g' /\
    v = Approve.g_version g /\
    Approve.g_version g' = Approve.g_version g /\
    Approve.g_status g' = st /\
    In (act, st) [("reject", "archived"); ("pause", "paused");
                  ("activate", "active"); ("archive", "archived")] /\
    Approve.g_is_active g' = String.eqb act "activate" /\
    Approve.g_execution_plan g' = Approve.g_execution_plan g /\
    Approve.ghost_versions (snd (Approve.serve now req db)) = Approve.ghost_versions db.
Proof.
  intros E Hne.
  destruct (serve_success _ _ _ _ _ _ _ E)
    as (b & g & _ & _ & _ & Hv & Hg & -> & Hver & _ & ->).
  apply String.eqb_neq in Hne. rewrite Hne in *. subst v.
  exists g. eexists. cbn [snd Approve.ghosts Approve.ghost_versions].
  rewrite lookup_insert_eq.
  repeat split; try reflexivity; try exact Hg.
  unfold Approve.includes, Approve.valid_actions in Hv. cbn [existsb] in Hv.
  rewrite Hne in Hv. cbn [orb] in Hv. unfold Approve.statusMap. rewrite Hne.
  destruct (String.eqb_spec act "reject") as [->|_]; [cbn; auto|].
  destruct (String.eqb_spec act "pause") as [->|_]; [cbn; auto|].
  destruct (String.eqb_spec act "activate") as [->|_]; [cbn; auto|].
  destruct (String.eqb_spec act "archive") as [->|_]; [cbn; auto 6|].
  discriminate.
Qed.

Lemma other_actions_keep_version_witness :
  exists g',
    Approve.ghosts (snd (Approve.serve "t1" (pause_request "g1") approve_db1)) !! "g1"
      = Some g' /\
    Approve.g_version g' = 1%Z /\ Approve.g_status g' = "paused".
Proof.
  destruct (other_actions_keep_version "t1" (pause_request "g1") approve_db1
              "g1" "pause" "paused" 1 eq_refl)
    as (g & g' & Hg & Hg' & _ & Hv & Hs & _); [discriminate|].
  exists g'. split; [exact Hg'|]. split; [|exact Hs].
  rewrite Hv. vm_compute in Hg. injection Hg as <-. reflexivity.
Defined.

(** X3: after a successful action on a ghost none of its approval requests
    is pending any more: those that were pending are marked approved when
    the action is approve and rejected for every other action (pause and
    activate included), with the approver defaulting to system; the
    requests of other ghosts, and the other ghosts, are untouched. *)
Theorem action_resolves_pending_requests
    (now : string) (req : Approve.request) (db : Approve.store)
    (id act st : string) (v : Z) :
  fst (Approve.serve now req db) = Approve.Success id act st v ->
  let db' := snd (Approve.serve now req db) in
  Forall (fun a => Approve.a_ghost_id a = id -> Approve.a_status a <> "pending")
    (Approve.approval_requests db') /\
  Forall2
    (fun a a' =>
       Approve.a_ghost_id a' = Approve.a_ghost_id a /\
       if String.eqb (Approve.a_ghost_id a) id && String.eqb (Approve.a_status a) "pending"
       then Approve.a_status a' = (if String.eqb act "approve" then "approved" else "rejected")
            /\ Approve.a_resolved_at a' = Some now
            /\ exists by_, Approve.a_approved_by a' = Some by_ /\ by_ <> ""
       else a' = a)
    (Approve.approval_requests db) (Approve.approval_requests db') /\
  (forall other, other <> id ->
     Approve.ghosts db' !! other = Approve.ghosts db !! other).
Proof.
  intros E db'. subst db'.
  destruct (serve_success _ _ _ _ _ _ _ E)
    as (b & g & _ & _ & _ & _ & _ & _ & _ & _ & ->).
  cbn [snd Approve.approval_requests Approve.ghosts].
  split; [|split].
  - apply List.Forall_forall. intros a Ha. apply in_map_iff in Ha as (a0 & <- & _).
    unfold Approve.resolve_request.
    destruct (String.eqb (Approve.a_ghost_id a0) id) eqn:Ei; cbn [andb].
    + destruct (String.eqb_spec (Approve.a_status a0) "pending") as [_|Hn].
      * cbn. intros _. destruct (String.eqb act "approve"); discriminate.
      * intros _. exact Hn.
    + apply String.eqb_neq in Ei. intros Hi. contradiction.
  - induction (Approve.approval_requests db) as [|a l IH]; cbn [map]; constructor;
      [|exact IH].
    unfold Approve.resolve_request.
    destruct (String.eqb (Approve.a_ghost_id a) id && String.eqb (Approve.a_status a) "pending").
    + cbn. repeat split. unfold Approve.or_default, Approve.present.
      destruct (Approve.approved_by b) as [s|]; [|exists "system"; split; [reflexivity|discriminate]].
      destruct (String.eqb_spec s "") as [->|Hs];
        [exists "system"; split; [reflexivity|discriminate] | exists s; auto].
    + auto.
  - intros other Hne. apply lookup_insert_ne. congruence.
Qed.

Lemma action_resolves_pending_requests_witness :
  Forall (fun a => Approve.a_ghost_id a = "g1" -> Approve.a_status a <> "pending")
    (Approve.approval_requests
       (snd (Approve.serve "t1" (pause_request "g1") approve_db1))).
Proof.
  exact (proj1 (action_resolves_pending_requests "t1" (pause_request "g1") approve_db1
                  "g1" "pause" "paused" 1 eq_refl)).
Defined.

(** X4: an action other than approve is idempotent: served a second time
    (with the same clock reading) it gives the same reply and leaves the
    store as the first time. *)
Theorem other_actions_idempotent
    (now : string) (req : Approve.request) (db : Approve.store)
    (id act st : string) (v : Z) :
  fst (Approve.serve now req db) = Approve.Success id act st v ->
  act <> "approve" ->
  Approve.serve now req (snd (Approve.serve now req db)) = Approve.serve now req db.
Proof.
  intros E Hne.
  destruct (serve_success _ _ _ _ _ _ _ E)
    as (b & g & Hb & Hid & Hact & Hv & Hg & -> & Hver & Hfit & Hs).
  apply String.eqb_neq in Hne. rewrite Hne in *. subst v.
  rewrite Hs. cbn [snd]. unfold Approve.serve at 1.
  destruct (String.eqb (Approve.method req) "OPTIONS") eqn:Hm.
  { unfold Approve.serve in E. rewrite Hm in E. discriminate. }
  rewrite Hb, Hid, Hact, Hv. cbn [negb Approve.ghosts].
  rewrite lookup_insert_eq. rewrite Hne. cbn [orb].
  cbn [Approve.g_id Approve.g_name Approve.g_version Approve.g_execution_plan
       Approve.g_parameters Approve.g_trigger Approve.ghost_versions
       Approve.approval_requests].
  rewrite Hfit. cbn [negb].
  rewrite insert_insert_eq. rewrite map_map.
  f_equal. f_equal. apply map_ext. intros a. apply resolve_request_twice.
Qed.

Lemma other_actions_idempotent_witness :
  Approve.serve "t1" (pause_request "g1")
    (snd (Approve.serve "t1" (pause_request "g1") approve_db1))
  = Approve.serve "t1" (pause_request "g1") approve_db1.
Proof.
  apply (other_actions_idempotent "t1" (pause_request "g1") approve_db1
           "g1" "pause" "paused" 1 eq_refl).
  discriminate.
Defined.

(** X5: whatever requests are served, the ghost_versions table only grows
    at its end, no ghost is created or removed, and no ghost's version ever
    goes down. *)
Theorem history_only_grows
    (now : string) (reqs : list Approve.request) (db : Approve.store) :
  let db' := Approve.serve_all now reqs db in
  Approve.ghost_versions db `prefix_of` Approve.ghost_versions db' /\
  map_Forall
    (fun id g => exists g', Approve.ghosts db' !! id = Some g' /\
                            (Approve.g_version g <= Approve.g_version g')%Z)
    (Approve.ghosts db) /\
  map_Forall (fun id _ => is_Some (Approve.ghosts db !! id)) (Approve.ghosts db').
Proof.
  cbv zeta. revert db. induction reqs as [|r reqs IH]; intros db.
  - cbn. split; [reflexivity|]. split.
    + intros id g Hg. exists g. split; [exact Hg | lia].
    + intros id g Hg. rewrite Hg. eauto.
  - cbn [Approve.serve_all].
    destruct (serve_history now r db) as (Hp & Hv & Hn).
    destruct (IH (snd (Approve.serve now r db))) as (Hp' & Hv' & Hn').
    split; [etransitivity; eassumption|]. split.
    + intros id g Hg. destruct (Hv id g Hg) as (g1 & Hg1 & Hle1).
      destruct (Hv' id g1 Hg1) as (g2 & Hg2 & Hle2).
      exists g2. split; [exact Hg2 | lia].
    + intros id g Hg. specialize (Hn' id g Hg). cbn in Hn'.
      destruct (Approve.ghosts db !! id) eqn:Hd; [eauto|].
      rewrite (Hn id Hd) in Hn'. destruct Hn' as [? [=]].
Qed.

(** ** ingest-events: the limiter, what is stored, what is triggered *)

Section IngestMore.
Import Ingest.

Lemma checkRateLimit_other (now : Z) (d d' : string) (limits : gmap string rate_entry) :
  d' <> d -> snd (checkRateLimit now d limits) !! d' = limits !! d'.
Proof.
  intros Hne. unfold checkRateLimit.
  destruct (limits !! d) as [e|]; [destruct (resetAt e <=? now)%Z;
    [|destruct (RATE_LIMIT_PER_MINUTE <=? count e)%Z]|]; cbn [snd];
    try reflexivity; apply lookup_insert_ne; congruence.
Qed.

Lemma checkRateLimit_counted (now0 now : Z) (d : string)
    (limits : gmap string rate_entry) :
  (now0 <= now)%Z -> well_counted now0 limits ->
  well_counted now (snd (checkRateLimit now d limits)).
Proof.
  intros Hnow Hw.
  assert (Hw' : well_counted now limits).
  { intros k e He. destruct (Hw k e He) as [Hc Hr]. split; [exact Hc | lia]. }
  unfold checkRateLimit.
  destruct (limits !! d) as [e|] eqn:He.
  - destruct (resetAt e <=? now)%Z.
    + cbn [snd]. apply map_Forall_insert_2; [|exact Hw'].
      cbn. unfold RATE_LIMIT_PER_MINUTE. lia.
    + destruct (RATE_LIMIT_PER_MINUTE <=? count e)%Z eqn:Hc; cbn [snd]; [exact Hw'|].
      apply map_Forall_insert_2; [|exact Hw'].
      destruct (Hw' d e He) as [Hce Hre]. cbn. apply Z.leb_gt in Hc. lia.
  - cbn [snd]. apply map_Forall_insert_2; [|exact Hw'].
    cbn. unfold RATE_LIMIT_PER_MINUTE. lia.
Qed.

(** The effect of one request: nothing, or one turn of the limiter for the
    request's device followed by at most 100 rows of that device. *)
Lemma serve_effect (req : request) (s : state) :
  snd (serve req s) = s /\ status (fst (serve req s)) <> 202%Z \/
  exists b evs rows,
    payload req = Some b /\ events b = Some evs /\
    length evs <= MAX_BATCH_SIZE /\
    rateLimits (snd (serve req s))
      = snd (checkRateLimit (arrival req) (device_of req b) (rateLimits s)) /\
    secure_events (snd (serve req s)) = secure_events s ++ rows /\
    (rows = [] /\ triggered (snd (serve req s)) = triggered s /\
     status (fst (serve req s)) <> 202%Z
     \/ fst (checkRateLimit (arrival req) (device_of req b) (rateLimits s)) = true /\
        rows = map (fun e => {| r_event := e;
                                r_device_fingerprint := device_of req b;
                                r_batch_id := batchId b;
                                r_ingested_at := arrival req |}) evs /\
        triggered (snd (serve req s))
          = triggered s ++ map (fun o => (o, batchId b)) (distinct (map orgId evs)) /\
        fst (serve req s)
          = {| status := 202; code := None; retry_after := None;
               accepted := Some (length evs) |}).
Proof.
  unfold serve.
  destruct (String.eqb (method req) "OPTIONS"); [left; split; [reflexivity | discriminate]|].
  destruct (negb (String.eqb (method req) "POST"));
    [left; split; [reflexivity | discriminate]|].
  destruct (payload req) as [b|]; [|left; split; [reflexivity | discriminate]].
  destruct (events b) as [evs|] eqn:Hev; [|left; split; [reflexivity | discriminate]].
  destruct (MAX_BATCH_SIZE <? length evs)%nat eqn:Hlen;
    [left; split; [reflexivity | discriminate]|].
  apply Nat.ltb_ge in Hlen. right. fold (device_of req b).
  destruct (checkRateLimit (arrival req) (device_of req b) (rateLimits s))
    as [allowed limits] eqn:Hc.
  destruct allowed; cbn [negb].
  - destruct (insert_ok req); cbn [negb].
    + exists b, evs. eexists. rewrite Hc. cbn [fst snd rateLimits secure_events triggered].
      split; [reflexivity|]. split; [exact Hev|]. split; [exact Hlen|].
      split; [reflexivity|]. split; [reflexivity|].
      right. repeat split; reflexivity.
    + exists b, evs, []. rewrite Hc. cbn [fst snd rateLimits secure_events triggered].
      rewrite app_nil_r.
      split; [reflexivity|]. split; [exact Hev|]. split; [exact Hlen|].
      split; [reflexivity|]. split; [reflexivity|].
      left. repeat split. discriminate.
  - exists b, evs, []. rewrite Hc. cbn [fst snd rateLimits secure_events triggered].
    rewrite app_nil_r.
    split; [reflexivity|]. split; [exact Hev|]. split; [exact Hlen|].
    split; [reflexivity|]. split; [reflexivity|].
    left. repeat split. discriminate.
Qed.

Lemma filter_tagged (d d' : string) (b : batch) (t : Z) (evs : list secure_event) :
  length (List.filter (fun r => String.eqb (r_device_fingerprint r) d)
            (map (fun e => {| r_event := e; r_device_fingerprint := d';
                              r_batch_id := batchId b; r_ingested_at := t |}) evs))
  = if String.eqb d' d then length evs else 0.
Proof.
  induction evs as [|e evs IH]; cbn.
  - destruct (String.eqb d' d); reflexivity.
  - destruct (String.eqb d' d) eqn:E; cbn; rewrite IH; reflexivity.
Qed.

(** What a request does to the limiter and to the rows of a device. *)
Lemma serve_limited (d : string) (req : request) (s : state) :
  match limited_device req with
  | None => snd (serve req s) = s
  | Some d' =>
    rateLimits (snd (serve req s))
      = snd (checkRateLimit (arrival req) d' (rateLimits s)) /\
    (status (fst (serve req s)) =? 429)%Z
      = negb (fst (checkRateLimit (arrival req) d' (rateLimits s))) /\
    length (rows_of d (snd (serve req s)))
      <= length (rows_of d s)
         + (if passes d req (fst (serve req s)) then MAX_BATCH_SIZE else 0)
  end.
Proof.
  unfold passes, limited_device, serve.
  destruct (String.eqb (method req) "OPTIONS"); [reflexivity|].
  destruct (negb (String.eqb (method req) "POST")); [reflexivity|].
  destruct (payload req) as [b|]; [|reflexivity].
  destruct (events b) as [evs|] eqn:Hev; [|reflexivity].
  destruct (MAX_BATCH_SIZE <? length evs)%nat eqn:Hlen; [reflexivity|].
  apply Nat.ltb_ge in Hlen. fold (device_of req b).
  destruct (checkRateLimit (arrival req) (device_of req b) (rateLimits s))
    as [allowed limits] eqn:Hc.
  destruct allowed; cbn [negb fst snd].
  - destruct (insert_ok req); cbn [negb fst snd rateLimits status error_reply].
    + split; [reflexivity|]. split; [reflexivity|].
      unfold rows_of. cbn [secure_events]. rewrite List.filter_app, length_app.
      rewrite filter_tagged. cbn [Z.eqb Pos.eqb negb]. rewrite andb_true_r.
      destruct (String.eqb (device_of req b) d); lia.
    + split; [reflexivity|]. split; [reflexivity|].
      unfold rows_of. cbn [secure_events]. lia.
  - split; [reflexivity|]. split; [reflexivity|].
    unfold rows_of. cbn [secure_events]. lia.
Qed.

Lemma serve_all_step (r : request) (reqs : list request) (s : state) :
  serve_all (r :: reqs) s
  = (fst (serve r s) :: fst (serve_all reqs (snd (serve r s))),
     snd (serve_all reqs (snd (serve r s)))).
Proof.
  cbn [serve_all]. destruct (serve r s) as [rep s1]. cbn [fst snd].
  destruct (serve_all reqs s1). reflexivity.
Qed.

(** Every request of the device that passes the limiter stores at most 100
    rows of the device, and no other request stores any. *)
Lemma rows_by_passes (d : string) (reqs : list request) :
  forall s,
    length (rows_of d (snd (serve_all reqs s)))
    <= length (rows_of d s)
       + MAX_BATCH_SIZE * passed d reqs (fst (serve_all reqs s)).
Proof.
  induction reqs as [|r reqs IH]; intros s; [cbn; lia|].
  rewrite serve_all_step. cbn [fst snd passed].
  specialize (IH (snd (serve r s))).
  pose proof (serve_limited d r s) as H.
  unfold passes in *.
  destruct (limited_device r) as [d'|].
  - destruct H as (_ & _ & H).
    destruct (String.eqb d' d && negb (status (fst (serve r s)) =? 429)%Z); lia.
  - rewrite H in *. lia.
Qed.

(** Within the window of the device, the requests of the device that pass
    the limiter are no more than what is left of its allowance. *)
Lemma window_passes (t0 : Z) (d : string) (reqs : list request) :
  forall s,
    covers t0 d (rateLimits s) reqs ->
    passed d reqs (fst (serve_all reqs s)) <= allowance d (rateLimits s).
Proof.
  induction reqs as [|r reqs IH]; intros s [Hspan Hwin]; [cbn; lia|].
  rewrite serve_all_step. cbn [fst snd passed].
  inversion Hspan as [|? ? Hr Hspan']; subst.
  set (s1 := snd (serve r s)).
  pose proof (serve_limited d r s) as H. fold s1 in H.
  unfold passes in *.
  destruct (limited_device r) as [d'|].
  2: { rewrite H. specialize (IH s). cbn [Nat.add]. apply IH.
       split; [exact Hspan'|].
       destruct (rateLimits s !! d); [|exact I]. inversion Hwin; assumption. }
  destruct H as (Hlim & Hstat & _). rewrite Hstat, negb_involutive.
  destruct (String.eqb_spec d' d) as [->|Hd]; cbn [andb].
  - assert (Hstep :
      covers t0 d (rateLimits s1) reqs /\
      (if fst (checkRateLimit (arrival r) d (rateLimits s)) then 1 else 0)
      + allowance d (rateLimits s1) <= allowance d (rateLimits s)).
    { unfold covers, allowance. rewrite Hlim. unfold checkRateLimit.
      destruct (rateLimits s !! d) as [e|] eqn:He.
      - inversion Hwin as [|? ? Hre Hwin']; subst.
        destruct (resetAt e <=? arrival r)%Z eqn:Hreset; [apply Z.leb_le in Hreset; lia|].
        destruct (RATE_LIMIT_PER_MINUTE <=? count e)%Z eqn:Hfull; cbn [fst snd].
        + rewrite He. split; [split; assumption | lia].
        + rewrite lookup_insert_eq. cbn [count resetAt].
          split; [split; assumption|].
          apply Z.leb_gt in Hfull. unfold RATE_LIMIT_PER_MINUTE in *. lia.
      - cbn [fst snd]. rewrite lookup_insert_eq. cbn [count resetAt].
        split.
        + split; [exact Hspan'|].
          eapply Forall_impl; [exact Hspan'|]. cbn. intros; lia.
        + unfold RATE_LIMIT_PER_MINUTE. lia. }
    destruct Hstep as [Hcov Hle]. specialize (IH s1 Hcov). lia.
  - assert (Hsame : rateLimits s1 !! d = rateLimits s !! d).
    { rewrite Hlim. apply checkRateLimit_other. congruence. }
    specialize (IH s1). unfold covers, allowance in *. rewrite Hsame in *.
    cbn [Nat.add]. apply IH. split; [exact Hspan'|].
    destruct (rateLimits s !! d); [|exact I]. inversion Hwin; assumption.
Qed.

Lemma distinct_In (x : string) (xs : list string) : In x (distinct xs) <-> In x xs.
Proof.
  induction xs as [|y xs IH]; [reflexivity|]. cbn [distinct].
  split.
  - intros [->|H]; [left; reflexivity|].
    right. apply IH. apply list_elem_of_In, list_elem_of_filter in H.
    apply list_elem_of_In, H.
  - intros [->|H]; [left; reflexivity|].
    destruct (String.eqb_spec y x) as [->|Hne]; [left; reflexivity|].
    right. apply list_elem_of_In, list_elem_of_filter. split.
    + apply Is_true_true, negb_true_iff, String.eqb_neq, Hne.
    + apply list_elem_of_In, IH, H.
Qed.

Lemma distinct_NoDup (xs : list string) : List.NoDup (distinct xs).
Proof.
  induction xs as [|y xs IH]; cbn [distinct]; constructor.
  - intros H. apply list_elem_of_In, list_elem_of_filter in H as [H _].
    apply Is_true_true, negb_true_iff, String.eqb_neq in H. congruence.
  - apply NoDup_ListNoDup, NoDup_filter, NoDup_ListNoDup, IH.
Qed.

End IngestMore.

(** X6: from a limiter that has no window open for a device, over any
    requests (of any devices) that arrive within one minute, at most 1000
    requests of that device pass the limiter (reach it and are not answered
    with 429); each of them stores at most 100 events of the device and no
    other request stores any, so at most 100 000 of its events are
    stored. *)
Theorem one_window_stores_at_most_1000_batches
    (t0 : Z) (d : string) (reqs : list Ingest.request) (s : Ingest.state) :
  Ingest.rateLimits s !! d = None ->
  Forall (fun r => (t0 <= Ingest.arrival r < t0 + 60000)%Z) reqs ->
  passed d reqs (fst (Ingest.serve_all reqs s)) <= 1000 /\
  length (rows_of d (snd (Ingest.serve_all reqs s)))
  <= length (rows_of d s) + 100 * passed d reqs (fst (Ingest.serve_all reqs s)) /\
  length (rows_of d (snd (Ingest.serve_all reqs s)))
  <= length (rows_of d s) + 100 * 1000.
Proof.
  intros Hnone Hspan.
  assert (Hp : passed d reqs (fst (Ingest.serve_all reqs s)) <= 1000).
  { pose proof (window_passes t0 d reqs s) as H.
    unfold covers, allowance in H. rewrite Hnone in H.
    apply H. split; [exact Hspan | exact I]. }
  pose proof (rows_by_passes d reqs s) as Hr. unfold Ingest.MAX_BATCH_SIZE in Hr.
  split; [exact Hp|]. split; [exact Hr | lia].
Qed.

Lemma one_window_stores_at_most_1000_batches_witness :
  passed "devA" (map ingest_full_batch (seq 0 11))
    (fst (Ingest.serve_all (map ingest_full_batch (seq 0 11)) Ingest.initial))
  <= 1000 /\
  length (rows_of "devA"
            (snd (Ingest.serve_all (map ingest_full_batch (seq 0 11)) Ingest.initial)))
  <= 0 + 100 * 1000.
Proof.
  destruct (one_window_stores_at_most_1000_batches 0 "devA"
              (map ingest_full_batch (seq 0 11)) Ingest.initial) as (Hp & _ & Hr).
  - reflexivity.
  - apply List.Forall_forall. intros r Hr. apply in_map_iff in Hr as (k & <- & Hk).
    apply in_seq in Hk. cbn. lia.
  - split; [exact Hp | exact Hr].
Defined.

(** X7: ingest-events stores rows only with a 202: then the rows appended
    are the batch's events, in order, at most 100, each tagged with the
    device, the batch id and the arrival time, and the reply's accepted
    count is their number; with any other reply nothing is stored, nothing
    is triggered and no count is reported. *)
Theorem stores_exactly_what_it_accepts (req : Ingest.request) (s : Ingest.state) :
  let rep := fst (Ingest.serve req s) in
  let s' := snd (Ingest.serve req s) in
  if (Ingest.status rep =? 202)%Z then
    exists b evs,
      Ingest.payload req = Some b /\ Ingest.events b = Some evs /\
      length evs <= 100 /\
      Ingest.accepted rep = Some (length evs) /\
      Ingest.secure_events s'
      = Ingest.secure_events s ++
        map (fun e => {| Ingest.r_event := e;
                         Ingest.r_device_fingerprint := device_of req b;
                         Ingest.r_batch_id := Ingest.batchId b;
                         Ingest.r_ingested_at := Ingest.arrival req |}) evs
  else
    Ingest.secure_events s' = Ingest.secure_events s /\
    Ingest.triggered s' = Ingest.triggered s /\
    Ingest.accepted rep = None.
Proof.
  cbv zeta. unfold Ingest.serve.
  destruct (String.eqb (Ingest.method req) "OPTIONS"); [cbn; auto|].
  destruct (negb (String.eqb (Ingest.method req) "POST")); [cbn; auto|].
  destruct (Ingest.payload req) as [b|]; [|cbn; auto].
  destruct (Ingest.events b) as [evs|] eqn:Hev; [|cbn; auto].
  destruct (Ingest.MAX_BATCH_SIZE <? length evs)%nat eqn:Hlen; [cbn; auto|].
  apply Nat.ltb_ge in Hlen. fold (device_of req b).
  destruct (Ingest.checkRateLimit _ _ _) as [allowed limits].
  destruct allowed; cbn [negb]; [|cbn; auto].
  destruct (Ingest.insert_ok req); cbn [negb]; [|cbn; auto].
  cbn. exists b, evs. auto.
Qed.

(** X8: with a 202, pattern detection is triggered once for each
    organisation that has an event in the batch: the triggers appended name
    the batch, no organisation twice, and exactly the organisations of the
    batch's events. *)
Theorem detection_triggered_once_per_org
    (req : Ingest.request) (s : Ingest.state) (b : Ingest.batch)
    (evs : list Ingest.secure_event) :
  Ingest.payload req = Some b ->
  Ingest.events b = Some evs ->
  Ingest.status (fst (Ingest.serve req s)) = 202%Z ->
  exists orgs,
    Ingest.triggered (snd (Ingest.serve req s))
    = Ingest.triggered s ++ map (fun o => (o, Ingest.batchId b)) orgs /\
    List.NoDup orgs /\
    forall o, In o orgs <-> exists e, In e evs /\ Ingest.orgId e = o.
Proof.
  intros Hb Hev H202.
  destruct (serve_effect req s) as [[_ Hn]|(b' & evs' & rows & Hb' & Hev' & _ & _ & _ & Hcase)];
    [contradiction|].
  rewrite Hb in Hb'. injection Hb' as <-. rewrite Hev in Hev'. injection Hev' as <-.
  destruct Hcase as [(_ & _ & Hn)|(_ & _ & Ht & _)]; [contradiction|].
  exists (Ingest.distinct (map Ingest.orgId evs)).
  split; [exact Ht|]. split; [apply distinct_NoDup|].
  intros o. rewrite distinct_In, in_map_iff. split; intros (e & H1 & H2); eauto.
Qed.

Lemma detection_triggered_once_per_org_witness :
  exists orgs,
    Ingest.triggered (snd (Ingest.serve mixed_batch Ingest.initial))
    = map (fun o => (o, "b7")) orgs /\
    List.NoDup orgs.
Proof.
  destruct (detection_triggered_once_per_org mixed_batch Ingest.initial _ _
              eq_refl eq_refl eq_refl) as (orgs & Ht & Hn & _).
  exists orgs. split; [exact Ht | exact Hn].
Defined.

(** X9: the limiter keeps every counter between 1 and 1000 and every window
    at most a minute long, and a check touches only the entry of the device
    that asks.  A device that is refused keeps its entry as it is (a refusal
    is not counted), and is let in again from 60 seconds after the refusal,
    the Retry-After the handler sends. *)
Theorem limiter_keeps_its_bounds
    (now0 now : Z) (d : string) (limits : gmap string Ingest.rate_entry) :
  (now0 <= now)%Z ->
  well_counted now0 limits ->
  let result := Ingest.checkRateLimit now d limits in
  well_counted now (snd result) /\
  (forall other, other <> d -> snd result !! other = limits !! other) /\
  (fst result = false ->
   snd result = limits /\
   forall later, (now + 60000 <= later)%Z ->
     fst (Ingest.checkRateLimit later d (snd result)) = true).
Proof.
  intros Hnow Hw result. subst result.
  split; [eapply checkRateLimit_counted; eassumption|].
  split; [intros other Hne; apply checkRateLimit_other, Hne|].
  unfold Ingest.checkRateLimit.
  destruct (limits !! d) as [e|] eqn:He; [|discriminate].
  destruct (Ingest.resetAt e <=? now)%Z; [discriminate|].
  destruct (Ingest.RATE_LIMIT_PER_MINUTE <=? Ingest.count e)%Z; [|discriminate].
  cbn [fst snd]. intros _. split; [reflexivity|].
  intros later Hlater. rewrite He.
  destruct (Hw d e He) as [_ Hr].
  destruct (Ingest.resetAt e <=? later)%Z eqn:E; [reflexivity|].
  apply Z.leb_gt in E. lia.
Qed.

Lemma limiter_keeps_its_bounds_witness :
  well_counted 1000
    (snd (Ingest.checkRateLimit 1000 "devA"
            (Ingest.rateLimits
               (snd (Ingest.serve (ingest_full_batch 0) Ingest.initial))))).
Proof.
  refine (proj1 (limiter_keeps_its_bounds 0 1000 "devA" _ _ _)); [lia|].
  assert (E : Ingest.rateLimits (snd (Ingest.serve (ingest_full_batch 0) Ingest.initial))
              = {[ "devA" := {| Ingest.count := 1; Ingest.resetAt := 60000 |} ]})
    by reflexivity.
  rewrite E. intros k e He.
  apply lookup_singleton_Some in He as [_ <-]. cbn.
  unfold Ingest.RATE_LIMIT_PER_MINUTE. lia.
Defined.

(** ** ghost-executor: steps never throw, refusals, the cost of a run *)

Section ExecutorMore.
Import Executor.

Variable llm_complete : nat -> llm_request -> option llm_response.
Variable fetch : nat -> fetch_request -> option fetch_response.
Variable json_parse : string -> option json.
Variable to_string : option json -> string.

Abbreviation executeNode' := (Executor.executeNode fetch json_parse to_string).
Abbreviation attemptSelfHealing' :=
  (Executor.attemptSelfHealing llm_complete fetch json_parse to_string).
Abbreviation run_plan' := (Executor.run_plan llm_complete fetch json_parse to_string).

Ltac open_m :=
  unfold bind, ret, lift, try_catch, call_llm, call_fetch in *.

Ltac split_goal_match :=
  match goal with
  | |- context [match ?x with _ => _ end] =>
    lazymatch x with
    | context [match _ with _ => _ end] => fail
    | _ => let E := fresh "E" in destruct x eqn:E
    end
  end.

Lemma prop_not_null (k : string) (o : json) :
  not_null o = true -> prop k (Some o) = Ok (get_field k o).
Proof. destruct o; intros H; try reflexivity. discriminate. Qed.

Lemma truthy_not_null (a : json) : truthy (Some a) = true -> not_null a = true.
Proof. destruct a; cbn; auto. Qed.

(** The shape of every step of [executeNode] on a node that is not null. *)
Lemma executeNode_returns (node : json) (t : nat) :
  not_null node = true ->
  exists r t',
    executeNode' node t = (Ok r, t') /\
    nodeId r = get_field "id" node /\
    t <= t' <= S t /\
    (t' = S t -> is_tool "api_call" (tool_of node) = true) /\
    (status r = completed \/ status r = failed \/ status r = skipped) /\
    (status r = failed ->
     strategy r = "direct" /\ is_Some (error r) /\ output r = None) /\
    (status r = skipped ->
     truthy (get_field "action" node) = false /\ strategy r = "none" /\ t' = t).
Proof.
  intros Hn. unfold Executor.executeNode, executeApiCall, tool_of. open_m.
  rewrite !(prop_not_null _ node Hn).
  destruct (get_field "action" node) as [a|] eqn:Ea.
  2: { cbn [truthy negb]. eexists _, _. split; [reflexivity|]. cbn.
       repeat split; auto; try lia; discriminate. }
  destruct (truthy (Some a)) eqn:Ta; cbn [negb].
  2: { eexists _, _. split; [reflexivity|]. cbn. repeat split; auto; try lia; discriminate. }
  rewrite !(prop_not_null _ a (truthy_not_null a Ta)).
  repeat split_goal_match;
    (eexists _, _; split; [reflexivity|]; cbn;
     repeat split; auto; try lia; try discriminate; eauto).
Qed.

Lemma attemptSelfHealing_cost (node : json) (r : StepResult) (ghost : json) (t : nat) :
  exists o t', attemptSelfHealing' node r ghost t = (Ok o, t') /\ t <= t' <= S (S t).
Proof.
  unfold Executor.attemptSelfHealing. open_m.
  destruct (llm_complete t _) as [resp|]; [|eexists _, _; split; [reflexivity | lia]].
  destruct (content resp) as [text|]; [|eexists _, _; split; [reflexivity | lia]].
  destruct (String.eqb text ""); [eexists _, _; split; [reflexivity | lia]|].
  destruct (match_delimited "{" "}" text) as [m|];
    [|eexists _, _; split; [reflexivity | lia]].
  destruct (json_parse m) as [alt|]; [|eexists _, _; split; [reflexivity | lia]].
  destruct (prop "tool" (Some alt)) as [tool|]; [|eexists _, _; split; [reflexivity | lia]].
  destruct (prop "params" (Some alt)) as [params|];
    [|eexists _, _; split; [reflexivity | lia]].
  destruct (prop "id" (Some node)) as [fid|]; [|eexists _, _; split; [reflexivity | lia]].
  match goal with
  | |- context [Executor.executeNode fetch json_parse to_string ?n (S t)] =>
    destruct (executeNode_returns n (S t) eq_refl) as (h & t' & -> & _ & Ht & _)
  end.
  eexists _, _. split; [reflexivity | lia].
Qed.

(** A plan whose nodes are not null runs to a verdict. *)
Lemma run_plan_returns (ghost : json) (plan : list json) :
  forall t,
    forallb not_null plan = true ->
    exists overall steps t',
      run_plan' ghost plan t = (Ok (overall, steps), t') /\
      length steps <= 2 * length plan /\
      (overall = execution_completed -> length plan <= length steps) /\
      (overall = execution_failed -> 1 <= length steps) /\
      t <= t' <= t + 3 * length plan.
Proof.
  induction plan as [|node rest IH]; intros t Hp.
  - exists execution_completed, [], t. cbn. repeat split; auto; try lia; discriminate.
  - cbn [forallb] in Hp. apply andb_prop in Hp as [Hn Hrest].
    cbn [Executor.run_plan]. unfold bind at 1.
    destruct (executeNode_returns node t Hn) as (r & t1 & -> & _ & Ht1 & _).
    assert (Hplain :
      forall t1', t <= t1' <= S t ->
      exists overall steps t',
        (bind (run_plan' ghost rest)
              (fun x => ret (fst x, r :: snd x))) t1' = (Ok (overall, steps), t') /\
        length steps <= 2 * length (node :: rest) /\
        (overall = execution_completed -> length (node :: rest) <= length steps) /\
        (overall = execution_failed -> 1 <= length steps) /\
        t <= t' <= t + 3 * length (node :: rest)).
    { intros t1' Ht1'. destruct (IH t1' Hrest) as (o & steps & t' & Hrun & Hl & Hc & Hf & Ht).
      exists o, (r :: steps), t'. unfold bind, ret. rewrite Hrun. cbn [fst snd length].
      repeat split; auto; try lia.
      - intros Ho. specialize (Hc Ho). lia. }
    destruct (status r); try (apply Hplain; exact Ht1).
    unfold bind at 1.
    destruct (attemptSelfHealing_cost node r ghost t1) as (o & t2 & -> & Ht2).
    destruct o as [healed|].
    + destruct (IH t2 Hrest) as (ov & steps & t' & Hrun & Hl & Hc & Hf & Ht).
      exists ov, (r :: healed :: steps), t'. unfold bind, ret. rewrite Hrun.
      cbn [fst snd length]. repeat split; auto; try lia.
      intros Ho. specialize (Hc Ho). lia.
    + exists execution_failed, [r], t2. unfold ret. cbn [length].
      repeat split; auto; try lia. discriminate.
Qed.

End ExecutorMore.

(** X10: executeNode never throws on a node that is not null: whatever
    happens inside (a fetch that throws, parameters that are null) comes
    back as a step with status failed, strategy direct and an error message.
    The step carries the node's id; the node costs at most one external
    call, and none unless its tool is api_call; a node without an action is
    skipped at no cost. *)
Theorem executeNode_contains_failures
    (fetch : nat -> Executor.fetch_request -> option Executor.fetch_response)
    (json_parse : string -> option json)
    (to_string : option json -> string)
    (node : json) (t : nat) :
  not_null node = true ->
  exists r t',
    Executor.executeNode fetch json_parse to_string node t = (Executor.Ok r, t') /\
    Executor.nodeId r = get_field "id" node /\
    t <= t' <= S t /\
    (t' = S t -> Executor.is_tool "api_call" (tool_of node) = true) /\
    (Executor.status r = Executor.completed \/ Executor.status r = Executor.failed \/
     Executor.status r = Executor.skipped) /\
    (Executor.status r = Executor.failed ->
     Executor.strategy r = "direct" /\ is_Some (Executor.error r) /\
     Executor.output r = None) /\
    (Executor.status r = Executor.skipped ->
     truthy (get_field "action" node) = false /\ Executor.strategy r = "none" /\ t' = t).
Proof. apply executeNode_returns. Qed.

Lemma executeNode_contains_failures_witness :
  exists r t',
    Executor.executeNode fetch_down parse_stub string_stub broken_node 0
      = (Executor.Ok r, t') /\
    Executor.nodeId r = Some (JStr "s1").
Proof.
  destruct (executeNode_contains_failures fetch_down parse_stub string_stub
              broken_node 0 eq_refl) as (r & t' & Hr & Hid & _).
  exists r, t'. split; [exact Hr | exact Hid].
Defined.

(** X11: a plan whose nodes are not null always runs to a verdict (the run
    cannot throw).  It records at most two steps per node (the step and its
    substitute), at least one step per node when the verdict is completed,
    and makes at most three external calls per node (the step's fetch, the
    replanning call, the substitute's fetch). *)
Theorem run_plan_always_returns
    (llm_complete : nat -> Executor.llm_request -> option Executor.llm_response)
    (fetch : nat -> Executor.fetch_request -> option Executor.fetch_response)
    (json_parse : string -> option json)
    (to_string : option json -> string)
    (ghost : json) (plan : list json) (t : nat) :
  forallb not_null plan = true ->
  exists overall steps t',
    Executor.run_plan llm_complete fetch json_parse to_string ghost plan t
      = (Executor.Ok (overall, steps), t') /\
    length steps <= 2 * length plan /\
    (overall = Executor.execution_completed -> length plan <= length steps) /\
    (overall = Executor.execution_failed -> 1 <= length steps) /\
    t <= t' <= t + 3 * length plan.
Proof. intros H. apply run_plan_returns, H. Qed.

Lemma run_plan_always_returns_witness :
  exists overall steps t',
    Executor.run_plan llm_heals fetch_down parse_stub string_stub
      (ghost_row (JArr [broken_node])) [broken_node] 0
      = (Executor.Ok (overall, steps), t') /\
    length steps <= 2.
Proof.
  destruct (run_plan_always_returns llm_heals fetch_down parse_stub string_stub
              (ghost_row (JArr [broken_node])) [broken_node] 0 eq_refl)
    as (o & steps & t' & Hr & Hl & _).
  exists o, steps, t'. split; [exact Hr | exact Hl].
Defined.

(** X12: ghost-executor records an execution only for a ghost of the store
    whose status is approved or active, and never changes the ghosts
    themselves.  A preflight, and a refusal with MISSING_GHOST (400),
    GHOST_NOT_FOUND (404) or GHOST_NOT_APPROVED (403), leave the store
    exactly as it was. *)
Theorem executions_only_for_approved_ghosts
    (llm_complete : nat -> Executor.llm_request -> option Executor.llm_response)
    (fetch : nat -> Executor.fetch_request -> option Executor.fetch_response)
    (json_parse : string -> option json)
    (to_string : option json -> string)
    (LLM_PROVIDER : option string)
    (executionId : string) (req : Executor.request) (db : Executor.store) :
  let result :=
    Executor.serve llm_complete fetch json_parse to_string LLM_PROVIDER executionId req db in
  untouched_or_started executionId db (snd result) /\
  match fst result with
  | Executor.Preflight => snd result = db
  | Executor.Failure st code =>
    In (st, code) [(400%Z, "MISSING_GHOST"); (404%Z, "GHOST_NOT_FOUND");
                   (403%Z, "GHOST_NOT_APPROVED")] /\ snd result = db
    \/ (st, code) = (500%Z, "EXECUTION_ERROR")
  | Executor.Finished id _ _ _ => id = executionId
  end.
Proof.
  cbv zeta. unfold Executor.serve, untouched_or_started.
  destruct (String.eqb (Executor.method req) "OPTIONS"); [cbn; auto|].
  destruct (Executor.payload req) as [body|]; [|cbn; auto].
  destruct (Executor.prop "ghostId" (Some body)) as [ghostId|]; [|cbn; auto].
  destruct (negb (truthy ghostId)); [cbn; auto|].
  destruct ghostId as [[| | |key| |]|]; try (cbn; auto 6; fail).
  destruct (Executor.ghosts db !! key) as [ghost|] eqn:Hg; [|cbn; auto 6].
  destruct (negb (Executor.is_status "approved" ghost)
            && negb (Executor.is_status "active" ghost)) eqn:Hs; [cbn; auto 7|].
  assert (Hok : (Executor.is_status "approved" ghost
                 || Executor.is_status "active" ghost) = true).
  { destruct (Executor.is_status "approved" ghost),
             (Executor.is_status "active" ghost); cbn in *; congruence. }
  cbv zeta. destruct (Executor.getDefaultProvider LLM_PROVIDER) as [name|message].
  2: { cbn [fst snd]. split; [|auto]. right. exists key, ghost.
       cbn [Executor.ghosts Executor.executions]. rewrite lookup_insert_eq. eauto. }
  match goal with
  | |- context [match fst ?run with _ => _ end] => destruct (fst run) as [[o steps]|e]
  end; cbn [fst snd].
  - split; [|reflexivity]. right. exists key, ghost.
    cbn [Executor.ghosts Executor.executions]. rewrite lookup_insert_eq. eauto.
  - split; [|auto]. right. exists key, ghost.
    cbn [Executor.ghosts Executor.executions]. rewrite lookup_insert_eq. eauto.
Qed.

(** X13: a request for an approved or active ghost that has a stored plan
    (an array of nodes, none of them null) is answered with a finished
    execution, never with EXECUTION_ERROR, whatever the upstreams and the
    language model do, as long as the factory builds a provider (the
    variable LLM_PROVIDER is unset, empty, openai or llama): the executions
    row gets the verdict and the step count, and one audit row is appended.
    When the factory throws (anthropic, or a name it does not know) the
    same request is answered 500 EXECUTION_ERROR, its executions row stays
    at running and no audit row is written. *)
Theorem stored_plan_always_finishes
    (llm_complete : nat -> Executor.llm_request -> option Executor.llm_response)
    (fetch : nat -> Executor.fetch_request -> option Executor.fetch_response)
    (json_parse : string -> option json)
    (to_string : option json -> string)
    (LLM_PROVIDER : option string)
    (executionId : string) (req : Executor.request) (db : Executor.store)
    (body ghost : json) (key : string) (nodes : list json) :
  Executor.method req <> "OPTIONS" ->
  Executor.payload req = Some body ->
  get_field "ghostId" body = Some (JStr key) ->
  key <> "" ->
  Executor.ghosts db !! key = Some ghost ->
  (Executor.is_status "approved" ghost || Executor.is_status "active" ghost) = true ->
  get_field "execution_plan" ghost = Some (JArr nodes) ->
  forallb not_null nodes = true ->
  let result :=
    Executor.serve llm_complete fetch json_parse to_string LLM_PROVIDER executionId req db in
  match Executor.getDefaultProvider LLM_PROVIDER with
  | Executor.Ok _ =>
    exists overall steps,
      fst result = Executor.Finished executionId (JStr key) overall steps /\
      length steps <= 2 * length nodes /\
      Executor.executions (snd result) !! executionId
        = Some {| Executor.e_ghost_id := JStr key;
                  Executor.e_status := Executor.status_name overall;
                  Executor.e_step_count := length steps |} /\
      exists row,
        Executor.execution_logs (snd result) = Executor.execution_logs db ++ [row] /\
        Executor.l_status row = overall /\ Executor.l_steps row = length steps
  | Executor.Throw _ =>
    fst result = Executor.Failure 500 "EXECUTION_ERROR" /\
    Executor.executions (snd result) !! executionId
      = Some {| Executor.e_ghost_id := JStr key;
                Executor.e_status := "running";
                Executor.e_step_count := 0 |} /\
    Executor.execution_logs (snd result) = Executor.execution_logs db
  end.
Proof.
  intros Hm Hb Hid Hkey Hg Hs Hplan Hnodes result. subst result.
  unfold Executor.serve.
  apply String.eqb_neq in Hm. rewrite Hm, Hb.
  assert (Hbody : not_null body = true) by (destruct body; cbn in *; congruence).
  rewrite (prop_not_null "ghostId" body Hbody), Hid.
  apply String.eqb_neq in Hkey. cbn [truthy]. rewrite Hkey. cbn [negb]. rewrite Hg.
  replace (negb (Executor.is_status "approved" ghost)
           && negb (Executor.is_status "active" ghost)) with false
    by (destruct (Executor.is_status "approved" ghost),
                 (Executor.is_status "active" ghost); cbn in *; congruence).
  cbv zeta. destruct (Executor.getDefaultProvider LLM_PROVIDER) as [name|message].
  2: { cbn [fst snd Executor.executions Executor.execution_logs].
       rewrite lookup_insert_eq. repeat split. }
  unfold Executor.createExecutionPlan. rewrite Hplan.
  destruct (run_plan_returns llm_complete fetch json_parse to_string ghost nodes 0 Hnodes)
    as (overall & steps & t' & Hrun & Hlen & _).
  repeat match goal with
  | |- context [fst (?run 0)] =>
    change (run 0)
      with (Executor.run_plan llm_complete fetch json_parse to_string ghost nodes 0);
    rewrite Hrun
  end.
  cbn [fst snd].
  exists overall, steps. split; [reflexivity|]. split; [exact Hlen|].
  cbn [Executor.executions Executor.execution_logs]. rewrite lookup_insert_eq.
  split; [reflexivity|]. eexists. split; [reflexivity|]. split; reflexivity.
Qed.

Lemma stored_plan_always_finishes_witness :
  exists overall steps,
    fst (Executor.serve llm_down fetch_down parse_stub string_stub None "e1"
           execute_request (executor_db (JArr [broken_node])))
    = Executor.Finished "e1" (JStr "g1") overall steps /\
    length steps <= 2.
Proof.
  destruct (stored_plan_always_finishes llm_down fetch_down parse_stub string_stub
              None "e1" execute_request (executor_db (JArr [broken_node]))
              (JObj [("ghostId", JStr "g1")]) (ghost_row (JArr [broken_node]))
              "g1" [broken_node])
    as (o & steps & Hf & Hl & _); try reflexivity; try discriminate.
  exists o, steps. split; [exact Hf | exact Hl].
Defined.

(** ** PII scrubber: consistent replacement tokens *)

Section TokenFacts.
Import Scrubber.

Variable toLowerCase : text -> text.

Lemma list_ascii_app (a b : string) :
  list_ascii_of_string (a ++ b)%string
  = list_ascii_of_string a ++ list_ascii_of_string b.
Proof. induction a as [|c a IH]; simpl; [reflexivity | f_equal; exact IH]. Qed.

Lemma append_inj_l (x y s : string) : (x ++ s = y ++ s)%string -> x = y.
Proof.
  intros H. apply (f_equal list_ascii_of_string) in H.
  rewrite !list_ascii_app in H. apply app_inv_tail in H.
  rewrite <- (string_of_list_ascii_of_string x), <- (string_of_list_ascii_of_string y), H.
  reflexivity.
Qed.

Lemma lit_inj (a b : string) : lit a = lit b -> a = b.
Proof.
  unfold lit. intros H.
  rewrite <- (string_of_list_ascii_of_string a), <- (string_of_list_ascii_of_string b).
  f_equal. revert H. generalize (list_ascii_of_string a), (list_ascii_of_string b).
  intros l. induction l as [|c l IH]; intros [|d l']; cbn; intros H;
    try discriminate; [reflexivity|].
  injection H as Hc Hl. f_equal; [|apply IH, Hl].
  rewrite <- (ascii_N_embedding c), <- (ascii_N_embedding d), Hc. reflexivity.
Qed.

Lemma token_inj (ty : string) (n1 n2 : nat) : token ty n1 = token ty n2 -> n1 = n2.
Proof.
  unfold token. intros H. apply lit_inj in H.
  do 3 apply append_inj_r in H. apply append_inj_l in H.
  apply decimal_inj in H. lia.
Qed.

Lemma numbered_empty : numbered ∅.
Proof. intros ty m H. unfold counters in *. rewrite lookup_empty in H. discriminate. Qed.

Lemma numbered_typeMap (cs : counters) (ty : string) :
  numbered cs ->
  (forall k n, default ∅ (cs !! ty) !! k = Some n -> 1 <= n <= size (default ∅ (cs !! ty))) /\
  (forall k1 k2 n, default ∅ (cs !! ty) !! k1 = Some n ->
                   default ∅ (cs !! ty) !! k2 = Some n -> k1 = k2).
Proof.
  intros Hn. destruct (cs !! ty) as [m|] eqn:E; cbn [default from_option Datatypes.id].
  - apply (Hn ty m E).
  - split; intros *; rewrite lookup_empty; discriminate.
Qed.

(** One call: the token is that of the number now held for the value, what
    was held before is still held, and the counters stay numbered. *)
Lemma getReplacement_assigns (ty : string) (v : text) (cs : counters) :
  numbered cs ->
  numbered (snd (getReplacement toLowerCase ty v cs)) /\
  (exists n, assigned toLowerCase (snd (getReplacement toLowerCase ty v cs)) ty v = Some n /\
             fst (getReplacement toLowerCase ty v cs) = token ty n) /\
  (forall ty' v' n,
     assigned toLowerCase cs ty' v' = Some n ->
     assigned toLowerCase (snd (getReplacement toLowerCase ty v cs)) ty' v' = Some n).
Proof.
  intros Hn. destruct (numbered_typeMap cs ty Hn) as [Hrange Hinj].
  unfold getReplacement, assigned, numbered, counters in *.
  set (m := default ∅ (cs !! ty)) in *.
  set (k := normalize toLowerCase v) in *.
  destruct (m !! k) as [n|] eqn:Hk; cbn [fst snd].
  - split; [|split].
    + intros ty' m' H. destruct (decide (ty' = ty)) as [->|Hne].
      * rewrite lookup_insert_eq in H. injection H as <-. split; assumption.
      * rewrite lookup_insert_ne in H by congruence. apply (Hn ty' m' H).
    + exists n. rewrite lookup_insert_eq. cbn [default from_option Datatypes.id]. auto.
    + intros ty' v' n' H. destruct (decide (ty' = ty)) as [->|Hne].
      * rewrite lookup_insert_eq. cbn [default from_option Datatypes.id]. exact H.
      * rewrite lookup_insert_ne by congruence. exact H.
  - split; [|split].
    + intros ty' m' H. destruct (decide (ty' = ty)) as [->|Hne].
      * rewrite lookup_insert_eq in H. injection H as <-.
        rewrite (map_size_insert_None _ _ _ Hk). split.
        -- intros k0 n0 H0. destruct (decide (k0 = k)) as [->|Hk0].
           ++ rewrite lookup_insert_eq in H0. injection H0 as <-. lia.
           ++ rewrite lookup_insert_ne in H0 by congruence.
              specialize (Hrange k0 n0 H0). lia.
        -- intros k1 k2 n0 H1 H2.
           destruct (decide (k1 = k)) as [E1|E1], (decide (k2 = k)) as [E2|E2].
           ++ congruence.
           ++ rewrite E1, lookup_insert_eq in H1. injection H1 as <-.
              rewrite lookup_insert_ne in H2 by congruence.
              specialize (Hrange k2 _ H2). lia.
           ++ rewrite E2, lookup_insert_eq in H2. injection H2 as <-.
              rewrite lookup_insert_ne in H1 by congruence.
              specialize (Hrange k1 _ H1). lia.
           ++ rewrite lookup_insert_ne in H1 by congruence.
              rewrite lookup_insert_ne in H2 by congruence.
              eapply Hinj; eassumption.
      * rewrite lookup_insert_ne in H by congruence. apply (Hn ty' m' H).
    + exists (S (size m)). rewrite lookup_insert_eq. cbn [default from_option Datatypes.id].
      rewrite lookup_insert_eq. auto.
    + intros ty' v' n' H. destruct (decide (ty' = ty)) as [->|Hne].
      * rewrite lookup_insert_eq. cbn [default from_option Datatypes.id]. fold m in H.
        destruct (decide (normalize toLowerCase v' = k)) as [E|E].
        -- rewrite E in H. congruence.
        -- rewrite lookup_insert_ne by congruence. exact H.
      * rewrite lookup_insert_ne by congruence. exact H.
Qed.

(** A run of calls: every token is that of the number the final counters
    hold for its value. *)
Lemma replacements_assign (es : list PiiEntity) :
  forall cs,
    numbered cs ->
    numbered (snd (replacements toLowerCase es cs)) /\
    (forall ty v n,
       assigned toLowerCase cs ty v = Some n ->
       assigned toLowerCase (snd (replacements toLowerCase es cs)) ty v = Some n) /\
    Forall2
      (fun e t =>
         exists n,
           assigned toLowerCase (snd (replacements toLowerCase es cs)) (type e) (value e)
             = Some n /\
           t = token (type e) n)
      es (fst (replacements toLowerCase es cs)).
Proof.
  induction es as [|e es IH]; intros cs Hn.
  - cbn. split; [exact Hn|]. split; [auto | constructor].
  - cbn [replacements].
    destruct (getReplacement_assigns (type e) (value e) cs Hn) as (Hn1 & (n & Ha & Ht) & Hkeep).
    destruct (getReplacement toLowerCase (type e) (value e) cs) as [r cs1].
    cbn [fst snd] in *.
    destruct (IH cs1 Hn1) as (Hn2 & Hkeep2 & Hall).
    destruct (replacements toLowerCase es cs1) as [rs cs2]. cbn [fst snd] in *.
    split; [exact Hn2|]. split; [auto|].
    constructor; [|exact Hall]. exists n. split; [auto | exact Ht].
Qed.

End TokenFacts.

(** X14: replacement tokens are consistent within a session.  Over any run
    of getReplacement calls that starts from counters built from the empty
    map, two values of the same type get the same token exactly when they
    are equal once lower-cased and stripped of spaces, hyphens and dots;
    and numbers given earlier in the session are kept. *)
Theorem tokens_are_consistent
    (toLowerCase : Scrubber.text -> Scrubber.text)
    (es : list Scrubber.PiiEntity) (cs : Scrubber.counters)
    (i j : nat) (a b : Scrubber.PiiEntity) (ta tb : Scrubber.text) :
  numbered cs ->
  es !! i = Some a -> es !! j = Some b ->
  fst (Scrubber.replacements toLowerCase es cs) !! i = Some ta ->
  fst (Scrubber.replacements toLowerCase es cs) !! j = Some tb ->
  Scrubber.type a = Scrubber.type b ->
  (ta = tb <->
   Scrubber.normalize toLowerCase (Scrubber.value a)
   = Scrubber.normalize toLowerCase (Scrubber.value b)) /\
  numbered (snd (Scrubber.replacements toLowerCase es cs)) /\
  (forall ty v n,
     assigned toLowerCase cs ty v = Some n ->
     assigned toLowerCase (snd (Scrubber.replacements toLowerCase es cs)) ty v = Some n).
Proof.
  intros Hn Ha Hb Hta Htb Hty.
  destruct (replacements_assign toLowerCase es cs Hn) as (Hn' & Hkeep & Hall).
  split; [|split; assumption].
  destruct (Forall2_lookup_lr _ _ _ _ _ _ Hall Ha Hta) as (na & Hna & ->).
  destruct (Forall2_lookup_lr _ _ _ _ _ _ Hall Hb Htb) as (nb & Hnb & ->).
  unfold assigned in Hna, Hnb. rewrite <- Hty in *.
  destruct (numbered_typeMap _ (Scrubber.type a) Hn') as [_ Hinj].
  split.
  - intros E. apply token_inj in E. subst nb. eapply Hinj; eassumption.
  - intros E. rewrite E in Hna. congruence.
Qed.

Lemma tokens_are_consistent_witness :
  fst (Scrubber.replacements ascii_lower sample_entities ∅) !! 0
  = fst (Scrubber.replacements ascii_lower sample_entities ∅) !! 2.
Proof.
  destruct (fst (Scrubber.replacements ascii_lower sample_entities ∅) !! 0)
    as [ta|] eqn:Ha; [|vm_compute in Ha; discriminate].
  destruct (fst (Scrubber.replacements ascii_lower sample_entities ∅) !! 2)
    as [tb|] eqn:Hb; [|vm_compute in Hb; discriminate].
  f_equal.
  apply (tokens_are_consistent ascii_lower sample_entities ∅ 0 2 _ _ ta tb
           numbered_empty eq_refl eq_refl Ha Hb eq_refl).
  vm_compute. reflexivity.
Defined.

(** ** Intent encoder: what every result looks like *)

Section EncoderMore.
Import Encoder.
#[local] Open Scope R_scope.

Lemma js_round_between (a b : Z) (x : R) :
  IZR a <= x <= IZR b -> IZR a <= js_round x <= IZR b.
Proof.
  intros [Ha Hb]. pose proof (js_round_near x) as [Hlo Hhi].
  unfold js_round in *. set (k := (up (x + / 2) - 1)%Z) in *.
  split; apply IZR_le.
  - assert (H : IZR a < IZR (k + 1)) by (rewrite plus_IZR; lra).
    apply lt_IZR in H. lia.
  - assert (H : IZR k < IZR (b + 1)) by (rewrite plus_IZR; lra).
    apply lt_IZR in H. lia.
Qed.

Lemma classify_values (e : RawEvent) :
  In (classify e)
    [ (authentication, 0.85); (data_entry, 0.9); (navigation, 0.95);
      (navigation, 0.85); (data_entry, 0.8); (workflow_transition, 0.7);
      (configuration, 0.75); (unknown, 0.2); (data_entry, 0.85);
      (data_extraction, 0.8); (research, 0.5); (navigation, 0.4);
      (unknown, 0.1); (navigation, 0.6); (data_entry, 0.5);
      (workflow_transition, 0.4); (communication, 0.75); (data_entry, 0.7);
      (research, 0.7); (data_extraction, 0.75); (error_handling, 0.6);
      (error_handling, 0.9) ].
Proof.
  unfold classify, classifyUserInteraction, classifyDomMutation, classifyNetworkEvent.
  repeat match goal with
  | |- context [match ?x with _ => _ end] =>
    lazymatch x with
    | context [match _ with _ => _ end] => fail
    | _ => destruct x
    end
  | |- context [if ?x then _ else _] =>
    lazymatch x with
    | context [if _ then _ else _] => fail
    | context [match _ with _ => _ end] => fail
    | _ => destruct x
    end
  end; cbn; tauto.
Qed.

End EncoderMore.

(** X15: for every event the encoder's vector has 128 coordinates, each a
    multiple of 0.0001 between -1 and 1, and an L2 norm within 0.01 of 1:
    the vector is never the zero vector, so it is always normalized and
    quantized. *)
Theorem encoded_vector_is_unit
    (e : Encoder.RawEvent) :
  let v := Encoder.vector (Encoder.encode e) in
  length v = 128 /\
  Forall (fun x => exists k : Z, x = (IZR k / 10000)%R /\ (-10000 <= k <= 10000)%Z) v /\
  (0.99 <= Encoder.norm v <= 1.01)%R.
Proof.
  cbv zeta. unfold Encoder.encode. cbn [Encoder.vector].
  set (label := fst (Encoder.classify e)).
  destruct (generateVector_unit label e) as (Hlen & Hbound & Hnorm).
  split; [exact Hlen|]. split; [|exact Hnorm].
  apply List.Forall_forall. intros x Hx. specialize (Hbound x Hx).
  apply Rabs_bound in Hbound.
  unfold Encoder.generateVector in Hx.
  pose proof (mixed_positive label e) as Hpos.
  apply sqrt_lt_R0 in Hpos. fold (Encoder.norm
    (Encoder.mix (Encoder.base_vector 128 (Encoder.INTENT_SEEDS label))
       (Encoder.extractFeatures e))) in Hpos.
  destruct (Rlt_dec 0 _) as [_|Hn]; [|contradiction].
  apply in_map_iff in Hx as (y & <- & _).
  unfold Encoder.js_round in *.
  match goal with |- context [(IZR ?k / 10000)%R] => exists k end.
  split; [reflexivity|].
  match type of Hbound with
  | (_ <= IZR ?k / 10000 <= _)%R =>
    assert (H1 : (IZR (-10001) < IZR k)%R) by lra;
    assert (H2 : (IZR k < IZR 10001)%R) by lra
  end.
  apply lt_IZR in H1, H2. lia.
Qed.

(** X16: the classifier's confidence always lies between 0.10 and 0.95,
    and is at most 0.20 when the label is unknown; it never answers
    approval or file_operation, and it answers communication for network
    events only and error_handling for network and error events only. *)
Theorem classify_stays_in_range (e : Encoder.RawEvent) :
  (0.1 <= snd (Encoder.classify e) <= 0.95)%R /\
  (fst (Encoder.classify e) = Encoder.unknown -> (snd (Encoder.classify e) <= 0.2)%R) /\
  fst (Encoder.classify e) <> Encoder.approval /\
  fst (Encoder.classify e) <> Encoder.file_operation /\
  (fst (Encoder.classify e) = Encoder.communication ->
   Encoder.eventType e = Encoder.network) /\
  (fst (Encoder.classify e) = Encoder.error_handling ->
   Encoder.eventType e = Encoder.network \/ Encoder.eventType e = Encoder.error).
Proof.
  pose proof (classify_values e) as H.
  split; [|split; [|split; [|split; [|split]]]].
  - cbn [In] in H. repeat destruct H as [<-|H]; cbn [fst snd];
      try contradiction; lra.
  - cbn [In] in H. repeat destruct H as [<-|H]; cbn [fst snd];
      try contradiction; intros; try discriminate; lra.
  - cbn [In] in H. repeat destruct H as [<-|H]; cbn [fst snd];
      try contradiction; discriminate.
  - cbn [In] in H. repeat destruct H as [<-|H]; cbn [fst snd];
      try contradiction; discriminate.
  - clear H. unfold Encoder.classify, Encoder.classifyUserInteraction,
      Encoder.classifyDomMutation.
    destruct (Encoder.eventType e); try reflexivity; intros H; exfalso; revert H;
      repeat match goal with
      | |- context [match ?x with _ => _ end] =>
        lazymatch x with
        | context [match _ with _ => _ end] => fail
        | _ => destruct x
        end
      | |- context [if ?x then _ else _] =>
        lazymatch x with
        | context [if _ then _ else _] => fail
        | context [match _ with _ => _ end] => fail
        | _ => destruct x
        end
      end; cbn; discriminate.
  - clear H. unfold Encoder.classify, Encoder.classifyUserInteraction,
      Encoder.classifyDomMutation.
    destruct (Encoder.eventType e); auto; intros H; exfalso; revert H;
      repeat match goal with
      | |- context [match ?x with _ => _ end] =>
        lazymatch x with
        | context [match _ with _ => _ end] => fail
        | _ => destruct x
        end
      | |- context [if ?x then _ else _] =>
        lazymatch x with
        | context [if _ then _ else _] => fail
        | context [match _ with _ => _ end] => fail
        | _ => destruct x
        end
      end; cbn; discriminate.
Qed.

(** ** Privacy pipeline: what leaves the device *)

Section RedactFacts.
Import Encoder.
#[local] Open Scope R_scope.

Variable toLowerCase : Scrubber.text -> Scrubber.text.
Variable parse_url : string -> option (string * string).
Variable random : nat -> R.
Variable localTZA : Z -> bool -> Z.

Lemma redact_twice (e : RawEvent) : redact (redact e) = redact e.
Proof.
  unfold redact. cbn. f_equal. f_equal.
  - destruct (target (payload e)); reflexivity.
  - destruct (mutations (payload e)) as [ms|]; [|reflexivity]. cbn. f_equal.
    rewrite map_map. apply map_ext. reflexivity.
Qed.

Lemma url_clean_redact (e : RawEvent) : url_clean (redact e) <-> url_clean e.
Proof. reflexivity. Qed.

Lemma mutations_redact (ms : list MutationSummary) :
  fold_left (fun sum m => (sum + addedNodes m + removedNodes m)%Z)
    (map redact_mutation ms) 0%Z
  = fold_left (fun sum m => (sum + addedNodes m + removedNodes m)%Z) ms 0%Z /\
  length (filter (fun m => is_form_mutation m = true) (map redact_mutation ms))
  = length (filter (fun m => is_form_mutation m = true) ms).
Proof.
  split.
  - generalize 0%Z. induction ms as [|m ms IH]; intros z; [reflexivity|].
    cbn. apply IH.
  - induction ms as [|m ms IH]; [reflexivity|].
    cbn [map]. rewrite !filter_cons.
    change (is_form_mutation (redact_mutation m)) with (is_form_mutation m).
    destruct (decide (is_form_mutation m = true)); cbn [length]; rewrite IH; reflexivity.
Qed.

(** The encoder reads none of the texts. *)
Lemma encode_redact (e : RawEvent) : encode (redact e) = encode e.
Proof.
  assert (Hf : extractFeatures (redact e) = extractFeatures e).
  { unfold extractFeatures, redact. cbn.
    destruct (target (payload e)); reflexivity. }
  assert (Hc : classify (redact e) = classify e).
  { unfold classify. change (eventType (redact e)) with (eventType e).
    destruct (eventType e); try reflexivity.
    - unfold classifyDomMutation, redact. cbn.
      destruct (mutations (payload e)) as [[|m ms]|]; try reflexivity.
      cbn [option_map].
      destruct (mutations_redact (m :: ms)) as [-> ->]. reflexivity.
    - unfold classifyUserInteraction, redact. cbn.
      destruct (target (payload e)); reflexivity. }
  unfold encode, generateVector. rewrite Hc, Hf. reflexivity.
Qed.

Lemma scrub_mutations_redact (ms : list MutationSummary) :
  forall cs ms' cs',
    Pipeline.scrub_mutations toLowerCase ms cs = Some (ms', cs') ->
    map redact_mutation ms' = map redact_mutation ms.
Proof.
  induction ms as [|m ms IH]; intros cs ms' cs'; cbn [Pipeline.scrub_mutations].
  - intros [= <- _]. reflexivity.
  - destruct (Pipeline.scrub_field toLowerCase (oldValue m) cs) as [[old cs1]|];
      [|discriminate].
    destruct (Pipeline.scrub_field toLowerCase (newValue m) cs1) as [[new cs2]|];
      [|discriminate].
    destruct (Pipeline.scrub_mutations toLowerCase ms cs2) as [[rest cs3]|] eqn:E;
      [|discriminate].
    intros [= <- _]. cbn [map]. f_equal. eapply IH, E.
Qed.

Lemma redact_rebuilt (e : RawEvent) (ts : Z) (sid : string)
    (v msg : option Scrubber.text) (tg : option ElementFingerprint)
    (ms : option (list MutationSummary)) (u : option Scrubber.text) (ctx : string) :
  option_map redact_target tg = option_map redact_target (target (payload e)) ->
  option_map (map redact_mutation) ms
  = option_map (map redact_mutation) (mutations (payload e)) ->
  u = url (payload e) ->
  redact {| timestamp := ts; sessionId := sid; eventType := eventType e;
            payload := {| action := action (payload e); target := tg; value := v;
                          mutations := ms; url := u; method := method (payload e);
                          statusCode := statusCode (payload e); message := msg |};
            context_url := ctx |}
  = redact e.
Proof.
  intros H1 H2 ->. unfold redact.
  cbn [payload eventType action target value mutations url method statusCode message].
  rewrite H1, H2. reflexivity.
Qed.

(** Scrubbing changes texts only; a request URL without PII is kept. *)
Lemma scrubEvent_redact (e s : RawEvent) (cs cs' : Scrubber.counters) :
  Pipeline.scrubEvent toLowerCase parse_url e cs = Some (s, cs') ->
  url_clean e ->
  redact s = redact e.
Proof.
  unfold Pipeline.scrubEvent, url_clean. cbv zeta.
  destruct (target (payload e)) as [t|] eqn:Et;
    destruct (mutations (payload e)) as [ms|] eqn:Em;
    destruct (url (payload e)) as [[|c rest]|] eqn:Eu;
    intros H Hc; try rewrite Hc in H;
    repeat match type of H with
    | context [match ?x with _ => _ end] =>
      lazymatch x with
      | context [match _ with _ => _ end] => fail
      | _ => let E := fresh "E" in destruct x eqn:E; try discriminate H
      end
    end;
    injection H as <- _;
    (apply redact_rebuilt;
     [ rewrite Et; reflexivity
     | rewrite Em; cbn [option_map]; try reflexivity; f_equal;
       eapply scrub_mutations_redact; eassumption
     | rewrite Eu; reflexivity ]).
Qed.

(** The pipeline ends for an event whose request URL is clean as it does
    for the event without its texts. *)
Lemma process_redact (orgId deviceId userId : string) (now1 now2 : Z)
    (e : RawEvent) (s s0 : Pipeline.state) :
  url_clean e ->
  Pipeline.sequenceCounter s0 = Pipeline.sequenceCounter s ->
  exists r s' s0',
    Pipeline.process toLowerCase parse_url random localTZA
      orgId deviceId userId now1 now2 e s = Some (r, s') /\
    Pipeline.process toLowerCase parse_url random localTZA
      orgId deviceId userId now1 now2 (redact e) s0 = Some (r, s0').
Proof.
  intros Hu Hc.
  destruct (scrubEvent_returns toLowerCase parse_url e (Pipeline.entityCounters s))
    as (s1 & cs1 & H1 & _).
  destruct (scrubEvent_returns toLowerCase parse_url (redact e) (Pipeline.entityCounters s0))
    as (s2 & cs2 & H2 & _).
  pose proof (scrubEvent_redact _ _ _ _ H1 Hu) as R1.
  pose proof (scrubEvent_redact _ _ _ _ H2 (proj2 (url_clean_redact e) Hu)) as R2.
  rewrite redact_twice in R2.
  assert (He : encode s2 = encode s1).
  { rewrite <- (encode_redact s2), <- (encode_redact s1), R1, R2. reflexivity. }
  unfold Pipeline.process. rewrite H1, H2, He, Hc. cbv zeta.
  destruct (Pipeline.anonymizeTimestamp random localTZA 256 now1) as [bucket|];
    [|eexists _, _, _; split; reflexivity].
  destruct (Hmac.generateSessionFingerprint deviceId userId now2) as [fingerprint|];
    [|eexists _, _, _; split; reflexivity].
  change (target (payload (redact e)))
    with (option_map redact_target (target (payload e))).
  change (eventType (redact e)) with (eventType e).
  destruct (target (payload e)) as [t|];
    cbn [option_map redact_target domPath tagName aria_role];
    eexists _, _, _; split; reflexivity.
Qed.

Lemma perturb_from_quantized (sigma : R) (v : list R) :
  forall n,
    Forall (fun x => x = Pipeline.NotFinite \/
                     exists k : Z, x = Pipeline.Finite (IZR k / 10000))
      (Pipeline.perturb_from random n sigma v).
Proof.
  induction v as [|x v IH]; intros n; cbn [Pipeline.perturb_from]; constructor.
  - destruct (Pipeline.gaussianNoise random n 0 sigma); [|left; reflexivity].
    right. unfold js_round. eexists. reflexivity.
  - apply IH.
Qed.

(** The local time of the hour at the bucket's minutes is the start of
    the five minutes the local time lies in. *)
Lemma bucket_start (local : Z) :
  (local - local mod 3600000 + (local / 60000) mod 60 / 5 * 5 * 60000
   = local - local mod 300000)%Z.
Proof.
  pose proof (Z.div_mod local 3600000 ltac:(lia)) as Hq.
  pose proof (Z.mod_pos_bound local 3600000 ltac:(lia)) as Hm.
  set (q := (local / 3600000)%Z) in *. set (m := (local mod 3600000)%Z) in *.
  pose proof (Z.div_mod m 300000 ltac:(lia)) as Ha.
  pose proof (Z.mod_pos_bound m 300000 ltac:(lia)) as Hr.
  set (a := (m / 300000)%Z) in *. set (r := (m mod 300000)%Z) in *.
  pose proof (Z.div_mod r 60000 ltac:(lia)) as Hb.
  pose proof (Z.mod_pos_bound r 60000 ltac:(lia)) as Hc.
  set (b := (r / 60000)%Z) in *. set (c := (r mod 60000)%Z) in *.
  assert (H60 : (local / 60000 = 60 * q + 5 * a + b)%Z).
  { symmetry. apply (Zdiv_unique local 60000 _ c); lia. }
  assert (Hmin : ((60 * q + 5 * a + b) mod 60 = 5 * a + b)%Z).
  { symmetry. apply (Zmod_unique _ 60 q); lia. }
  assert (H5 : ((5 * a + b) / 5 = a)%Z).
  { symmetry. apply (Zdiv_unique _ 5 _ b); lia. }
  assert (H300 : (local mod 300000 = r)%Z).
  { symmetry. apply (Zmod_unique local 300000 (12 * q + a)); lia. }
  rewrite H60, Hmin, H5, H300. lia.
Qed.

(** A timestamp that [anonymizeTimestamp] returns is a valid time value
    whose local time is on a 5-minute boundary. *)
Lemma anonymizeTimestamp_boundary (n : nat) (timestamp bucket : Z) :
  Pipeline.anonymizeTimestamp random localTZA n timestamp = Some bucket ->
  exists local,
    (local mod 300000 = 0)%Z /\
    bucket = (local - localTZA local false)%Z /\
    (Z.abs bucket <= 8640000000000000)%Z.
Proof.
  unfold Pipeline.anonymizeTimestamp, Pipeline.setMinutes.
  destruct (Pipeline.laplacianNoise random n (30 * 1000)) as [noise|]; [|discriminate].
  destruct (Pipeline.time_clip (IZR timestamp + noise)) as [date|]; [|discriminate].
  cbv zeta. rewrite bucket_start.
  set (local := (date + localTZA date true)%Z).
  destruct (Z.leb_spec (Z.abs (local - local mod 300000
                               - localTZA (local - local mod 300000) false))
              8640000000000000) as [Hle|]; [|discriminate].
  intros [= <-]. exists (local - local mod 300000)%Z.
  split; [|split; [reflexivity | exact Hle]].
  pose proof (Z.div_mod local 300000 ltac:(lia)) as Hd.
  replace (local - local mod 300000)%Z with (300000 * (local / 300000))%Z by lia.
  rewrite Z.mul_comm. apply Z.mod_mul. lia.
Qed.

Lemma confidence_hundredths (e : RawEvent) :
  exists k : Z,
    (10 <= k <= 95)%Z /\ snd (classify e) = IZR k / 100.
Proof.
  pose proof (classify_values e) as H. cbn [In] in H.
  repeat destruct H as [<-|H]; try contradiction; cbn [snd];
    first
      [ exists 85%Z; split; [lia | lra] | exists 90%Z; split; [lia | lra]
      | exists 95%Z; split; [lia | lra] | exists 80%Z; split; [lia | lra]
      | exists 70%Z; split; [lia | lra] | exists 75%Z; split; [lia | lra]
      | exists 20%Z; split; [lia | lra] | exists 50%Z; split; [lia | lra]
      | exists 40%Z; split; [lia | lra] | exists 10%Z; split; [lia | lra]
      | exists 60%Z; split; [lia | lra] ].
Qed.

Lemma laplacian_magnitude (n : nat) (scale : R) :
  0 < scale -> 0 < random n < 1 ->
  exists noise,
    Pipeline.laplacianNoise random n scale = Pipeline.Finite noise /\
    Rabs noise = scale * - ln (1 - 2 * Rabs (random n - 0.5)) /\
    (0 <= noise <-> 0.5 <= random n) /\
    (Rabs noise <= scale <-> Rabs (random n - 0.5) <= (1 - exp (- 1)) / 2).
Proof.
  intros Hs Hu. unfold Pipeline.laplacianNoise, Pipeline.sign. cbv zeta.
  set (u := random n - 0.5) in *.
  set (w := 1 - 2 * Rabs u).
  assert (Hw : 0 < w <= 1).
  { unfold w, Rabs. destruct (Rcase_abs u); unfold u in *; lra. }
  destruct (Rlt_dec 0 w) as [_|Hn]; [|exfalso; lra].
  eexists. split; [reflexivity|].
  assert (Hln : ln w <= 0).
  { destruct (Req_dec w 1) as [->|Hne]; [rewrite ln_1; lra|].
    rewrite <- ln_1. left. apply ln_increasing; lra. }
  assert (Hmag : forall x, x = - scale * ln w \/ x = scale * ln w ->
                 Rabs x = scale * - ln w).
  { intros x [->| ->].
    - rewrite Rabs_right; [lra|]. nra.
    - rewrite Rabs_left1; [lra|]. nra. }
  assert (Hzero : u = 0 -> ln w = 0).
  { intros E. unfold w. rewrite E, Rabs_R0.
    replace (1 - 2 * 0) with 1 by lra. apply ln_1. }
  assert (Hstrict : u <> 0 -> ln w < 0).
  { intros E. rewrite <- ln_1. apply ln_increasing; [lra|].
    unfold w, Rabs. destruct (Rcase_abs u); lra. }
  split; [|split].
  - destruct (Rlt_dec 0 u); [|destruct (Rlt_dec u 0)].
    + apply Hmag. left. ring.
    + apply Hmag. right. ring.
    + rewrite Hzero by lra. rewrite !Rmult_0_r, Rabs_R0. ring.
  - destruct (Rlt_dec 0 u) as [Hp|Hp]; [|destruct (Rlt_dec u 0) as [Hm|Hm]].
    + split; intros _; [unfold u in *; lra | nra].
    + pose proof (Hstrict ltac:(lra)). split; intros H'; [nra | unfold u in *; lra].
    + split; intros _; [unfold u in *; lra|]. rewrite Hzero by lra. lra.
  - assert (Hiff : scale * - ln w <= scale <-> exp (- 1) <= w).
    { split; intros H'.
      - destruct (Rle_or_lt (exp (- 1)) w) as [|Hlt]; [assumption|].
        apply ln_increasing in Hlt; [|lra]. rewrite ln_exp in Hlt. nra.
      - destruct H' as [Hlt|Heq].
        + apply ln_increasing in Hlt; [|apply exp_pos]. rewrite ln_exp in Hlt. nra.
        + rewrite <- Heq, ln_exp. lra. }
    assert (Hw' : exp (- 1) <= w <-> Rabs u <= (1 - exp (- 1)) / 2)
      by (unfold w; split; intros; lra).
    rewrite <- Hw', <- Hiff.
    destruct (Rlt_dec 0 u); [|destruct (Rlt_dec u 0)].
    + rewrite Hmag; [reflexivity | left; ring].
    + rewrite Hmag; [reflexivity | right; ring].
    + rewrite Hzero by lra. rewrite !Rmult_0_r, Rabs_R0.
      replace (- 0) with 0 by ring. rewrite Rmult_0_r. split; intros; lra.
Qed.

End RedactFacts.

(** X17: what the pipeline ends with does not depend on any text of the
    raw event.  Two events that differ only in their texts (the value
    typed, the error message, the text previews, the old and new values of
    mutations), in their timestamp, session id or page URL, and whose
    request URL holds no PII, end alike, whatever the scrubber's counters
    are: with the same Secure Event or, when the noisy timestamp is no
    valid date or deviceId is empty, with the same error; they are given a
    Secure Event exactly when neither is the case. *)
Theorem secure_event_ignores_text
    (toLowerCase : Scrubber.text -> Scrubber.text)
    (parse_url : string -> option (string * string))
    (random : nat -> R) (localTZA : Z -> bool -> Z)
    (orgId deviceId userId : string) (now1 now2 : Z)
    (e1 e2 : Encoder.RawEvent) (s1 s2 : Pipeline.state) :
  redact e1 = redact e2 ->
  url_clean e1 ->
  Pipeline.sequenceCounter s1 = Pipeline.sequenceCounter s2 ->
  exists r s1' s2',
    Pipeline.process toLowerCase parse_url random localTZA
      orgId deviceId userId now1 now2 e1 s1 = Some (r, s1') /\
    Pipeline.process toLowerCase parse_url random localTZA
      orgId deviceId userId now1 now2 e2 s2 = Some (r, s2') /\
    ((exists se, r = Pipeline.Secure se)
     <-> Pipeline.anonymizeTimestamp random localTZA 256 now1 <> None /\
         deviceId <> "").
Proof.
  intros Hr Hu Hc.
  assert (Hu2 : url_clean e2).
  { apply (proj1 (url_clean_redact e2)). rewrite <- Hr.
    apply (proj2 (url_clean_redact e1)), Hu. }
  destruct (process_redact toLowerCase parse_url random localTZA
              orgId deviceId userId now1 now2
              e1 s1 s1 Hu eq_refl) as (r & s1' & s0' & P1 & Q1).
  destruct (process_redact toLowerCase parse_url random localTZA
              orgId deviceId userId now1 now2
              e2 s2 s1 Hu2 Hc) as (r' & s2' & s0'' & P2 & Q2).
  rewrite Hr in Q1. rewrite Q1 in Q2. injection Q2 as <- _.
  exists r, s1', s2'. split; [exact P1|]. split; [exact P2|].
  revert P1. unfold Pipeline.process, Hmac.generateSessionFingerprint.
  destruct (Pipeline.scrubEvent _ _ _ _) as [[sc cs]|]; [|discriminate].
  cbv zeta.
  destruct (Pipeline.anonymizeTimestamp random localTZA 256 now1) as [bucket|].
  - destruct (String.eqb_spec deviceId "") as [Hd|Hd]; intros [= <- _].
    + split; [intros (se & E); discriminate E | intros [_ H]; contradiction].
    + split; [intros _; split; [discriminate | exact Hd] | intros _; eexists; reflexivity].
  - intros [= <- _].
    split; [intros (se & E); discriminate E | intros [H _]; contradiction].
Qed.

Lemma secure_event_ignores_text_witness :
  exists r s1' s2',
    Pipeline.process ascii_lower url_stub noisy_random utc "o1" "dev-1" "user-1" 0 0
      (typed "hunter2") fresh_pipeline = Some (r, s1') /\
    Pipeline.process ascii_lower url_stub noisy_random utc "o1" "dev-1" "user-1" 0 0
      (typed "ann@example.com 123-45-6789") fresh_pipeline = Some (r, s2') /\
    exists se, r = Pipeline.Secure se.
Proof.
  destruct (secure_event_ignores_text ascii_lower url_stub noisy_random utc
              "o1" "dev-1" "user-1" 0 0 (typed "hunter2")
              (typed "ann@example.com 123-45-6789") fresh_pipeline fresh_pipeline)
    as (r & s1' & s2' & P1 & P2 & Hs).
  - reflexivity.
  - exact I.
  - reflexivity.
  - exists r, s1', s2'. split; [exact P1|]. split; [exact P2|].
    apply Hs. split; [rewrite noisy_timestamp; discriminate | discriminate].
Defined.

(** X18: the pipeline ends for every raw event (no text makes the scrubber
    fail), in one of three ways.  It throws a RangeError when the noisy
    timestamp is no valid date, and a DataError when deviceId is empty;
    both leave the sequence counter as it was.  Otherwise it returns a
    Secure Event with the next sequence number, which carries the
    organisation and the event type, a vector of 128 coordinates, each a
    number with 4 decimals or, when the first draw of its noise is not in
    (0, 1], not finite, a confidence with 2 decimals between 0.10 and 0.95,
    a timestamp whose local time is on a 5-minute boundary, a session
    fingerprint of 64 and a structural hash of 8 lower-case hexadecimal
    digits, and an element signature exactly when the raw event has a
    target. *)
Theorem process_always_returns
    (toLowerCase : Scrubber.text -> Scrubber.text)
    (parse_url : string -> option (string * string))
    (random : nat -> R) (localTZA : Z -> bool -> Z)
    (orgId deviceId userId : string) (now1 now2 : Z)
    (e : Encoder.RawEvent) (s : Pipeline.state) :
  exists r s',
    Pipeline.process toLowerCase parse_url random localTZA
      orgId deviceId userId now1 now2 e s = Some (r, s') /\
    (r = Pipeline.Thrown Pipeline.RangeError
     <-> Pipeline.anonymizeTimestamp random localTZA 256 now1 = None) /\
    (r = Pipeline.Thrown Pipeline.DataError
     <-> Pipeline.anonymizeTimestamp random localTZA 256 now1 <> None /\
         deviceId = "") /\
    match r with
    | Pipeline.Thrown _ =>
      Pipeline.sequenceCounter s' = Pipeline.sequenceCounter s
    | Pipeline.Secure se =>
      Pipeline.sequenceNumber se = (Pipeline.sequenceCounter s + 1)%Z /\
      Pipeline.sequenceCounter s' = (Pipeline.sequenceCounter s + 1)%Z /\
      Pipeline.orgId se = orgId /\
      Pipeline.eventType se = Encoder.eventType e /\
      length (Pipeline.intentVector se) = 128 /\
      Forall (fun x => x = Pipeline.NotFinite \/
                       exists k : Z, x = Pipeline.Finite (IZR k / 10000)%R)
        (Pipeline.intentVector se) /\
      (forall i : nat, (i < 128)%nat ->
         (Pipeline.intentVector se !! i = Some Pipeline.NotFinite
          <-> ~ (0 < random (2 * i)%nat <= 1)%R)) /\
      (exists k : Z,
         (10 <= k <= 95)%Z /\ Pipeline.intentConfidence se = (IZR k / 100)%R) /\
      (exists local : Z,
         (local mod 300000 = 0)%Z /\
         Pipeline.timestampBucket se = (local - localTZA local false)%Z) /\
      String.length (Pipeline.sessionFingerprint se) = 64 /\
      String.length (Pipeline.structuralHash se) = 8 /\
      forallb Hmac.is_lower_hex
        (list_ascii_of_string (Pipeline.structuralHash se)) = true /\
      (Pipeline.elementSignature se = None
       <-> Encoder.target (Encoder.payload e) = None)
    end.
Proof.
  destruct (scrubEvent_returns toLowerCase parse_url e (Pipeline.entityCounters s))
    as (s1 & cs1 & H1 & _).
  unfold Pipeline.process. rewrite H1. cbv zeta.
  destruct (Pipeline.anonymizeTimestamp random localTZA 256 now1) as [bucket|] eqn:Eb.
  2: { eexists _, _. split; [reflexivity|]. split; [split; reflexivity|].
       split; [|reflexivity]. split; [discriminate | intros [H _]; contradiction]. }
  unfold Hmac.generateSessionFingerprint.
  destruct (String.eqb_spec deviceId "") as [Hd|Hd].
  { eexists _, _. split; [reflexivity|]. split; [split; discriminate|].
    split; [|reflexivity]. split; [intros _; split; [discriminate | exact Hd] | reflexivity]. }
  eexists _, _. split; [reflexivity|]. split; [split; discriminate|].
  split; [split; [discriminate | intros [_ H]; contradiction]|].
  cbn [Pipeline.sequenceNumber Pipeline.sequenceCounter Pipeline.orgId
       Pipeline.eventType Pipeline.intentVector Pipeline.intentConfidence
       Pipeline.timestampBucket Pipeline.sessionFingerprint Pipeline.structuralHash
       Pipeline.elementSignature].
  split; [reflexivity|]. split; [reflexivity|]. split; [reflexivity|].
  split; [reflexivity|].
  assert (Hlen : length (Encoder.vector (Encoder.encode s1)) = 128)
    by apply generateVector_unit.
  split.
  { rewrite perturbVector_length. exact Hlen. }
  split.
  { unfold Pipeline.perturbVector.
    destruct (Req_dec_T 1 0) as [H|_]; [exfalso; lra | apply perturb_from_quantized]. }
  split.
  { intros i Hi.
    destruct (perturbVector_coordinate random (Encoder.vector (Encoder.encode s1)) i)
      as (Hfin & Hnot); [rewrite Hlen; exact Hi|].
    split; [|exact Hnot].
    intros E Hdraw. destruct (Hfin Hdraw) as (k & Hk). congruence. }
  split.
  { destruct (confidence_hundredths s1) as (k & Hk & Hc). exists k.
    split; [exact Hk|]. unfold Encoder.encode. cbn [Encoder.confidence].
    rewrite Hc. apply round_confidence. }
  split.
  { destruct (anonymizeTimestamp_boundary random localTZA 256 now1 bucket Eb)
      as (local & Hl & Hb & _).
    exists local. split; assumption. }
  split.
  { rewrite hex_length, hmac_sha256_length. reflexivity. }
  split.
  { unfold Pipeline.generateStructuralHash, Pipeline.hex8.
    rewrite hex_length. reflexivity. }
  split; [apply hex_lower|].
  destruct (Encoder.target (Encoder.payload e)); split; intros; congruence.
Qed.

(** X19: the Laplacian noise for a draw u strictly between 0 and 1 is
    finite, has the magnitude -scale * ln(1 - 2|u - 1/2|) and the sign of
    u - 1/2; it stays within the scale (the 30 seconds of the timestamp
    noise) exactly when the draw is within (1 - 1/e)/2 of one half, and
    exceeds it for the other draws. *)
Theorem laplacian_noise_within_scale
    (random : nat -> R) (n : nat) (scale : R) :
  (0 < scale)%R -> (0 < random n < 1)%R ->
  exists noise,
    Pipeline.laplacianNoise random n scale = Pipeline.Finite noise /\
    Rabs noise = (scale * - ln (1 - 2 * Rabs (random n - 0.5)))%R /\
    ((0 <= noise)%R <-> (0.5 <= random n)%R) /\
    ((Rabs noise <= scale)%R
     <-> (Rabs (random n - 0.5) <= (1 - exp (- 1)) / 2)%R).
Proof. apply laplacian_magnitude. Qed.

Lemma laplacian_noise_within_scale_witness :
  exists noise,
    Pipeline.laplacianNoise noisy_random 256 30000 = Pipeline.Finite noise /\
    (Rabs noise <= 30000)%R.
Proof.
  assert (Hs : (0 < 30000)%R) by lra.
  assert (Hu : (0 < noisy_random 256 < 1)%R) by (unfold noisy_random; cbn; lra).
  destruct (laplacian_noise_within_scale noisy_random 256 30000 Hs Hu)
    as (noise & Hn & _ & _ & Hw).
  exists noise. split; [exact Hn|]. apply Hw.
  unfold noisy_random. cbn [Nat.even].
  replace (1 / 2 - 0.5)%R with 0%R by lra. rewrite Rabs_R0.
  pose proof (exp_pos (- 1)) as Hp.
  assert (Hlt : (exp (- 1) < 1)%R).
  { rewrite <- exp_0. apply exp_increasing. lra. }
  lra.
Defined.

(** X20: the timestamp that leaves the device is the start of the 5-minute
    bucket, in local time, of the noisy instant.  When the draw is within
    (1 - 1/e)/2 of one half, so that the noise is within 30 seconds, the
    real time is a time a clock can read, and the offset of the local time
    zone does not change from 5 minutes 30 seconds before the real time to
    30 seconds after it, a timestamp is returned; its local time is on a
    5-minute boundary, and it is at most 30 seconds after the real time
    and less than 5 minutes 30 seconds before it. *)
Theorem timestamp_bucket_near_real_time
    (random : nat -> R) (localTZA : Z -> bool -> Z) (n : nat)
    (timestamp offset : Z) :
  (0 < random n < 1)%R ->
  (Rabs (random n - 0.5) <= (1 - exp (- 1)) / 2)%R ->
  (30000 <= timestamp <= 8640000000000000 - 30000)%Z ->
  (forall t, (timestamp - 330000 <= t <= timestamp + 30000)%Z ->
             localTZA t true = offset) ->
  (forall t, (timestamp - 330000 <= t - offset <= timestamp + 30000)%Z ->
             localTZA t false = offset) ->
  exists bucket,
    Pipeline.anonymizeTimestamp random localTZA n timestamp = Some bucket /\
    ((bucket + offset) mod 300000 = 0)%Z /\
    (timestamp - 330000 < bucket <= timestamp + 30000)%Z.
Proof.
  intros Hu Hnear Ht Hutc Hlocal.
  unfold Pipeline.anonymizeTimestamp, Pipeline.setMinutes.
  assert (Hs : (0 < 30 * 1000)%R) by lra.
  destruct (laplacian_magnitude random n (30 * 1000) Hs Hu)
    as (noise & -> & _ & _ & Hb).
  apply Hb in Hnear. apply Rabs_bound in Hnear.
  set (x := (IZR timestamp + noise)%R).
  assert (Hx : (0 <= x <= 8640000000000000)%R).
  { unfold x. destruct Ht as [Ht1 Ht2]. apply IZR_le in Ht1, Ht2.
    rewrite minus_IZR in Ht2. lra. }
  unfold Pipeline.time_clip.
  rewrite Rabs_right by lra.
  destruct (Rle_dec x 8640000000000000) as [_|H]; [|exfalso; lra].
  destruct (Rle_dec 0 x) as [_|H]; [|exfalso; lra].
  set (c := (up x - 1)%Z).
  assert (Hclip : (IZR c <= x < IZR c + 1)%R).
  { unfold c. pose proof (archimed x) as [H1 H2]. rewrite minus_IZR. lra. }
  assert (Hc : (timestamp - 30000 <= c <= timestamp + 30000)%Z).
  { split.
    - assert (H : (IZR (timestamp - 30001) < IZR c)%R).
      { rewrite minus_IZR. unfold x in Hclip. lra. }
      apply lt_IZR in H. lia.
    - assert (H : (IZR c < IZR (timestamp + 30001))%R).
      { rewrite plus_IZR. unfold x in Hclip. lra. }
      apply lt_IZR in H. lia. }
  cbv zeta. rewrite bucket_start.
  rewrite (Hutc c) by lia.
  pose proof (Z.mod_pos_bound (c + offset) 300000 ltac:(lia)) as Hm.
  rewrite (Hlocal (c + offset - (c + offset) mod 300000)%Z) by lia.
  destruct (Z.leb_spec (Z.abs (c + offset - (c + offset) mod 300000 - offset))
              8640000000000000) as [_|H]; [|lia].
  eexists. split; [reflexivity|]. split; [|lia].
  pose proof (Z.div_mod (c + offset) 300000 ltac:(lia)) as Hd.
  replace (c + offset - (c + offset) mod 300000 - offset + offset)%Z
    with (300000 * ((c + offset) / 300000))%Z by lia.
  rewrite Z.mul_comm. apply Z.mod_mul. lia.
Qed.

Lemma timestamp_bucket_near_real_time_witness :
  exists bucket,
    Pipeline.anonymizeTimestamp noisy_random utc 256 1700000123456 = Some bucket /\
    (bucket mod 300000 = 0)%Z.
Proof.
  destruct (timestamp_bucket_near_real_time noisy_random utc 256 1700000123456 0)
    as (bucket & Hb & Hm & _).
  - unfold noisy_random. cbn [Nat.even]. lra.
  - unfold noisy_random. cbn [Nat.even].
    replace (1 / 2 - 0.5)%R with 0%R by lra. rewrite Rabs_R0.
    assert (Hlt : (exp (- 1) < 1)%R).
    { rewrite <- exp_0. apply exp_increasing. lra. }
    lra.
  - lia.
  - reflexivity.
  - reflexivity.
  - exists bucket. split; [exact Hb|]. rewrite Z.add_0_r in Hm. exact Hm.
Defined.

(** ** pattern-detector: windows, clusters, what a request can do *)

Section WindowFacts.
Import Tic.

Lemma length_insert_by {A} (cmp : A -> A -> Z) (x : A) (l : list A) :
  length (Scrubber.insert_by cmp x l) = S (length l).
Proof.
  induction l as [|y l IH]; [reflexivity|]. cbn.
  destruct (cmp x y <=? 0)%Z; cbn; [reflexivity | rewrite IH; reflexivity].
Qed.

Lemma length_sort_by {A} (cmp : A -> A -> Z) (l : list A) :
  length (Scrubber.sort_by cmp l) = length l.
Proof.
  induction l as [|x l IH]; [reflexivity|].
  change (Scrubber.sort_by cmp (x :: l))
    with (Scrubber.insert_by cmp x (Scrubber.sort_by cmp l)).
  rewrite length_insert_by, IH. reflexivity.
Qed.

Lemma insert_in_sequence (x : SecureEvent) (l : list SecureEvent) :
  StronglySorted in_sequence l ->
  StronglySorted in_sequence (Scrubber.insert_by by_sequenceNumber x l).
Proof.
  induction 1 as [|y l Hs IH Hy]; cbn; [repeat constructor|].
  unfold by_sequenceNumber at 1.
  destruct (sequenceNumber x - sequenceNumber y <=? 0)%Z eqn:E.
  - apply Z.leb_le in E. constructor; [constructor; assumption|].
    constructor; [unfold in_sequence; lia|].
    eapply Forall_impl; [exact Hy|]. unfold in_sequence. cbn. intros; lia.
  - apply Z.leb_gt in E. constructor; [exact IH|].
    apply List.Forall_forall. intros z Hz.
    apply insert_by_In in Hz as [->|Hz]; [unfold in_sequence; lia|].
    rewrite List.Forall_forall in Hy. apply Hy, Hz.
Qed.

Lemma sort_in_sequence (l : list SecureEvent) :
  StronglySorted in_sequence (Scrubber.sort_by by_sequenceNumber l).
Proof.
  induction l as [|x l IH]; [constructor|].
  change (Scrubber.sort_by by_sequenceNumber (x :: l))
    with (Scrubber.insert_by by_sequenceNumber x (Scrubber.sort_by by_sequenceNumber l)).
  apply insert_in_sequence, IH.
Qed.

Lemma StronglySorted_skipn {A} (R : A -> A -> Prop) (l : list A) :
  forall n, StronglySorted R l -> StronglySorted R (skipn n l).
Proof.
  induction l as [|x l IH]; intros [|n] H; cbn; try assumption.
  apply IH. inversion H; assumption.
Qed.

Lemma StronglySorted_firstn {A} (R : A -> A -> Prop) (l : list A) :
  forall n, StronglySorted R l -> StronglySorted R (firstn n l).
Proof.
  induction l as [|x l IH]; intros [|n] H; cbn; try constructor.
  - apply IH. inversion H; assumption.
  - inversion H as [|? ? _ Hx]; subst.
    apply List.Forall_forall. intros y Hy.
    rewrite List.Forall_forall in Hx. apply Hx.
    rewrite <- (firstn_skipn n l). apply in_or_app. left. exact Hy.
Qed.

Lemma Forall_slice {A} (P : A -> Prop) (i j : nat) (l : list A) :
  Forall P l -> Forall P (slice i j l).
Proof.
  intros H. apply List.Forall_forall. intros x Hx.
  rewrite List.Forall_forall in H. apply H. unfold slice in Hx.
  assert (Hs : In x (skipn i l)).
  { rewrite <- (firstn_skipn (j - i) (skipn i l)). apply in_or_app. left. exact Hx. }
  rewrite <- (firstn_skipn i l). apply in_or_app. right. exact Hs.
Qed.

Lemma push_session_sessions (all : list SecureEvent) (e : SecureEvent)
    (sessions : list (string * list SecureEvent)) :
  In e all ->
  Forall (fun s => Forall (fun x => sessionFingerprint x = fst s /\ In x all) (snd s))
    sessions ->
  Forall (fun s => Forall (fun x => sessionFingerprint x = fst s /\ In x all) (snd s))
    (push_session (sessionFingerprint e) e sessions).
Proof.
  intros He. induction 1 as [|[k es] rest Hk Hrest IH]; cbn [push_session].
  - repeat constructor. exact He.
  - destruct (String.eqb_spec k (sessionFingerprint e)) as [->|Hne].
    + constructor; [|exact Hrest]. cbn [fst snd] in *.
      apply Forall_app. split; [exact Hk|]. repeat constructor. exact He.
    + constructor; [exact Hk | exact IH].
Qed.

Lemma group_sessions_sessions (evs : list SecureEvent) :
  Forall (fun s => Forall (fun x => sessionFingerprint x = fst s /\ In x evs) (snd s))
    (group_sessions evs).
Proof.
  unfold group_sessions.
  assert (H : forall l acc,
    incl l evs ->
    Forall (fun s => Forall (fun x => sessionFingerprint x = fst s /\ In x evs) (snd s)) acc ->
    Forall (fun s => Forall (fun x => sessionFingerprint x = fst s /\ In x evs) (snd s))
      (fold_left (fun sessions e => push_session (sessionFingerprint e) e sessions) l acc)).
  { induction l as [|e l IH]; intros acc Hincl Hacc; [exact Hacc|].
    cbn [fold_left]. apply IH.
    - intros x Hx. apply Hincl. right. exact Hx.
    - apply push_session_sessions; [apply Hincl; left; reflexivity | exact Hacc]. }
  apply H; [apply incl_refl | constructor].
Qed.

Lemma sequence_of_window (evs : list SecureEvent) (w : nat) (fp : string)
    (window : list SecureEvent) :
  length window <= w ->
  Forall (fun e => sessionFingerprint e = fp /\ In e evs) window ->
  StronglySorted in_sequence window ->
  Forall (window_of evs w) (sequence_of window).
Proof.
  intros Hw Hall Hs. unfold sequence_of.
  destruct window as [|first rest]; [constructor|].
  destruct (length (first :: rest) <? 3)%nat eqn:E; [constructor|].
  apply Nat.ltb_ge in E. constructor; [|constructor].
  unfold window_of. cbn [events timestamp embedding].
  split; [split; [exact E | exact Hw]|].
  split; [exists fp; exact Hall|].
  split; [exact Hs|].
  split; [exists first; split; reflexivity | reflexivity].
Qed.

Lemma length_window (w i : nat) (sorted : list SecureEvent) :
  length (slice i (Nat.min (i + w) (length sorted)) sorted)
  = Nat.min w (length sorted - i).
Proof. unfold slice. rewrite length_firstn, length_skipn. lia. Qed.

Lemma session_windows (evs : list SecureEvent) (w : nat) (fp : string)
    (es : list SecureEvent) :
  Forall (fun e => sessionFingerprint e = fp /\ In e evs) es ->
  Forall (window_of evs w) (session_sequences w es).
Proof.
  intros Hes. unfold session_sequences. cbv zeta.
  set (sorted := Scrubber.sort_by by_sequenceNumber es).
  assert (Hsorted : Forall (fun e => sessionFingerprint e = fp /\ In e evs) sorted).
  { apply List.Forall_forall. intros x Hx. apply sort_by_In in Hx.
    rewrite List.Forall_forall in Hes. apply Hes, Hx. }
  apply List.Forall_forall. intros sq Hsq. apply in_flat_map in Hsq as (i & _ & Hsq).
  revert sq Hsq. apply List.Forall_forall.
  apply (sequence_of_window evs w fp).
  - rewrite length_window. lia.
  - apply Forall_slice, Hsorted.
  - unfold slice. apply StronglySorted_firstn, StronglySorted_skipn, sort_in_sequence.
Qed.

Lemma length_sequence_of (window : list SecureEvent) :
  length (sequence_of window) = if (length window <? 3)%nat then 0 else 1.
Proof.
  unfold sequence_of. destruct window as [|first rest]; [reflexivity|].
  destruct (length (first :: rest) <? 3)%nat; reflexivity.
Qed.

Lemma count_windows (w n from k : nat) (sorted : list SecureEvent) :
  3 <= w -> length sorted = n ->
  (forall i, from <= i < from + k -> 3 <= n - i) ->
  length (flat_map
            (fun i => sequence_of (slice i (Nat.min (i + w) (length sorted)) sorted))
            (seq from k)) = k.
Proof.
  intros Hw Hn. subst n. revert from.
  induction k as [|k IH]; intros from Hi; [reflexivity|].
  cbn [seq flat_map]. rewrite length_app, length_sequence_of, length_window.
  specialize (Hi from ltac:(lia)) as H0.
  destruct (Nat.ltb_spec (Nat.min w (length sorted - from)) 3); [lia|].
  rewrite IH; [reflexivity|]. intros i Hi'. apply Hi. lia.
Qed.

Lemma length_session_sequences (w : nat) (es : list SecureEvent) :
  3 <= w -> length (session_sequences w es) = length es - 2.
Proof.
  intros Hw. unfold session_sequences. cbv zeta.
  set (sorted := Scrubber.sort_by by_sequenceNumber es).
  assert (Hn : length sorted = length es) by apply length_sort_by.
  rewrite <- Hn. clearbody sorted. clear Hn.
  destruct (Nat.le_gt_cases 3 (length sorted)) as [H3|H3].
  - replace (S (Nat.max 0 (length sorted - 3))) with (length sorted - 2) by lia.
    apply (count_windows w (length sorted)); [exact Hw | reflexivity |].
    intros i Hi. lia.
  - replace (Nat.max 0 (length sorted - 3)) with 0 by lia.
    cbn [seq flat_map]. rewrite app_nil_r, length_sequence_of, length_window.
    destruct (Nat.ltb_spec (Nat.min w (length sorted - 0)) 3); lia.
Qed.

End WindowFacts.

Lemma extractSequences_windows (evs : list Tic.SecureEvent) :
  Forall (window_of evs Tic.WINDOW_SIZE) (Tic.extractSequences evs Tic.WINDOW_SIZE) /\
  length (Tic.extractSequences evs Tic.WINDOW_SIZE)
  = list_sum (map (fun session => length (snd session) - 2) (Tic.group_sessions evs)) /\
  Forall (fun session =>
            Forall (fun e => Tic.sessionFingerprint e = fst session /\ In e evs)
              (snd session))
    (Tic.group_sessions evs).
Proof.
  pose proof (group_sessions_sessions evs) as Hg.
  split; [|split; [|exact Hg]].
  - unfold Tic.extractSequences. apply List.Forall_forall. intros sq Hsq.
    apply in_flat_map in Hsq as ([k es] & Hin & Hsq).
    rewrite List.Forall_forall in Hg. specialize (Hg _ Hin). cbn [fst snd] in *.
    pose proof (session_windows evs Tic.WINDOW_SIZE k es Hg) as Hw.
    rewrite List.Forall_forall in Hw. apply Hw, Hsq.
  - unfold Tic.extractSequences. rewrite length_flat_map. f_equal.
    apply map_ext. intros [k es]. cbn [snd].
    apply length_session_sequences. unfold Tic.WINDOW_SIZE. lia.
Qed.

(** X21: every sequence that extractSequences hands to the clustering is a
    window of one session: between 3 and 50 events of the request's events,
    all of the same session fingerprint, in the order of their sequence
    numbers, stamped with the time bucket of its first event and embedded
    as the average of its non-empty intent vectors.  A session of n events
    gives n - 2 windows, and none when it has fewer than 3 events; the
    sessions group the request's events by fingerprint. *)
Theorem sequences_are_session_windows (evs : list Tic.SecureEvent) :
  Forall (window_of evs Tic.WINDOW_SIZE) (Tic.extractSequences evs Tic.WINDOW_SIZE) /\
  length (Tic.extractSequences evs Tic.WINDOW_SIZE)
  = list_sum (map (fun session => length (snd session) - 2) (Tic.group_sessions evs)) /\
  Forall (fun session =>
            Forall (fun e => Tic.sessionFingerprint e = fst session /\ In e evs)
              (snd session))
    (Tic.group_sessions evs).
Proof. exact (extractSequences_windows evs). Qed.

Section ClusterFacts.
Import Tic.

Variable getTime : string -> float.
Variable sequences : list EventSequence.

Lemma absorb_absorbing (i : nat) (si : EventSequence) (taken : list nat)
    (st : Cluster * gset nat) (j : nat) :
  absorbing getTime sequences i si taken st ->
  absorbing getTime sequences i si taken (absorb getTime sequences si st j).
Proof.
  intros Hst. destruct st as [cluster assigned]. unfold absorb.
  destruct (bool_decide (j ∈ assigned)) eqn:Ej; [exact Hst|].
  apply bool_decide_eq_false in Ej.
  destruct (sequences !! j) as [sj|] eqn:Esj; [|exact Hst].
  destruct (near getTime si sj) eqn:En; [|exact Hst].
  destruct Hst as (rest & g & Hm & Hnear & Hl & Hidx & Hnd & Hiff & Hlt).
  cbn [fst snd] in *.
  assert (Happ : taken ++ i :: g ++ [j] = (taken ++ i :: g) ++ [j])
    by (rewrite <- app_assoc; reflexivity).
  exists (rest ++ [sj]), (g ++ [j]). cbn [fst snd members intentLabels].
  split; [rewrite Hm; reflexivity|].
  split; [apply Forall_app; split; [exact Hnear | repeat constructor; exact En]|].
  split.
  { rewrite Hl, flat_map_app. cbn [flat_map]. rewrite app_nil_r. reflexivity. }
  split; [apply Forall2_app; [exact Hidx | repeat constructor; exact Esj]|].
  rewrite Happ. split; [|split].
  - apply NoDup_app. split; [exact Hnd|]. split; [|apply NoDup_singleton].
    intros x Hx Hj. apply list_elem_of_singleton in Hj. subst x.
    apply Ej, Hiff, list_elem_of_In, Hx.
  - intros x. rewrite elem_of_union, elem_of_singleton, in_app_iff, Hiff.
    cbn [In]. intuition.
  - intros x Hx. apply elem_of_union in Hx as [Hx|Hx].
    + apply elem_of_singleton in Hx. subst x.
      apply (lookup_lt_Some _ _ _ Esj).
    + apply Hlt, Hx.
Qed.

Lemma fold_absorb_absorbing (i : nat) (si : EventSequence) (taken : list nat)
    (js : list nat) :
  forall st,
    absorbing getTime sequences i si taken st ->
    absorbing getTime sequences i si taken
      (fold_left (absorb getTime sequences si) js st).
Proof.
  induction js as [|j js IH]; intros st Hst; [exact Hst|].
  cbn [fold_left]. apply IH, absorb_absorbing, Hst.
Qed.

Lemma grow_growing (i : nat) (st : list Cluster * gset nat) :
  i < length sequences ->
  growing getTime sequences i st ->
  growing getTime sequences (S i) (grow getTime sequences st i).
Proof.
  intros Hi (groups & Hidx & Hcl & Hnd & Hiff & Hlt & Hbelow).
  destruct st as [clusters assigned]. cbn [fst snd] in *. unfold grow.
  destruct (bool_decide (i ∈ assigned)) eqn:Ei.
  { apply bool_decide_eq_true in Ei. exists groups. cbn [fst snd].
    repeat (split; [assumption|]). intros j Hj.
    destruct (Nat.eq_dec j i) as [->|Hne]; [exact Ei | apply Hbelow; lia]. }
  apply bool_decide_eq_false in Ei.
  destruct (sequences !! i) as [si|] eqn:Esi;
    [|apply lookup_ge_None in Esi; lia].
  cbv zeta.
  pose proof (fold_absorb_absorbing i si (concat groups)
                (seq (S i) (length sequences - S i))
                ({| centroid := embedding si;
                    members := [si];
                    intentLabels := map intentLabel (events si) |},
                 {[ i ]} ∪ assigned)) as Hfold.
  destruct (fold_left (absorb getTime sequences si)
              (seq (S i) (length sequences - S i)) _) as [cluster assigned'].
  destruct Hfold as (rest & g & Hm & Hnear & Hl & Hg & Hnd' & Hiff' & Hlt').
  { exists [], []. cbn [fst snd members intentLabels flat_map].
    split; [reflexivity|]. split; [constructor|].
    split; [rewrite app_nil_r; reflexivity|]. split; [constructor|].
    split; [|split].
    - apply NoDup_app. split; [exact Hnd|]. split; [|apply NoDup_singleton].
      intros x Hx Hj. apply list_elem_of_singleton in Hj. subst x.
      apply Ei, Hiff, list_elem_of_In, Hx.
    - intros x. rewrite elem_of_union, elem_of_singleton, in_app_iff, Hiff.
      cbn [In]. intuition.
    - intros x Hx. apply elem_of_union in Hx as [Hx|Hx].
      + apply elem_of_singleton in Hx. subst x. exact Hi.
      + apply Hlt, Hx. }
  cbn [fst snd] in *. exists (groups ++ [i :: g]). cbn [fst snd].
  assert (Hc : concat (groups ++ [i :: g]) = concat groups ++ i :: g).
  { rewrite concat_app. cbn [concat]. rewrite app_nil_r. reflexivity. }
  rewrite Hc.
  split.
  { apply Forall2_app; [exact Hidx|]. constructor; [|constructor].
    cbn [members]. rewrite Hm. constructor; [exact Esi | exact Hg]. }
  split.
  { apply Forall_app. split; [exact Hcl|]. constructor; [|constructor].
    exists si, rest. cbn [members intentLabels centroid].
    split; [exact Hm|]. split; [exact Hnear|]. split; [exact Hl | reflexivity]. }
  split; [exact Hnd'|]. split; [exact Hiff'|]. split; [exact Hlt'|].
  intros j Hj. apply Hiff', in_app_iff.
  destruct (Nat.eq_dec j i) as [->|Hne]; [right; left; reflexivity|].
  left. apply Hiff, Hbelow. lia.
Qed.

Lemma fold_grow_growing (k : nat) :
  forall i st,
    i + k <= length sequences ->
    growing getTime sequences i st ->
    growing getTime sequences (i + k)
      (fold_left (grow getTime sequences) (seq i k) st).
Proof.
  induction k as [|k IH]; intros i st Hik Hst.
  - rewrite Nat.add_0_r. exact Hst.
  - cbn [seq fold_left]. replace (i + S k) with (S i + k) by lia.
    apply IH; [lia|]. apply grow_growing; [lia | exact Hst].
Qed.

Lemma indexed_concat (clusters : list Cluster) (groups : list (list nat)) :
  Forall2 (fun c g => indexed sequences (members c) g) clusters groups ->
  indexed sequences (flat_map members clusters) (concat groups).
Proof.
  induction 1 as [|c g clusters groups Hc _ IH]; [constructor|].
  cbn [flat_map concat]. apply Forall2_app; assumption.
Qed.

Lemma indexed_omap (ms : list EventSequence) (js : list nat) :
  indexed sequences ms js -> ms = omap (fun j => sequences !! j) js.
Proof.
  induction 1 as [|m j ms js Hm _ IH]; [reflexivity|].
  cbn [omap]. cbn. rewrite Hm. cbn. f_equal. exact IH.
Qed.

Lemma omap_all_indices (pre l : list EventSequence) :
  omap (fun j => (pre ++ l) !! j) (seq (length pre) (length l)) = l.
Proof.
  revert pre. induction l as [|x l IH]; intros pre; [reflexivity|].
  cbn [length seq]. cbn. rewrite list_lookup_middle by reflexivity. cbn.
  f_equal. specialize (IH (pre ++ [x])).
  rewrite <- app_assoc, length_app, Nat.add_1_r in IH. exact IH.
Qed.

Lemma clusterSequences_growing :
  growing getTime sequences (length sequences)
    (fold_left (grow getTime sequences) (seq 0 (length sequences)) ([], ∅)).
Proof.
  apply (fold_grow_growing (length sequences) 0); [lia|].
  exists []. cbn [fst snd concat]. split; [constructor|]. split; [constructor|].
  split; [constructor|]. split; [|split].
  - intros j. split; [intros Hj; apply elem_of_empty in Hj; contradiction | intros []].
  - intros j Hj. apply elem_of_empty in Hj. contradiction.
  - intros j Hj. lia.
Qed.

End ClusterFacts.

Lemma clusterSequences_partition (getTime : string -> float)
    (sequences : list Tic.EventSequence) :
  flat_map Tic.members (Tic.clusterSequences getTime sequences) ≡ₚ sequences /\
  Forall (cluster_of getTime) (Tic.clusterSequences getTime sequences).
Proof.
  unfold Tic.clusterSequences.
  destruct (clusterSequences_growing getTime sequences)
    as (groups & Hidx & Hcl & Hnd & Hiff & Hlt & Hbelow).
  split; [|exact Hcl].
  apply indexed_concat, indexed_omap in Hidx. rewrite Hidx.
  assert (Hperm : concat groups ≡ₚ seq 0 (length sequences)).
  { apply NoDup_Permutation; [exact Hnd | apply NoDup_seq|].
    intros j. rewrite elem_of_seq, list_elem_of_In, <- Hiff. split.
    - intros Hj. apply Hlt in Hj. lia.
    - intros Hj. apply Hbelow. lia. }
  rewrite Hperm. pose proof (omap_all_indices [] sequences) as Hall.
  cbn [app length] in Hall. rewrite Hall. reflexivity.
Qed.

(** X22: clusterSequences partitions its input: the members of the clusters
    it returns are, together, exactly the given sequences, each one in one
    cluster and once (a permutation of the input).  Every cluster is a seed
    followed by sequences that are near the seed (cosine similarity of the
    embeddings at least 0.75, timestamps at most 30 minutes apart); its
    labels are those of its members' events and its centroid the average
    of its members' embeddings. *)
Theorem clusters_partition_sequences (getTime : string -> float)
    (sequences : list Tic.EventSequence) :
  flat_map Tic.members (Tic.clusterSequences getTime sequences) ≡ₚ sequences /\
  Forall (cluster_of getTime) (Tic.clusterSequences getTime sequences).
Proof. exact (clusterSequences_partition getTime sequences). Qed.

Section DetectorFacts.

Variable getTime : string -> float.
Variable llm_complete : nat -> Tic.Cluster -> option string.
Variable json_parse : string -> option (list (string * Tic.value)).
Variable number_of_string : string -> float.
Variable randomUUID : nat -> string.
Variable now : nat -> string.
Variable LLM_PROVIDER : option string.

Abbreviation abstractCluster' :=
  (Tic.abstractCluster llm_complete json_parse number_of_string randomUUID now).
Abbreviation consider' :=
  (Tic.consider llm_complete json_parse number_of_string randomUUID now).
Abbreviation serve' :=
  (Tic.serve getTime llm_complete json_parse number_of_string randomUUID now
     LLM_PROVIDER).

Lemma existsb_eqb_In (x : string) (seen : list string) :
  existsb (String.eqb x) seen = true <-> In x seen.
Proof.
  rewrite existsb_exists. split.
  - intros (y & Hy & E). apply String.eqb_eq in E. subst y. exact Hy.
  - intros H. exists x. split; [exact H | apply String.eqb_refl].
Qed.

Lemma unique_from_spec (l : list string) :
  forall seen,
    NoDup (Tic.unique_from seen l) /\
    (forall x, In x (Tic.unique_from seen l) <-> In x l /\ ~ In x seen).
Proof.
  induction l as [|y l IH]; intros seen; cbn [Tic.unique_from].
  - split; [constructor|]. intros x. cbn. tauto.
  - destruct (existsb (String.eqb y) seen) eqn:E.
    + apply existsb_eqb_In in E. destruct (IH seen) as [Hnd Hin].
      split; [exact Hnd|]. intros x. rewrite Hin. cbn [In]. split.
      * intros [H1 H2]. auto.
      * intros [[->|H1] H2]; [contradiction | auto].
    + assert (Hy : ~ In y seen).
      { intros H. apply existsb_eqb_In in H. congruence. }
      destruct (IH (y :: seen)) as [Hnd Hin]. split.
      * apply NoDup_cons. split; [|exact Hnd].
        rewrite list_elem_of_In, Hin. cbn [In]. tauto.
      * intros x. cbn [In]. rewrite Hin. cbn [In].
        destruct (string_dec y x) as [->|Hne]; tauto.
Qed.

Lemma unique_spec (l : list string) :
  NoDup (Tic.unique l) /\ (forall x, In x (Tic.unique l) <-> In x l).
Proof.
  destruct (unique_from_spec l []) as [Hnd Hin]. split; [exact Hnd|].
  intros x. unfold Tic.unique. rewrite Hin. cbn. tauto.
Qed.

(** The lists [abstractCluster] puts in a pattern. *)
Lemma abstractCluster_lists (k : nat) (c : Tic.Cluster) (org : string)
    (p : Tic.DetectedPattern) :
  abstractCluster' k c org = Tic.Pattern p ->
  Tic.intentSequence p
  = Tic.unique (flat_map (fun m => map Tic.intentLabel (Tic.events m)) (Tic.members c)) /\
  Tic.structuralHashes p
  = Tic.unique (flat_map (fun m => map Tic.structuralHash (Tic.events m)) (Tic.members c)) /\
  Tic.orgId p = org.
Proof.
  unfold Tic.abstractCluster. intros H.
  destruct (llm_complete k c) as [content|]; [|discriminate].
  destruct (String.eqb content ""); [discriminate|].
  destruct (Executor.match_delimited "{" "}" content) as [m|]; [|discriminate].
  destruct (json_parse m) as [parsed|]; [|discriminate].
  injection H as <-. cbn [Tic.intentSequence Tic.structuralHashes Tic.orgId].
  repeat split.
Qed.

(** The members of a valid cluster are windows of the request's events. *)
Lemma validClusters_members (evs : list Tic.SecureEvent) (c : Tic.Cluster)
    (m : Tic.EventSequence) :
  In c (Tic.validClusters getTime evs) -> In m (Tic.members c) ->
  window_of evs Tic.WINDOW_SIZE m.
Proof.
  intros Hc Hm. unfold Tic.validClusters in Hc. apply filter_In in Hc as [Hc _].
  destruct (clusterSequences_partition getTime
              (Tic.extractSequences evs Tic.WINDOW_SIZE)) as [Hperm _].
  destruct (extractSequences_windows evs) as [Hw _].
  rewrite List.Forall_forall in Hw. apply Hw.
  apply list_elem_of_In. rewrite <- Hperm. apply list_elem_of_In.
  apply in_flat_map. exists c. split; assumption.
Qed.

Lemma abstractCluster_summarises (evs : list Tic.SecureEvent) (k : nat)
    (c : Tic.Cluster) (org : string) (p : Tic.DetectedPattern) :
  In c (Tic.validClusters getTime evs) ->
  abstractCluster' k c org = Tic.Pattern p ->
  summarises evs org p.
Proof.
  intros Hc Hp. apply abstractCluster_lists in Hp as (Hi & Hh & Ho).
  assert (Hev : forall m e, In m (Tic.members c) -> In e (Tic.events m) -> In e evs).
  { intros m e Hm He.
    destruct (validClusters_members evs c m Hc Hm) as (_ & (fp & Hall) & _).
    rewrite List.Forall_forall in Hall. apply (Hall e He). }
  unfold summarises. rewrite Hi, Hh.
  split; [apply unique_spec|]. split; [apply unique_spec|].
  split; [|split; [|exact Ho]].
  - intros x Hx. apply unique_spec, in_flat_map in Hx as (m & Hm & Hx).
    apply in_map_iff in Hx as (e & He & Hin). exists e. split; [|exact He].
    apply (Hev m e Hm Hin).
  - intros x Hx. apply unique_spec, in_flat_map in Hx as (m & Hm & Hx).
    apply in_map_iff in Hx as (e & He & Hin). exists e. split; [|exact He].
    apply (Hev m e Hm Hin).
Qed.

Lemma fold_consider_summarises (evs : list Tic.SecureEvent) (org : string)
    (kcs : list (nat * Tic.Cluster)) :
  Forall (fun kc => In (snd kc) (Tic.validClusters getTime evs)) kcs ->
  forall st,
    Forall (summarises evs org) (fst st) ->
    Forall (summarises evs org) (fst (fold_left (consider' org) kcs st)).
Proof.
  induction 1 as [|kc kcs Hkc _ IH]; intros st Hst; [exact Hst|].
  cbn [fold_left]. apply IH. destruct st as [patterns rows].
  unfold Tic.consider. cbn [fst] in *.
  destruct (abstractCluster' (fst kc) (snd kc) org) as [p| |] eqn:E; try exact Hst.
  destruct (Tic.REVIEW_THRESHOLD <=? Tic.confidence p)%float; [|exact Hst].
  cbn [fst]. apply Forall_app. split; [exact Hst|]. constructor; [|constructor].
  exact (abstractCluster_summarises evs _ _ _ _ Hkc E).
Qed.

Lemma length_upsert (r : Tic.pattern_row) (table : list Tic.pattern_row) :
  length table <= length (Tic.upsert r table) <= S (length table).
Proof.
  unfold Tic.upsert. destruct (Tic.confidence_check r); [|lia].
  induction table as [|x table IH]; cbn [Tic.put_row length]; [lia|].
  destruct (String.eqb (Tic.row_id x) (Tic.row_id r)); cbn [length]; lia.
Qed.

Lemma consider_little_changed (org : string)
    (st : list Tic.DetectedPattern * list Tic.pattern_row) (kc : nat * Tic.Cluster) :
  little_changed st (consider' org st kc) 1.
Proof.
  assert (Hsame : little_changed st st 1).
  { unfold little_changed. repeat split; try lia. intros x Hx. exists x. auto. }
  destruct st as [patterns rows]. unfold Tic.consider.
  destruct (abstractCluster' (fst kc) (snd kc) org) as [p| |]; try exact Hsame.
  destruct (Tic.REVIEW_THRESHOLD <=? Tic.confidence p)%float; [|exact Hsame].
  unfold little_changed. cbn [fst snd]. rewrite length_app. cbn [length].
  pose proof (length_upsert (Tic.row_of org p) rows) as Hl.
  split; [lia|]. split; [lia|]. split; [|lia].
  intros x Hx. apply upsert_keeps_ids. exists x. auto.
Qed.

Lemma fold_consider_little_changed (org : string) (kcs : list (nat * Tic.Cluster)) :
  forall st, little_changed st (fold_left (consider' org) kcs st) (length kcs).
Proof.
  induction kcs as [|kc kcs IH]; intros st.
  - unfold little_changed. cbn [fold_left length]. repeat split; try lia.
    intros x Hx. exists x. auto.
  - cbn [fold_left length].
    pose proof (consider_little_changed org st kc) as (Ha & Hb & Hc & Hd).
    pose proof (IH (consider' org st kc)) as (Ha' & Hb' & Hc' & Hd').
    unfold little_changed. split; [lia|]. split; [lia|]. split.
    + intros x Hx. destruct (Hc x Hx) as (y & Hy & Ey).
      destruct (Hc' y Hy) as (z & Hz & Ez). exists z. split; [exact Hz | congruence].
    + intros E. rewrite Hd' by lia. apply Hd. lia.
Qed.

(** A request either leaves everything as it is or runs the loop over the
    first five valid clusters. *)
Lemma serve_loop (org : string) (recentEvents : option (list Tic.SecureEvent))
    (table : list Tic.pattern_row) :
  (emitted (fst (serve' org recentEvents table)) = [] /\
   snd (serve' org recentEvents table) = table) \/
  (exists evs,
     recentEvents = Some evs /\
     (emitted (fst (serve' org recentEvents table)),
      snd (serve' org recentEvents table))
     = fold_left (consider' org)
         (combine (seq 0 (length (firstn 5 (Tic.validClusters getTime evs))))
            (firstn 5 (Tic.validClusters getTime evs)))
         ([], table)).
Proof.
  unfold Tic.serve.
  destruct (String.eqb org ""); [left; split; reflexivity|].
  destruct recentEvents as [evs|]; [|left; split; reflexivity].
  destruct (length evs <? Tic.MIN_CLUSTER_SIZE)%nat; [left; split; reflexivity|].
  destruct (length (Tic.validClusters getTime evs) =? 0)%nat;
    [left; split; reflexivity|].
  destruct (Executor.getDefaultProvider LLM_PROVIDER); [|left; split; reflexivity].
  right. exists evs. split; [reflexivity|]. cbv zeta.
  destruct (fold_left _ _ _) as [patterns table']. reflexivity.
Qed.

End DetectorFacts.

(** X23: what one request to the detector can change.  It emits at most 5
    patterns; the table of detected patterns never loses a row id and grows
    by at most one row per emitted pattern; and when no pattern is emitted
    (missing org, failed query, fewer than 3 events, no valid cluster, or
    no provider of the language model, or every cluster dropped because
    the language model threw, answered without JSON or scored below 0.70)
    the table is left exactly as it was. *)
Theorem request_changes_little
    (getTime : string -> float)
    (llm_complete : nat -> Tic.Cluster -> option string)
    (json_parse : string -> option (list (string * Tic.value)))
    (number_of_string : string -> float)
    (randomUUID : nat -> string) (now : nat -> string)
    (LLM_PROVIDER : option string)
    (org : string) (recentEvents : option (list Tic.SecureEvent))
    (table : list Tic.pattern_row) :
  let result :=
    Tic.serve getTime llm_complete json_parse number_of_string randomUUID now
      LLM_PROVIDER org recentEvents table in
  length (emitted (fst result)) <= 5 /\
  length table <= length (snd result)
    <= length table + length (emitted (fst result)) /\
  (forall x, In x table ->
     exists y, In y (snd result) /\ Tic.row_id y = Tic.row_id x) /\
  (emitted (fst result) = [] -> snd result = table).
Proof.
  cbv zeta.
  destruct (serve_loop getTime llm_complete json_parse number_of_string randomUUID
              now LLM_PROVIDER org recentEvents table) as [[He Ht]|(evs & _ & Hloop)].
  - rewrite He, Ht. cbn [length]. repeat split; try lia.
    intros x Hx. exists x. auto.
  - pose proof (fold_consider_little_changed llm_complete json_parse
                  number_of_string randomUUID now org
                  (combine (seq 0 (length (firstn 5 (Tic.validClusters getTime evs))))
                     (firstn 5 (Tic.validClusters getTime evs)))
                  ([], table)) as (Ha & Hb & Hc & Hd).
    rewrite <- Hloop in Ha, Hb, Hc, Hd. cbn [fst snd length] in *.
    rewrite length_combine, length_seq, Nat.min_id, length_firstn in Ha.
    split; [lia|]. split; [lia|]. split; [exact Hc|].
    intros E. apply Hd. rewrite E. reflexivity.
Qed.

(** X24: every pattern a request emits summarises events of that request:
    its intentSequence and its structuralHashes list each value once, every
    listed intent label is the label of one of the request's events and
    every listed hash the structural hash of one of them, and its orgId is
    the org of the request. *)
Theorem patterns_summarise_request_events
    (getTime : string -> float)
    (llm_complete : nat -> Tic.Cluster -> option string)
    (json_parse : string -> option (list (string * Tic.value)))
    (number_of_string : string -> float)
    (randomUUID : nat -> string) (now : nat -> string)
    (LLM_PROVIDER : option string)
    (org : string) (recentEvents : option (list Tic.SecureEvent))
    (table : list Tic.pattern_row) :
  Forall (summarises (default [] recentEvents) org)
    (emitted
       (fst (Tic.serve getTime llm_complete json_parse number_of_string randomUUID
               now LLM_PROVIDER org recentEvents table))).
Proof.
  destruct (serve_loop getTime llm_complete json_parse number_of_string randomUUID
              now LLM_PROVIDER org recentEvents table) as [[He _]|(evs & -> & Hloop)].
  - rewrite He. constructor.
  - cbn [default from_option Datatypes.id].
    pose proof (fold_consider_summarises getTime llm_complete json_parse
                  number_of_string randomUUID now evs org
                  (combine (seq 0 (length (firstn 5 (Tic.validClusters getTime evs))))
                     (firstn 5 (Tic.validClusters getTime evs)))) as H.
    assert (Hvalid : Forall (fun kc => In (snd kc) (Tic.validClusters getTime evs))
              (combine (seq 0 (length (firstn 5 (Tic.validClusters getTime evs))))
                 (firstn 5 (Tic.validClusters getTime evs)))).
    { pose proof (chosen_clusters_valid getTime evs) as Hv. cbv zeta in Hv.
      rewrite List.Forall_forall in Hv. apply List.Forall_forall.
      intros kc Hkc. apply (Hv kc Hkc). }
    specialize (H Hvalid ([], table) (List.Forall_nil _)).
    rewrite <- Hloop in H. exact H.
Qed.

(** ** Event transmitter *)

Section TransmitterFacts.
Import Transmitter.

Variable fetch : nat -> SecureEventBatch -> response.
Variable parseInt : string -> option Z.
Variable storage_available : bool.
Variable randomUUID : nat -> string.
Variable now : nat -> string.

Abbreviation sendBatch' := (sendBatch fetch parseInt storage_available).
Abbreviation send_each' := (send_each fetch parseInt storage_available).
Abbreviation fail' := (fail storage_available).
Abbreviation gave_up_or_sent' := (gave_up_or_sent fetch storage_available).

Lemma delivered_post (s : state) (b : SecureEventBatch) (r : response) :
  delivered (set_posted (posted s ++ [(b, r)]) s)
  = delivered s ++ (if accepted r then [b] else []).
Proof.
  unfold delivered. cbn [posted set_posted].
  rewrite List.filter_app, map_app. cbn [List.filter snd].
  destruct (accepted r); reflexivity.
Qed.

Lemma fail_outcome (b : SecureEventBatch) (s : state) :
  same_queue s (fail' b s) /\
  failedBatches (fail' b s) = failedBatches s ++ [b] /\
  posted (fail' b s) = posted s /\ waited (fail' b s) = waited s /\
  totalFailed (counts (fail' b s)) = totalFailed (counts s) + length (events b) /\
  totalSent (counts (fail' b s)) = totalSent (counts s) /\
  totalBatches (counts (fail' b s)) = totalBatches (counts s) /\
  (storage_available = true ->
   exists kept, stored (fail' b s) = Some kept /\ length kept <= 10 /\
                suffix kept (failedBatches s ++ [b])).
Proof.
  unfold fail, persistFailedBatches, same_queue.
  destruct storage_available; cbn; repeat split; try discriminate.
  intros _. eexists. split; [reflexivity|]. split.
  - rewrite length_skipn. lia.
  - apply suffix_drop.
Qed.

(** A call either queues the batch as failed or gets it accepted, and
    leaves the rest of the queue alone. *)
Lemma sendBatch_outcome (b : SecureEventBatch) (fuel : nat) :
  forall (rc : nat) (s s' : state),
    sendBatch' fuel b rc s = Some s' ->
    same_queue s s' /\
    ((failedBatches s' = failedBatches s ++ [b] /\ delivered s' = delivered s) \/
     (failedBatches s' = failedBatches s /\ delivered s' = delivered s ++ [b])).
Proof.
  induction fuel as [|fuel IH]; intros rc s s' H; [discriminate|].
  cbn [sendBatch] in H. cbv zeta in H.
  repeat change (config (set_posted ?l ?x)) with (config x) in H.
  destruct (String.eqb (endpoint (config s)) "").
  { injection H as <-. split; [repeat split|]. left. split; reflexivity. }
  pose proof (delivered_post s b (fetch (length (posted s)) b)) as Hd.
  assert (Hrec : forall d rc',
    accepted (fetch (length (posted s)) b) = false ->
    sendBatch' fuel b rc'
      (delay d (set_posted (posted s ++ [(b, fetch (length (posted s)) b)]) s))
    = Some s' ->
    same_queue s s' /\
    ((failedBatches s' = failedBatches s ++ [b] /\ delivered s' = delivered s) \/
     (failedBatches s' = failedBatches s /\ delivered s' = delivered s ++ [b]))).
  { intros d rc' Ha Hs. apply IH in Hs as [Hq Ho]. rewrite Ha, app_nil_r in Hd.
    split; [exact Hq|]. change (delivered (delay d ?x)) with (delivered x) in Ho.
    rewrite Hd in Ho. exact Ho. }
  assert (Hfail :
    accepted (fetch (length (posted s)) b) = false ->
    Some (fail' b (set_posted (posted s ++ [(b, fetch (length (posted s)) b)]) s))
    = Some s' ->
    same_queue s s' /\
    ((failedBatches s' = failedBatches s ++ [b] /\ delivered s' = delivered s) \/
     (failedBatches s' = failedBatches s /\ delivered s' = delivered s ++ [b]))).
  { intros Ha Hs. injection Hs as <-. rewrite Ha, app_nil_r in Hd.
    destruct (fail_outcome b
                (set_posted (posted s ++ [(b, fetch (length (posted s)) b)]) s))
      as (Hq & Hf & Hp & _).
    split; [exact Hq|]. left. split; [exact Hf|].
    unfold delivered in *. rewrite Hp. exact Hd. }
  destruct (fetch (length (posted s)) b) as [status h|] eqn:Er.
  - destruct ((status =? 202) || (status =? 200))%Z eqn:Eok.
    + injection H as <-. split; [repeat split|]. right. split; [reflexivity|].
      cbn [accepted] in Hd. rewrite Eok in Hd. exact Hd.
    + destruct (status =? 429)%Z; [exact (Hrec _ _ Eok H)|].
      destruct ((500 <=? status)%Z && (rc <? maxRetries (config s))%nat);
        [exact (Hrec _ _ Eok H) | exact (Hfail Eok H)].
  - destruct (rc <? maxRetries (config s))%nat;
      [exact (Hrec _ _ eq_refl H) | exact (Hfail eq_refl H)].
Qed.

Lemma gave_up_or_sent_later (b : SecureEventBatch) (rc n : nat) (s s' : state)
    (k : nat) (d : wait) :
  d = Backoff (backoff (config s) rc) ->
  retriable (fetch (length (posted s)) b) = true ->
  accepted (fetch (length (posted s)) b) = false ->
  gave_up_or_sent' b (S rc) n
    (delay d (set_posted (posted s ++ [(b, fetch (length (posted s)) b)]) s)) s' k ->
  gave_up_or_sent' b rc (S n) s s' (S k).
Proof.
  intros -> Hr Ha (Hk & Hq & Hp & Hw & Hi & Hend).
  cbn [posted waited delay set_posted set_waited config failedBatches counts] in *.
  rewrite length_app in *. cbn [length] in *.
  assert (Hidx : forall i, length (posted s) + 1 + i = length (posted s) + S i)
    by (intros; lia).
  split; [lia|]. split; [exact Hq|]. split; [|split; [|split]].
  - rewrite Hp, <- app_assoc. f_equal. cbn [app].
    change (seq 0 (S (S k))) with (0 :: seq 1 (S k)). cbn [map].
    rewrite Nat.add_0_r. f_equal. rewrite <- seq_shift, map_map.
    apply map_ext. intros i. rewrite Hidx. reflexivity.
  - rewrite Hw, <- app_assoc. reflexivity.
  - intros [|i] Hlt.
    + rewrite Nat.add_0_r. split; assumption.
    + rewrite <- Hidx. apply Hi. lia.
  - rewrite <- Hidx.
    destruct (accepted (fetch (length (posted s) + 1 + k) b)); [exact Hend|].
    destruct Hend as (H1 & H2 & H3 & H4 & H5).
    repeat (split; [assumption|]). split; [|exact H5].
    destruct H4 as [->|H4]; [left; reflexivity | right; exact H4].
Qed.

Lemma sendBatch_retries (b : SecureEventBatch) :
  (forall k, slow_down (fetch k b) = false) ->
  forall (n rc : nat) (s : state),
    endpoint (config s) <> "" ->
    rc + n = maxRetries (config s) ->
    exists s' k, sendBatch' (S n) b rc s = Some s' /\ gave_up_or_sent' b rc n s s' k.
Proof.
  intros Hslow. induction n as [|n IH]; intros rc s Hend Hn.
  all: cbn [sendBatch]; cbv zeta;
    repeat change (config (set_posted ?l ?x)) with (config x);
    apply String.eqb_neq in Hend as He; rewrite He;
    pose proof (Hslow (length (posted s))) as Hs;
    pose proof (delivered_post s b (fetch (length (posted s)) b)) as Hd.
  all: assert (Hsent : forall s',
      accepted (fetch (length (posted s)) b) = true ->
      s' = set_eventsSentThisMinute
             (eventsSentThisMinute s + length (events b))
             (set_counts
                {| totalSent := totalSent (counts s) + length (events b);
                   totalFailed := totalFailed (counts s);
                   totalDropped := totalDropped (counts s);
                   totalBatches := S (totalBatches (counts s)) |}
                (set_posted (posted s ++ [(b, fetch (length (posted s)) b)]) s)) ->
      forall m, gave_up_or_sent' b rc m s s' 0).
  1, 3: intros s' Ha -> m; unfold gave_up_or_sent; rewrite Nat.add_0_r, Ha;
    cbn; rewrite Nat.add_0_r, app_nil_r;
    repeat split; try lia; intros i Hi; lia.
  all: assert (Hfailed : forall m,
      accepted (fetch (length (posted s)) b) = false ->
      (0 = m \/ retriable (fetch (length (posted s)) b) = false) ->
      gave_up_or_sent' b rc m s
        (fail' b (set_posted (posted s ++ [(b, fetch (length (posted s)) b)]) s)) 0).
  1, 3: intros m Ha Hwhy; unfold gave_up_or_sent; rewrite Nat.add_0_r, Ha;
    destruct (fail_outcome b
                (set_posted (posted s ++ [(b, fetch (length (posted s)) b)]) s))
      as (Hq & Hf & Hp & Hw & Hc1 & Hc2 & Hc3 & Hst);
    rewrite Hp, Hw, Hf, Hc1, Hc2; cbn; rewrite Nat.add_0_r, app_nil_r;
    (split; [lia|]); (split; [exact Hq|]); (split; [reflexivity|]);
    (split; [reflexivity|]); (split; [intros i Hi; lia|]);
    (split; [reflexivity|]); (split; [reflexivity|]); (split; [reflexivity|]);
    (split; [exact Hwhy|]);
    intros Hsa; destruct (Hst Hsa) as (kept & Hk1 & Hk2 & Hk3);
    exists kept; cbn in Hk3; auto.
  - (* no retry left *)
    assert (Hrc : (rc <? maxRetries (config s))%nat = false)
      by (apply Nat.ltb_ge; lia).
    rewrite Hrc.
    destruct (fetch (length (posted s)) b) as [status h|] eqn:Er.
    + cbn [slow_down] in Hs. rewrite Hs, andb_false_r.
      destruct ((status =? 202) || (status =? 200))%Z eqn:Eok.
      * eexists _, 0. split; [reflexivity|]. apply Hsent; [exact Eok | reflexivity].
      * eexists _, 0. split; [reflexivity|]. apply Hfailed; [exact Eok | left; reflexivity].
    + eexists _, 0. split; [reflexivity|].
      apply Hfailed; [reflexivity | left; reflexivity].
  - (* a retry is left *)
    assert (Hrc : (rc <? maxRetries (config s))%nat = true)
      by (apply Nat.ltb_lt; lia).
    rewrite Hrc.
    assert (Hagain : retriable (fetch (length (posted s)) b) = true ->
                     accepted (fetch (length (posted s)) b) = false ->
      exists s' k,
        sendBatch' (S n) b (S rc)
          (delay (Backoff (backoff (config s) rc))
             (set_posted (posted s ++ [(b, fetch (length (posted s)) b)]) s))
        = Some s' /\ gave_up_or_sent' b rc (S n) s s' k).
    { intros Hr Ha.
      destruct (IH (S rc)
                  (delay (Backoff (backoff (config s) rc))
                     (set_posted (posted s ++ [(b, fetch (length (posted s)) b)]) s)))
        as (s' & k & Hrun & Hres); [exact Hend | cbn; lia |].
      exists s', (S k). split; [exact Hrun|].
      exact (gave_up_or_sent_later b rc n s s' k _ eq_refl Hr Ha Hres). }
    destruct (fetch (length (posted s)) b) as [status h|] eqn:Er.
    + cbn [slow_down] in Hs. rewrite Hs, andb_true_r.
      destruct ((status =? 202) || (status =? 200))%Z eqn:Eok.
      * eexists _, 0. split; [reflexivity|]. apply Hsent; [exact Eok | reflexivity].
      * destruct (500 <=? status)%Z eqn:E5.
        -- apply Hagain; [exact E5 | exact Eok].
        -- eexists _, 0. split; [reflexivity|].
           apply Hfailed; [exact Eok | right; exact E5].
    + apply Hagain; reflexivity.
Qed.

Lemma sendBatch_returns (b : SecureEventBatch) (s : state) :
  (forall k, slow_down (fetch k b) = false) ->
  exists s', sendBatch' (S (maxRetries (config s))) b 0 s = Some s'.
Proof.
  intros Hslow. destruct (String.eqb (endpoint (config s)) "") eqn:E.
  - cbn [sendBatch]. rewrite E. eexists. reflexivity.
  - apply String.eqb_neq in E.
    destruct (sendBatch_retries b Hslow (maxRetries (config s)) 0 s E eq_refl)
      as (s' & k & Hrun & _).
    exists s'. exact Hrun.
Qed.

(** The events of the failed batches and of the accepted ones. *)
Lemma sendBatch_accounts (b : SecureEventBatch) (fuel rc : nat) (s s' : state) :
  sendBatch' fuel b rc s = Some s' ->
  same_queue s s' /\
  flat_map events (failedBatches s') ++ flat_map events (delivered s')
  ≡ₚ events b ++ flat_map events (failedBatches s) ++ flat_map events (delivered s).
Proof.
  intros H. apply sendBatch_outcome in H as [Hq [[Hf Hd]|[Hf Hd]]].
  all: split; [exact Hq|]; rewrite Hf, Hd, flat_map_app; cbn [flat_map];
    rewrite app_nil_r.
  - rewrite (Permutation_app_comm (flat_map events (failedBatches s)) (events b)).
    rewrite <- app_assoc. reflexivity.
  - rewrite (Permutation_app_comm (events b)
               (flat_map events (failedBatches s) ++ flat_map events (delivered s))).
    rewrite <- app_assoc. reflexivity.
Qed.

Lemma send_each_accounts (batches : list SecureEventBatch) :
  (forall k b, slow_down (fetch k b) = false) ->
  forall s,
    exists s',
      send_each' (S (maxRetries (config s))) batches s = Some s' /\
      same_queue s s' /\
      flat_map events (failedBatches s') ++ flat_map events (delivered s')
      ≡ₚ flat_map events batches
         ++ flat_map events (failedBatches s) ++ flat_map events (delivered s).
Proof.
  intros Hslow. induction batches as [|b batches IH]; intros s.
  - exists s. split; [reflexivity|]. split; [repeat split | reflexivity].
  - cbn [send_each flat_map].
    destruct (sendBatch_returns b s (fun k => Hslow k b)) as (s1 & Hrun).
    rewrite Hrun. apply sendBatch_accounts in Hrun as [Hq1 Hp1].
    destruct (IH s1) as (s2 & Hrest & Hq2 & Hp2).
    destruct Hq1 as (Hc & Hq1). rewrite Hc in Hrest.
    exists s2. split; [exact Hrest|]. split.
    + destruct Hq1 as (? & ? & ? & ? & ?), Hq2 as (? & ? & ? & ? & ? & ?).
      repeat split; congruence.
    + rewrite Hp2, Hp1. rewrite <- !app_assoc.
      rewrite !app_assoc. do 2 apply Permutation_app_tail.
      apply Permutation_app_comm.
Qed.

Lemma sendBatch_busy (b : SecureEventBatch) :
  (forall k, slow_down (fetch k b) = true) ->
  forall (fuel rc : nat) (s : state),
    endpoint (config s) <> "" -> sendBatch' fuel b rc s = None.
Proof.
  intros Hbusy. induction fuel as [|fuel IH]; intros rc s Hend; [reflexivity|].
  cbn [sendBatch]. cbv zeta. apply String.eqb_neq in Hend as He. rewrite He.
  pose proof (Hbusy (length (posted s))) as Hs.
  destruct (fetch (length (posted s)) b) as [status h|]; [|discriminate].
  cbn [slow_down] in Hs. rewrite Hs. apply Z.eqb_eq in Hs. subst status.
  cbn [Z.eqb orb Pos.eqb]. apply IH. exact Hend.
Qed.

End TransmitterFacts.

(** X25: sendBatch gives up after maxRetries retries.  With an endpoint
    configured and a server that never answers 429, the call returns after
    at most maxRetries + 1 requests, all posting the same batch; it waits
    retryBaseMs * 2^i before the i-th retry; every request but the last got
    a server error (status 500 or more) or was rejected.  If the last
    request was accepted (200 or 202) the batch is counted as sent and the
    failed batches are as before; otherwise the batch is appended to the
    failed batches and counted as failed, which happens when the retries
    are used up or at once on any other status, and at most the last 10
    failed batches are persisted. *)
Theorem sendBatch_gives_up_after_max_retries
    (fetch : nat -> Transmitter.SecureEventBatch -> Transmitter.response)
    (parseInt : string -> option Z) (storage_available : bool)
    (batch : Transmitter.SecureEventBatch) (s : Transmitter.state) :
  Transmitter.endpoint (Transmitter.config s) <> "" ->
  (forall k, slow_down (fetch k batch) = false) ->
  exists s' k,
    Transmitter.sendBatch fetch parseInt storage_available
      (S (Transmitter.maxRetries (Transmitter.config s))) batch 0 s = Some s' /\
    gave_up_or_sent fetch storage_available batch 0
      (Transmitter.maxRetries (Transmitter.config s)) s s' k.
Proof.
  intros Hend Hslow.
  exact (sendBatch_retries fetch parseInt storage_available batch Hslow
           (Transmitter.maxRetries (Transmitter.config s)) 0 s Hend eq_refl).
Qed.

Lemma sendBatch_gives_up_after_max_retries_witness :
  exists s' k,
    Transmitter.sendBatch server_down decimal_stub true 4 sample_batch 0
      sample_transmitter = Some s' /\
    gave_up_or_sent server_down true sample_batch 0 3 sample_transmitter s' k.
Proof.
  apply (sendBatch_gives_up_after_max_retries server_down decimal_stub true
           sample_batch sample_transmitter).
  - discriminate.
  - intros k. reflexivity.
Defined.

(** X26: a 429 is retried without a bound.  While the server answers
    every request with 429, sendBatch never returns, whatever the retry
    count (which a 429 does not increase), and so a flush that has taken
    events from the buffer never ends. *)
Theorem flush_never_ends_while_server_busy
    (fetch : nat -> Transmitter.SecureEventBatch -> Transmitter.response)
    (parseInt : string -> option Z) (storage_available : bool)
    (randomUUID now : nat -> string) (s : Transmitter.state) :
  (forall k b, slow_down (fetch k b) = true) ->
  Transmitter.endpoint (Transmitter.config s) <> "" ->
  Transmitter.isFlushing s = false ->
  Transmitter.buffer s <> [] ->
  forall fuel,
    Transmitter.flush fetch parseInt storage_available randomUUID now fuel s = None /\
    forall batch retryCount,
      Transmitter.sendBatch fetch parseInt storage_available fuel batch retryCount s
      = None.
Proof.
  intros Hbusy Hend Hf Hb fuel. split.
  - unfold Transmitter.flush, Transmitter.flush_take. rewrite Hf.
    destruct (Transmitter.buffer s) as [|e rest] eqn:Eb; [contradiction|].
    cbn [length Nat.eqb orb]. unfold Transmitter.flush_send.
    rewrite (sendBatch_busy fetch parseInt storage_available _ (fun k => Hbusy k _));
      [reflexivity | exact Hend].
  - intros batch rc.
    apply (sendBatch_busy fetch parseInt storage_available _ (fun k => Hbusy k _)).
    exact Hend.
Qed.

Lemma flush_never_ends_while_server_busy_witness :
  Transmitter.flush server_busy decimal_stub true uuid_stub clock_stub 1000
    sample_transmitter = None.
Proof.
  refine (proj1 (flush_never_ends_while_server_busy server_busy decimal_stub true
                   uuid_stub clock_stub sample_transmitter _ _ _ _ 1000)).
  - intros k b. reflexivity.
  - discriminate.
  - reflexivity.
  - discriminate.
Defined.

(** X27: a flush loses no event and gets none accepted twice.  When the server
    never answers 429 the flush ends, and the events the transmitter
    answers for afterwards (its buffer, its failed batches and the batches
    the server accepted) are a permutation of those before; the flag
    isFlushing is as it was, and a flush that ran took the first
    maxBatchSize events from the buffer. *)
Theorem flush_accounts_for_every_event
    (fetch : nat -> Transmitter.SecureEventBatch -> Transmitter.response)
    (parseInt : string -> option Z) (storage_available : bool)
    (randomUUID now : nat -> string) (s : Transmitter.state) :
  (forall k b, slow_down (fetch k b) = false) ->
  exists s',
    Transmitter.flush fetch parseInt storage_available randomUUID now
      (S (Transmitter.maxRetries (Transmitter.config s))) s = Some s' /\
    held s' ≡ₚ held s /\
    Transmitter.isFlushing s' = Transmitter.isFlushing s /\
    Transmitter.buffer s'
    = (if Transmitter.isFlushing s then Transmitter.buffer s
       else skipn (Transmitter.maxBatchSize (Transmitter.config s))
              (Transmitter.buffer s)).
Proof.
  intros Hslow. unfold Transmitter.flush, Transmitter.flush_take.
  destruct (Transmitter.isFlushing s) eqn:Hf.
  { exists s. cbn [orb]. repeat split; auto. }
  cbn [orb]. destruct (length (Transmitter.buffer s) =? 0)%nat eqn:Hb.
  { exists s. repeat split; auto. apply Nat.eqb_eq in Hb.
    destruct (Transmitter.buffer s); [|discriminate].
    rewrite skipn_nil. reflexivity. }
  cbv zeta. unfold Transmitter.flush_send.
  match goal with
  | |- context [Transmitter.sendBatch _ _ _ _ ?b 0 ?t] =>
    set (batch := b); set (s1 := t)
  end.
  destruct (sendBatch_returns fetch parseInt storage_available batch s1
              (fun k => Hslow k batch)) as (s2 & Hrun).
  change (Transmitter.maxRetries (Transmitter.config s1))
    with (Transmitter.maxRetries (Transmitter.config s)) in Hrun.
  rewrite Hrun.
  apply sendBatch_accounts in Hrun as [(Hc2 & Hb2 & Hq2) Hp2].
  unfold Transmitter.retryFailedBatches.
  destruct (send_each_accounts fetch parseInt storage_available
              (Transmitter.failedBatches s2) Hslow
              (Transmitter.set_failedBatches [] s2)) as (s3 & Hrest & Hq3 & Hp3).
  change (Transmitter.config (Transmitter.set_failedBatches [] s2))
    with (Transmitter.config s2) in Hrest.
  rewrite Hc2 in Hrest.
  change (Transmitter.config s1) with (Transmitter.config s) in Hrest.
  rewrite Hrest. eexists. split; [reflexivity|].
  destruct Hq3 as (Hc3 & Hb3 & _).
  change (Transmitter.buffer (Transmitter.set_failedBatches [] s2))
    with (Transmitter.buffer s2) in Hb3.
  split; [|split; [reflexivity|]].
  - unfold held.
    change (Transmitter.buffer (Transmitter.set_isFlushing false s3))
      with (Transmitter.buffer s3).
    change (Transmitter.failedBatches (Transmitter.set_isFlushing false s3))
      with (Transmitter.failedBatches s3).
    change (delivered (Transmitter.set_isFlushing false s3)) with (delivered s3).
    rewrite Hp3.
    change (Transmitter.failedBatches (Transmitter.set_failedBatches [] s2))
      with (@nil Transmitter.SecureEventBatch).
    change (delivered (Transmitter.set_failedBatches [] s2)) with (delivered s2).
    cbn [flat_map app]. rewrite Hp2, Hb3, Hb2.
    change (Transmitter.failedBatches s1) with (Transmitter.failedBatches s).
    change (delivered s1) with (delivered s).
    change (Transmitter.buffer s1)
      with (skipn (Transmitter.maxBatchSize (Transmitter.config s))
              (Transmitter.buffer s)).
    change (Transmitter.events batch)
      with (firstn (Transmitter.maxBatchSize (Transmitter.config s))
              (Transmitter.buffer s)).
    rewrite <- (firstn_skipn (Transmitter.maxBatchSize (Transmitter.config s))
                  (Transmitter.buffer s)) at 3.
    rewrite !app_assoc. do 2 apply Permutation_app_tail.
    apply Permutation_app_comm.
  - change (Transmitter.buffer (Transmitter.set_isFlushing false s3))
      with (Transmitter.buffer s3).
    rewrite Hb3, Hb2. reflexivity.
Qed.

Lemma flush_accounts_for_every_event_witness :
  exists s',
    Transmitter.flush server_down decimal_stub true uuid_stub clock_stub 4
      sample_transmitter = Some s' /\
    held s' ≡ₚ held sample_transmitter /\
    Transmitter.isFlushing s' = false /\
    Transmitter.buffer s' = [].
Proof.
  apply (flush_accounts_for_every_event server_down decimal_stub true
           uuid_stub clock_stub sample_transmitter).
  intros k b. reflexivity.
Defined.

(** X28: enqueue starts a flush when the buffer reaches the batch size.
    For a transmitter below its rate limit whose buffer is below
    maxBatchSize: the event is appended; a flush is started exactly when no
    flush is running and the buffer has reached maxBatchSize, and it takes
    the whole buffer, the new event last, as one batch of maxBatchSize
    events; otherwise the buffer stays below maxBatchSize unless a flush
    is running. *)
Theorem enqueue_flushes_at_batch_size
    (randomUUID now : nat -> string)
    (event : Pipeline.SecureEvent) (s : Transmitter.state) :
  length (Transmitter.buffer s) < Transmitter.maxBatchSize (Transmitter.config s) ->
  Transmitter.eventsSentThisMinute s < 1000 ->
  match Transmitter.enqueue randomUUID now event s with
  | (s', Some batch) =>
    Transmitter.isFlushing s = false /\
    Transmitter.events batch = Transmitter.buffer s ++ [event] /\
    length (Transmitter.events batch)
    = Transmitter.maxBatchSize (Transmitter.config s) /\
    Transmitter.buffer s' = [] /\
    Transmitter.isFlushing s' = true
  | (s', None) =>
    Transmitter.buffer s' = Transmitter.buffer s ++ [event] /\
    Transmitter.isFlushing s' = Transmitter.isFlushing s /\
    (Transmitter.isFlushing s = false ->
     length (Transmitter.buffer s') < Transmitter.maxBatchSize (Transmitter.config s))
  end.
Proof.
  intros Hlen Hrate. unfold Transmitter.enqueue.
  destruct (Nat.leb_spec 1000 (Transmitter.eventsSentThisMinute s)); [lia|].
  cbv zeta. cbn [Transmitter.config Transmitter.buffer Transmitter.set_buffer].
  destruct (Nat.leb_spec (Transmitter.maxBatchSize (Transmitter.config s))
              (length (Transmitter.buffer s ++ [event]))) as [Hfull|Hroom].
  - rewrite length_app in Hfull. cbn [length] in Hfull.
    unfold Transmitter.flush_take.
    cbn [Transmitter.isFlushing Transmitter.buffer Transmitter.config
         Transmitter.set_buffer Transmitter.set_isFlushing Transmitter.set_flushes].
    destruct (Transmitter.isFlushing s) eqn:Hf; cbn [orb].
    + split; [reflexivity|]. split; [exact Hf | discriminate].
    + rewrite length_app. cbn [length].
      replace (length (Transmitter.buffer s) + 1 =? 0)%nat with false
        by (symmetry; apply Nat.eqb_neq; lia).
      cbn [Transmitter.events].
      assert (Hall : Transmitter.maxBatchSize (Transmitter.config s)
                     = length (Transmitter.buffer s ++ [event]))
        by (rewrite length_app; cbn [length]; lia).
      rewrite Hall, firstn_all, skipn_all. repeat split; reflexivity.
  - cbn [Transmitter.buffer Transmitter.isFlushing].
    split; [reflexivity|]. split; [reflexivity|]. intros _. exact Hroom.
Qed.

Lemma enqueue_flushes_at_batch_size_witness :
  match Transmitter.enqueue uuid_stub clock_stub (sample_secure_event 5)
          sample_transmitter with
  | (s', Some batch) =>
    Transmitter.isFlushing sample_transmitter = false /\
    Transmitter.events batch
    = Transmitter.buffer sample_transmitter ++ [sample_secure_event 5] /\
    length (Transmitter.events batch)
    = Transmitter.maxBatchSize (Transmitter.config sample_transmitter) /\
    Transmitter.buffer s' = [] /\
    Transmitter.isFlushing s' = true
  | (s', None) =>
    Transmitter.buffer s'
    = Transmitter.buffer sample_transmitter ++ [sample_secure_event 5] /\
    Transmitter.isFlushing s' = Transmitter.isFlushing sample_transmitter /\
    (Transmitter.isFlushing sample_transmitter = false ->
     length (Transmitter.buffer s')
     < Transmitter.maxBatchSize (Transmitter.config sample_transmitter))
  end.
Proof.
  apply (enqueue_flushes_at_batch_size uuid_stub clock_stub (sample_secure_event 5)
           sample_transmitter).
  - cbn. lia.
  - cbn. lia.
Defined.
